(* ===== verification/_CoqProject ===== *)
-Q . S2P
Prelude.v
Foundation.v
Interfaces.v
Padding.v
Kdf.v
Keys.v
AeadRecord.v
Erasure.v
StreamCycle.v
Kem.v
BraidAuth.v
Braid.v
BraidTypes.v
BraidAgreement.v
BraidProgress.v
BraidLiveness.v
Spqr.v
SpqrBraid.v
SpqrKeys.v
SpqrRetention.v
SpqrGrowth.v
SpqrAgreement.v
BraidDeadlock.v
PqFlow.v
Pqxdh.v
Skipped.v
Ratchet.v
Session.v
BraidWedge.v
Replay.v
Ledger.v
Loops.v
Stores.v
MemStore.v
EcChain.v
EcRatchet.v
EcJoint.v
FirstFlight.v
Conversation.v
Endpoint.v
Delivery.v
SenderKey.v
GroupChannel.v
Sesame.v
SealedSender.v
Recovery.v
Envelope.v
Provisioning.v
OrgMetadata.v
Toy.v
ToyCodec.v
Witnesses.v
SessionWitnesses.v
GroupWitnesses.v
AppWitnesses.v
ConversationWitnesses.v
DeliveryWitnesses.v
WedgeWitnesses.v
