(* ===== verification/Prelude.v ===== *)
(** * hushwire-crypto: verification development

    The crate implements a Signal-style messaging protocol with a post-quantum ratchet:
    PQXDH key agreement, a Double Ratchet whose message keys are combined with those of a
    Sparse Post-Quantum Ratchet (SPQR) fed by the ML-KEM braid, sender keys for groups,
    Sesame for many devices, sealed sender, and the application layer built on them
    (recovery, provisioning, envelopes, organisation metadata).  This library models the
    crate as executable definitions and proves the theorems that make it correct.  File
    and function names below are under [src/src/].

    ** Conventions

    - A function returning [Result<T>] is a function to [result T]; a method on
      [&mut self] is a value of the state-and-error monad [M], which returns the receiver
      in the error case too, because an early return keeps the writes made before it.
    - Unsigned integers are [Z] values with their width; plain [+] and [-] wrap, as in
      the release profile, and theorems that need it say the counters stay in range.
    - Randomness is an argument of the operation that draws it.
    - Code of other crates is a type class of operations with a class of the documented
      behaviour relied on: hash functions, X25519, Ed25519, AEAD ciphers ([Interfaces]),
      the postcard codec ([Foundation]), Reed-Solomon ([Erasure]), incremental ML-KEM
      ([Kem]), ML-KEM-1024 ([Pqxdh]), BIP-39 and Argon2 ([Recovery]).  [Toy] and
      [ToyCodec] give one executable instance of each, so no law is vacuous.
    - Loops are structural or carry the number of iterations as fuel; the fuel is the
      exact iteration count of the source's loop, and [Loops] proves that the unbounded
      [while] loops ([while_loop] below) leave with the same result.
    - Zeroisation and constant-time comparison have no counterpart; a comparison is
      equality.

    ** Files

    - [Prelude]: bytes, fixed-width integers, big-endian codecs, [Result], the monad [M],
      tactics and hints.  [Foundation]: [error.rs], [types.rs], [address.rs],
      [serialization.rs].  [Interfaces]: the cryptographic libraries.
    - [Padding], [Kdf], [Keys], [AeadRecord]: the files of [primitives/].
    - [Erasure], [Kem], [BraidAuth], [Braid]: [protocol/braid/].  A braid party is a
      [BraidState] whose [State] has the source's twelve variants; [state_send] and
      [state_receive] are the dispatchers, [recv_*] the handlers, [transition] the
      wrapper that restores the snapshot on error.
    - [BraidTypes]: the sizes of every field of a braid state, against any input.
    - [BraidAgreement]: two parties over a network that loses, reorders and duplicates
      ([sys_step]); the joint invariant [joint] of the owner of an epoch's key and the
      encapsulator, phase by phase.  [BraidProgress]: honest runs never fail.
      [StreamCycle]: a cyclic stream of codewords completes a decoder.  [BraidLiveness]:
      two braids that keep exchanging messages reach the next epoch ([rank] orders the
      states; each step that does not raise it feeds a decoder).
    - [Spqr]: [protocol/ratchet/spqr.rs] and, as specification, the key schedule
      ([schedule], [pq_key]).  [SpqrKeys]: every operation refines the schedule
      ([keys_ok], [spqr_inv], [receive_answer]).  [SpqrBraid]: a ratchet touches its braid
      only through [send] and [receive].  [SpqrRetention]: which epochs a party keeps.
      [SpqrGrowth]: how many skipped keys.  [SpqrAgreement]: two ratchets simulate two
      braids and so agree.  [BraidDeadlock]: two ratchets after a forged epoch number.
      [PqFlow]: the counters of the messages in flight between them.
    - [Pqxdh]: [protocol/pqxdh.rs], [protocol/prekey.rs].
    - [Skipped]: [chain.rs], [header.rs], [skipped.rs].  [Ratchet]: [ratchet/mod.rs].
      [Session]: the session invariant and the stored form.  [BraidWedge]: a session
      after a forged codeword.  [Replay]: the post-quantum slots a session decrypts.
      [Ledger]: bounds on a session from the number of its calls.  [Loops]: the loops of
      [decrypt].  [EcChain]: receiving on a chain.  [EcRatchet], [EcJoint]: the DH ratchet
      as a chain of steps that two sessions walk alternately.  [FirstFlight]: the
      initiator's first flight with its handshake, end to end.  [Conversation]: two
      sessions talking in both directions.  [Endpoint]: the interface of the place a
      session is kept (class [EndpointOk]: a failed call leaves it as it was), met by a
      session in memory and by one in any lawful store.  [Delivery]: two endpoints over a
      network that loses, reorders, duplicates and injects ([net_step]).
    - [Stores]: the records and traits of [protocol/stores.rs], with the contract each
      trait documents, and sessions that are serialized and reloaded between calls.
      [MemStore]: finite maps that meet the contracts.  The code that uses the stores, and
      its fallback to archived session states, is not in the crate.
    - [SenderKey], [Sesame], [SealedSender]: the directories of the same names under
      [protocol/].  [GroupChannel]: the abstract channel that the two kinds of sender-key
      chain refine ([channel_step]).  [Recovery], [Envelope], [Provisioning], [OrgMetadata]: [hushwire/].
    - [Toy], [ToyCodec]: instances of the interfaces.  [Witnesses], [SessionWitnesses],
      [GroupWitnesses], [AppWitnesses], [ConversationWitnesses], [DeliveryWitnesses],
      [WedgeWitnesses]: the theorems applied to concrete inputs.

    ** What is shown

    - Delivery: a caller who keeps a session only after a call that succeeded gets
      exactly-once delivery from the handshake on, over any network that cannot forge
      (C1).  With the session mutated in place and no duplicates, every message in flight
      that is not too old decrypts to what was written (C10), and the initiator's first
      flight is produced and read in any order (C11).
    - Liveness: honest braid runs never fail (C7) and go on to the next epoch (C6); the
      erasure code yields the message from any sufficient set of codewords (C20).
    - Refinement: against lost, reordered, replayed and foreign messages a signed group
      chain answers as an unordered channel that delivers each message once and remembers
      at most 2000 that it has passed over (C5), an HMAC chain as an ordered one (C32).
    - Agreement: an honest PQXDH handshake gives both sides one secret (C9); two braids
      emit equal secrets (C3) in consecutive epochs (C19); two ratchets hand out equal
      message keys (C2).
    - Safety against arbitrary input: a session reads no message twice (C4); authentication
      precedes every state change of a group (C23); the braid accepts only headers and
      ciphertexts that came with their MAC (C18); what is checked of bundles, sealed
      messages and envelopes (C27, C26, C34); signed encodings are injective (C38).
    - Invariants and bounds: the session invariant (C8), the types of the braid state
      (C15), the bounds on stored group keys (C24), the epochs the post-quantum ratchet
      keeps (C16) and the keys it stores (C28), termination of the loops a header drives
      (C17).
    - Round trips and equivalence: stored sessions (C21) and sessions reloaded between
      calls (C14), sealed messages under issued certificates until they expire (C25), metadata
      (C33), provisioning payloads (C36), account recovery (C37), padding (C40).
    - Convergence and lifetime of sessions across devices (C12, C29).
    - Behaviour a caller must know.  [decrypt] changes the session before it authenticates
      (C30, C31), the braid included: one forged codeword stops its epoch for good (C13)
      and one forged epoch number deadlocks two honest ratchets if the second ciphertext
      has not got through (C22).  The one-time prekey of a bundle is not signed (C27).  The post-quantum
      ratchet prunes only every second epoch (C16) and bounds the keys stored by a
      message, not those of a chain (C28).  A group signature does not fix the boundary of
      group identifier and iteration (C35); HMAC group chains never use their stored
      skipped keys (C32); the recipient's secret key is enough to forge sealed messages
      to it (C39).

    ** Bounds

    [MAX_SKIP] = 2000 is the bound of the skipped-key store and of a single gap; the
    conversation theorem (C10) lets at most that many messages be in flight in each
    direction, asks fresh ratchet keys to differ from those used before, and counters to
    stay below their width.  Its network delays, reorders and loses but does not
    duplicate: a duplicate desynchronises a session (C30).  The delivery theorem (C1) allows
    duplicates and injected messages because its endpoints drop what a failed call did;
    it bounds the calls of a party by [PQ_LIMIT], below the width of the counters, and the
    messages sent and not read by [MAX_SKIP].  The
    liveness theorem (C6) takes [21 * patience] rounds: [patience], twice the codewords of
    the longest object plus two, is enough for one step of one party whatever the encoder's
    cursor, and 21 steps of [rank] take both parties past an epoch.  A message whose post-quantum
    epoch is three or more behind its receiver may find its chain pruned.

    ** Not modelled

    The module tree and re-exports; zeroisation; the hashing and debug output of key
    pairs; test code.  The storage back ends live outside the crate.  Secrecy is not
    stated: the interfaces describe what the primitives compute, not how hard they are to
    break.  The interfaces are idealised in three places: AEAD encryption does not fail,
    the KEMs decapsulate what they encapsulated without error probability, and the codec
    round trip holds for every value of the model, also for numbers outside the width of
    their field. *)

From Stdlib Require Export Strings.Byte.
From Stdlib Require Import Strings.String.
From stdpp Require Export base tactics list gmap strings pretty countable.

#[global] Open Scope Z_scope.

(** ** Bytes *)

Abbreviation bytes := (list byte).

#[export] Instance byte_eq_decision : EqDecision byte := Byte.byte_eq_dec.

Lemma byte_of_to_N (b : byte) : Byte.of_N (Byte.to_N b) = Some b.
Proof. apply Byte.of_to_N. Qed.

#[export] Instance byte_countable : Countable byte :=
  inj_countable Byte.to_N Byte.of_N byte_of_to_N.

(** A Rust byte-string literal. *)
Definition bstr (s : string) : bytes := String.list_byte_of_string s.

Definition Z_of_byte (b : byte) : Z := Z.of_N (Byte.to_N b).
Definition byte_of_Z (z : Z) : byte := default x00 (Byte.of_N (Z.to_N (z mod 256))).

Lemma Z_of_byte_bound b : 0 ≤ Z_of_byte b < 256.
Proof. unfold Z_of_byte. pose proof (Byte.to_N_bounded b). lia. Qed.

Lemma byte_of_Z_of_byte b : byte_of_Z (Z_of_byte b) = b.
Proof.
  unfold byte_of_Z. rewrite Z.mod_small by apply Z_of_byte_bound.
  unfold Z_of_byte. by rewrite N2Z.id, Byte.of_to_N.
Qed.

Lemma Z_of_byte_of_Z z : Z_of_byte (byte_of_Z z) = z mod 256.
Proof.
  unfold byte_of_Z, Z_of_byte.
  assert (0 ≤ z mod 256 < 256) by (apply Z.mod_pos_bound; lia).
  destruct (Byte.of_N (Z.to_N (z mod 256))) as [b|] eqn:E; simpl.
  - apply Byte.to_of_N in E. rewrite E. lia.
  - apply Byte.of_N_None_iff in E. lia.
Qed.

(** ** Fixed-width unsigned integers

    Counters and identifiers are [Z] values kept in range.  Arithmetic that the
    source writes with plain [+] wraps at the width (the release profile). *)

Definition u8_max : Z := 255.
Definition u16_max : Z := 65535.
Definition u32_max : Z := 4294967295.
Definition u64_max : Z := 18446744073709551615.

Definition in_u16 (z : Z) : Prop := 0 ≤ z ≤ u16_max.
Definition in_u32 (z : Z) : Prop := 0 ≤ z ≤ u32_max.
Definition in_u64 (z : Z) : Prop := 0 ≤ z ≤ u64_max.

#[export] Instance in_u16_dec z : Decision (in_u16 z) := _.
#[export] Instance in_u32_dec z : Decision (in_u32 z) := _.
#[export] Instance in_u64_dec z : Decision (in_u64 z) := _.

Definition add_u32 (a b : Z) : Z := (a + b) mod (u32_max + 1).
Definition add_u64 (a b : Z) : Z := (a + b) mod (u64_max + 1).
Definition sub_u32 (a b : Z) : Z := (a - b) mod (u32_max + 1).
Definition mul_u32 (a b : Z) : Z := (a * b) mod (u32_max + 1).

(** [a.saturating_sub(b)] and [a.checked_sub(b)] on unsigned integers. *)
Definition sat_sub (a b : Z) : Z := Z.max 0 (a - b).
Definition checked_sub (a b : Z) : option Z := if a <? b then None else Some (a - b).

Lemma add_u32_range a b : in_u32 (add_u32 a b).
Proof. unfold in_u32, add_u32, u32_max. pose proof (Z.mod_pos_bound (a + b) (4294967295 + 1)). lia. Qed.
Lemma add_u64_range a b : in_u64 (add_u64 a b).
Proof.
  unfold in_u64, add_u64, u64_max.
  pose proof (Z.mod_pos_bound (a + b) (18446744073709551615 + 1)). lia.
Qed.
Lemma sub_u32_range a b : in_u32 (sub_u32 a b).
Proof. unfold in_u32, sub_u32, u32_max. pose proof (Z.mod_pos_bound (a - b) (4294967295 + 1)). lia. Qed.

Lemma add_u32_small a b : 0 ≤ a + b ≤ u32_max → add_u32 a b = a + b.
Proof. intros. unfold add_u32. apply Z.mod_small. unfold u32_max in *. lia. Qed.
Lemma add_u64_small a b : 0 ≤ a + b ≤ u64_max → add_u64 a b = a + b.
Proof. intros. unfold add_u64. apply Z.mod_small. unfold u64_max in *. lia. Qed.
Lemma sub_u32_small a b : 0 ≤ a - b ≤ u32_max → sub_u32 a b = a - b.
Proof. intros. unfold sub_u32. apply Z.mod_small. unfold u32_max in *. lia. Qed.

(** ** Big-endian encodings ([to_be_bytes] / [from_be_bytes]) *)

Fixpoint le_bytes (n : nat) (z : Z) : bytes :=
  match n with
  | O => []
  | S n => byte_of_Z z :: le_bytes n (z / 256)
  end.
Definition be_bytes (n : nat) (z : Z) : bytes := reverse (le_bytes n z).

Fixpoint le_Z (bs : bytes) : Z :=
  match bs with
  | [] => 0
  | b :: bs => Z_of_byte b + 256 * le_Z bs
  end.
Definition be_Z (bs : bytes) : Z := le_Z (reverse bs).

Lemma length_le_bytes n z : length (le_bytes n z) = n.
Proof. revert z; induction n; simpl; intros; auto. Qed.

Lemma length_be_bytes n z : length (be_bytes n z) = n.
Proof. unfold be_bytes. by rewrite length_reverse, length_le_bytes. Qed.

Lemma le_Z_bound bs : 0 ≤ le_Z bs < 256 ^ Z.of_nat (length bs).
Proof.
  induction bs as [|b bs IH]; simpl; [lia|].
  rewrite Nat2Z.inj_succ, Z.pow_succ_r by lia.
  pose proof (Z_of_byte_bound b). lia.
Qed.

Lemma le_Z_le_bytes n z : 0 ≤ z < 256 ^ Z.of_nat n → le_Z (le_bytes n z) = z.
Proof.
  revert z; induction n as [|n IH]; intros z Hz; simpl.
  - simpl in Hz. lia.
  - rewrite Nat2Z.inj_succ, Z.pow_succ_r in Hz by lia.
    rewrite Z_of_byte_of_Z, IH.
    + pose proof (Z.div_mod z 256). lia.
    + split; [apply Z.div_pos; lia | apply Z.div_lt_upper_bound; lia].
Qed.

Lemma be_Z_be_bytes n z : 0 ≤ z < 256 ^ Z.of_nat n → be_Z (be_bytes n z) = z.
Proof. intros. unfold be_Z, be_bytes. rewrite reverse_involutive. by apply le_Z_le_bytes. Qed.

Lemma le_bytes_le_Z bs : le_bytes (length bs) (le_Z bs) = bs.
Proof.
  induction bs as [|b bs IH]; simpl; [done|].
  pose proof (Z_of_byte_bound b). f_equal.
  - rewrite <-(byte_of_Z_of_byte b) at 2. unfold byte_of_Z.
    by rewrite (Z.mul_comm 256), Z.mod_add by lia.
  - replace ((Z_of_byte b + 256 * le_Z bs) / 256) with (le_Z bs); [done|].
    apply Z.div_unique with (r := Z_of_byte b); lia.
Qed.

Lemma be_bytes_be_Z bs : be_bytes (length bs) (be_Z bs) = bs.
Proof.
  unfold be_bytes, be_Z. rewrite <-(length_reverse bs), le_bytes_le_Z.
  apply reverse_involutive.
Qed.

Lemma be_bytes_inj n x y :
  0 ≤ x < 256 ^ Z.of_nat n → 0 ≤ y < 256 ^ Z.of_nat n →
  be_bytes n x = be_bytes n y → x = y.
Proof. intros Hx Hy E. by rewrite <-(be_Z_be_bytes n x), E, be_Z_be_bytes. Qed.

(** ** Fallible computations: Rust's [Result] *)

Inductive Result (E A : Type) : Type :=
| Ok (a : A)
| Err (e : E).
Arguments Ok {E A} a.
Arguments Err {E A} e.

#[export] Instance result_ret {E} : MRet (Result E) := λ A a, Ok a.
#[export] Instance result_bind {E} : MBind (Result E) := λ A B f m,
  match m with Ok a => f a | Err e => Err e end.
#[export] Instance result_fmap {E} : FMap (Result E) := λ A B f m,
  match m with Ok a => Ok (f a) | Err e => Err e end.

Definition is_ok {E A} (r : Result E A) : bool := match r with Ok _ => true | Err _ => false end.

Lemma is_ok_unit {E} (r : Result E ()) : is_ok r = true ↔ r = Ok ().
Proof. by destruct r as [[]|]. Qed.

(** [opt.ok_or(e)] and [res.map_err(f)]. *)
Definition ok_or {E A} (o : option A) (e : E) : Result E A :=
  match o with Some a => Ok a | None => Err e end.
Definition map_err {E F A} (f : E → F) (r : Result E A) : Result F A :=
  match r with Ok a => Ok a | Err e => Err (f e) end.
Definition result_opt {E A} (r : Result E A) : option A :=
  match r with Ok a => Some a | Err _ => None end.

Lemma result_bind_Ok {E A B} (m : Result E A) (f : A → Result E B) b :
  m ≫= f = Ok b ↔ ∃ a, m = Ok a ∧ f a = Ok b.
Proof. destruct m; split; [eauto | by intros (?&[=->]&?) | done | by intros (?&?&?)]. Qed.

Lemma result_bind_Err {E A B} (m : Result E A) (f : A → Result E B) e :
  m ≫= f = Err e ↔ m = Err e ∨ ∃ a, m = Ok a ∧ f a = Err e.
Proof.
  destruct m as [a|e']; split; simpl.
  - eauto.
  - by intros [[=]|(?&[=->]&?)].
  - intros [=->]. by left.
  - by intros [[=->]|(?&[=]&?)].
Qed.

Lemma ok_or_Ok {E A} (o : option A) (e : E) a : ok_or o e = Ok a ↔ o = Some a.
Proof. destruct o; simpl; split; congruence. Qed.
Lemma ok_or_Err {E A} (o : option A) (e e' : E) : ok_or o e = Err e' ↔ o = None ∧ e = e'.
Proof. destruct o; simpl; split; try intros [??]; try split; congruence. Qed.

(** ** Methods taking [&mut self]

    A method on a receiver of type [S] returning [Result<A>] is a function from the
    receiver to the result and the receiver after the call.  The receiver is
    returned in the error case too: an early return keeps the writes made before it. *)

Definition M (S E A : Type) : Type := S → Result E A * S.

#[export] Instance m_ret {S E} : MRet (M S E) := λ A a s, (Ok a, s).
#[export] Instance m_bind {S E} : MBind (M S E) := λ A B f m s,
  match m s with
  | (Ok a, s') => f a s'
  | (Err e, s') => (Err e, s')
  end.

Definition m_get {S E} : M S E S := λ s, (Ok s, s).
Definition m_put {S E} (s' : S) : M S E () := λ _, (Ok (), s').
Definition m_modify {S E} (f : S → S) : M S E () := λ s, (Ok (), f s).
Definition m_lift {S E A} (r : Result E A) : M S E A := λ s, (r, s).
Definition m_throw {S E A} (e : E) : M S E A := λ s, (Err e, s).

(** A method call on a field of the receiver. *)
Definition m_zoom {S T E A} (get : S → T) (set : T → S → S) (m : M T E A) : M S E A := λ s,
  let '(r, t) := m (get s) in (r, set t s).

Lemma m_bind_Ok {S E A B} (m : M S E A) (f : A → M S E B) s b s' :
  (m ≫= f) s = (Ok b, s') ↔ ∃ a s1, m s = (Ok a, s1) ∧ f a s1 = (Ok b, s').
Proof.
  unfold mbind, m_bind. destruct (m s) as [[a|e] s1]; split.
  - eauto.
  - by intros (?&?&[= -> ->]&?).
  - done.
  - by intros (?&?&?&?).
Qed.

Lemma m_bind_run {S E A B} (m : M S E A) (f : A → M S E B) s a s1 :
  m s = (Ok a, s1) → (m ≫= f) s = f a s1.
Proof. intros H. unfold mbind, m_bind. by rewrite H. Qed.

Lemma m_bind_err {S E A B} (m : M S E A) (f : A → M S E B) s e s1 :
  m s = (Err e, s1) → (m ≫= f) s = (Err e, s1).
Proof. intros H. unfold mbind, m_bind. by rewrite H. Qed.

(** A relation every run of a method, successful or not, establishes between the
    receiver before and after. *)
Definition m_rel {S E A} (R : S → S → Prop) (m : M S E A) : Prop := ∀ s, R s (m s).2.

Lemma m_rel_bind {S E A B} (R : S → S → Prop) `{!Transitive R} (m : M S E A) (f : A → M S E B) :
  m_rel R m → (∀ a, m_rel R (f a)) → m_rel R (m ≫= f).
Proof.
  intros Hm Hf s. unfold mbind, m_bind. specialize (Hm s). destruct (m s) as [[a|e] s1]; simpl in *; [|done].
  etrans; [done|apply Hf].
Qed.

Lemma m_rel_ret {S E A} (R : S → S → Prop) `{!Reflexive R} (a : A) : m_rel R (mret a : M S E A).
Proof. by intros s. Qed.

Lemma m_rel_throw {S E A} (R : S → S → Prop) `{!Reflexive R} (e : E) : m_rel R (m_throw e : M S E A).
Proof. by intros s. Qed.

Lemma m_rel_lift {S E A B} (R : S → S → Prop) `{!Reflexive R} (r : Result E A) (f : A → M S E B) :
  (∀ a, r = Ok a → m_rel R (f a)) → m_rel R (m_lift r ≫= f).
Proof. intros Hf s. unfold mbind, m_bind, m_lift. destruct r as [a|e]; [by apply Hf|done]. Qed.

(** Walk through a method whose steps all establish the relation. *)
Ltac keeps := repeat first [ done | by auto | apply m_rel_ret; apply _ | apply m_rel_throw; apply _
  | apply m_rel_bind; [apply _| |intros] | case_match ].

Lemma bind_Some_eq {A B} (f : A → option B) x : Some x ≫= f = f x.
Proof. done. Qed.

(** ** Finite maps *)

Lemma size_kmap_inj {A} (f : Z → Z) `{!Inj (=) (=) f} (m : gmap Z A) :
  size (kmap f m : gmap Z A) = size m.
Proof. rewrite <-!length_map_to_list, map_to_list_kmap by done. apply length_fmap. Qed.

(** ** Lists *)

Lemma NoDup_fmap_inj_elem {A B} (f : A → B) (l : list A) x y :
  NoDup (f <$> l) → x ∈ l → y ∈ l → f x = f y → x = y.
Proof.
  induction l as [|a l IH]; simpl; [by intros _ ?%elem_of_nil|].
  intros [Hna Hnd]%list.NoDup_cons. rewrite !elem_of_cons.
  intros [->|Hx] [->|Hy] E; [done| | |by apply IH]; destruct Hna.
  - rewrite E. by apply list_elem_of_fmap_2.
  - rewrite <-E. by apply list_elem_of_fmap_2.
Qed.

(** Two-at-a-time induction. *)
Lemma list_ind_two {A} (P : list A → Prop) :
  P [] → (∀ x, P [x]) → (∀ x y l, P l → P (x :: y :: l)) → ∀ l, P l.
Proof.
  intros H0 H1 H2 l. enough (P l ∧ ∀ x, P (x :: l)) by tauto.
  induction l as [|y l [IH1 IH2]]; split; intros; auto.
Qed.

(** ** Proof automation *)

(** ** Loops *)

(** [while cond { body }] leaves the loop in [s'] after [k] iterations from [s]. *)
Inductive while_loop {S : Type} (cond : S → bool) (body : S → S) : nat → S → S → Prop :=
| while_exit s : cond s = false → while_loop cond body 0 s s
| while_iter k s s' : cond s = true → while_loop cond body k (body s) s' → while_loop cond body (Datatypes.S k) s s'.

Lemma while_loop_det {S} (cond : S → bool) (body : S → S) k1 k2 s s1 s2 :
  while_loop cond body k1 s s1 → while_loop cond body k2 s s2 → k1 = k2 ∧ s1 = s2.
Proof.
  intros Hr. revert k2. induction Hr as [s E|k s s1 E Hr IH]; intros k2 Hr2; inversion Hr2; subst; try congruence; [done|].
  edestruct IH as [-> ->]; done.
Qed.

Create HintDb hushwire.
Create Rewrite HintDb hushwire_len.

#[export] Hint Resolve add_u32_range add_u64_range sub_u32_range Z_of_byte_bound : hushwire.
#[export] Hint Rewrite length_be_bytes length_le_bytes @length_app @length_replicate
  @length_take @length_drop @length_reverse : hushwire_len.

(** Split a successful run of a monadic computation into its steps. *)
Ltac inv_ok :=
  repeat match goal with
  | H : Ok _ = Ok _ |- _ => injection H as H
  | H : Err _ = Err _ |- _ => injection H as H
  | H : Ok _ = Err _ |- _ => discriminate H
  | H : Err _ = Ok _ |- _ => discriminate H
  | H : (_, _) = (_, _) |- _ => injection H as H
  | H : _ ≫= _ = Ok _ |- _ => apply result_bind_Ok in H as (?&?&?)
  | H : ok_or _ _ = Ok _ |- _ => apply ok_or_Ok in H
  | H : mret _ = Ok _ |- _ => injection H as H
  end; simplify_eq/=.

(** Case analysis on every [match] and [if] of the goal, closing the impossible
    branches. *)
Ltac split_cases :=
  repeat (case_match; simplify_eq/=; try done).

(** Rewrite the lengths of byte strings. *)
Ltac len :=
  cbn [length app];
  repeat (progress autorewrite with hushwire_len; cbn [length app]);
  try lia.
