(* ===== verification/Foundation.v ===== *)
(** * Shared vocabulary: errors, newtypes, addresses, versioned records

    Models [src/error.rs], [src/types.rs], [src/address.rs] and
    [src/serialization.rs].  [CryptoError] keeps every variant and its payload; the
    32-byte key newtypes are byte strings with the predicate [wf_key]; the [u32]
    identifiers and [u64] timestamps are integers with their range.  The [Display] and
    [Debug] forms are functions to strings.  The [postcard] encoding is an interface
    ([Postcard], [PostcardOk]): the crate only relies on it being a codec.
    [serialize]/[deserialize] add and check the [HWCR] header. *)

From S2P Require Import Prelude.

(** ** Errors *)

Inductive CryptoError : Type :=
| InvalidKey
| InvalidSignature
| EncryptionFailed (msg : string)
| DecryptionFailed (msg : string)
| InvalidCiphertext
| InvalidSessionState
| StorageError (msg : string)
| NotFound (msg : string)
| InvalidPrekeyBundle (msg : string)
| IdentityKeyChanged
| UntrustedIdentity (msg : string)
| DuplicateMessage
| MaxSkipExceeded (gap limit : Z)
| ExpiredCertificate
| InvalidCertificate (msg : string)
| Serialization (msg : string)
| MissingSenderKey
| InvalidPadding
| BraidErasure (msg : string)
| BraidKem (msg : string).

#[export] Instance crypto_error_eq_dec : EqDecision CryptoError.
Proof. solve_decision. Defined.

(** The crate's [Result<T>] alias. *)
Abbreviation result := (Result CryptoError).

(** [impl From<postcard::Error> for CryptoError]: the [?] operator on a codec error. *)
Definition from_postcard_error (err : string) : CryptoError := Serialization err.

(** The [#[error(..)]] texts: what [to_string] gives. *)
Definition error_to_string (e : CryptoError) : string :=
  match e with
  | InvalidKey => "invalid key material"
  | InvalidSignature => "invalid signature"
  | EncryptionFailed msg => "encryption failed: " +:+ msg
  | DecryptionFailed msg => "decryption failed: " +:+ msg
  | InvalidCiphertext => "invalid ciphertext"
  | InvalidSessionState => "invalid session state"
  | StorageError msg => "storage error: " +:+ msg
  | NotFound msg => "not found: " +:+ msg
  | InvalidPrekeyBundle msg => "invalid prekey bundle: " +:+ msg
  | IdentityKeyChanged => "identity key changed"
  | UntrustedIdentity msg => "untrusted identity: " +:+ msg
  | DuplicateMessage => "duplicate message"
  | MaxSkipExceeded gap limit =>
      "max skip exceeded: gap of " +:+ pretty gap +:+ " exceeds limit of " +:+ pretty limit
  | ExpiredCertificate => "expired certificate"
  | InvalidCertificate msg => "invalid certificate: " +:+ msg
  | Serialization msg => "serialization error: " +:+ msg
  | MissingSenderKey => "missing sender key for group"
  | InvalidPadding => "invalid message padding"
  | BraidErasure msg => "braid erasure contract violation: " +:+ msg
  | BraidKem msg => "braid KEM error: " +:+ msg
  end.

(** ** Newtypes *)

(** [define_crypto_key!]: a wrapper over [[u8; 32]]. *)
Definition RootKey : Type := bytes.
Definition ChainKey : Type := bytes.
Definition MessageKey : Type := bytes.
Definition DhPublicKey : Type := bytes.
Definition SigningPublicKey : Type := bytes.
Definition SigningPrivateKey : Type := bytes.

Definition wf_key (k : bytes) : Prop := length k = 32%nat.
#[export] Instance wf_key_dec k : Decision (wf_key k) := _.

(** [Debug] and [Display] of a key: its type's name, never its bytes. *)
Definition key_debug (name : string) (k : bytes) : string := name +:+ "([REDACTED])".
Definition key_to_string (name : string) (k : bytes) : string := "<" +:+ name +:+ ">".

(** [define_id!]: a wrapper over [u32], shown in decimal. *)
Definition wf_id (v : Z) : Prop := in_u32 v.
Definition id_to_string (v : Z) : string := pretty v.
Definition RegistrationId : Type := Z.
Definition DeviceId : Type := Z.
Definition PreKeyId : Type := Z.
Definition SignedPreKeyId : Type := Z.
Definition KyberPreKeyId : Type := Z.
Definition ServerKeyId : Type := Z.
Definition MessageNumber : Type := Z.
Definition ChainIteration : Type := Z.

(** [define_bytes!]: a wrapper over [Vec<u8>], shown by its length. *)
Definition bytes_debug (name : string) (v : bytes) : string :=
  name +:+ "(" +:+ pretty (Z.of_nat (length v)) +:+ " bytes)".
Definition bytes_to_string (name : string) (v : bytes) : string :=
  "<" +:+ name +:+ " " +:+ pretty (Z.of_nat (length v)) +:+ " bytes>".
Definition Ed25519Signature : Type := bytes.
Definition KyberPublicKey : Type := bytes.
Definition KyberCiphertext : Type := bytes.
Definition Ciphertext : Type := bytes.
Definition GroupId : Type := bytes.

(** A UUID (16 bytes) and a Unix timestamp in seconds ([u64]). *)
Definition SenderUuid : Type := bytes.
Definition Timestamp : Type := Z.

(** ** Protocol addresses *)

Record ProtocolAddress : Type := mk_address { user_id : bytes; device_id : DeviceId }.

Definition address_new (u : bytes) (d : DeviceId) : ProtocolAddress := mk_address u d.

#[export] Instance address_eq_dec : EqDecision ProtocolAddress.
Proof. unfold DeviceId in *. intros [u1 d1] [u2 d2].
  destruct (decide (u1 = u2)); [|right; congruence].
  destruct (Z.eq_dec d1 d2); [left; congruence | right; congruence].
Defined.

(** [Display], over the hyphenated form of a UUID. *)
Definition address_to_string (fmt_uuid : bytes → string) (a : ProtocolAddress) : string :=
  fmt_uuid (user_id a) +:+ ":" +:+ id_to_string (device_id a).

(** ** The postcard codec *)

(** [postcard::to_allocvec] and [postcard::from_bytes] at type [T]; an error is the
    string it prints as. *)
Class Postcard (T : Type) : Type := {
  to_allocvec : T → Result string bytes;
  from_bytes : bytes → Result string T;
}.

(** What the crate relies on: encoding succeeds and decoding inverts it. *)
Class PostcardOk (T : Type) `{Postcard T} : Prop := {
  postcard_roundtrip (x : T) : ∃ bs, to_allocvec x = Ok bs ∧ from_bytes bs = Ok x;
}.

(** ** Versioned records *)

Definition MAGIC : bytes := bstr "HWCR".
Definition CURRENT_VERSION : byte := x01.

Section records.
Context {T : Type} `{Postcard T}.

Definition serialize (value : T) : result bytes :=
  body ← map_err from_postcard_error (to_allocvec value);
  Ok (MAGIC ++ [CURRENT_VERSION] ++ body).

Definition deserialize (data : bytes) : result T :=
  if bool_decide (length data < 5)%nat then Err (Serialization "data too short")
  else if bool_decide (take 4 data ≠ MAGIC) then Err (Serialization "invalid magic bytes")
  else
    let version := nth 4 data x00 in
    if bool_decide (version ≠ CURRENT_VERSION)
    then Err (Serialization ("unsupported version: " +:+ pretty (Z_of_byte version)))
    else map_err from_postcard_error (from_bytes (drop 5 data)).

End records.

(** ** Properties *)

Lemma serialize_shape {T} `{Postcard T} (x : T) bs :
  serialize x = Ok bs → ∃ body, to_allocvec x = Ok body ∧ bs = MAGIC ++ [CURRENT_VERSION] ++ body.
Proof. unfold serialize. destruct (to_allocvec x) as [body|e]; simpl; intros; inv_ok; eauto. Qed.

Lemma deserialize_framed {T} `{Postcard T} (body : bytes) :
  deserialize (MAGIC ++ [CURRENT_VERSION] ++ body) = map_err from_postcard_error (from_bytes body) :> result T.
Proof. done. Qed.

(** A record read back is the record written, and the frame costs five bytes. *)
Lemma record_roundtrip {T} `{PostcardOk T} (x : T) :
  ∃ bs, serialize x = Ok bs ∧ deserialize bs = Ok x
        ∧ ∀ body, to_allocvec x = Ok body → length bs = (5 + length body)%nat.
Proof.
  destruct (postcard_roundtrip x) as (body & Henc & Hdec).
  exists (MAGIC ++ [CURRENT_VERSION] ++ body).
  unfold serialize. rewrite Henc, deserialize_framed, Hdec.
  split_and!; [done..|]. intros b [= <-]. done.
Qed.

(** Deserialization succeeds only on a framed record: the magic bytes, version 1 and
    a decodable body. *)
Lemma deserialize_sound {T} `{Postcard T} (data : bytes) (x : T) :
  deserialize data = Ok x →
  ∃ body, data = MAGIC ++ [CURRENT_VERSION] ++ body ∧ from_bytes body = Ok x.
Proof.
  unfold deserialize. repeat case_bool_decide; try done. intros Hb.
  exists (drop 5 data). split.
  - destruct data as [|a [|b [|c [|d [|v rest]]]]]; simpl in *; try lia.
    destruct (decide ([a; b; c; d] = MAGIC)) as [E|]; [|done].
    destruct (decide (v = CURRENT_VERSION)) as [->|]; [|done].
    unfold MAGIC in *. by injection E as -> -> -> ->.
  - destruct (from_bytes (drop 5 data)); simpl in *; by inv_ok.
Qed.

(** The record frame is a faithful codec: a value written is read back, the frame costs
    five bytes, and only framed bytes (the magic, version 1 and a decodable body) are
    read as a value at all. *)
Theorem record_codec {T} `{PostcardOk T} (x : T) (data : bytes) (y : T) :
  (∃ bs, serialize x = Ok bs ∧ deserialize bs = Ok x
         ∧ ∀ body, to_allocvec x = Ok body → length bs = (5 + length body)%nat)
  ∧ (deserialize data = Ok y → ∃ body, data = MAGIC ++ [CURRENT_VERSION] ++ body ∧ from_bytes body = Ok y).
Proof. split; [apply record_roundtrip|apply deserialize_sound]. Qed.
