(* ===== verification/Interfaces.v ===== *)
(** * Interfaces of the cryptographic libraries

    The crate calls [hkdf], [hmac], [sha2], [x25519-dalek], [ed25519-dalek] and
    [chacha20poly1305]; their code is not part of the repository.  Each is a class of
    operations (a parameter of every definition that calls it) and a class of the
    documented behaviour the crate relies on: output lengths, Diffie-Hellman
    commutativity, that signatures verify and that AEAD decryption inverts encryption.
    Randomness is an explicit argument of the operations that draw it. *)

From S2P Require Import Prelude.

(** ** Hash-based functions *)

Class Hashes : Type := {
  (** HMAC-SHA256, key then message. *)
  hmac_sha256 : bytes → bytes → bytes;
  (** HKDF-SHA256 extract-then-expand: optional salt, input key, info, length. *)
  hkdf_expand : option bytes → bytes → bytes → nat → bytes;
  sha256 : bytes → bytes;
  sha512 : bytes → bytes;
}.

Class HashesOk `{Hashes} : Prop := {
  hmac_length k m : length (hmac_sha256 k m) = 32%nat;
  hkdf_length salt ikm info n : (n ≤ 255 * 32)%nat → length (hkdf_expand salt ikm info n) = n;
  sha256_length m : length (sha256 m) = 32%nat;
  sha512_length m : length (sha512 m) = 64%nat;
}.

(** ** X25519 *)

Class X25519 : Type := {
  (** The public key of a 32-byte secret. *)
  x25519_public : bytes → bytes;
  (** [secret.diffie_hellman(public)]. *)
  diffie_hellman : bytes → bytes → bytes;
}.

Class X25519Ok `{X25519} : Prop := {
  dh_comm a b : diffie_hellman a (x25519_public b) = diffie_hellman b (x25519_public a);
  dh_length a p : length (diffie_hellman a p) = 32%nat;
  x25519_public_length a : length (x25519_public a) = 32%nat;
}.

(** ** Ed25519 *)

Class Ed25519 : Type := {
  (** A validated public key: [VerifyingKey::from_bytes] checks the point. *)
  VerifyingKey : Type;
  vk_from_bytes : bytes → option VerifyingKey;
  vk_to_bytes : VerifyingKey → bytes;
  (** [SigningKey::from_bytes(seed).verifying_key()] and [.sign(data)]. *)
  verifying_key : bytes → VerifyingKey;
  ed_sign : bytes → bytes → bytes;
  ed_verify : VerifyingKey → bytes → bytes → bool;
  (** [CompressedEdwardsY(..).decompress().to_montgomery()] of a validated key. *)
  ed_to_montgomery : VerifyingKey → bytes;
}.

Class Ed25519Ok `{Ed25519} : Prop := {
  vk_from_to vk : vk_from_bytes (vk_to_bytes vk) = Some vk;
  vk_to_bytes_length vk : length (vk_to_bytes vk) = 32%nat;
  ed_sign_length seed m : length (ed_sign seed m) = 64%nat;
  ed_verify_sign seed m : ed_verify (verifying_key seed) m (ed_sign seed m) = true;
}.

(** ** AEAD ciphers: key, nonce, message, associated data *)

Class Aead : Type := {
  xchacha_encrypt : bytes → bytes → bytes → bytes → option bytes;
  xchacha_decrypt : bytes → bytes → bytes → bytes → option bytes;
  chacha_encrypt : bytes → bytes → bytes → bytes → option bytes;
  chacha_decrypt : bytes → bytes → bytes → bytes → option bytes;
  (** How the ciphers' opaque error prints. *)
  aead_error : string;
}.

Class AeadOk `{Aead} : Prop := {
  xchacha_encrypt_ok k n m a : ∃ c, xchacha_encrypt k n m a = Some c;
  xchacha_length k n m a c : xchacha_encrypt k n m a = Some c → length c = (length m + 16)%nat;
  xchacha_decrypt_encrypt k n m a c :
    xchacha_encrypt k n m a = Some c → xchacha_decrypt k n c a = Some m;
  chacha_encrypt_ok k n m a : ∃ c, chacha_encrypt k n m a = Some c;
  chacha_length k n m a c : chacha_encrypt k n m a = Some c → length c = (length m + 16)%nat;
  chacha_decrypt_encrypt k n m a c :
    chacha_encrypt k n m a = Some c → chacha_decrypt k n c a = Some m;
}.

#[export] Hint Resolve hmac_length sha256_length sha512_length dh_length
  x25519_public_length vk_to_bytes_length ed_sign_length : hushwire.
