(* ===== verification/Padding.v ===== *)
(** * ISO/IEC 7816-4 message padding

    Models [src/primitives/padding.rs]: [pad] appends [0x80] and zeros to the next
    160-byte boundary; [unpad] scans backwards for the marker. *)

From S2P Require Import Prelude Foundation.

Definition BLOCK_SIZE : nat := 160.

(** [usize::div_ceil]. *)
Definition div_ceil (a b : nat) : nat := ((a + b - 1) / b)%nat.

(** [Vec::resize]: truncate or extend with a fill byte. *)
Definition resize (n : nat) (b : byte) (l : bytes) : bytes :=
  take n l ++ replicate (n - length l) b.

Definition pad (plaintext : bytes) : bytes :=
  let padded_len := (div_ceil (length plaintext + 1) BLOCK_SIZE * BLOCK_SIZE)%nat in
  resize padded_len x00 (plaintext ++ [x80]).

(** The loop [for i in (0..padded.len()).rev()], at the iterations [i < n]. *)
Fixpoint unpad_loop (padded : bytes) (n : nat) : result bytes :=
  match n with
  | O => Err InvalidPadding
  | S i =>
      match padded !! i with
      | Some x80 => Ok (take i padded)
      | Some x00 => unpad_loop padded i
      | _ => Err InvalidPadding
      end
  end.

Definition unpad (padded : bytes) : result bytes := unpad_loop padded (length padded).

(** ** Properties *)

Lemma div_ceil_spec a b : (0 < b)%nat → (a ≤ div_ceil a b * b < a + b)%nat.
Proof.
  intros Hb. unfold div_ceil.
  pose proof (Nat.div_mod_eq (a + b - 1) b).
  pose proof (Nat.mod_upper_bound (a + b - 1) b). nia.
Qed.

Lemma resize_extend n b l : (length l ≤ n)%nat → resize n b l = l ++ replicate (n - length l) b.
Proof. intros. unfold resize. by rewrite take_ge. Qed.

(** The shape of a padded message. *)
Lemma pad_shape p : ∃ z,
  pad p = p ++ x80 :: replicate z x00 ∧ (z < BLOCK_SIZE)%nat ∧ (BLOCK_SIZE | length (pad p))%nat.
Proof.
  unfold pad. set (n := (div_ceil (length p + 1) BLOCK_SIZE * BLOCK_SIZE)%nat).
  assert (length p + 1 ≤ n < length p + 1 + BLOCK_SIZE)%nat as Hn.
  { apply div_ceil_spec. unfold BLOCK_SIZE. lia. }
  rewrite resize_extend by (len).
  exists (n - (length p + 1))%nat. rewrite length_app, <-app_assoc. simpl.
  split_and!; [done | lia |]. exists (div_ceil (length p + 1) BLOCK_SIZE).
  fold n. rewrite length_app. simpl. rewrite length_replicate. lia.
Qed.

(** One step of the scan at the end of a list. *)
Lemma unpad_snoc l b :
  unpad (l ++ [b]) =
    match b with x80 => Ok l | x00 => unpad l | _ => Err InvalidPadding end.
Proof.
  assert (∀ n, (n ≤ length l)%nat → unpad_loop (l ++ [b]) n = unpad_loop l n) as Hl.
  { induction n as [|n IH]; intros; simpl; [done|].
    rewrite lookup_app_l by lia.
    destruct (l !! n) as [[]|] eqn:E; try done; [apply IH; lia | by rewrite take_app_le by lia]. }
  unfold unpad. rewrite length_app. simpl. rewrite Nat.add_1_r. simpl.
  rewrite lookup_app_r, Nat.sub_diag by lia. simpl.
  destruct b; try done; [by apply Hl | by rewrite take_app_length].
Qed.

Lemma unpad_zeros l z : unpad (l ++ replicate z x00) = unpad l.
Proof.
  induction z as [|z IH]; simpl; [by rewrite app_nil_r|].
  by rewrite replicate_cons_app, app_assoc, unpad_snoc, IH.
Qed.

(** [unpad] accepts exactly the strings [p || 0x80 || 0x00*]. *)
Lemma unpad_iff l p : unpad l = Ok p ↔ ∃ z, l = p ++ x80 :: replicate z x00.
Proof.
  split.
  - revert p. induction l as [|b l IH] using rev_ind; intros p; [done|].
    rewrite unpad_snoc. destruct b; try done.
    + intros [z ->]%IH. exists (S z). rewrite <-app_assoc. simpl. by rewrite <-replicate_cons_app.
    + intros [= ->]. by exists 0%nat.
  - intros [z ->]. by rewrite cons_middle, app_assoc, unpad_zeros, unpad_snoc.
Qed.

Lemma pad_unpad p :
  unpad (pad p) = Ok p ∧ (BLOCK_SIZE | length (pad p))%nat
  ∧ (length p < length (pad p) ≤ length p + BLOCK_SIZE)%nat.
Proof.
  destruct (pad_shape p) as (z & E & Hz & Hdiv). split_and!; [|done|..].
  - rewrite E. apply unpad_iff. eauto.
  - rewrite E. len.
  - rewrite E. len.
Qed.

Lemma pad_length_block p q :
  (length p / BLOCK_SIZE = length q / BLOCK_SIZE)%nat → length (pad p) = length (pad q).
Proof.
  intros Hb.
  destruct (pad_unpad p) as (_ & [a Ha] & Hp). destruct (pad_unpad q) as (_ & [b Hq'] & Hq).
  pose proof (Nat.div_mod_eq (length p) BLOCK_SIZE). pose proof (Nat.div_mod_eq (length q) BLOCK_SIZE).
  pose proof (Nat.mod_upper_bound (length p) BLOCK_SIZE).
  pose proof (Nat.mod_upper_bound (length q) BLOCK_SIZE).
  unfold BLOCK_SIZE in *. lia.
Qed.

(** C40. [unpad] accepts exactly the strings [p || 0x80 || 0x00*] and so inverts [pad]; the
    padded length is a multiple of the block size that exceeds the plaintext by at most a
    block and depends only on the block the plaintext's length falls in. *)
Theorem padding_correct p q l :
  unpad (pad p) = Ok p
  ∧ (unpad l = Ok p ↔ ∃ z, l = p ++ x80 :: replicate z x00)
  ∧ (BLOCK_SIZE | length (pad p))%nat ∧ (length p < length (pad p) ≤ length p + BLOCK_SIZE)%nat
  ∧ ((length p / BLOCK_SIZE = length q / BLOCK_SIZE)%nat → length (pad p) = length (pad q)).
Proof. destruct (pad_unpad p) as (?&?&?). auto 10 using unpad_iff, pad_length_block. Qed.
