(* ===== verification/Kdf.v ===== *)
(** * Key derivation functions

    Models [src/primitives/kdf.rs]: the Double Ratchet KDFs ([kdf_rk], [kdf_ck]), the
    SPQR KDFs ([kdf_scka_init], [kdf_scka_rk], [kdf_scka_ck]) and the hybrid combiner
    ([kdf_hybrid]), over the HKDF and HMAC interface.  Every call asks for 32, 64 or
    96 bytes, inside HKDF-SHA256's limit, so the [expect]s of the source never fire. *)

From S2P Require Import Prelude Foundation Interfaces.

Record RootKeyOutput : Type := mk_rk_out { rk_root_key : RootKey; rk_chain_key : ChainKey }.
Record ChainKeyOutput : Type := mk_ck_out { ck_chain_key : ChainKey; ck_message_key : MessageKey }.
Record SckaChains : Type := mk_scka_chains {
  scka_root_key : RootKey;
  chain_key_0 : ChainKey;
  chain_key_1 : ChainKey;
}.

Definition SPQR_PROTOCOL_INFO : bytes := bstr "HushwireSPQR".
Definition TR_PROTOCOL_INFO : bytes := bstr "HushwireTripleRatchet".

(** [[0u8; 32]]. *)
Definition zero32 : bytes := replicate 32 x00.

Section kdf.
Context `{Hashes}.

Definition hkdf_sha256 (ikm : bytes) (salt : option bytes) (info : bytes) (output_len : nat) : bytes :=
  hkdf_expand salt ikm info output_len.

Definition kdf_rk (root_key : RootKey) (dh_output : bytes) : RootKeyOutput :=
  let okm := hkdf_expand (Some root_key) dh_output (bstr "HushwireRatchet") 64 in
  mk_rk_out (take 32 okm) (take 32 (drop 32 okm)).

Definition kdf_ck (chain_key : ChainKey) : ChainKeyOutput :=
  let message_key := hmac_sha256 chain_key [x01] in
  let new_chain_key := hmac_sha256 chain_key [x02] in
  mk_ck_out new_chain_key message_key.

Definition split_scka_chains (okm : bytes) : SckaChains :=
  mk_scka_chains (take 32 okm) (take 32 (drop 32 okm)) (take 32 (drop 64 okm)).

Definition kdf_scka_init (sk : bytes) : SckaChains :=
  let info := SPQR_PROTOCOL_INFO ++ bstr "Chain Start" in
  split_scka_chains (hkdf_sha256 sk (Some zero32) info 96).

Definition kdf_scka_rk (rk : RootKey) (scka_output : bytes) : SckaChains :=
  let info := SPQR_PROTOCOL_INFO ++ bstr "Chain Add Epoch" in
  split_scka_chains (hkdf_sha256 scka_output (Some rk) info 96).

Definition kdf_scka_ck (ck : ChainKey) (ctr : Z) : ChainKeyOutput :=
  let info := SPQR_PROTOCOL_INFO ++ bstr ":Chain Step" in
  let okm := hkdf_sha256 (be_bytes 4 ctr) (Some ck) info 64 in
  mk_ck_out (take 32 okm) (take 32 (drop 32 okm)).

Definition kdf_hybrid (ec_mk : MessageKey) (pq_mk : bytes) : MessageKey :=
  hkdf_sha256 ec_mk (Some pq_mk) TR_PROTOCOL_INFO 32.

(** ** Every derived key is a 32-byte key *)

Context `{!HashesOk}.

Lemma take_32_wf (l : bytes) : (32 ≤ length l)%nat → wf_key (take 32 l).
Proof. intros. unfold wf_key. len. Qed.

Lemma kdf_rk_wf rk dh : wf_key (rk_root_key (kdf_rk rk dh)) ∧ wf_key (rk_chain_key (kdf_rk rk dh)).
Proof. split; apply take_32_wf; rewrite ?length_drop, hkdf_length; lia. Qed.

Lemma kdf_ck_wf ck : wf_key (ck_chain_key (kdf_ck ck)) ∧ wf_key (ck_message_key (kdf_ck ck)).
Proof. split; apply hmac_length. Qed.

Definition scka_chains_wf (c : SckaChains) : Prop :=
  wf_key (scka_root_key c) ∧ wf_key (chain_key_0 c) ∧ wf_key (chain_key_1 c).

Lemma split_scka_chains_wf okm : length okm = 96%nat → scka_chains_wf (split_scka_chains okm).
Proof. intros Hl. split_and!; apply take_32_wf; rewrite ?length_drop, Hl; lia. Qed.

Lemma kdf_scka_init_wf sk : scka_chains_wf (kdf_scka_init sk).
Proof. apply split_scka_chains_wf, hkdf_length. lia. Qed.

Lemma kdf_scka_rk_wf rk out : scka_chains_wf (kdf_scka_rk rk out).
Proof. apply split_scka_chains_wf, hkdf_length. lia. Qed.

Lemma kdf_scka_ck_wf ck n :
  wf_key (ck_chain_key (kdf_scka_ck ck n)) ∧ wf_key (ck_message_key (kdf_scka_ck ck n)).
Proof. split; apply take_32_wf; unfold hkdf_sha256; rewrite ?length_drop, hkdf_length; lia. Qed.

Lemma kdf_hybrid_wf ec pq : wf_key (kdf_hybrid ec pq).
Proof. apply hkdf_length. lia. Qed.

End kdf.

#[export] Hint Resolve kdf_hybrid_wf : hushwire.

(** The HKDF inputs of the SPQR functions are pairwise domain-separated: no two of
    their [info] strings agree. *)
Lemma spqr_infos_distinct :
  NoDup [SPQR_PROTOCOL_INFO ++ bstr "Chain Start"; SPQR_PROTOCOL_INFO ++ bstr "Chain Add Epoch";
         SPQR_PROTOCOL_INFO ++ bstr ":Chain Step"; TR_PROTOCOL_INFO; bstr "HushwireRatchet"].
Proof. apply (bool_decide_unpack _). by vm_compute. Qed.
