(* ===== verification/Keys.v ===== *)
(** * Identity and ephemeral keys

    Models [src/primitives/keys.rs].  An [IdentityKeyPair] is its Ed25519 seed; the
    X25519 private key is the clamped SHA-512 of the seed and the X25519 public key
    the Montgomery form of the Ed25519 public key. *)

From S2P Require Import Prelude Foundation Interfaces.

(** Bit operations on a byte. *)
Definition byte_and (b : byte) (m : Z) : byte := byte_of_Z (Z.land (Z_of_byte b) m).
Definition byte_or (b : byte) (m : Z) : byte := byte_of_Z (Z.lor (Z_of_byte b) m).

(** The RFC 8032 clamp of a 32-byte scalar: bits 0, 1, 2 and 255 cleared, bit 254 set. *)
Definition clamp (scalar : bytes) : bytes :=
  let scalar := alter (λ b, byte_and b 248) 0%nat scalar in
  let scalar := alter (λ b, byte_and b 127) 31%nat scalar in
  alter (λ b, byte_or b 64) 31%nat scalar.

Section keys.
Context `{Hashes} `{X25519} `{Ed25519}.

Record IdentityKeyPair : Type := mk_identity { seed : bytes }.
Record IdentityPublicKey : Type := mk_identity_public { identity_vk : VerifyingKey }.

(** [IdentityKeyPair::generate] draws the seed. *)
Definition identity_generate (rng : bytes) : IdentityKeyPair := mk_identity rng.
Definition identity_from_seed (s : bytes) : IdentityKeyPair := mk_identity s.
Definition public_key (k : IdentityKeyPair) : IdentityPublicKey :=
  mk_identity_public (verifying_key (seed k)).
Definition identity_sign (k : IdentityKeyPair) (data : bytes) : bytes := ed_sign (seed k) data.

Definition x25519_private_key (k : IdentityKeyPair) : bytes :=
  clamp (take 32 (sha512 (seed k))).

Definition identity_public_from_bytes (bs : bytes) : result IdentityPublicKey :=
  key ← ok_or (vk_from_bytes bs) InvalidKey;
  Ok (mk_identity_public key).

Definition as_bytes (p : IdentityPublicKey) : bytes := vk_to_bytes (identity_vk p).

Definition identity_verify (p : IdentityPublicKey) (data signature : bytes) : result () :=
  if bool_decide (length signature = 64%nat) then
    if ed_verify (identity_vk p) data signature then Ok () else Err InvalidSignature
  else Err InvalidSignature.

Definition to_x25519 (p : IdentityPublicKey) : bytes := ed_to_montgomery (identity_vk p).

Definition x25519_public_key (k : IdentityKeyPair) : bytes := to_x25519 (public_key k).

(** [impl PartialEq for IdentityPublicKey]: equality of the encodings. *)
Definition identity_eqb (p q : IdentityPublicKey) : bool := bool_decide (as_bytes p = as_bytes q).

(** [Serialize] and [Deserialize]: the 32 bytes, checked to be a point when read back. *)
Definition identity_serialize (p : IdentityPublicKey) : bytes := as_bytes p.
Definition identity_deserialize (read : Result string bytes) : Result string IdentityPublicKey :=
  bs ← read; map_err error_to_string (identity_public_from_bytes bs).

Record EphemeralKeyPair : Type := mk_ephemeral { eph_secret : bytes; eph_public : bytes }.

Definition ephemeral_generate (rng : bytes) : EphemeralKeyPair :=
  mk_ephemeral rng (x25519_public rng).
Definition ephemeral_diffie_hellman (k : EphemeralKeyPair) (their_public : bytes) : bytes :=
  diffie_hellman (eph_secret k) their_public.
Definition public_key_bytes (k : EphemeralKeyPair) : bytes := eph_public k.

(** [SharedSecret] wraps the 32 bytes of a Diffie-Hellman result. *)
Record SharedSecret : Type := mk_shared_secret { ss_bytes : bytes }.
Definition shared_secret_from_bytes (bs : bytes) : SharedSecret := mk_shared_secret bs.
Definition shared_secret_as_bytes (s : SharedSecret) : bytes := ss_bytes s.

(** The Edwards-to-Montgomery map sends the Ed25519 public key of a seed to the
    X25519 public key of its clamped scalar (RFC 7748, section 4.1). *)
Class MontgomeryOk : Prop := {
  montgomery_public (s : bytes) :
    ed_to_montgomery (verifying_key s) = x25519_public (x25519_private_key (mk_identity s));
}.

Context `{!HashesOk} `{!X25519Ok} `{!Ed25519Ok} `{!MontgomeryOk}.

Lemma identity_public_roundtrip p : identity_public_from_bytes (as_bytes p) = Ok p.
Proof. unfold identity_public_from_bytes, as_bytes. rewrite vk_from_to. by destruct p. Qed.

(** Only encodings of points deserialize, each to the key it encodes. *)
Lemma identity_deserialize_exact read p :
  identity_deserialize read = Ok p ↔ ∃ bs, read = Ok bs ∧ vk_from_bytes bs = Some (identity_vk p).
Proof.
  unfold identity_deserialize, identity_public_from_bytes. destruct read as [bs|e]; simpl; [|split; [done|by intros (? & ? & _)]].
  split.
  - destruct (vk_from_bytes bs) as [vk|] eqn:E; simpl; [|done]. intros [= <-]. by exists bs.
  - intros (? & [= <-] & E). rewrite E. by destruct p.
Qed.

Lemma identity_eqb_eq p q : identity_eqb p q = true ↔ p = q.
Proof.
  unfold identity_eqb. rewrite bool_decide_eq_true. split; [|by intros ->].
  intros E. pose proof (identity_public_roundtrip p) as Hp.
  rewrite E, identity_public_roundtrip in Hp. by injection Hp.
Qed.

Lemma identity_sign_verify k data :
  identity_verify (public_key k) data (identity_sign k data) = Ok ().
Proof.
  unfold identity_verify, identity_sign, public_key; simpl.
  rewrite bool_decide_eq_true_2 by apply ed_sign_length. by rewrite ed_verify_sign.
Qed.

(** A verification error is always [InvalidSignature]. *)
Lemma identity_verify_cases p data s :
  identity_verify p data s = Ok () ∨ identity_verify p data s = Err InvalidSignature.
Proof. unfold identity_verify. split_cases; auto. Qed.

Lemma x25519_public_key_eq k : x25519_public_key k = x25519_public (x25519_private_key k).
Proof. destruct k. apply montgomery_public. Qed.

(** Two identities agree on the Diffie-Hellman secret of their derived X25519 keys. *)
Theorem identity_dh_agreement a b :
  diffie_hellman (x25519_private_key a) (to_x25519 (public_key b))
  = diffie_hellman (x25519_private_key b) (to_x25519 (public_key a)).
Proof.
  change (to_x25519 (public_key b)) with (x25519_public_key b).
  change (to_x25519 (public_key a)) with (x25519_public_key a).
  rewrite !x25519_public_key_eq. apply dh_comm.
Qed.

End keys.

(** ** Clamping *)

Lemma length_clamp s : length (clamp s) = length s.
Proof. unfold clamp. by rewrite !length_alter. Qed.

Lemma byte_and_248 b : Z_of_byte (byte_and b 248) mod 8 = 0.
Proof. by destruct b. Qed.

Lemma byte_clamp_high b :
  64 ≤ Z_of_byte (byte_or (byte_and b 127) 64) < 128.
Proof. destruct b; vm_compute; split; congruence. Qed.

(** The derived scalar is a multiple of 8 whose top byte has bit 7 clear and bit 6 set. *)
Lemma x25519_private_key_clamped `{HashesOk} k :
  ∃ b0 mid b31,
    x25519_private_key k = b0 :: mid ++ [b31] ∧ length mid = 30%nat
    ∧ Z_of_byte b0 mod 8 = 0 ∧ 64 ≤ Z_of_byte b31 < 128.
Proof.
  unfold x25519_private_key.
  assert (length (take 32 (sha512 (seed k))) = 32%nat) as Hl.
  { rewrite length_take, sha512_length. lia. }
  destruct (take 32 (sha512 (seed k))) as [|b0 rest]; [done|].
  destruct rest as [|b31 mid _] using rev_ind; [done|].
  simpl in Hl. rewrite length_app in Hl. simpl in Hl.
  assert (length mid = 30%nat) as Hm by lia.
  exists (byte_and b0 248), mid, (byte_or (byte_and b31 127) 64).
  split_and!; [|done|apply byte_and_248|apply byte_clamp_high..].
  assert (∀ f (b x : byte), alter f 31%nat (b :: mid ++ [x]) = b :: mid ++ [f x]) as Ha.
  { intros f b x. rewrite app_comm_cons, alter_app_r_alt by (simpl; lia).
    simpl. by rewrite Hm. }
  unfold clamp. change (alter ?f 0%nat (?b :: ?l)) with (f b :: l). by rewrite !Ha.
Qed.
