(* ===== verification/AeadRecord.v ===== *)
(** * XChaCha20-Poly1305 messages

    Models [src/primitives/aead.rs]: the message key is expanded with HKDF and the
    24-byte nonce, drawn by the caller here, is prepended to the ciphertext. *)

From S2P Require Import Prelude Foundation Interfaces Kdf.

Definition NONCE_SIZE : nat := 24.

Section aead.
Context `{Hashes} `{Aead}.

Definition derive_enc_key (message_key : bytes) : bytes :=
  hkdf_expand (Some zero32) message_key (bstr "HushwireMessageKey") 32.

Definition encrypt (nonce_bytes message_key plaintext ad : bytes) : result bytes :=
  ciphertext ← ok_or (xchacha_encrypt (derive_enc_key message_key) nonce_bytes plaintext ad)
                     (EncryptionFailed "AEAD encrypt failed");
  Ok (nonce_bytes ++ ciphertext).

Definition decrypt (message_key encrypted ad : bytes) : result bytes :=
  if bool_decide (length encrypted < NONCE_SIZE + 16)%nat then Err InvalidCiphertext
  else
    let nonce_bytes := take NONCE_SIZE encrypted in
    let ciphertext := drop NONCE_SIZE encrypted in
    ok_or (xchacha_decrypt (derive_enc_key message_key) nonce_bytes ciphertext ad)
          (DecryptionFailed "AEAD decrypt failed").

Context `{!AeadOk}.

Lemma encrypt_Ok nonce mk pt ad :
  ∃ c, encrypt nonce mk pt ad = Ok (nonce ++ c) ∧ length c = (length pt + 16)%nat
       ∧ xchacha_decrypt (derive_enc_key mk) nonce c ad = Some pt.
Proof.
  destruct (xchacha_encrypt_ok (derive_enc_key mk) nonce pt ad) as [c Hc].
  exists c. unfold encrypt. rewrite Hc. simpl.
  eauto using xchacha_length, xchacha_decrypt_encrypt.
Qed.

Lemma encrypt_decrypt nonce mk pt ad :
  length nonce = NONCE_SIZE →
  ∃ c, encrypt nonce mk pt ad = Ok c ∧ decrypt mk c ad = Ok pt
       ∧ length c = (NONCE_SIZE + length pt + 16)%nat.
Proof.
  intros Hn. destruct (encrypt_Ok nonce mk pt ad) as (c & Henc & Hl & Hdec).
  exists (nonce ++ c). split_and!; [done| |].
  - unfold decrypt. rewrite bool_decide_eq_false_2 by (rewrite length_app; lia).
    rewrite take_app_length', drop_app_length' by done. by rewrite Hdec.
  - rewrite length_app. lia.
Qed.

(** Decryption under the same key and associated data returns the plaintext; the
    ciphertext is [24 + len + 16] bytes. *)
Theorem aead_roundtrip nonce mk pt ad :
  length nonce = NONCE_SIZE →
  ∃ c, encrypt nonce mk pt ad = Ok c ∧ decrypt mk c ad = Ok pt
       ∧ length c = (NONCE_SIZE + length pt + 16)%nat.
Proof. apply encrypt_decrypt. Qed.

Lemma decrypt_short mk c ad :
  (length c < NONCE_SIZE + 16)%nat → decrypt mk c ad = Err InvalidCiphertext.
Proof. intros. unfold decrypt. by rewrite bool_decide_eq_true_2. Qed.

End aead.
