(* ===== verification/Erasure.v ===== *)
(** * Streaming Reed-Solomon codewords for the braid

    Models [src/protocol/braid/erasure.rs].  The codec [reed_solomon_simd] is an
    interface: [rs_encode]/[rs_decode] with the behaviour the crate relies on.  A
    codeword index is the [u16] it has on the wire; the decoder's ordered map is a
    finite map, and the codec receives the present and the recovery shards as maps
    from shard number to shard. *)

From S2P Require Import Prelude Foundation Padding.

(** ** The codec *)

Class ReedSolomon : Type := {
  (** [reed_solomon_simd::encode(k, r, originals)]. *)
  rs_encode : nat → nat → list bytes → Result string (list bytes);
  (** [reed_solomon_simd::decode(k, r, present, recovery)]: the missing originals. *)
  rs_decode : nat → nat → gmap Z bytes → gmap Z bytes → Result string (gmap Z bytes);
}.

Definition CHUNK_BYTES : nat := 32.

(** Shards of the codec's shape. *)
Definition shards_wf (os : list bytes) : Prop := Forall (λ s, length s = CHUNK_BYTES) os.

Class ReedSolomonOk `{ReedSolomon} : Prop := {
  rs_encode_ok k r os :
    (0 < k)%nat → Z.of_nat k ≤ 1024 → (0 < r)%nat → Z.of_nat r ≤ 1024 → length os = k → shards_wf os →
    ∃ rec, rs_encode k r os = Ok rec ∧ length rec = r ∧ shards_wf rec;
  (** A restored shard is the original one when every input shard is genuine. *)
  rs_decode_sound k r os rec present recovery restored :
    length os = k → rs_encode k r os = Ok rec →
    present ⊆ map_seqZ 0 os → recovery ⊆ map_seqZ 0 rec →
    rs_decode k r present recovery = Ok restored →
    ∀ i d, restored !! i = Some d → (map_seqZ 0 os : gmap Z bytes) !! i = Some d;
  (** A restored shard has the size of the input shards, genuine or not. *)
  rs_decode_shape k r present recovery restored :
    map_Forall (λ _ d, length d = CHUNK_BYTES) present → map_Forall (λ _ d, length d = CHUNK_BYTES) recovery →
    rs_decode k r present recovery = Ok restored → map_Forall (λ _ d, length d = CHUNK_BYTES) restored;
}.

(** The maximum-distance property at [k] data and [r] recovery shards: any [k]
    distinct genuine shards restore the missing originals. *)
Definition rs_recovers `{ReedSolomon} (k r : nat) : Prop :=
  ∀ os rec present recovery,
    length os = k → shards_wf os → rs_encode k r os = Ok rec →
    present ⊆ map_seqZ 0 os → recovery ⊆ map_seqZ 0 rec →
    (k ≤ size present + size recovery)%nat →
    ∃ restored, rs_decode k r present recovery = Ok restored
      ∧ ∀ i, 0 ≤ i < Z.of_nat k → present !! i = None → is_Some (restored !! i).

(** ** The component *)

Definition erasure_err (msg : string) : CryptoError := BraidErasure msg.

Definition data_shards_for (n : nat) : nat := Nat.max (div_ceil n CHUNK_BYTES) 1.

(** Messages of at most 1024 data shards, within the codec's limits. *)
Definition fits (n : nat) : Prop := Z.of_nat n ≤ 32768.

Definition RECOVERY_MULTIPLE : nat := 8.
Definition MAX_RECOVERY_SHARDS : nat := 1024.

Definition recovery_shards_for (n : nat) : nat :=
  Nat.min (data_shards_for n * RECOVERY_MULTIPLE) MAX_RECOVERY_SHARDS.

Record Chunk : Type := mk_chunk { chunk_index : Z; chunk_data : bytes }.

#[export] Instance chunk_eq_dec : EqDecision Chunk.
Proof. solve_decision. Defined.

Record Encoder : Type := mk_encoder { shards : list bytes; cursor : Z }.

Record Decoder : Type := mk_decoder {
  dec_len : nat;
  data_shards : nat;
  recovery_shards : nat;
  received : gmap Z bytes;
}.

(** [slice.chunks_exact(n)], of a slice whose length is a multiple [c] of [n]. *)
Fixpoint chunks_exact (c n : nat) (l : bytes) : list bytes :=
  match c with
  | O => []
  | S c => take n l :: chunks_exact c n (drop n l)
  end.

Section erasure.
Context `{ReedSolomon}.

Definition encoder_new (data : bytes) : result Encoder :=
  if bool_decide (data = []) then Err (erasure_err "cannot encode an empty message")
  else
    let k := data_shards_for (length data) in
    let padded := resize (k * CHUNK_BYTES) x00 data in
    let originals := chunks_exact k CHUNK_BYTES padded in
    let r := recovery_shards_for (length data) in
    recovery ← map_err (λ e, erasure_err ("rs encode: " +:+ e)) (rs_encode k r originals);
    Ok (mk_encoder (originals ++ recovery) 0).

(** [usize] counters are 64-bit; [index as u16] truncates. *)
Definition next_chunk (e : Encoder) : Chunk * Encoder :=
  let index := cursor e mod Z.of_nat (length (shards e)) in
  (mk_chunk (index mod (u16_max + 1)) (nth (Z.to_nat index) (shards e) []),
   mk_encoder (shards e) (add_u64 (cursor e) 1)).

Definition decoder_new (n : nat) : Decoder :=
  mk_decoder n (data_shards_for n) (recovery_shards_for n) ∅.

Definition total_shards (d : Decoder) : nat := data_shards d + recovery_shards d.

Definition with_received (d : Decoder) (m : gmap Z bytes) : Decoder :=
  mk_decoder (dec_len d) (data_shards d) (recovery_shards d) m.

Definition add_chunk (d : Decoder) (c : Chunk) : result Decoder :=
  if bool_decide (length (chunk_data c) ≠ CHUNK_BYTES)
  then Err (erasure_err "codeword has wrong length")
  else if Z.of_nat (total_shards d) <=? chunk_index c
  then Err (erasure_err "codeword index out of range")
  else Ok (with_received d
             (match received d !! chunk_index c with
              | Some _ => received d
              | None => <[chunk_index c := chunk_data c]> (received d)
              end)).

Definition has_message (d : Decoder) : bool := (data_shards d <=? size (received d))%nat.

Definition reset (d : Decoder) : Decoder := with_received d ∅.

(** The present systematic shards, and the recovery shards renumbered from 0. *)
Definition present_shards (k : nat) (m : gmap Z bytes) : gmap Z bytes :=
  filter (λ p, p.1 < Z.of_nat k) m.
Definition recovery_shards_in (k : nat) (m : gmap Z bytes) : gmap Z bytes :=
  kmap (λ i, i - Z.of_nat k) (filter (λ p, Z.of_nat k ≤ p.1) m).

(** The loop [for i in 0..k] of [message]: a received shard first, else a restored one. *)
Definition shard_at (rcv restored : gmap Z bytes) (i : Z) : result bytes :=
  match rcv !! i with
  | Some d => Ok d
  | None => ok_or (restored !! i) (erasure_err "reconstruction incomplete")
  end.

Fixpoint gather (rcv restored : gmap Z bytes) (idxs : list Z) : result bytes :=
  match idxs with
  | [] => Ok []
  | i :: idxs =>
      d ← shard_at rcv restored i;
      rest ← gather rcv restored idxs;
      Ok (d ++ rest)
  end.

Definition message (d : Decoder) : result (option bytes) :=
  if negb (has_message d) then Ok None
  else
    let k := data_shards d in
    let idxs := seqZ 0 (Z.of_nat k) in
    restored ← (if forallb (λ i, bool_decide (is_Some (received d !! i))) idxs then Ok ∅
                else map_err (λ e, erasure_err ("rs decode: " +:+ e))
                       (rs_decode k (recovery_shards d)
                          (present_shards k (received d)) (recovery_shards_in k (received d))));
    out ← gather (received d) restored idxs;
    Ok (Some (take (dec_len d) out)).

End erasure.

(** ** Lemmas on shards *)

Lemma length_chunks_exact c n l : length (chunks_exact c n l) = c.
Proof. revert l; induction c; simpl; intros; auto. Qed.

Lemma chunks_exact_wf c l : length l = (c * CHUNK_BYTES)%nat → shards_wf (chunks_exact c CHUNK_BYTES l).
Proof.
  revert l; induction c as [|c IH]; intros l Hl; simpl; constructor.
  - rewrite length_take. lia.
  - apply IH. rewrite length_drop. lia.
Qed.

Lemma concat_chunks_exact c n l : length l = (c * n)%nat → concat (chunks_exact c n l) = l.
Proof.
  revert l; induction c as [|c IH]; intros l Hl; simpl.
  - symmetry. by apply nil_length_inv.
  - rewrite IH by (rewrite length_drop; lia). apply take_drop.
Qed.

Lemma data_shards_spec n : (n ≤ data_shards_for n * CHUNK_BYTES)%nat ∧ (0 < data_shards_for n)%nat.
Proof.
  unfold data_shards_for. pose proof (div_ceil_spec n CHUNK_BYTES ltac:(unfold CHUNK_BYTES; lia)).
  nia.
Qed.

Lemma data_shards_fits n : fits n → Z.of_nat (data_shards_for n) ≤ 1024.
Proof.
  unfold fits. intros Hn. unfold data_shards_for.
  pose proof (div_ceil_spec n CHUNK_BYTES ltac:(unfold CHUNK_BYTES; lia)).
  unfold CHUNK_BYTES in *. lia.
Qed.

Lemma recovery_shards_bound n : Z.of_nat (recovery_shards_for n) ≤ 1024.
Proof. unfold recovery_shards_for, MAX_RECOVERY_SHARDS. lia. Qed.

(** The systematic shards of a message: the zero-padded data cut into codewords. *)
Definition originals_of (data : bytes) : list bytes :=
  let k := data_shards_for (length data) in
  chunks_exact k CHUNK_BYTES (resize (k * CHUNK_BYTES) x00 data).

Lemma length_resize n b l : length (resize n b l) = n.
Proof. unfold resize. len. Qed.

Lemma length_originals_of data : length (originals_of data) = data_shards_for (length data).
Proof. apply length_chunks_exact. Qed.

Lemma originals_of_wf data : shards_wf (originals_of data).
Proof. apply chunks_exact_wf, length_resize. Qed.

Lemma originals_of_concat data : take (length data) (concat (originals_of data)) = data.
Proof.
  unfold originals_of. rewrite concat_chunks_exact by apply length_resize.
  rewrite resize_extend by apply data_shards_spec. by rewrite take_app_length.
Qed.

(** Reading the shards at consecutive indices gives their concatenation. *)
Lemma gather_sound rcv restored os j out :
  (∀ i d, shard_at rcv restored i = Ok d → j ≤ i < j + Z.of_nat (length os) →
     (map_seqZ j os : gmap Z bytes) !! i = Some d) →
  gather rcv restored (seqZ j (Z.of_nat (length os))) = Ok out → out = concat os.
Proof.
  revert j out. induction os as [|o os IH]; intros j out Hs; [by intros [= <-]|].
  rewrite seqZ_cons by (simpl; lia). simpl.
  intros (d0 & Hd0 & (rest & Hrest & [= <-])%result_bind_Ok)%result_bind_Ok.
  apply Hs in Hd0; [|simpl; lia].
  simpl in Hd0. rewrite lookup_insert_eq in Hd0. simplify_eq. f_equal.
  eapply (IH (Z.succ j)).
  - intros i d Hd Hi. rewrite <-(Hs i d Hd) by (simpl; lia).
    simpl. rewrite lookup_insert_ne by lia. done.
  - rewrite <-Hrest. do 2 f_equal. simpl. lia.
Qed.

Lemma gather_complete rcv restored j n :
  (∀ i, j ≤ i < j + Z.of_nat n → ∃ d, shard_at rcv restored i = Ok d) →
  ∃ out, gather rcv restored (seqZ j (Z.of_nat n)) = Ok out.
Proof.
  revert j. induction n as [|n IH]; intros j Hs; [by exists []|].
  rewrite seqZ_cons by lia. destruct (Hs j) as [d Hd]; [lia|]. simpl. rewrite Hd.
  destruct (IH (Z.succ j)) as [out Hout]; [intros; apply Hs; lia|].
  exists (d ++ out). simpl. replace (Z.pred (Z.of_nat (S n))) with (Z.of_nat n) by lia.
  by rewrite Hout.
Qed.

(** ** Genuine encoders and decoders *)

Section genuine.
Context `{ReedSolomon}.

(** The codewords of a message with recovery shards [rec]. *)
Definition codewords (data : bytes) (rec : list bytes) : gmap Z bytes :=
  map_seqZ 0 (originals_of data ++ rec).

(** [rec] are the recovery shards the codec computes for [data]. *)
Definition recovery_of (data : bytes) (rec : list bytes) : Prop :=
  rs_encode (data_shards_for (length data)) (recovery_shards_for (length data)) (originals_of data)
    = Ok rec
  ∧ length rec = recovery_shards_for (length data) ∧ shards_wf rec.

(** The encoder streams [data]. *)
Definition encodes (data : bytes) (e : Encoder) : Prop :=
  ∃ rec, recovery_of data rec ∧ shards e = originals_of data ++ rec ∧ 0 ≤ cursor e.

(** The decoder is sized for [data] and holds only codewords of it. *)
Definition collects (data : bytes) (d : Decoder) : Prop :=
  ∃ rec m, recovery_of data rec ∧ d = with_received (decoder_new (length data)) m
           ∧ m ⊆ codewords data rec.

(** The codeword belongs to [data]. *)
Definition codeword_of (data : bytes) (c : Chunk) : Prop :=
  ∃ rec, recovery_of data rec ∧ codewords data rec !! chunk_index c = Some (chunk_data c).

Lemma recovery_of_unique data r1 r2 : recovery_of data r1 → recovery_of data r2 → r1 = r2.
Proof. intros [E1 _] [E2 _]. congruence. Qed.

Lemma codewords_lookup data rec i d :
  recovery_of data rec → codewords data rec !! i = Some d →
  0 ≤ i < Z.of_nat (total_shards (decoder_new (length data))) ∧ length d = CHUNK_BYTES.
Proof.
  intros (_ & Hlen & Hwf) [Hi Hd]%lookup_map_seqZ_Some.
  assert (Z.to_nat (i - 0) < length (originals_of data ++ rec))%nat as Hlt
    by (by eapply lookup_lt_Some).
  rewrite length_app, length_originals_of, Hlen in Hlt. split.
  - unfold total_shards; simpl. lia.
  - assert (shards_wf (originals_of data ++ rec)) as Hall
      by (by apply Forall_app_2; [apply originals_of_wf|]).
    by apply (Forall_lookup_1 _ _ _ _ Hall Hd).
Qed.

Lemma decoder_new_collects data rec : recovery_of data rec → collects data (decoder_new (length data)).
Proof. intros Hr. exists rec, ∅. split_and!; [done..|apply map_empty_subseteq]. Qed.

Lemma reset_collects data d : collects data d → collects data (reset d).
Proof. intros (rec & m & Hr & -> & _). exists rec, ∅. split_and!; [done..|apply map_empty_subseteq]. Qed.

Lemma encoder_new_encodes `{!ReedSolomonOk} data :
  data ≠ [] → fits (length data) →
  ∃ e, encoder_new data = Ok e ∧ encodes data e.
Proof.
  intros Hne Hlen. unfold encoder_new. rewrite bool_decide_eq_false_2 by done.
  fold (originals_of data).
  destruct (rs_encode_ok (data_shards_for (length data)) (recovery_shards_for (length data))
              (originals_of data)) as (rec & Hrec & Hl & Hwf).
  - apply data_shards_spec.
  - by apply data_shards_fits.
  - pose proof (data_shards_spec (length data)). unfold recovery_shards_for, RECOVERY_MULTIPLE, MAX_RECOVERY_SHARDS. lia.
  - apply recovery_shards_bound.
  - apply length_originals_of.
  - apply originals_of_wf.
  - rewrite Hrec. simpl. eexists. split; [done|]. exists rec. done.
Qed.

(** Any encoder that [encoder_new] returns has the codec's shards. *)
Lemma encoder_new_inv `{!ReedSolomonOk} data e :
  fits (length data) → encoder_new data = Ok e → encodes data e.
Proof.
  intros Hlen He. destruct (decide (data = [])) as [->|Hne].
  { unfold encoder_new in He. by rewrite bool_decide_eq_true_2 in He. }
  destruct (encoder_new_encodes data Hne Hlen) as (e' & He' & Henc).
  rewrite He in He'. by injection He' as <-.
Qed.

(** Every codeword an encoder emits belongs to its message. *)
Lemma next_chunk_codeword data e :
  encodes data e → fits (length data) →
  codeword_of data (next_chunk e).1 ∧ encodes data (next_chunk e).2.
Proof.
  intros (rec & Hr & Hsh & Hc) Hlen. split;
    [|exists rec; split_and!; [done|done|apply add_u64_range]].
  exists rec. split; [done|]. unfold next_chunk; simpl. rewrite Hsh.
  pose proof Hr as (_ & Hl & _).
  pose proof (data_shards_fits _ Hlen). pose proof (recovery_shards_bound (length data)).
  pose proof (data_shards_spec (length data)).
  set (n := length (originals_of data ++ rec)).
  assert (n = data_shards_for (length data) + recovery_shards_for (length data))%nat as Hn.
  { unfold n. by rewrite length_app, length_originals_of, Hl. }
  assert (0 ≤ cursor e mod Z.of_nat n < Z.of_nat n) as Hi by (apply Z.mod_pos_bound; lia).
  rewrite (Z.mod_small _ (u16_max + 1)) by (unfold u16_max; lia).
  unfold codewords. apply lookup_map_seqZ_Some. split; [lia|]. rewrite Z.sub_0_r.
  rewrite nth_lookup.
  destruct ((originals_of data ++ rec) !! Z.to_nat (cursor e mod Z.of_nat n)) eqn:E; [done|].
  apply lookup_ge_None in E. fold n in E. lia.
Qed.

(** A genuine codeword is always admitted and keeps the decoder genuine. *)
Lemma add_chunk_collects data d c :
  collects data d → codeword_of data c → ∃ d', add_chunk d c = Ok d' ∧ collects data d'.
Proof.
  intros (rec & m & Hr & -> & Hm) (rec' & Hr' & Hc).
  rewrite (recovery_of_unique _ _ _ Hr' Hr) in Hc.
  destruct (codewords_lookup _ _ _ _ Hr Hc) as [Hi Hl].
  unfold add_chunk. rewrite bool_decide_eq_false_2 by auto.
  rewrite (proj2 (Z.leb_gt _ _)) by (unfold total_shards in *; simpl in *; lia).
  eexists. split; [done|]. exists rec. eexists. split_and!; [done..|]. simpl.
  destruct (m !! chunk_index c) eqn:E; [done|]. by apply insert_subseteq_l.
Qed.

End genuine.

(** ** Reconstruction *)

Section reconstruction.
Context `{ReedSolomonOk}.

Lemma codewords_present data rec m :
  m ⊆ codewords data rec →
  present_shards (data_shards_for (length data)) m ⊆ map_seqZ 0 (originals_of data).
Proof.
  intros Hm. apply map_subseteq_spec. intros i d [Hi Hk]%map_lookup_filter_Some. simpl in Hk.
  pose proof (lookup_weaken _ _ _ _ Hi Hm) as Hc.
  apply lookup_map_seqZ_Some in Hc as [Hi0 Hc]. apply lookup_map_seqZ_Some. split; [done|].
  rewrite lookup_app_l in Hc; [done|]. rewrite length_originals_of. lia.
Qed.

Lemma codewords_recovery data rec m :
  m ⊆ codewords data rec →
  recovery_shards_in (data_shards_for (length data)) m ⊆ map_seqZ 0 rec.
Proof.
  intros Hm. apply map_subseteq_spec. intros i d Hi. unfold recovery_shards_in in Hi.
  apply lookup_kmap_Some in Hi as (j & -> & Hj); [|intros ???; lia].
  apply map_lookup_filter_Some in Hj as [Hj Hk]. simpl in Hk.
  pose proof (lookup_weaken _ _ _ _ Hj Hm) as Hc.
  apply lookup_map_seqZ_Some in Hc as [Hi0 Hc]. apply lookup_map_seqZ_Some. split; [lia|].
  rewrite lookup_app_r in Hc by (rewrite length_originals_of; lia).
  rewrite length_originals_of in Hc. rewrite <-Hc. f_equal. lia.
Qed.

Lemma shards_split_size k (m : gmap Z bytes) :
  (size (present_shards k m) + size (recovery_shards_in k m) = size m)%nat.
Proof.
  unfold present_shards, recovery_shards_in. rewrite size_kmap_inj by (intros ???; lia).
  rewrite <-(map_filter_union_complement (λ p, p.1 < Z.of_nat k) m) at 3.
  rewrite map_size_disj_union by apply map_disjoint_filter_complement. do 2 f_equal.
  apply map_filter_ext. intros i x _. simpl. lia.
Qed.

(** The shard found at a systematic index is the original one. *)
Lemma shard_at_sound data rec m restored i d :
  m ⊆ codewords data rec →
  (∀ i d, restored !! i = Some d → (map_seqZ 0 (originals_of data) : gmap Z bytes) !! i = Some d) →
  shard_at m restored i = Ok d → 0 ≤ i < 0 + Z.of_nat (length (originals_of data)) →
  (map_seqZ 0 (originals_of data) : gmap Z bytes) !! i = Some d.
Proof.
  intros Hm Hres Hs Hi. unfold shard_at in Hs. destruct (m !! i) as [d'|] eqn:E.
  - injection Hs as ->. eapply lookup_weaken; [|by eapply (codewords_present data rec)].
    apply map_lookup_filter_Some. split; [done|]. simpl. rewrite length_originals_of in Hi. lia.
  - apply ok_or_Ok in Hs. by apply Hres.
Qed.

(** A decoder that only collected codewords of [data] never reconstructs anything else. *)
Lemma message_sound data d out :
  collects data d → message d = Ok (Some out) → out = data.
Proof.
  intros (rec & m & Hr & -> & Hm). unfold message. case_match; [done|]. simpl.
  intros (restored & Hrest & (o & Hg & [= <-])%result_bind_Ok)%result_bind_Ok.
  assert (∀ i d, restored !! i = Some d →
            (map_seqZ 0 (originals_of data) : gmap Z bytes) !! i = Some d) as Hs.
  { case_match; [by injection Hrest as <-|].
    destruct (rs_decode _ _ _ _) eqn:Hdec; inv_ok.
    eapply rs_decode_sound; [apply length_originals_of | apply Hr | | | done].
    - by apply codewords_present in Hm.
    - by apply codewords_recovery in Hm. }
  rewrite <-length_originals_of in Hg.
  rewrite (gather_sound m restored (originals_of data) 0 o); [apply originals_of_concat | | done].
  intros. by eapply shard_at_sound.
Qed.

(** Any [data_shards] distinct codewords of [data] reconstruct it, whichever they are. *)
Lemma message_complete data d :
  rs_recovers (data_shards_for (length data)) (recovery_shards_for (length data)) →
  collects data d → has_message d = true → message d = Ok (Some data).
Proof.
  intros Hmds Hcol Hhas. pose proof Hcol as (rec & m & Hr & -> & Hm).
  assert (∃ out, message (with_received (decoder_new (length data)) m) = Ok (Some out)) as [out Hout].
  { unfold message. rewrite Hhas. simpl.
    destruct (forallb _ _) eqn:Hall; simpl.
    - destruct (gather_complete m ∅ 0 (data_shards_for (length data))) as [out Ho].
      + intros i Hi. rewrite forallb_forall in Hall.
        specialize (Hall i). rewrite bool_decide_eq_true in Hall.
        destruct Hall as [d Hd]; [apply list_elem_of_In, elem_of_seqZ; lia|].
        exists d. unfold shard_at. by rewrite Hd.
      + rewrite Ho. simpl. eauto.
    - destruct (Hmds (originals_of data) rec
                  (present_shards (data_shards_for (length data)) m)
                  (recovery_shards_in (data_shards_for (length data)) m))
        as (restored & Hdec & Hfull);
        eauto using length_originals_of, originals_of_wf, codewords_present, codewords_recovery.
      { apply Hr. }
      { rewrite shards_split_size. by apply Nat.leb_le in Hhas. }
      rewrite Hdec. simpl.
      destruct (gather_complete m restored 0 (data_shards_for (length data))) as [out Ho].
      + intros i Hi. unfold shard_at. destruct (m !! i) as [d|] eqn:E; [eauto|].
        destruct (Hfull i) as [d Hd]; [lia| |rewrite Hd; simpl; eauto].
        apply map_lookup_filter_None. by left.
      + rewrite Ho. simpl. eauto. }
  rewrite Hout. by rewrite (message_sound _ _ _ Hcol Hout).
Qed.

(** ** A stream of codewords *)

(** The [j]-th codeword of an encoder, and a decoder fed a list of codewords. *)
Definition nth_chunk (e : Encoder) (j : nat) : Chunk :=
  (next_chunk (Nat.iter j (λ e, (next_chunk e).2) e)).1.
Fixpoint add_chunks (d : Decoder) (cs : list Chunk) : result Decoder :=
  match cs with
  | [] => Ok d
  | c :: cs => d ← add_chunk d c; add_chunks d cs
  end.

Lemma nth_chunk_codeword data e j :
  encodes data e → fits (length data) → codeword_of data (nth_chunk e j).
Proof.
  intros He Hf. apply next_chunk_codeword; [|done]. induction j as [|j IH]; [done|].
  by apply (next_chunk_codeword data _ IH Hf).
Qed.

Lemma add_chunk_dom d c d' :
  add_chunk d c = Ok d' → dom (received d') = {[chunk_index c]} ∪ dom (received d).
Proof.
  unfold add_chunk. repeat case_match; intros; simplify_eq/=; [|by rewrite dom_insert_L].
  symmetry. apply subseteq_union_1_L, singleton_subseteq_l, elem_of_dom. eauto.
Qed.

Lemma add_chunks_collects data cs : ∀ d,
  collects data d → Forall (codeword_of data) cs →
  ∃ d', add_chunks d cs = Ok d' ∧ collects data d'
    ∧ dom (received d') = list_to_set (chunk_index <$> cs) ∪ dom (received d).
Proof.
  induction cs as [|c cs IH]; intros d Hd Hcs; cbn [add_chunks].
  { exists d. split_and!; [done..|]. simpl. by rewrite (left_id_L ∅ (∪)). }
  apply list.Forall_cons in Hcs as [Hc Hcs].
  destruct (add_chunk_collects data d c Hd Hc) as (d1 & Ha & Hd1). rewrite Ha. cbn [mbind result_bind].
  destruct (IH d1 Hd1 Hcs) as (d' & -> & Hd' & Hdom). exists d'. split_and!; [done..|].
  rewrite Hdom, (add_chunk_dom _ _ _ Ha). simpl. rewrite !(assoc_L (∪)). f_equal. apply (comm_L (∪)).
Qed.

(** C20. Whichever codewords of an encoder's stream arrive, in any order and with
    repetitions, the decoder admits them; it yields the message as soon as the number
    of distinct ones reaches the number of data shards, and nothing before. *)
Theorem erasure_any_codewords data e js :
  encoder_new data = Ok e → fits (length data) →
  rs_recovers (data_shards_for (length data)) (recovery_shards_for (length data)) →
  let cs := nth_chunk e <$> js in
  ∃ d, add_chunks (decoder_new (length data)) cs = Ok d
    ∧ message d = Ok (if (data_shards_for (length data)
                          <=? size (list_to_set (chunk_index <$> cs) : gset Z))%nat
                      then Some data else None).
Proof.
  intros He Hf Hmds cs. pose proof (encoder_new_inv data e Hf He) as Henc.
  assert (collects data (decoder_new (length data))) as Hd0
    by (destruct Henc as (rec & Hr & _); by eapply decoder_new_collects).
  destruct (add_chunks_collects data cs (decoder_new (length data)) Hd0) as (d & Ha & Hd & Hdom).
  { apply Forall_fmap, Forall_true. intros j. by apply nth_chunk_codeword. }
  exists d. split; [done|]. simpl in Hdom. rewrite dom_empty_L, (right_id_L ∅ (∪)) in Hdom.
  assert (has_message d = (data_shards_for (length data) <=? size (list_to_set (chunk_index <$> cs) : gset Z))%nat)
    as Hh.
  { unfold has_message. rewrite <-Hdom, size_dom. destruct Hd as (rec & m & _ & -> & _). done. }
  rewrite <-Hh. destruct (has_message d) eqn:E; [by apply message_complete|]. unfold message. by rewrite E.
Qed.

End reconstruction.
