(* ===== verification/StreamCycle.v ===== *)
(** * A stream of codewords completes

    The encoder goes round its codewords for ever; the cursor is a 64-bit counter that
    wraps.  Whatever its position, and whatever a decoder of the same object already
    holds, the decoder is complete after at most twice as many consecutive codewords as
    the object has, plus one. *)

From S2P Require Import Prelude Foundation Padding Erasure.

Section cycle.
Context `{ReedSolomonOk}.

(** All the codewords of an object of [n] bytes. *)
Definition shards_total (n : nat) : nat := data_shards_for n + recovery_shards_for n.

(** A decoder fed one codeword, as [add_chunk] does with a genuine one, and the next [j]
    codewords of an encoder. *)
Definition feed1 (c : Chunk) (d : Decoder) : Decoder := default d (result_opt (add_chunk d c)).
Fixpoint feed (j : nat) (e : Encoder) (d : Decoder) : Decoder :=
  match j with
  | O => d
  | S j => feed j (next_chunk e).2 (feed1 (next_chunk e).1 d)
  end.

Lemma feed1_collects data d c :
  collects data d → codeword_of data c →
  add_chunk d c = Ok (feed1 c d) ∧ collects data (feed1 c d)
  ∧ dom (received (feed1 c d)) = {[chunk_index c]} ∪ dom (received d).
Proof.
  intros Hd Hc. destruct (add_chunk_collects data d c Hd Hc) as (d' & Ha & Hd').
  unfold feed1. rewrite Ha. simpl. split_and!; [done..|]. by apply add_chunk_dom.
Qed.

Lemma feed1_complete data d c :
  collects data d → codeword_of data c → has_message d = true → has_message (feed1 c d) = true.
Proof.
  intros Hd Hc Hm%Nat.leb_le. destruct (feed1_collects data d c Hd Hc) as (_ & Hd' & Hdom).
  assert (data_shards (feed1 c d) = data_shards d) as Hk.
  { destruct Hd as (? & ? & _ & -> & _), Hd' as (? & ? & _ & -> & _). done. }
  assert (dom (received d) ⊆ dom (received (feed1 c d))) as Hsub%subseteq_size by (rewrite Hdom; apply union_subseteq_r).
  apply Nat.leb_le. rewrite Hk. rewrite !size_dom in Hsub. lia.
Qed.

Lemma feed_app i j e d : feed (i + j) e d = feed j (Nat.iter i (λ e, (next_chunk e).2) e) (feed i e d).
Proof.
  revert e d. induction i as [|i IH]; intros e d; [done|]. cbn [feed Nat.add]. rewrite IH. f_equal.
  exact (Nat.iter_swap _ _ (λ e, (next_chunk e).2) e).
Qed.

Section stream.
Context (data : bytes) (Hfits : fits (length data)).

Lemma encodes_iter e j : encodes data e → encodes data (Nat.iter j (λ e, (next_chunk e).2) e).
Proof. intros He. induction j as [|j IH]; [done|]. by apply (next_chunk_codeword data _ IH Hfits). Qed.

Lemma feed_collects j : ∀ e d, encodes data e → collects data d → collects data (feed j e d).
Proof.
  induction j as [|j IH]; intros e d He Hd; [done|]. destruct (next_chunk_codeword data e He Hfits) as [Hc He'].
  apply IH; [done|]. by apply feed1_collects.
Qed.

Lemma feed_dom j : ∀ e d, encodes data e → collects data d →
  dom (received (feed j e d)) = list_to_set ((λ i, chunk_index (nth_chunk e i)) <$> seq 0 j) ∪ dom (received d).
Proof.
  induction j as [|j IH]; intros e d He Hd; [simpl; by rewrite (left_id_L ∅ (∪))|].
  destruct (next_chunk_codeword data e He Hfits) as [Hc He'].
  destruct (feed1_collects data d _ Hd Hc) as (_ & Hd' & Hdom). cbn [feed]. rewrite (IH _ _ He' Hd'), Hdom.
  cbn [seq fmap list_fmap list_to_set]. rewrite <-fmap_S_seq, <-list_fmap_compose.
  assert ((λ i, chunk_index (nth_chunk (next_chunk e).2 i)) <$> seq 0 j
          = (λ i, chunk_index (nth_chunk e i)) ∘ S <$> seq 0 j) as ->.
  { apply list_fmap_ext. intros i x _. unfold compose, nth_chunk.
    by rewrite (Nat.iter_swap x _ (λ e, (next_chunk e).2) e). }
  rewrite (assoc_L (∪)). f_equal. apply (comm_L (∪)).
Qed.

(** The positions of an encoder whose cursor does not wrap in the next [j] steps. *)
Lemma iter_cursor e j :
  0 ≤ cursor e → cursor e + Z.of_nat j ≤ u64_max →
  Nat.iter j (λ e, (next_chunk e).2) e = mk_encoder (shards e) (cursor e + Z.of_nat j).
Proof.
  intros Hc. induction j as [|j IH]; intros Hj; [rewrite Z.add_0_r; by destruct e|].
  rewrite Nat.iter_succ, IH by lia. unfold next_chunk. simpl. rewrite add_u64_small by lia. f_equal. lia.
Qed.

Lemma encodes_shards e : encodes data e → length (shards e) = shards_total (length data).
Proof.
  intros (rec & (_ & Hl & _) & -> & _). by rewrite length_app, length_originals_of, Hl.
Qed.

Lemma shards_total_bounds : (data_shards_for (length data) ≤ shards_total (length data))%nat
  ∧ (0 < shards_total (length data))%nat ∧ Z.of_nat (shards_total (length data)) ≤ 2048.
Proof.
  pose proof (data_shards_spec (length data)). pose proof (data_shards_fits _ Hfits).
  pose proof (recovery_shards_bound (length data)). unfold shards_total. lia.
Qed.

(** Once round without a wrap meets every codeword. *)
Lemma cycle_complete e d :
  encodes data e → collects data d → cursor e + Z.of_nat (shards_total (length data)) ≤ u64_max + 1 →
  has_message (feed (shards_total (length data)) e d) = true.
Proof.
  intros He Hd Hcur. set (n := shards_total (length data)) in *.
  pose proof shards_total_bounds as (Hk & Hn & Hmax). fold n in Hk, Hn, Hmax.
  pose proof (encodes_shards e He) as Hsh. fold n in Hsh.
  assert (0 ≤ cursor e) as Hc0 by (by destruct He as (? & _ & _ & ?)).
  assert (∀ i, (i < n)%nat → chunk_index (nth_chunk e i) = (cursor e + Z.of_nat i) mod Z.of_nat n) as Hidx.
  { intros i Hi. unfold nth_chunk. rewrite iter_cursor by lia. unfold next_chunk. simpl. rewrite Hsh.
    pose proof (Z.mod_pos_bound (cursor e + Z.of_nat i) (Z.of_nat n) ltac:(lia)).
    apply Z.mod_small. unfold u16_max. lia. }
  assert (list_to_set (seqZ 0 (Z.of_nat n)) ⊆ dom (received (feed n e d))) as Hsub%subseteq_size.
  { intros r Hr%elem_of_list_to_set%elem_of_seqZ. rewrite (feed_dom n e d He Hd). apply elem_of_union_l.
    apply elem_of_list_to_set, list_elem_of_fmap. set (i := (r - cursor e) mod Z.of_nat n).
    exists (Z.to_nat i). assert (0 ≤ i < Z.of_nat n) as Hi by (apply Z.mod_pos_bound; lia).
    split; [|apply elem_of_seq; lia]. rewrite Hidx by lia. rewrite Z2Nat.id by lia. unfold i.
    rewrite Zplus_mod_idemp_r. replace (cursor e + (r - cursor e)) with r by lia. symmetry. apply Z.mod_small. lia. }
  rewrite size_list_to_set, length_seqZ, size_dom in Hsub by apply NoDup_seqZ.
  apply Nat.leb_le. destruct (feed_collects n e d He Hd) as (rec & m & _ & Hfd & _). rewrite Hfd in Hsub |- *. simpl in *. lia.
Qed.

(** From any position: at most one lap to a wrap of the counter, then one without. *)
Lemma stream_completes e d :
  encodes data e → collects data d →
  ∃ j, (j ≤ 2 * shards_total (length data) + 1)%nat ∧ has_message (feed j e d) = true.
Proof.
  intros He Hd. set (n := shards_total (length data)). pose proof shards_total_bounds as (_ & Hn & Hmax). fold n in Hn, Hmax.
  destruct (next_chunk_codeword data e He Hfits) as [Hc He1]. set (e1 := (next_chunk e).2) in *.
  destruct (feed1_collects data d _ Hd Hc) as (_ & Hd1 & _). set (d1 := feed1 (next_chunk e).1 d) in *.
  assert (in_u64 (cursor e1)) as [Hc0 Hc1] by apply add_u64_range.
  destruct (decide (cursor e1 + Z.of_nat n ≤ u64_max + 1)) as [Hle|Hgt].
  { exists (S n). split; [lia|]. cbn [feed]. by apply (cycle_complete e1 d1). }
  set (i := Z.to_nat (u64_max - cursor e1)). assert (Nat.iter i (λ e, (next_chunk e).2) e1 = mk_encoder (shards e1) u64_max) as Hi.
  { rewrite iter_cursor by lia. f_equal. lia. }
  exists (S (S i + n)). split; [lia|]. cbn [feed]. fold e1 d1. rewrite (feed_app (S i) n).
  pose proof (encodes_iter e1 (S i) He1) as He2.
  apply cycle_complete; [done|by apply feed_collects|]. rewrite Nat.iter_succ, Hi. simpl.
  unfold add_u64. rewrite Z_mod_same_full. unfold u64_max. lia.
Qed.

End stream.
End cycle.
