(* ===== verification/Kem.v ===== *)
(** * Incremental ML-KEM-768

    Models [src/protocol/braid/kem.rs], the wrapper over [libcrux_ml_kem]'s incremental
    API.  The library is an interface: lengths, key generation, the two encapsulation
    phases and decapsulation, with the correctness the braid relies on. *)

From S2P Require Import Prelude Foundation.

(** ** The library *)

Class IncKem : Type := {
  inc_pk1_len : nat;
  inc_pk2_len : nat;
  inc_ct1_len : nat;
  inc_ct2_len : nat;
  inc_key_pair_len : nat;
  inc_encaps_state_len : nat;
  inc_seed_len : nat;
  (** [KeyPairBytes::from_seed(seed).to_bytes()], and its public parts. *)
  inc_from_seed : bytes → bytes;
  inc_pk1 : bytes → bytes;
  inc_pk2 : bytes → bytes;
  inc_validate_pk : bytes → bytes → Result string ();
  (** [encapsulate1(pk1, randomness)]: the ciphertext, the state, the shared secret. *)
  inc_encapsulate1 : bytes → bytes → Result string (bytes * bytes * bytes);
  inc_encapsulate2 : bytes → bytes → bytes;
  inc_decapsulate : bytes → bytes → bytes → Result string bytes;
}.

Class IncKemOk `{IncKem} : Prop := {
  inc_lengths :
    0 < Z.of_nat inc_pk2_len ≤ 4096 ∧ 0 < Z.of_nat inc_ct1_len ≤ 4096
    ∧ Z.of_nat inc_pk1_len ≤ 4096 ∧ Z.of_nat inc_ct2_len ≤ 4096;
  inc_from_seed_length s : length (inc_from_seed s) = inc_key_pair_len;
  inc_pk1_length kp : length (inc_pk1 kp) = inc_pk1_len;
  inc_pk2_length kp : length (inc_pk2 kp) = inc_pk2_len;
  inc_encapsulate1_lengths pk1 r ct1 st ss :
    inc_encapsulate1 pk1 r = Ok (ct1, st, ss) →
    length ct1 = inc_ct1_len ∧ length st = inc_encaps_state_len ∧ length ss = 32%nat;
  inc_encapsulate2_length st pk2 : length (inc_encapsulate2 st pk2) = inc_ct2_len;
  (** Honest runs succeed and agree on the shared secret. *)
  inc_validate_ok s :
    inc_validate_pk (inc_pk1 (inc_from_seed s)) (inc_pk2 (inc_from_seed s)) = Ok ();
  inc_encapsulate1_ok s r :
    is_ok (inc_encapsulate1 (inc_pk1 (inc_from_seed s)) r) = true;
  inc_correct s r ct1 st ss :
    inc_encapsulate1 (inc_pk1 (inc_from_seed s)) r = Ok (ct1, st, ss) →
    inc_decapsulate (inc_from_seed s) ct1 (inc_encapsulate2 st (inc_pk2 (inc_from_seed s))) = Ok ss;
}.

(** ** The wrapper *)

Definition ENCAPS_RANDOMNESS_LEN : nat := 32.
Definition SHARED_SECRET_LEN : nat := 32.

Definition kem_err (e : string) : CryptoError := BraidKem e.
Definition size_err (what : string) : CryptoError := BraidKem ("wrong byte length for " +:+ what).

Section kem.
Context `{IncKem}.

Definition SEED_LEN : nat := inc_seed_len.
Definition pk1_len : nat := inc_pk1_len.
Definition pk2_len : nat := inc_pk2_len.
Definition ct1_len : nat := inc_ct1_len.
Definition ct2_len : nat := inc_ct2_len.

(** [<&[u8; n]>::try_from(slice).map_err(|_| size_err(what))]. *)
Definition sized (n : nat) (what : string) (b : bytes) : result bytes :=
  if bool_decide (length b = n) then Ok b else Err (size_err what).

Definition generate_keypair (seed : bytes) : bytes := inc_from_seed seed.

Definition public_key_parts (keypair : bytes) : result (bytes * bytes) :=
  kp ← sized inc_key_pair_len "keypair" keypair;
  Ok (inc_pk1 kp, inc_pk2 kp).

Definition validate_public_key (pk1 pk2 : bytes) : result () :=
  map_err kem_err (inc_validate_pk pk1 pk2).

Definition encapsulate1 (pk1 randomness : bytes) : result (bytes * bytes * bytes) :=
  map_err kem_err (inc_encapsulate1 pk1 randomness).

Definition encapsulate2 (state pk2 : bytes) : result bytes :=
  state ← sized inc_encaps_state_len "encaps state" state;
  pk2 ← sized inc_pk2_len "pk2" pk2;
  Ok (inc_encapsulate2 state pk2).

Definition decapsulate (keypair ct1 ct2 : bytes) : result bytes :=
  c1 ← sized inc_ct1_len "ct1" ct1;
  c2 ← sized inc_ct2_len "ct2" ct2;
  map_err kem_err (inc_decapsulate keypair c1 c2).

Lemma sized_ok n what b : length b = n → sized n what b = Ok b.
Proof. intros. unfold sized. by rewrite bool_decide_eq_true_2. Qed.

Lemma sized_inv n what b c : sized n what b = Ok c → c = b ∧ length b = n.
Proof. unfold sized. case_bool_decide; [|done]. by intros [= ->]. Qed.

(** ** An honest exchange *)

Context `{!IncKemOk}.

(** The header and the ek_vector of the key pair generated from [s]. *)
Definition header_of (s : bytes) : bytes := inc_pk1 (generate_keypair s).
Definition ek_vector_of (s : bytes) : bytes := inc_pk2 (generate_keypair s).

Lemma public_key_parts_ok s : public_key_parts (generate_keypair s) = Ok (header_of s, ek_vector_of s).
Proof. unfold public_key_parts. by rewrite sized_ok by apply inc_from_seed_length. Qed.

Lemma encapsulate1_ok s r : ∃ ct1 st ss,
  encapsulate1 (header_of s) r = Ok (ct1, st, ss)
  ∧ length ct1 = ct1_len ∧ length st = inc_encaps_state_len ∧ length ss = 32%nat.
Proof.
  pose proof (inc_encapsulate1_ok s r) as Hok. unfold encapsulate1, header_of, generate_keypair.
  destruct (inc_encapsulate1 _ r) as [[[ct1 st] ss]|] eqn:E; [|done].
  exists ct1, st, ss. split; [done|]. by eapply inc_encapsulate1_lengths.
Qed.

Lemma encapsulate2_ok s st : length st = inc_encaps_state_len →
  encapsulate2 st (ek_vector_of s) = Ok (inc_encapsulate2 st (ek_vector_of s)).
Proof. intros. unfold encapsulate2. rewrite !sized_ok by (done || apply inc_pk2_length). done. Qed.

(** Both parties of an honest exchange derive the same shared secret, and no step
    of it fails. *)
Theorem kem_agreement s r : ∃ ct1 st ss ct2,
  public_key_parts (generate_keypair s) = Ok (header_of s, ek_vector_of s)
  ∧ encapsulate1 (header_of s) r = Ok (ct1, st, ss)
  ∧ validate_public_key (header_of s) (ek_vector_of s) = Ok ()
  ∧ encapsulate2 st (ek_vector_of s) = Ok ct2
  ∧ decapsulate (generate_keypair s) ct1 ct2 = Ok ss.
Proof.
  destruct (encapsulate1_ok s r) as (ct1 & st & ss & He & Hl1 & Hst & _).
  exists ct1, st, ss, (inc_encapsulate2 st (ek_vector_of s)).
  split_and!; [apply public_key_parts_ok | done | | by apply encapsulate2_ok | ].
  - unfold validate_public_key, header_of, ek_vector_of, generate_keypair. by rewrite inc_validate_ok.
  - unfold decapsulate. rewrite (sized_ok _ _ ct1) by exact Hl1. simpl.
    rewrite sized_ok by apply inc_encapsulate2_length. simpl.
    unfold encapsulate1, header_of, ek_vector_of, generate_keypair in *.
    destruct (inc_encapsulate1 _ r) as [[[??]?]|] eqn:E; inv_ok.
    by rewrite (inc_correct _ _ _ _ _ E).
Qed.

End kem.
