(* ===== verification/BraidAuth.v ===== *)
(** * Braid key derivation and the authenticator ratchet

    Models [src/protocol/braid/auth.rs]: [KDF_OK], [KDF_AUTH] and the per-epoch MACs
    over the encapsulation-key header and the ciphertext. *)

From S2P Require Import Prelude Foundation Interfaces Kdf.

Definition PROTOCOL_INFO : bytes := bstr "HushwireBraid_MLKEM768_SHA-256".
Definition KEY_LEN : nat := 32.

Definition epoch_bytes (epoch : Z) : bytes := be_bytes 8 epoch.

Record Authenticator : Type := mk_auth { root_key : bytes; mac_key : bytes }.

#[export] Instance authenticator_eq_dec : EqDecision Authenticator.
Proof. solve_decision. Defined.

(** The bytes fed to the MAC: [PROTOCOL_INFO || label || epoch || data]. *)
Definition mac_input (label : bytes) (epoch : Z) (data : bytes) : bytes :=
  PROTOCOL_INFO ++ label ++ epoch_bytes epoch ++ data.

Definition HDR_LABEL : bytes := bstr ":ekheader".
Definition CT_LABEL : bytes := bstr ":ciphertext".

Section auth.
Context `{Hashes}.

Definition kdf_ok (shared_secret : bytes) (epoch : Z) : bytes :=
  let salt := zero32 in
  let info := PROTOCOL_INFO ++ bstr ":SCKA Key" ++ epoch_bytes epoch in
  hkdf_sha256 shared_secret (Some salt) info KEY_LEN.

Definition kdf_auth (rk update_key : bytes) (epoch : Z) : bytes * bytes :=
  let info := PROTOCOL_INFO ++ bstr ":Authenticator Update" ++ epoch_bytes epoch in
  let okm := hkdf_sha256 update_key (Some rk) info (2 * KEY_LEN) in
  (take KEY_LEN okm, drop KEY_LEN okm).

Definition auth_update (a : Authenticator) (epoch : Z) (key : bytes) : Authenticator :=
  let '(root, mac) := kdf_auth (root_key a) key epoch in
  mk_auth root mac.

Definition auth_init (epoch : Z) (key : bytes) : Authenticator :=
  auth_update (mk_auth (replicate KEY_LEN x00) (replicate KEY_LEN x00)) epoch key.

Definition mac (a : Authenticator) (label : bytes) (epoch : Z) (data : bytes) : bytes :=
  hmac_sha256 (mac_key a) (mac_input label epoch data).

Definition mac_hdr (a : Authenticator) (epoch : Z) (hdr : bytes) : bytes := mac a HDR_LABEL epoch hdr.
Definition mac_ct (a : Authenticator) (epoch : Z) (ct : bytes) : bytes := mac a CT_LABEL epoch ct.

(** Constant-time comparison, as a function of the values. *)
Definition verify (computed expected : bytes) : result () :=
  if bool_decide (length expected = 32%nat) then
    if bool_decide (computed = expected) then Ok () else Err InvalidSignature
  else Err (BraidKem "MAC has wrong length").

Definition vfy_hdr (a : Authenticator) (epoch : Z) (hdr expected : bytes) : result () :=
  verify (mac_hdr a epoch hdr) expected.
Definition vfy_ct (a : Authenticator) (epoch : Z) (ct expected : bytes) : result () :=
  verify (mac_ct a epoch ct) expected.

Context `{!HashesOk}.

Lemma mac_length a l e d : length (mac a l e d) = 32%nat.
Proof. apply hmac_length. Qed.

Lemma verify_Ok computed expected :
  length computed = 32%nat → verify computed expected = Ok () ↔ computed = expected.
Proof.
  intros Hl. unfold verify. repeat case_bool_decide; split; try done; intros <-; congruence.
Qed.

(** A MAC verifies exactly when it is the one the authenticator computes. *)
Theorem vfy_exact a epoch data expected :
  (vfy_hdr a epoch data expected = Ok () ↔ expected = mac_hdr a epoch data)
  ∧ (vfy_ct a epoch data expected = Ok () ↔ expected = mac_ct a epoch data).
Proof. split; unfold vfy_hdr, vfy_ct; rewrite verify_Ok by apply mac_length; done. Qed.

Lemma kdf_ok_wf ss e : wf_key (kdf_ok ss e).
Proof. apply hkdf_length. unfold KEY_LEN. lia. Qed.

(** The authenticator keeps two 32-byte keys. *)
Definition auth_wf (a : Authenticator) : Prop := wf_key (root_key a) ∧ wf_key (mac_key a).

Lemma auth_update_wf a e k : auth_wf (auth_update a e k).
Proof.
  unfold auth_wf, auth_update, kdf_auth, hkdf_sha256, wf_key, KEY_LEN. simpl.
  rewrite length_take, length_drop, hkdf_length by lia. lia.
Qed.

End auth.

(** The MAC inputs are injective: no header MAC input is a ciphertext MAC input, and
    the epoch and the data are determined. *)
Theorem mac_input_injective l1 l2 e1 e2 d1 d2 :
  l1 ∈ [HDR_LABEL; CT_LABEL] → l2 ∈ [HDR_LABEL; CT_LABEL] → in_u64 e1 → in_u64 e2 →
  mac_input l1 e1 d1 = mac_input l2 e2 d2 → l1 = l2 ∧ e1 = e2 ∧ d1 = d2.
Proof.
  intros H1 H2 He1 He2 E. apply app_inv_head in E.
  assert (l1 = l2) as ->.
  { rewrite !elem_of_cons, elem_of_nil in H1, H2.
    destruct H1 as [->|[->|[]]], H2 as [->|[->|[]]]; try done; discriminate E. }
  apply app_inv_head in E. apply app_inj_1 in E as [He ->]; [|by unfold epoch_bytes; rewrite !length_be_bytes].
  split_and!; [done| |done]. unfold in_u64, u64_max in *.
  eapply be_bytes_inj; [..|exact He]; change (256 ^ Z.of_nat 8) with 18446744073709551616; lia.
Qed.
