(* ===== verification/Braid.v ===== *)
(** * The ML-KEM Braid state machine

    Models [src/protocol/braid/state_machine.rs]: the eleven protocol states with the
    transient [Poisoned], one [send] step per state, one receive handler per state, and
    the transactional [transition] of [BraidState].  The random generator is the
    function that returns the next [n] bytes drawn; a step draws at most once.

    The second part proves the invariants of one party: epochs never decrease, a
    [send] keeps the epoch, an error restores the state, no step leaves [Poisoned],
    and an epoch secret is emitted exactly at the two completing transitions. *)

From S2P Require Import Prelude Foundation Interfaces Kdf Padding Erasure Kem BraidAuth.

Definition MAC_SIZE : nat := 32.
Definition INITIAL_EPOCH : Z := 1.
Definition proto_err (msg : string) : CryptoError := BraidKem msg.

Inductive MsgType : Type := Idle | Hdr | Ek | EkCt1Ack | Ct1 | Ct2.

#[export] Instance msg_type_eq_dec : EqDecision MsgType.
Proof. solve_decision. Defined.

Record Message : Type := mk_message {
  msg_epoch : Z;
  mtype : MsgType;
  msg_chunk : option Chunk;
}.

#[export] Instance message_eq_dec : EqDecision Message.
Proof. solve_decision. Defined.

Definition idle (epoch : Z) : Message := mk_message epoch Idle None.
Definition carrying (epoch : Z) (t : MsgType) (c : Chunk) : Message := mk_message epoch t (Some c).

Record EpochSecret : Type := mk_epoch_secret { es_epoch : Z; es_secret : bytes }.

Record SckaSend : Type := mk_scka_send {
  ss_msg : Message;
  sending_epoch : Z;
  ss_output_key : option EpochSecret;
}.

Record SckaReceive : Type := mk_scka_receive {
  receiving_epoch : Z;
  sr_output_key : option EpochSecret;
}.

Inductive State : Type :=
| KeysUnsampled (epoch : Z) (auth : Authenticator)
| KeysSampled (epoch : Z) (auth : Authenticator) (dk ek_vector : bytes) (header_enc : Encoder)
| HeaderSent (epoch : Z) (auth : Authenticator) (dk : bytes) (ct1_dec : Decoder) (ek_enc : Encoder)
| Ct1Received (epoch : Z) (auth : Authenticator) (dk ct1 : bytes) (ek_enc : Encoder)
| EkSentCt1Received (epoch : Z) (auth : Authenticator) (dk ct1 : bytes) (ct2_dec : Decoder)
| NoHeaderReceived (epoch : Z) (auth : Authenticator) (hdr_dec : Decoder)
| HeaderReceived (epoch : Z) (auth : Authenticator) (header : bytes) (ek_dec : Decoder)
| Ct1Sampled (epoch : Z) (auth : Authenticator) (header encaps_secret ct1 : bytes)
    (ct1_enc : Encoder) (ek_dec : Decoder)
| EkReceivedCt1Sampled (epoch : Z) (auth : Authenticator) (encaps_secret ct1 ek_vector : bytes)
    (ct1_enc : Encoder)
| Ct1Acknowledged (epoch : Z) (auth : Authenticator) (encaps_secret header ct1 : bytes)
    (ek_dec : Decoder)
| Ct2Sampled (epoch : Z) (auth : Authenticator) (ct2_enc : Encoder)
| Poisoned.

(** [State::epoch]. *)
Definition state_epoch (s : State) : Z :=
  match s with
  | KeysUnsampled epoch _ | KeysSampled epoch _ _ _ _ | HeaderSent epoch _ _ _ _
  | Ct1Received epoch _ _ _ _ | EkSentCt1Received epoch _ _ _ _ | NoHeaderReceived epoch _ _
  | HeaderReceived epoch _ _ _ | Ct1Sampled epoch _ _ _ _ _ _ | EkReceivedCt1Sampled epoch _ _ _ _ _
  | Ct1Acknowledged epoch _ _ _ _ _ | Ct2Sampled epoch _ _ => epoch
  | Poisoned => 0
  end.

Definition Rng : Type := nat → bytes.

Definition Transition : Type := result (State * option EpochSecret).

Section braid.
Context `{Hashes} `{ReedSolomon} `{IncKem}.

Definition build_ct2_encoder (auth : Authenticator) (epoch : Z)
    (encaps_secret ek_vector ct1 : bytes) : result Encoder :=
  ct2 ← encapsulate2 encaps_secret ek_vector;
  let ct := ct1 ++ ct2 in
  let m := mac_ct auth epoch ct in
  encoder_new (ct2 ++ m).

(** [State::send]. *)
Definition state_send (s : State) (rng : Rng) : result (State * Message * option EpochSecret) :=
  match s with
  | KeysUnsampled epoch auth =>
      let dk := generate_keypair (rng SEED_LEN) in
      parts ← public_key_parts dk;
      let '(header, ek_vector) := parts in
      let m := mac_hdr auth epoch header in
      header_enc ← encoder_new (header ++ m);
      let '(chunk, header_enc) := next_chunk header_enc in
      Ok (KeysSampled epoch auth dk ek_vector header_enc, carrying epoch Hdr chunk, None)
  | KeysSampled epoch auth dk ek_vector header_enc =>
      let '(chunk, header_enc) := next_chunk header_enc in
      Ok (KeysSampled epoch auth dk ek_vector header_enc, carrying epoch Hdr chunk, None)
  | HeaderSent epoch auth dk ct1_dec ek_enc =>
      let '(chunk, ek_enc) := next_chunk ek_enc in
      Ok (HeaderSent epoch auth dk ct1_dec ek_enc, carrying epoch Ek chunk, None)
  | Ct1Received epoch auth dk ct1 ek_enc =>
      let '(chunk, ek_enc) := next_chunk ek_enc in
      Ok (Ct1Received epoch auth dk ct1 ek_enc, carrying epoch EkCt1Ack chunk, None)
  | EkSentCt1Received epoch auth dk ct1 ct2_dec =>
      Ok (EkSentCt1Received epoch auth dk ct1 ct2_dec, idle epoch, None)
  | NoHeaderReceived epoch auth hdr_dec =>
      Ok (NoHeaderReceived epoch auth hdr_dec, idle epoch, None)
  | HeaderReceived epoch auth header ek_dec =>
      enc ← encapsulate1 header (rng ENCAPS_RANDOMNESS_LEN);
      let '(ct1, encaps_secret, raw_ss) := enc in
      let ss := kdf_ok raw_ss epoch in
      let auth := auth_update auth epoch ss in
      ct1_enc ← encoder_new ct1;
      let '(chunk, ct1_enc) := next_chunk ct1_enc in
      Ok (Ct1Sampled epoch auth header encaps_secret ct1 ct1_enc ek_dec,
          carrying epoch Ct1 chunk, Some (mk_epoch_secret epoch ss))
  | Ct1Sampled epoch auth header encaps_secret ct1 ct1_enc ek_dec =>
      let '(chunk, ct1_enc) := next_chunk ct1_enc in
      Ok (Ct1Sampled epoch auth header encaps_secret ct1 ct1_enc ek_dec,
          carrying epoch Ct1 chunk, None)
  | EkReceivedCt1Sampled epoch auth encaps_secret ct1 ek_vector ct1_enc =>
      let '(chunk, ct1_enc) := next_chunk ct1_enc in
      Ok (EkReceivedCt1Sampled epoch auth encaps_secret ct1 ek_vector ct1_enc,
          carrying epoch Ct1 chunk, None)
  | Ct1Acknowledged epoch auth encaps_secret header ct1 ek_dec =>
      Ok (Ct1Acknowledged epoch auth encaps_secret header ct1 ek_dec, idle epoch, None)
  | Ct2Sampled epoch auth ct2_enc =>
      let '(chunk, ct2_enc) := next_chunk ct2_enc in
      Ok (Ct2Sampled epoch auth ct2_enc, carrying epoch Ct2 chunk, None)
  | Poisoned => Err (proto_err "braid state poisoned")
  end.

(** The free function [add_chunk]: the codeword of a message into a decoder. *)
Definition msg_add_chunk (dec : Decoder) (msg : Message) : result Decoder :=
  chunk ← ok_or (msg_chunk msg) (proto_err "message missing codeword");
  add_chunk dec chunk.

(** [msg.epoch == epoch && msg.mtype == t]. *)
Definition is_msg (msg : Message) (epoch : Z) (t : MsgType) : bool :=
  bool_decide (msg_epoch msg = epoch) && bool_decide (mtype msg = t).

Definition recv_keys_sampled (msg : Message) epoch auth (dk ek_vector : bytes) header_enc : Transition :=
  if is_msg msg epoch Ct1 then
    ct1_dec ← msg_add_chunk (decoder_new ct1_len) msg;
    ek_enc ← encoder_new ek_vector;
    Ok (HeaderSent epoch auth dk ct1_dec ek_enc, None)
  else Ok (KeysSampled epoch auth dk ek_vector header_enc, None).

Definition recv_header_sent (msg : Message) epoch auth (dk : bytes) ct1_dec ek_enc : Transition :=
  if is_msg msg epoch Ct1 then
    ct1_dec ← msg_add_chunk ct1_dec msg;
    m ← message ct1_dec;
    match m with
    | Some ct1 => Ok (Ct1Received epoch auth dk ct1 ek_enc, None)
    | None => Ok (HeaderSent epoch auth dk ct1_dec ek_enc, None)
    end
  else Ok (HeaderSent epoch auth dk ct1_dec ek_enc, None).

Definition recv_ct1_received (msg : Message) epoch auth (dk ct1 : bytes) ek_enc : Transition :=
  if is_msg msg epoch Ct2 then
    ct2_dec ← msg_add_chunk (decoder_new (ct2_len + MAC_SIZE)) msg;
    Ok (EkSentCt1Received epoch auth dk ct1 ct2_dec, None)
  else Ok (Ct1Received epoch auth dk ct1 ek_enc, None).

Definition recv_ek_sent_ct1_received (msg : Message) epoch auth (dk ct1 : bytes) ct2_dec : Transition :=
  if is_msg msg epoch Ct2 then
    ct2_dec ← msg_add_chunk ct2_dec msg;
    m ← message ct2_dec;
    match m with
    | Some ct2_with_mac =>
        let ct2 := take ct2_len ct2_with_mac in
        let m := drop ct2_len ct2_with_mac in
        raw_ss ← decapsulate dk ct1 ct2;
        let ss := kdf_ok raw_ss epoch in
        let next_auth := auth_update auth epoch ss in
        let ct := ct1 ++ ct2 in
        if is_ok (vfy_ct next_auth epoch ct m) then
          let hdr_dec := decoder_new (pk1_len + MAC_SIZE) in
          Ok (NoHeaderReceived (add_u64 epoch 1) next_auth hdr_dec,
              Some (mk_epoch_secret epoch ss))
        else Ok (EkSentCt1Received epoch auth dk ct1 (reset ct2_dec), None)
    | None => Ok (EkSentCt1Received epoch auth dk ct1 ct2_dec, None)
    end
  else Ok (EkSentCt1Received epoch auth dk ct1 ct2_dec, None).

Definition recv_no_header_received (msg : Message) epoch auth hdr_dec : Transition :=
  if is_msg msg epoch Hdr then
    hdr_dec ← msg_add_chunk hdr_dec msg;
    m ← message hdr_dec;
    match m with
    | Some header_with_mac =>
        let header := take pk1_len header_with_mac in
        let m := drop pk1_len header_with_mac in
        if is_ok (vfy_hdr auth epoch header m) then
          let ek_dec := decoder_new pk2_len in
          Ok (HeaderReceived epoch auth header ek_dec, None)
        else Ok (NoHeaderReceived epoch auth (reset hdr_dec), None)
    | None => Ok (NoHeaderReceived epoch auth hdr_dec, None)
    end
  else Ok (NoHeaderReceived epoch auth hdr_dec, None).

Definition recv_ct1_sampled (msg : Message) epoch auth (header encaps_secret ct1 : bytes)
    ct1_enc ek_dec : Transition :=
  let is_ek := is_msg msg epoch Ek in
  let is_ack := is_msg msg epoch EkCt1Ack in
  if is_ek || is_ack then
    ek_dec ← msg_add_chunk ek_dec msg;
    m ← message ek_dec;
    match m with
    | Some ek_vector =>
        _ ← validate_public_key header ek_vector;
        if is_ack then
          ct2_enc ← build_ct2_encoder auth epoch encaps_secret ek_vector ct1;
          Ok (Ct2Sampled epoch auth ct2_enc, None)
        else Ok (EkReceivedCt1Sampled epoch auth encaps_secret ct1 ek_vector ct1_enc, None)
    | None =>
        if is_ack then Ok (Ct1Acknowledged epoch auth encaps_secret header ct1 ek_dec, None)
        else Ok (Ct1Sampled epoch auth header encaps_secret ct1 ct1_enc ek_dec, None)
    end
  else Ok (Ct1Sampled epoch auth header encaps_secret ct1 ct1_enc ek_dec, None).

Definition recv_ek_received_ct1_sampled (msg : Message) epoch auth
    (encaps_secret ct1 ek_vector : bytes) ct1_enc : Transition :=
  if is_msg msg epoch EkCt1Ack then
    ct2_enc ← build_ct2_encoder auth epoch encaps_secret ek_vector ct1;
    Ok (Ct2Sampled epoch auth ct2_enc, None)
  else Ok (EkReceivedCt1Sampled epoch auth encaps_secret ct1 ek_vector ct1_enc, None).

Definition recv_ct1_acknowledged (msg : Message) epoch auth
    (encaps_secret header ct1 : bytes) ek_dec : Transition :=
  if is_msg msg epoch EkCt1Ack then
    ek_dec ← msg_add_chunk ek_dec msg;
    m ← message ek_dec;
    match m with
    | Some ek_vector =>
        _ ← validate_public_key header ek_vector;
        ct2_enc ← build_ct2_encoder auth epoch encaps_secret ek_vector ct1;
        Ok (Ct2Sampled epoch auth ct2_enc, None)
    | None => Ok (Ct1Acknowledged epoch auth encaps_secret header ct1 ek_dec, None)
    end
  else Ok (Ct1Acknowledged epoch auth encaps_secret header ct1 ek_dec, None).

Definition recv_ct2_sampled (msg : Message) epoch auth ct2_enc : Transition :=
  if bool_decide (msg_epoch msg = add_u64 epoch 1)
  then Ok (KeysUnsampled (add_u64 epoch 1) auth, None)
  else Ok (Ct2Sampled epoch auth ct2_enc, None).

(** [State::receive]: dispatch to the handler of the state; in [KeysUnsampled],
    [HeaderReceived] and [Poisoned] a message is ignored. *)
Definition state_receive (s : State) (msg : Message) : Transition :=
  match s with
  | KeysSampled epoch auth dk ek_vector header_enc =>
      recv_keys_sampled msg epoch auth dk ek_vector header_enc
  | HeaderSent epoch auth dk ct1_dec ek_enc => recv_header_sent msg epoch auth dk ct1_dec ek_enc
  | Ct1Received epoch auth dk ct1 ek_enc => recv_ct1_received msg epoch auth dk ct1 ek_enc
  | EkSentCt1Received epoch auth dk ct1 ct2_dec =>
      recv_ek_sent_ct1_received msg epoch auth dk ct1 ct2_dec
  | NoHeaderReceived epoch auth hdr_dec => recv_no_header_received msg epoch auth hdr_dec
  | Ct1Sampled epoch auth header encaps_secret ct1 ct1_enc ek_dec =>
      recv_ct1_sampled msg epoch auth header encaps_secret ct1 ct1_enc ek_dec
  | EkReceivedCt1Sampled epoch auth encaps_secret ct1 ek_vector ct1_enc =>
      recv_ek_received_ct1_sampled msg epoch auth encaps_secret ct1 ek_vector ct1_enc
  | Ct1Acknowledged epoch auth encaps_secret header ct1 ek_dec =>
      recv_ct1_acknowledged msg epoch auth encaps_secret header ct1 ek_dec
  | Ct2Sampled epoch auth ct2_enc => recv_ct2_sampled msg epoch auth ct2_enc
  | other => Ok (other, None)
  end.

(** ** One party *)

Record BraidState : Type := mk_braid { state : State }.

Definition init_sender (auth_seed : bytes) : BraidState :=
  mk_braid (KeysUnsampled INITIAL_EPOCH (auth_init INITIAL_EPOCH auth_seed)).

Definition init_receiver (auth_seed : bytes) : BraidState :=
  mk_braid (NoHeaderReceived INITIAL_EPOCH (auth_init INITIAL_EPOCH auth_seed)
              (decoder_new (pk1_len + MAC_SIZE))).

(** [BraidState::transition]: [Poisoned] is only in place while [f] runs. *)
Definition transition {T} (f : State → result (State * T)) : M BraidState CryptoError T := λ self,
  let snapshot := state self in
  match f snapshot with
  | Ok (next, out) => (Ok out, mk_braid next)
  | Err e => (Err e, mk_braid snapshot)
  end.

Definition braid_send (rng : Rng) : M BraidState CryptoError SckaSend :=
  out ← transition (λ s,
    r ← state_send s rng;
    let '(next, msg, secret) := r in
    Ok (next, (msg, secret)));
  self ← m_get;
  mret (mk_scka_send out.1 (sat_sub (state_epoch (state self)) 1) out.2).

Definition braid_receive (msg : Message) : M BraidState CryptoError SckaReceive :=
  let receiving := sat_sub (msg_epoch msg) 1 in
  output_key ← transition (λ s, state_receive s msg);
  mret (mk_scka_receive receiving output_key).

End braid.

(** ** Invariants of one party *)

(** The state is not the transient placeholder. *)
Definition live (s : State) : Prop := s ≠ Poisoned.

(** The last epoch whose secret this party has emitted. *)
Definition emitted_upto (s : State) : Z :=
  match s with
  | Ct1Sampled epoch _ _ _ _ _ _ | EkReceivedCt1Sampled epoch _ _ _ _ _
  | Ct1Acknowledged epoch _ _ _ _ _ | Ct2Sampled epoch _ _ => epoch
  | s => state_epoch s - 1
  end.

(** A step from [s] to [s'] with output [k] emits the next secret or none. *)
Definition emits_next (s s' : State) (k : option EpochSecret) : Prop :=
  match k with
  | None => emitted_upto s' = emitted_upto s
  | Some es => es_epoch es = emitted_upto s + 1 ∧ emitted_upto s' = es_epoch es
  end.

(** Unfold a run of a handler down to its outcome. *)
Ltac run_handler :=
  repeat match goal with
  | H : (if ?b then _ else _) = Ok _ |- _ => destruct b eqn:?
  | H : (let '(_, _) := ?x in _) = Ok _ |- _ => destruct x eqn:?
  | H : (match ?x with Some _ => _ | None => _ end) = Ok _ |- _ => destruct x eqn:?
  | H : _ ≫= _ = Ok _ |- _ => apply result_bind_Ok in H as (?&?&H); simpl in H
  | H : Ok _ = Ok _ |- _ => injection H as H; subst
  | x : bytes * bytes |- _ => destruct x
  | x : bytes * bytes * bytes |- _ => destruct x
  end.

Section one_party.
Context `{Hashes} `{ReedSolomon} `{IncKem}.

Lemma state_send_spec s rng s' msg k :
  state_send s rng = Ok (s', msg, k) →
  live s' ∧ state_epoch s' = state_epoch s ∧ msg_epoch msg = state_epoch s ∧ emits_next s s' k.
Proof.
  intros Hs. destruct s; simpl in Hs; run_handler; simplify_eq/=; repeat split; try done; lia.
Qed.

Lemma state_receive_spec s msg s' k :
  live s → state_epoch s < u64_max → 0 ≤ state_epoch s → state_receive s msg = Ok (s', k) →
  live s' ∧ (state_epoch s' = state_epoch s ∨ state_epoch s' = state_epoch s + 1)
  ∧ emits_next s s' k.
Proof.
  intros Hl Hmax Hpos Hr.
  assert (add_u64 (state_epoch s) 1 = state_epoch s + 1) as Hadd by (apply add_u64_small; lia).
  destruct s; simpl in *;
    unfold recv_keys_sampled, recv_header_sent, recv_ct1_received, recv_ek_sent_ct1_received,
      recv_no_header_received, recv_ct1_sampled, recv_ek_received_ct1_sampled,
      recv_ct1_acknowledged, recv_ct2_sampled in Hr;
    run_handler; simplify_eq/=; rewrite ?Hadd; repeat split; try done; try lia; auto.
Qed.

End one_party.

(** ** Any sequence of calls on one party, whatever the network delivers *)

(** A call of the API: send with some randomness, or receive any message at all. *)
Inductive BraidOp : Type :=
| OpSend (rng : Rng)
| OpReceive (msg : Message).

Section calls.
Context `{Hashes} `{ReedSolomon} `{IncKem}.

(** The secret a call emits, if any, and the state after it. *)
Definition braid_call (op : BraidOp) (b : BraidState) : option EpochSecret * BraidState :=
  match op with
  | OpSend rng =>
      match braid_send rng b with
      | (Ok out, b') => (ss_output_key out, b')
      | (Err _, b') => (None, b')
      end
  | OpReceive msg =>
      match braid_receive msg b with
      | (Ok out, b') => (sr_output_key out, b')
      | (Err _, b') => (None, b')
      end
  end.

Fixpoint braid_calls (ops : list BraidOp) (b : BraidState) : list EpochSecret * BraidState :=
  match ops with
  | [] => ([], b)
  | op :: ops =>
      let '(k, b1) := braid_call op b in
      let '(ks, b2) := braid_calls ops b1 in
      (option_list k ++ ks, b2)
  end.

Lemma braid_send_run rng b :
  braid_send rng b =
    match state_send (state b) rng with
    | Ok (s', msg, k) => (Ok (mk_scka_send msg (sat_sub (state_epoch s') 1) k), mk_braid s')
    | Err e => (Err e, b)
    end.
Proof.
  unfold braid_send, transition, mbind, m_bind. simpl.
  destruct (state_send (state b) rng) as [[[s' msg] k]|e]; [done|]. by destruct b.
Qed.

Lemma braid_receive_run msg b :
  braid_receive msg b =
    match state_receive (state b) msg with
    | Ok (s', k) => (Ok (mk_scka_receive (sat_sub (msg_epoch msg) 1) k), mk_braid s')
    | Err e => (Err e, b)
    end.
Proof.
  unfold braid_receive, transition, mbind, m_bind. simpl.
  destruct (state_receive (state b) msg) as [[s' k]|e]; [done|]. by destruct b.
Qed.

Lemma braid_call_spec op b k b' :
  live (state b) → 0 ≤ state_epoch (state b) < u64_max → braid_call op b = (k, b') →
  live (state b') ∧ emits_next (state b) (state b') k
  ∧ state_epoch (state b) ≤ state_epoch (state b') ≤ state_epoch (state b) + 1.
Proof.
  intros Hl He Hc. destruct op; simpl in Hc.
  - rewrite braid_send_run in Hc. destruct (state_send _ _) as [[[s' m] k']|] eqn:E; simplify_eq/=.
    + apply state_send_spec in E as (?&?&?&?). auto with lia.
    + repeat split; auto with lia.
  - rewrite braid_receive_run in Hc. destruct (state_receive _ _) as [[s' k']|] eqn:E; simplify_eq/=.
    + apply state_receive_spec in E as (?&[]&?); auto with lia.
    + repeat split; auto with lia.
Qed.

Lemma braid_calls_spec ops b ks b' :
  live (state b) → 0 ≤ state_epoch (state b) →
  state_epoch (state b) + Z.of_nat (length ops) < u64_max →
  braid_calls ops b = (ks, b') →
  live (state b')
  ∧ es_epoch <$> ks = seqZ (emitted_upto (state b) + 1) (emitted_upto (state b') - emitted_upto (state b))
  ∧ emitted_upto (state b) ≤ emitted_upto (state b').
Proof.
  revert b ks. induction ops as [|op ops IH]; intros b ks Hl Hpos Hmax Hr; simpl in Hr.
  { simplify_eq. by rewrite Z.sub_diag. }
  destruct (braid_call op b) as [k b1] eqn:E1. destruct (braid_calls ops b1) as [ks1 b2] eqn:E2.
  simplify_eq. simpl in Hmax.
  apply braid_call_spec in E1 as (Hl1 & Hem & Hep); [|done|lia].
  apply IH in E2 as (Hl2 & Hks & Hle); [|done|lia..].
  split; [done|]. rewrite fmap_app, Hks. destruct k as [es|]; simpl in *.
  - destruct Hem as [He1 He2]. split; [|lia].
    rewrite (seqZ_cons (emitted_upto (state b) + 1)) by lia. simpl.
    rewrite He1, He2, He1. f_equal. f_equal; lia.
  - rewrite Hem in *. done.
Qed.

End calls.

(** ** Safety of one party *)

Section safety.
Context `{Hashes} `{ReedSolomon} `{IncKem}.

(** C19. From either initial state, whatever messages (honest, forged, replayed or
    reordered) are fed to the party and however its sends interleave with them, the
    state is never left poisoned and the secrets it emits are those of the epochs
    1, 2, 3, ... in order, each once. *)
Theorem braid_secrets_consecutive (auth_seed : bytes) (sender : bool) (ops : list BraidOp) :
  Z.of_nat (length ops) < u64_max - 1 →
  let b := if sender then init_sender auth_seed else init_receiver auth_seed in
  let '(ks, b') := braid_calls ops b in
  live (state b') ∧ es_epoch <$> ks = seqZ 1 (emitted_upto (state b')).
Proof.
  intros Hlen b. destruct (braid_calls ops b) as [ks b'] eqn:E.
  assert (emitted_upto (state b) = 0 ∧ state_epoch (state b) = 1 ∧ live (state b)) as (He & Hp & Hl)
    by (unfold b; destruct sender; done).
  apply braid_calls_spec in E as (Hl' & Hks & _); [|done|lia..].
  rewrite He in Hks. split; [done|]. by rewrite Hks, Z.sub_0_r.
Qed.

(** A call that fails leaves the party exactly as it was, and a call that succeeds
    leaves it live with an epoch not smaller. *)
Theorem braid_transactional (b : BraidState) (rng : Rng) (msg : Message) :
  (∀ e b', braid_send rng b = (Err e, b') → b' = b)
  ∧ (∀ e b', braid_receive msg b = (Err e, b') → b' = b)
  ∧ (∀ out b', braid_send rng b = (Ok out, b') →
       live (state b') ∧ state_epoch (state b') = state_epoch (state b)
       ∧ sending_epoch out = sat_sub (msg_epoch (ss_msg out)) 1).
Proof.
  rewrite braid_send_run, braid_receive_run. split_and!.
  - intros e b'. case_match; [by repeat case_match|]. by intros [=].
  - intros e b'. case_match; [by repeat case_match|]. by intros [=].
  - intros out b'. destruct (state_send _ _) as [[[s' m] k]|] eqn:E; [|done].
    apply state_send_spec in E as (?&He&Hm&?). intros [= <- <-]. simpl. by rewrite Hm, He.
Qed.

Lemma stale_ignored (s : State) (msg : Message) :
  0 ≤ msg_epoch msg < state_epoch s → state_epoch s < u64_max →
  state_receive s msg = Ok (s, None).
Proof.
  intros He Hmax.
  assert (∀ t, is_msg msg (state_epoch s) t = false) as Hm.
  { intros t. unfold is_msg. by rewrite bool_decide_eq_false_2 by lia. }
  destruct s; simpl in *; try done;
    unfold recv_keys_sampled, recv_header_sent, recv_ct1_received, recv_ek_sent_ct1_received,
      recv_no_header_received, recv_ct1_sampled, recv_ek_received_ct1_sampled,
      recv_ct1_acknowledged, recv_ct2_sampled; rewrite ?Hm; simpl; try done.
  rewrite bool_decide_eq_false_2; [done|]. rewrite add_u64_small; lia.
Qed.

(** A message of an earlier epoch never changes the party: replays and late
    codewords are no-ops. *)
Lemma stale_message_ignored (msg : Message) (b : BraidState) :
  0 ≤ msg_epoch msg < state_epoch (state b) → state_epoch (state b) < u64_max →
  braid_receive msg b = (Ok (mk_scka_receive (sat_sub (msg_epoch msg) 1) None), b).
Proof. intros He Hmax. rewrite braid_receive_run, stale_ignored by done. by destruct b. Qed.

End safety.

(** ** Authentication of what the network carries *)

Section authentication.
Context `{HashesOk} `{ReedSolomon} `{IncKem}.

(** A new decoder for [n] bytes fed with the codewords of some of the messages in
    [inbox], all of epoch [e] and type [ty], in the order they came. *)
Definition carried (inbox : list Message) (e : Z) (ty : MsgType) (n : nat) (dec : Decoder) : Prop :=
  ∃ ms, ms `sublist_of` inbox ∧ Forall (λ m, is_msg m e ty = true) ms
    ∧ foldl (λ d m, d ≫= λ d, msg_add_chunk d m) (Ok (decoder_new n)) ms = Ok dec.

(** Those codewords decode to [payload]. *)
Definition vouched (inbox : list Message) (e : Z) (ty : MsgType) (n : nat) (payload : bytes) : Prop :=
  ∃ dec, carried inbox e ty n dec ∧ message dec = Ok (Some payload).

(** Where the decoders of a party and the header it has accepted come from. *)
Definition from_network (inbox : list Message) (s : State) : Prop :=
  match s with
  | NoHeaderReceived e auth dec => carried inbox e Hdr (pk1_len + MAC_SIZE) dec
  | HeaderReceived e auth header _ => vouched inbox e Hdr (pk1_len + MAC_SIZE) (header ++ mac_hdr auth e header)
  | EkSentCt1Received e _ _ _ dec => carried inbox e Ct2 (ct2_len + MAC_SIZE) dec
  | _ => True
  end.

Lemma carried_new inbox e ty n : carried inbox e ty n (decoder_new n).
Proof. exists []. split_and!; [apply sublist_nil_l|done|done]. Qed.

Lemma carried_mono inbox m e ty n dec : carried inbox e ty n dec → carried (inbox ++ [m]) e ty n dec.
Proof. intros (ms & Hs & Hm). exists ms. split; [|done]. by apply sublist_inserts_r. Qed.

Lemma vouched_mono inbox m e ty n payload : vouched inbox e ty n payload → vouched (inbox ++ [m]) e ty n payload.
Proof. intros (dec & Hc & Hm). exists dec. split; [by apply carried_mono|done]. Qed.

Lemma from_network_mono inbox m s : from_network inbox s → from_network (inbox ++ [m]) s.
Proof. destruct s; simpl; auto using carried_mono, vouched_mono. Qed.

Lemma carried_add inbox m e ty n dec dec' :
  carried inbox e ty n dec → is_msg m e ty = true → msg_add_chunk dec m = Ok dec' → carried (inbox ++ [m]) e ty n dec'.
Proof.
  intros (ms & Hs & Hm & Hf) Hty Ha. exists (ms ++ [m]). split_and!.
  - by apply sublist_app.
  - apply Forall_app. split; [done|]. by apply Forall_singleton.
  - rewrite foldl_app, Hf. exact Ha.
Qed.

Lemma carried_reset inbox e ty n dec : carried inbox e ty n dec → reset dec = decoder_new n.
Proof.
  intros (ms & _ & _ & Hf). enough (∀ acc, (∀ d, acc = Ok d → reset d = decoder_new n) →
    foldl (λ d m, d ≫= λ d, msg_add_chunk d m) acc ms = Ok dec → reset dec = decoder_new n) as Hall
    by (apply (Hall (Ok (decoder_new n))); [by intros d [= <-]|done]).
  clear Hf. induction ms as [|m ms IH]; intros acc Hacc; simpl; [apply Hacc|]. apply IH.
  intros d (d0 & -> & Ha)%result_bind_Ok. rewrite <-(Hacc d0 eq_refl).
  unfold msg_add_chunk in Ha. apply result_bind_Ok in Ha as (c & _ & Ha). unfold add_chunk in Ha. by repeat case_match; simplify_eq.
Qed.

Lemma send_from_network inbox s rng s' m k : from_network inbox s → state_send s rng = Ok (s', m, k) → from_network inbox s'.
Proof. intros Hf Hs. destruct s; simpl in Hs; run_handler; by simplify_eq. Qed.

(** A secret emitted from state [s]: from a ciphertext and its MAC that came in codewords. *)
Definition secret_vouched (inbox : list Message) (s : State) (es : EpochSecret) : Prop :=
  ∃ e auth dk ct1 dec ct2 raw_ss,
    s = EkSentCt1Received e auth dk ct1 dec
    ∧ decapsulate dk ct1 ct2 = Ok raw_ss ∧ es = mk_epoch_secret e (kdf_ok raw_ss e)
    ∧ vouched inbox e Ct2 (ct2_len + MAC_SIZE) (ct2 ++ mac_ct (auth_update auth e (es_secret es)) e (ct1 ++ ct2)).

Lemma header_from_network inbox e auth dec msg s' k :
  carried inbox e Hdr (pk1_len + MAC_SIZE) dec → recv_no_header_received msg e auth dec = Ok (s', k) →
  from_network (inbox ++ [msg]) s' ∧ k = None.
Proof.
  intros Hc Hr. unfold recv_no_header_received in Hr. destruct (is_msg msg e Hdr) eqn:Ety.
  2:{ injection Hr as <- <-. split; [by apply carried_mono|done]. }
  apply result_bind_Ok in Hr as (dec' & Ha & Hr). pose proof (carried_add _ _ _ _ _ _ _ Hc Ety Ha) as Hc'.
  apply result_bind_Ok in Hr as ([payload|] & Hm & Hr); [|by injection Hr as <- <-].
  destruct (is_ok _) eqn:Ev; injection Hr as <- <-; (split; [|done]); simpl.
  - apply is_ok_unit, vfy_exact in Ev. exists dec'. split; [done|]. by rewrite <-Ev, take_drop.
  - rewrite (carried_reset _ _ _ _ _ Hc'). apply carried_new.
Qed.

Lemma ct2_from_network inbox e auth dk ct1 dec msg s' k :
  carried inbox e Ct2 (ct2_len + MAC_SIZE) dec → recv_ek_sent_ct1_received msg e auth dk ct1 dec = Ok (s', k) →
  from_network (inbox ++ [msg]) s'
  ∧ ∀ es, k = Some es → secret_vouched (inbox ++ [msg]) (EkSentCt1Received e auth dk ct1 dec) es.
Proof.
  intros Hc Hr. unfold recv_ek_sent_ct1_received in Hr. destruct (is_msg msg e Ct2) eqn:Ety.
  2:{ injection Hr as <- <-. split; [by apply carried_mono|done]. }
  apply result_bind_Ok in Hr as (dec' & Ha & Hr). pose proof (carried_add _ _ _ _ _ _ _ Hc Ety Ha) as Hc'.
  apply result_bind_Ok in Hr as ([payload|] & Hm & Hr); [|by injection Hr as <- <-].
  apply result_bind_Ok in Hr as (raw & Hraw & Hr). destruct (is_ok _) eqn:Ev; injection Hr as <- <-.
  - split; [apply carried_new|]. intros es [= <-]. apply is_ok_unit, vfy_exact in Ev.
    exists e, auth, dk, ct1, dec, (take ct2_len payload), raw. split_and!; [done|done|done|].
    exists dec'. split; [done|]. cbn [es_secret]. by rewrite <-Ev, take_drop.
  - split; [|done]. simpl. rewrite (carried_reset _ _ _ _ _ Hc'). apply carried_new.
Qed.

Lemma receive_from_network inbox s msg s' k :
  from_network inbox s → state_receive s msg = Ok (s', k) →
  from_network (inbox ++ [msg]) s' ∧ ∀ es, k = Some es → secret_vouched (inbox ++ [msg]) s es.
Proof.
  intros Hf Hr. destruct s; cbn [state_receive] in Hr;
    try (by eapply ct2_from_network); try (destruct (header_from_network _ _ _ _ _ _ _ Hf Hr) as [? ->]; done).
  all: unfold recv_keys_sampled, recv_header_sent, recv_ct1_received, recv_ct1_sampled, recv_ek_received_ct1_sampled,
      recv_ct1_acknowledged, recv_ct2_sampled in Hr; run_handler; simplify_eq; (split; [|done]); try done;
      try by apply vouched_mono.
  simpl. eapply carried_add; [apply carried_new|done|done].
Qed.

(** The messages a sequence of calls is given. *)
Definition inbox_of (ops : list BraidOp) : list Message :=
  omap (λ op, match op with OpReceive m => Some m | OpSend _ => None end) ops.

Lemma calls_from_network ops : ∀ inbox b,
  from_network inbox (state b) → from_network (inbox ++ inbox_of ops) (state (braid_calls ops b).2).
Proof.
  induction ops as [|op ops IH]; intros inbox b Hf; [by rewrite app_nil_r|]. cbn [braid_calls].
  destruct (braid_call op b) as [k b1] eqn:E.
  assert (from_network (inbox ++ inbox_of [op]) (state b1)) as Hf1.
  { destruct op as [rng|msg]; simpl in E |- *.
    - rewrite app_nil_r. rewrite braid_send_run in E. destruct (state_send _ _) as [[[s' m] k']|] eqn:Es; simplify_eq; [|done].
      by eapply send_from_network.
    - rewrite braid_receive_run in E. destruct (state_receive _ _) as [[s' k']|] eqn:Er; simplify_eq/=.
      + by eapply receive_from_network.
      + by apply from_network_mono. }
  apply IH in Hf1. rewrite <-app_assoc in Hf1. destruct (braid_calls ops b1). by destruct op.
Qed.

(** C18. Nothing is accepted without a MAC that came over the network, whatever is fed to a
    party.  A header that the party holds and will encapsulate to was decoded, followed
    by its MAC under the party's authenticator, from codewords of the messages it was
    given; and a secret that a receipt emits is the one of a ciphertext decoded in the
    same way, followed by its MAC, on both parts, under the authenticator that the secret
    ratchets to. *)
Theorem braid_authenticated (auth_seed : bytes) (sender : bool) (ops : list BraidOp) :
  let b := if sender then init_sender auth_seed else init_receiver auth_seed in
  let b' := (braid_calls ops b).2 in
  (∀ e auth header dec, state b' = HeaderReceived e auth header dec →
     vouched (inbox_of ops) e Hdr (pk1_len + MAC_SIZE) (header ++ mac_hdr auth e header))
  ∧ ∀ msg es, (braid_call (OpReceive msg) b').1 = Some es → secret_vouched (inbox_of ops ++ [msg]) (state b') es.
Proof.
  intros b b'. assert (from_network (inbox_of ops) (state b')) as Hf.
  { apply (calls_from_network ops []). unfold b. destruct sender; [done|apply carried_new]. }
  split.
  - intros e auth header dec Hs. by rewrite Hs in Hf.
  - intros msg es. simpl. rewrite braid_receive_run. destruct (state_receive _ _) as [[s' k]|] eqn:Er; [|done].
    by apply (receive_from_network _ _ _ _ _ Hf Er).
Qed.

End authentication.
