(* ===== verification/BraidTypes.v ===== *)
(** * The braid state is well-typed

    Under any messages at all, every field of every state has the size its use relies
    on: 32-byte authenticator keys, KEM objects of the library's lengths, encoders and
    decoders sized for the object they carry.  The slices that [receive] takes of a
    decoded object are therefore in range, and the length checks of the KEM wrapper
    never fail on a stored field. *)

From S2P Require Import Prelude Foundation Interfaces Kdf Padding Erasure Kem BraidAuth Braid.

(** ** Types of the parts *)

(** An encoder of an object of [n] bytes. *)
Record encoder_ok (n : nat) (e : Encoder) : Prop := {
  eo_count : length (shards e) = (data_shards_for n + recovery_shards_for n)%nat;
  eo_shards : shards_wf (shards e);
  eo_cursor : in_u64 (cursor e);
}.

(** A codeword of an object of [n] bytes, as far as its shape tells. *)
Definition shard_ok (n : nat) (i : Z) (d : bytes) : Prop :=
  0 ≤ i < Z.of_nat (data_shards_for n + recovery_shards_for n) ∧ length d = CHUNK_BYTES.

(** A decoder of an object of [n] bytes. *)
Record decoder_ok (n : nat) (d : Decoder) : Prop := {
  do_len : dec_len d = n;
  do_data : data_shards d = data_shards_for n;
  do_recovery : recovery_shards d = recovery_shards_for n;
  do_received : map_Forall (shard_ok n) (received d);
}.

(** A message the wire format can carry: a [u64] epoch and a [u16] index. *)
Definition msg_ok (m : Message) : Prop :=
  in_u64 (msg_epoch m) ∧ ∀ c, msg_chunk m = Some c → in_u16 (chunk_index c).

Section types.
Context `{HashesOk} `{ReedSolomonOk} `{IncKemOk}.

Lemma encoder_new_ok data e :
  fits (length data) → encoder_new data = Ok e → encoder_ok (length data) e.
Proof.
  intros Hf He. pose proof He as (rec & (_ & Hl & Hwf) & Hs & _)%encoder_new_inv; [|done]. split.
  - by rewrite Hs, length_app, length_originals_of, Hl.
  - rewrite Hs. apply Forall_app_2; [apply originals_of_wf|done].
  - unfold encoder_new in He. case_bool_decide; [done|]. apply result_bind_Ok in He as (r & _ & [= <-]). done.
Qed.

Lemma next_chunk_ok n e :
  encoder_ok n e → fits n →
  encoder_ok n (next_chunk e).2 ∧ shard_ok n (chunk_index (next_chunk e).1) (chunk_data (next_chunk e).1).
Proof.
  intros [Hc Hwf Hcur] Hf. split; [split; [done..|apply add_u64_range]|].
  pose proof (data_shards_fits n Hf). pose proof (recovery_shards_bound n). pose proof (data_shards_spec n).
  unfold next_chunk. simpl. rewrite Hc. set (t := (data_shards_for n + recovery_shards_for n)%nat).
  assert (0 ≤ cursor e mod Z.of_nat t < Z.of_nat t) as Hi by (apply Z.mod_pos_bound; lia).
  split; [rewrite Z.mod_small; unfold u16_max; lia|].
  destruct (nth_lookup_or_length (shards e) (Z.to_nat (cursor e mod Z.of_nat t)) []) as [Hn|Hn]; [|lia].
  exact (Forall_lookup_1 _ _ _ _ Hwf Hn).
Qed.

Lemma decoder_new_ok n : decoder_ok n (decoder_new n).
Proof. split; [done..|apply map_Forall_empty]. Qed.
Lemma reset_ok n d : decoder_ok n d → decoder_ok n (reset d).
Proof. intros []. split; [done..|apply map_Forall_empty]. Qed.

Lemma msg_add_chunk_ok n d m d' :
  decoder_ok n d → msg_ok m → msg_add_chunk d m = Ok d' → decoder_ok n d'.
Proof.
  intros [Hl Hd Hr Hrc] [_ Hm]. unfold msg_add_chunk, add_chunk, total_shards. destruct (msg_chunk m) as [c|]; [|done].
  simpl. case_bool_decide as Hlen; [done|]. rewrite Hd, Hr. destruct (Z.leb_spec0 (Z.of_nat (data_shards_for n + recovery_shards_for n)) (chunk_index c)); [done|].
  intros [= <-]. split; [done..|]. cbn. case_match; [done|]. apply map_Forall_insert_2; [|done].
  destruct (Hm c eq_refl). split; lia.
Qed.

Lemma gather_length rcv restored n out : ∀ j,
  map_Forall (λ _ d, length d = CHUNK_BYTES) rcv → map_Forall (λ _ d, length d = CHUNK_BYTES) restored →
  gather rcv restored (seqZ j (Z.of_nat n)) = Ok out → length out = (n * CHUNK_BYTES)%nat.
Proof.
  intros j Hr Hs. revert j out. induction n as [|n IH]; intros j out; [by intros [= <-]|].
  rewrite seqZ_cons by lia. cbn [gather].
  intros (d & Hd & (rest & Hg & [= <-])%result_bind_Ok)%result_bind_Ok.
  replace (Z.pred (Z.of_nat (S n))) with (Z.of_nat n) in Hg by lia. rewrite length_app, (IH _ _ Hg).
  enough (length d = CHUNK_BYTES) by lia.
  unfold shard_at in Hd. destruct (rcv !! j) eqn:E; [injection Hd as <-; exact (Hr j _ E)|].
  destruct (restored !! j) eqn:E'; [|done]. injection Hd as <-. exact (Hs j _ E').
Qed.

(** What a decoder returns was gathered from shards of the codec's size. *)
Lemma message_gathered n d out :
  decoder_ok n d → message d = Ok (Some out) →
  ∃ restored o, map_Forall (λ _ d, length d = CHUNK_BYTES) (received d)
    ∧ map_Forall (λ _ d, length d = CHUNK_BYTES) restored
    ∧ gather (received d) restored (seqZ 0 (Z.of_nat (data_shards d))) = Ok o ∧ out = take (dec_len d) o.
Proof.
  intros [Hl Hd Hr Hrc] Hm. unfold message in Hm. case_match; [done|].
  apply result_bind_Ok in Hm as (restored & Hres & (o & Hg & [= <-])%result_bind_Ok).
  assert (map_Forall (λ _ d, length d = CHUNK_BYTES) (received d)) as Hrcv
    by (by apply (map_Forall_impl _ _ _ Hrc); intros ?? []).
  exists restored, o. split_and!; [done| |done..].
  case_match; [injection Hres as <-; apply map_Forall_empty|].
  destruct (rs_decode _ _ _ _) as [x|] eqn:E; [|done]. injection Hres as <-. eapply rs_decode_shape; [..|exact E].
  - intros i x' [Hj _]%map_lookup_filter_Some. exact (Hrcv i _ Hj).
  - intros i x' (j & -> & Hj)%lookup_kmap_Some; [|intros ???; lia]. apply map_lookup_filter_Some in Hj as [Hj _].
    exact (Hrcv j _ Hj).
Qed.

(** A decoded object has exactly the length the decoder was made for. *)
Lemma decoded_length n d out : decoder_ok n d → message d = Ok (Some out) → length out = n.
Proof.
  intros Hok Hm. destruct (message_gathered _ _ _ Hok Hm) as (restored & o & Hr & Hs & Hg & ->).
  apply gather_length in Hg; [|done..]. destruct Hok as [Hl Hd _ _].
  rewrite length_take, Hg, Hl, Hd. pose proof (data_shards_spec n). lia.
Qed.

(** ** Types of a state, of a sent message, of an emitted secret *)

Definition state_ok (s : State) : Prop :=
  match s with
  | KeysUnsampled _ auth => auth_wf auth
  | KeysSampled _ auth dk ek_vector header_enc =>
      auth_wf auth ∧ length dk = inc_key_pair_len ∧ length ek_vector = pk2_len
      ∧ encoder_ok (pk1_len + MAC_SIZE) header_enc
  | HeaderSent _ auth dk ct1_dec ek_enc =>
      auth_wf auth ∧ length dk = inc_key_pair_len ∧ decoder_ok ct1_len ct1_dec ∧ encoder_ok pk2_len ek_enc
  | Ct1Received _ auth dk ct1 ek_enc =>
      auth_wf auth ∧ length dk = inc_key_pair_len ∧ length ct1 = ct1_len ∧ encoder_ok pk2_len ek_enc
  | EkSentCt1Received _ auth dk ct1 ct2_dec =>
      auth_wf auth ∧ length dk = inc_key_pair_len ∧ length ct1 = ct1_len
      ∧ decoder_ok (ct2_len + MAC_SIZE) ct2_dec
  | NoHeaderReceived _ auth hdr_dec => auth_wf auth ∧ decoder_ok (pk1_len + MAC_SIZE) hdr_dec
  | HeaderReceived _ auth header ek_dec => auth_wf auth ∧ length header = pk1_len ∧ decoder_ok pk2_len ek_dec
  | Ct1Sampled _ auth header encaps_secret ct1 ct1_enc ek_dec =>
      auth_wf auth ∧ length header = pk1_len ∧ length encaps_secret = inc_encaps_state_len
      ∧ length ct1 = ct1_len ∧ encoder_ok ct1_len ct1_enc ∧ decoder_ok pk2_len ek_dec
  | EkReceivedCt1Sampled _ auth encaps_secret ct1 ek_vector ct1_enc =>
      auth_wf auth ∧ length encaps_secret = inc_encaps_state_len ∧ length ct1 = ct1_len
      ∧ length ek_vector = pk2_len ∧ encoder_ok ct1_len ct1_enc
  | Ct1Acknowledged _ auth encaps_secret header ct1 ek_dec =>
      auth_wf auth ∧ length encaps_secret = inc_encaps_state_len ∧ length header = pk1_len
      ∧ length ct1 = ct1_len ∧ decoder_ok pk2_len ek_dec
  | Ct2Sampled _ auth ct2_enc => auth_wf auth ∧ encoder_ok (ct2_len + MAC_SIZE) ct2_enc
  | Poisoned => False
  end.

(** The length of the object whose codewords a message type carries. *)
Definition object_len (t : MsgType) : nat :=
  match t with
  | Hdr => pk1_len + MAC_SIZE
  | Ek | EkCt1Ack => pk2_len
  | Ct1 => ct1_len
  | Ct2 => ct2_len + MAC_SIZE
  | Idle => 0
  end.

Definition sent_ok (m : Message) : Prop :=
  match msg_chunk m with
  | None => mtype m = Idle
  | Some c => mtype m ≠ Idle ∧ shard_ok (object_len (mtype m)) (chunk_index c) (chunk_data c)
  end.

Definition secret_ok (k : option EpochSecret) : Prop := ∀ es, k = Some es → wf_key (es_secret es).

(** The decoder whose object [receive] slices, and where it cuts. *)
Definition sliced (s : State) : option (Decoder * nat) :=
  match s with
  | EkSentCt1Received _ _ _ _ ct2_dec => Some (ct2_dec, ct2_len)
  | NoHeaderReceived _ _ hdr_dec => Some (hdr_dec, pk1_len)
  | _ => None
  end.

Lemma streamed_fit :
  fits (pk1_len + MAC_SIZE) ∧ fits pk2_len ∧ fits ct1_len ∧ fits (ct2_len + MAC_SIZE).
Proof. pose proof inc_lengths. unfold fits, pk1_len, pk2_len, ct1_len, ct2_len, MAC_SIZE. lia. Qed.

Lemma encoder_new_sized n data e : length data = n → fits n → encoder_new data = Ok e → encoder_ok n e.
Proof. intros <-. apply encoder_new_ok. Qed.

Lemma public_key_parts_sized kp header ek :
  public_key_parts kp = Ok (header, ek) → length header = pk1_len ∧ length ek = pk2_len.
Proof.
  unfold public_key_parts. intros (k & _ & [= <- <-])%result_bind_Ok. split; [apply inc_pk1_length|apply inc_pk2_length].
Qed.

Lemma encapsulate1_sized pk1 r ct1 st ss :
  encapsulate1 pk1 r = Ok (ct1, st, ss) → length ct1 = ct1_len ∧ length st = inc_encaps_state_len.
Proof.
  unfold encapsulate1. destruct (inc_encapsulate1 pk1 r) as [[[??]?]|] eqn:E; [|done]. intros [= <- <- <-].
  by apply inc_encapsulate1_lengths in E as (? & ? & _).
Qed.

Lemma build_ct2_encoder_ok auth epoch st ek ct1 e :
  build_ct2_encoder auth epoch st ek ct1 = Ok e → encoder_ok (ct2_len + MAC_SIZE) e.
Proof.
  unfold build_ct2_encoder, encapsulate2.
  intros (ct2 & (? & _ & (? & _ & [= <-])%result_bind_Ok)%result_bind_Ok & He)%result_bind_Ok.
  eapply encoder_new_sized; [..|exact He]; [|apply streamed_fit].
  rewrite length_app, inc_encapsulate2_length. unfold mac_ct. by rewrite mac_length.
Qed.

(** Use what the callees guarantee of their results, then what the callers need. *)
Ltac use_types :=
  repeat match goal with
  | E : public_key_parts _ = Ok _ |- _ => apply public_key_parts_sized in E as [??]
  | E : encapsulate1 _ _ = Ok _ |- _ => apply encapsulate1_sized in E as [??]
  | E : build_ct2_encoder _ _ _ _ _ = Ok _ |- _ => apply build_ct2_encoder_ok in E
  | E : encoder_new (_ ++ mac_hdr _ _ _) = Ok _, Hl : length _ = pk1_len |- _ =>
      apply (encoder_new_sized (pk1_len + MAC_SIZE)) in E;
        [|rewrite length_app, Hl; unfold mac_hdr; by rewrite mac_length|done]
  | E : encoder_new ?x = Ok _, Hl : length ?x = _ |- _ => apply (encoder_new_sized _ _ _ Hl) in E; [|done]
  | E : msg_add_chunk ?d _ = Ok _, Hd : decoder_ok _ ?d |- _ => apply (msg_add_chunk_ok _ _ _ _ Hd) in E; [|done]
  | E : msg_add_chunk (decoder_new ?n) _ = Ok _ |- _ =>
      apply (msg_add_chunk_ok n) in E; [|apply decoder_new_ok|done]
  | E : message ?d = Ok (Some _), Hd : decoder_ok _ ?d |- _ => apply (decoded_length _ _ _ Hd) in E
  end.
Ltac give_types :=
  first
    [ done
    | apply auth_update_wf
    | apply decoder_new_ok
    | by apply reset_ok
    | by intros ? [= <-]; apply kdf_ok_wf
    | apply inc_from_seed_length
    | match goal with He : encoder_ok ?n ?e, Hf : fits ?n |- _ =>
        first [exact (proj1 (next_chunk_ok n e He Hf)) | by split; [|exact (proj2 (next_chunk_ok n e He Hf))]] end
    | rewrite length_take; lia ].

(** Every send keeps the state well-typed and emits a well-typed message. *)
Lemma state_send_ok s rng s' m k :
  state_ok s → state_send s rng = Ok (s', m, k) → state_ok s' ∧ sent_ok m ∧ secret_ok k.
Proof.
  pose proof streamed_fit as (Hf1 & Hf2 & Hf3 & Hf4). intros Hs Hr.
  destruct s; simpl in Hr; run_handler; simplify_eq/=; destruct_and?; use_types; split_and!; give_types.
Qed.

(** So does every message received, genuine or not. *)
Lemma state_receive_ok s m s' k :
  state_ok s → msg_ok m → state_receive s m = Ok (s', k) → state_ok s' ∧ secret_ok k.
Proof.
  pose proof streamed_fit as (Hf1 & Hf2 & Hf3 & Hf4). intros Hs Hm Hr.
  destruct s; simpl in Hr;
    unfold recv_keys_sampled, recv_header_sent, recv_ct1_received, recv_ek_sent_ct1_received,
      recv_no_header_received, recv_ct1_sampled, recv_ek_received_ct1_sampled,
      recv_ct1_acknowledged, recv_ct2_sampled in Hr;
    run_handler; simplify_eq/=; destruct_and?; use_types; split_and!; give_types.
Qed.

(** A send fails only where the KEM library refuses the header. *)
Lemma state_send_fails s rng e :
  state_ok s → state_send s rng = Err e →
  ∃ epoch auth header ek_dec msg, s = HeaderReceived epoch auth header ek_dec
    ∧ inc_encapsulate1 header (rng ENCAPS_RANDOMNESS_LEN) = Err msg ∧ e = kem_err msg.
Proof.
  pose proof inc_lengths as (Hk & Hc & _). intros Hs Hr. destruct s; simpl in Hs, Hr; try done.
  - exfalso. rewrite public_key_parts_ok in Hr. simpl in Hr.
    destruct (encoder_new_encodes (header_of (rng SEED_LEN) ++ mac_hdr auth epoch (header_of (rng SEED_LEN)))) as (? & Hn & _).
    + intros E%(f_equal length). rewrite length_app in E. unfold mac_hdr in E. rewrite mac_length in E. simpl in E. lia.
    + rewrite length_app. unfold mac_hdr. rewrite mac_length. unfold header_of. rewrite inc_pk1_length. apply streamed_fit.
    + rewrite Hn in Hr. done.
  - unfold encapsulate1 in Hr. destruct (inc_encapsulate1 header (rng ENCAPS_RANDOMNESS_LEN)) as [[[ct1 st] ss]|msg] eqn:E;
      simpl in Hr; [|repeat eexists; [exact E|congruence]].
    exfalso. apply inc_encapsulate1_lengths in E as (Hl & _).
    destruct (encoder_new_encodes ct1) as (? & Hn & _); [by intros ->; simpl in Hl; lia|rewrite Hl; apply streamed_fit|].
    rewrite Hn in Hr. done.
Qed.

Definition op_ok (op : BraidOp) : Prop := match op with OpSend _ => True | OpReceive m => msg_ok m end.

Lemma braid_call_ok op b k b' :
  state_ok (state b) → op_ok op → braid_call op b = (k, b') → state_ok (state b') ∧ secret_ok k.
Proof.
  intros Hb Ho. destruct op; simpl.
  - rewrite braid_send_run. destruct (state_send _ _) as [[[??]?]|] eqn:E; intros [= <- <-]; [|done].
    by destruct (state_send_ok _ _ _ _ _ Hb E) as (? & _ & ?).
  - rewrite braid_receive_run. destruct (state_receive _ _) as [[??]|] eqn:E; intros [= <- <-]; [|done].
    by destruct (state_receive_ok _ _ _ _ Hb Ho E).
Qed.

Lemma braid_calls_ok ops : ∀ b ks b',
  state_ok (state b) → Forall op_ok ops → braid_calls ops b = (ks, b') →
  state_ok (state b') ∧ Forall (λ es, wf_key (es_secret es)) ks.
Proof.
  induction ops as [|op ops IH]; intros b ks b' Hb Ho; cbn [braid_calls]; [by intros [= <- <-]|].
  apply Forall_cons_1 in Ho as [Ho Hos]. destruct (braid_call op b) as [k b1] eqn:E1.
  destruct (braid_calls ops b1) as [ks1 b2] eqn:E2. intros [= <- <-].
  destruct (braid_call_ok _ _ _ _ Hb Ho E1) as [Hb1 Hk]. destruct (IH _ _ _ Hb1 Hos E2) as [? ?]. split; [done|].
  apply Forall_app_2; [|done]. destruct k as [es|]; constructor; [by apply Hk|constructor].
Qed.

(** C15. The braid state is well-typed, whatever the network delivers: from either initial
    state, after any calls, every field has its size; the secrets emitted are 32-byte
    keys; the next send carries a codeword of the right object and can only fail by the
    KEM library refusing a received header; and the object that [receive] cuts in two is
    never shorter than the cut. *)
Theorem braid_well_typed (auth_seed : bytes) (sender : bool) (ops : list BraidOp) :
  Forall op_ok ops →
  let '(ks, b) := braid_calls ops (if sender then init_sender auth_seed else init_receiver auth_seed) in
  state_ok (state b)
  ∧ Forall (λ es, wf_key (es_secret es)) ks
  ∧ (∀ rng, match (braid_send rng b).1 with
            | Ok out => sent_ok (ss_msg out)
            | Err e => ∃ epoch auth header ek_dec msg, state b = HeaderReceived epoch auth header ek_dec
                ∧ inc_encapsulate1 header (rng ENCAPS_RANDOMNESS_LEN) = Err msg ∧ e = kem_err msg
            end)
  ∧ (∀ m dec n dec' object, msg_ok m → sliced (state b) = Some (dec, n) → msg_add_chunk dec m = Ok dec' →
       message dec' = Ok (Some object) → length object = (n + MAC_SIZE)%nat).
Proof.
  intros Ho. set (b0 := if sender then _ else _). destruct (braid_calls ops b0) as [ks b] eqn:E.
  destruct (braid_calls_ok ops b0 ks b) as [Hb Hks]; [|done|exact E|].
  { unfold b0. destruct sender; simpl; [apply auth_update_wf|split; [apply auth_update_wf|apply decoder_new_ok]]. }
  split_and!; [done..| |].
  - intros rng. rewrite braid_send_run. destruct (state_send (state b) rng) as [[[s' m] k]|e] eqn:Es; simpl.
    + by destruct (state_send_ok _ _ _ _ _ Hb Es) as (_ & ? & _).
    + by apply (state_send_fails _ rng).
  - intros m dec n dec' object Hm Hs Ha Hd. destruct (state b); simplify_eq/=; destruct_and?; by use_types.
Qed.

End types.
