(* ===== verification/BraidAgreement.v ===== *)
(** * Two parties over a lossy, reordering, duplicating network

    The braid's contract: the two parties emit the same secret for the same epoch.
    [System] is both parties, every message each has ever sent (any of them may be
    delivered any number of times, in any order, or never) and the secrets each has
    emitted.  [sys_step] runs the calls of [Braid]; the invariant [joint] ties the two
    states to one epoch transcript (the authenticator, the keypair seed and the
    encapsulation randomness). *)

From stdpp Require Import functions.
From S2P Require Import Prelude Foundation Interfaces Kdf Padding Erasure Kem BraidAuth Braid.

(** ** The system *)

(** A party is named by a boolean; [negb p] is its peer. *)
Record System : Type := mk_system {
  party : bool → BraidState;
  sent : bool → list Message;
  emitted : bool → list EpochSecret;
}.

Section system.
Context `{Hashes} `{ReedSolomon} `{IncKem}.

(** Both peers seed the authenticator with the same secret; party [true] starts as
    the sender of the first header. *)
Definition sys_init (auth_seed : bytes) : System :=
  mk_system (λ p, if p then init_sender auth_seed else init_receiver auth_seed)
            (λ _, []) (λ _, []).

(** A send with any randomness, or the delivery of any message the peer ever sent.
    Epochs are 64-bit: a run has fewer than [2^64] of them. *)
Inductive sys_step : System → System → Prop :=
| step_send p rng sys out b' :
    state_epoch (state (party sys p)) < u64_max →
    braid_send rng (party sys p) = (Ok out, b') →
    sys_step sys
      (mk_system (<[p := b']> (party sys))
                 (<[p := ss_msg out :: sent sys p]> (sent sys))
                 (<[p := option_list (ss_output_key out) ++ emitted sys p]> (emitted sys)))
| step_deliver p msg sys out b' :
    state_epoch (state (party sys p)) < u64_max →
    msg ∈ sent sys (negb p) →
    braid_receive msg (party sys p) = (Ok out, b') →
    sys_step sys
      (mk_system (<[p := b']> (party sys)) (sent sys)
                 (<[p := option_list (sr_output_key out) ++ emitted sys p]> (emitted sys))).

Definition sys_reachable (auth_seed : bytes) (sys : System) : Prop :=
  rtc sys_step (sys_init auth_seed) sys.

(** ** The transcript of one epoch *)

Record Transcript : Type := mk_transcript {
  t_auth : Authenticator;
  t_seed : bytes;
  t_rand : bytes;
}.

Definition t_hdr (t : Transcript) : bytes := header_of (t_seed t).
Definition t_ek (t : Transcript) : bytes := ek_vector_of (t_seed t).
Definition t_enc (t : Transcript) : bytes * bytes * bytes :=
  default ([], [], []) (result_opt (encapsulate1 (t_hdr t) (t_rand t))).
Definition t_ct1 (t : Transcript) : bytes := (t_enc t).1.1.
Definition t_st (t : Transcript) : bytes := (t_enc t).1.2.
Definition t_ct2 (t : Transcript) : bytes := inc_encapsulate2 (t_st t) (t_ek t).
(** The secret of the epoch, and the authenticator it ratchets to. *)
Definition t_secret (t : Transcript) (e : Z) : bytes := kdf_ok (t_enc t).2 e.
Definition t_next (t : Transcript) (e : Z) : Authenticator := auth_update (t_auth t) e (t_secret t e).
(** The two authenticated payloads. *)
Definition hdr_payload (t : Transcript) (e : Z) : bytes := t_hdr t ++ mac_hdr (t_auth t) e (t_hdr t).
Definition ct2_payload (t : Transcript) (e : Z) : bytes :=
  t_ct2 t ++ mac_ct (t_next t e) e (t_ct1 t ++ t_ct2 t).

(** ** The joint invariant *)

(** A message carries a codeword of [data]. *)
Definition carries (data : bytes) (m : Message) : Prop :=
  ∃ c, msg_chunk m = Some c ∧ codeword_of data c.

Definition owner_msg (t : Transcript) (e : Z) (m : Message) : Prop :=
  match mtype m with
  | Idle => True
  | Hdr => carries (hdr_payload t e) m
  | Ek | EkCt1Ack => carries (t_ek t) m
  | Ct1 | Ct2 => False
  end.

Definition enc_msg (t : Transcript) (e : Z) (m : Message) : Prop :=
  match mtype m with
  | Idle => True
  | Ct1 => carries (t_ct1 t) m
  | Ct2 => carries (ct2_payload t e) m
  | Hdr | Ek | EkCt1Ack => False
  end.

(** States of the keypair owner once the header is out. *)
Inductive owner_sampled (t : Transcript) (e : Z) : State → Prop :=
| os_sampled enc :
    encodes (hdr_payload t e) enc →
    owner_sampled t e (KeysSampled e (t_auth t) (generate_keypair (t_seed t)) (t_ek t) enc).

Inductive owner_ct1 (t : Transcript) (e : Z) : State → Prop :=
| oc_sampled s : owner_sampled t e s → owner_ct1 t e s
| oc_header_sent dec enc :
    collects (t_ct1 t) dec → encodes (t_ek t) enc →
    owner_ct1 t e (HeaderSent e (t_auth t) (generate_keypair (t_seed t)) dec enc)
| oc_ct1_received enc :
    encodes (t_ek t) enc →
    owner_ct1 t e (Ct1Received e (t_auth t) (generate_keypair (t_seed t)) (t_ct1 t) enc).

Inductive owner_ct2 (t : Transcript) (e : Z) : State → Prop :=
| o2_ct1 s : owner_ct1 t e s → owner_ct2 t e s
| o2_ek_sent dec :
    collects (ct2_payload t e) dec →
    owner_ct2 t e (EkSentCt1Received e (t_auth t) (generate_keypair (t_seed t)) (t_ct1 t) dec).

(** States of the encapsulator before, and after, it samples the ciphertext. *)
Inductive enc_header (t : Transcript) (e : Z) : State → Prop :=
| eh_waiting dec : collects (hdr_payload t e) dec → enc_header t e (NoHeaderReceived e (t_auth t) dec)
| eh_received dec : collects (t_ek t) dec → enc_header t e (HeaderReceived e (t_auth t) (t_hdr t) dec).

Inductive enc_ct1 (t : Transcript) (e : Z) : State → Prop :=
| ec_sampled enc dec :
    encodes (t_ct1 t) enc → collects (t_ek t) dec →
    enc_ct1 t e (Ct1Sampled e (t_next t e) (t_hdr t) (t_st t) (t_ct1 t) enc dec)
| ec_ek_received enc :
    encodes (t_ct1 t) enc →
    enc_ct1 t e (EkReceivedCt1Sampled e (t_next t e) (t_st t) (t_ct1 t) (t_ek t) enc)
| ec_acknowledged dec :
    collects (t_ek t) dec →
    enc_ct1 t e (Ct1Acknowledged e (t_next t e) (t_st t) (t_hdr t) (t_ct1 t) dec).

(** The phases of an epoch: the states of the owner and of the encapsulator. *)
Inductive phase (t : Transcript) (e : Z) : State → State → Prop :=
| ph_unsampled :
    phase t e (KeysUnsampled e (t_auth t))
              (NoHeaderReceived e (t_auth t) (decoder_new (pk1_len + MAC_SIZE)))
| ph_header o c : owner_sampled t e o → enc_header t e c → phase t e o c
| ph_ct1 o c : owner_ct1 t e o → enc_ct1 t e c → phase t e o c
| ph_ct2 o enc :
    owner_ct2 t e o → encodes (ct2_payload t e) enc →
    phase t e o (Ct2Sampled e (t_next t e) enc)
| ph_done enc :
    encodes (ct2_payload t e) enc →
    phase t e (NoHeaderReceived (e + 1) (t_next t e) (decoder_new (pk1_len + MAC_SIZE)))
              (Ct2Sampled e (t_next t e) enc).

(** What a party has put on the network, given its state. *)
Definition owner_sent (t : Transcript) (e : Z) (o : State) (ms : list Message) : Prop :=
  ∀ m, m ∈ ms →
    0 ≤ msg_epoch m ≤ state_epoch o
    ∧ (msg_epoch m = e → (∀ a, o ≠ KeysUnsampled e a) ∧ owner_msg t e m)
    ∧ (msg_epoch m = e + 1 → mtype m = Idle).

Definition enc_sent (t : Transcript) (e : Z) (c : State) (ms : list Message) : Prop :=
  ∀ m, m ∈ ms →
    0 ≤ msg_epoch m ≤ e
    ∧ (msg_epoch m = e → enc_msg t e m
       ∧ (emitted_upto c < e → mtype m = Idle)
       ∧ (mtype m = Ct2 → ∃ a enc, c = Ct2Sampled e a enc)).

(** What a party has emitted, given its state: nothing beyond its progress, and the
    transcript's secret for the current epoch. *)
Definition log_ok (t : Transcript) (e : Z) (s : State) (ks : list EpochSecret) : Prop :=
  ∀ es, es ∈ ks → es_epoch es ≤ emitted_upto s ∧ (es_epoch es = e → es_secret es = t_secret t e).

Definition joint (t : Transcript) (e : Z) (o c : State) (mo mc : list Message)
    (ko kc : list EpochSecret) : Prop :=
  0 < e ∧ phase t e o c ∧ owner_sent t e o mo ∧ enc_sent t e c mc
  ∧ log_ok t e o ko ∧ log_ok t e c kc.

(** Some party owns the keypair of the current epoch, and the secrets emitted so far
    agree. *)
Definition sys_inv (sys : System) : Prop :=
  (∃ t e o, joint t e (state (party sys o)) (state (party sys (negb o)))
              (sent sys o) (sent sys (negb o)) (emitted sys o) (emitted sys (negb o)))
  ∧ (∀ p q ea eb, ea ∈ emitted sys p → eb ∈ emitted sys q →
       es_epoch ea = es_epoch eb → es_secret ea = es_secret eb).

End system.

(** ** Facts about transcripts *)

Section transcripts.
Context `{HashesOk} `{ReedSolomonOk} `{IncKemOk}.

Lemma t_enc_ok t : encapsulate1 (t_hdr t) (t_rand t) = Ok (t_ct1 t, t_st t, (t_enc t).2).
Proof.
  destruct (encapsulate1_ok (t_seed t) (t_rand t)) as (ct1 & st & ss & He & _).
  unfold t_ct1, t_st, t_enc, t_hdr. rewrite He. done.
Qed.

Lemma t_lengths t :
  length (t_hdr t) = pk1_len ∧ length (t_ek t) = pk2_len ∧ length (t_ct1 t) = ct1_len
  ∧ length (t_st t) = inc_encaps_state_len ∧ length (t_ct2 t) = ct2_len.
Proof.
  pose proof (t_enc_ok t) as He. unfold encapsulate1 in He.
  destruct (inc_encapsulate1 _ _) as [r|] eqn:E; inv_ok.
  apply inc_encapsulate1_lengths in E as (?&?&?).
  split_and!; [apply inc_pk1_length | apply inc_pk2_length | done | done | ].
  apply inc_encapsulate2_length.
Qed.

Lemma hdr_payload_length t e : length (hdr_payload t e) = (pk1_len + MAC_SIZE)%nat.
Proof.
  unfold hdr_payload, mac_hdr. rewrite length_app, mac_length.
  by rewrite (proj1 (t_lengths t)).
Qed.

Lemma ct2_payload_length t e : length (ct2_payload t e) = (ct2_len + MAC_SIZE)%nat.
Proof.
  unfold ct2_payload, mac_ct. rewrite length_app, mac_length.
  by destruct (t_lengths t) as (_ & _ & _ & _ & ->).
Qed.

(** A streamed object is non-empty and fits the codec. *)
Definition streams (data : bytes) : Prop := (0 < length data)%nat ∧ fits (length data).

Lemma payload_bounds t e :
  streams (hdr_payload t e)
  ∧ streams (ct2_payload t e)
  ∧ streams (t_ek t)
  ∧ streams (t_ct1 t).
Proof.
  unfold streams, fits. rewrite hdr_payload_length, ct2_payload_length.
  destruct (t_lengths t) as (_ & -> & -> & _).
  pose proof inc_lengths. unfold pk1_len, pk2_len, ct1_len, ct2_len, MAC_SIZE. lia.
Qed.

Lemma recovery_exists data :
  streams data → ∃ rec, recovery_of data rec.
Proof.
  intros Hl. destruct (encoder_new_encodes data) as (e & _ & rec & Hr & _); [|apply Hl|by exists rec].
  destruct Hl as [Hl _]. by destruct data; [simpl in Hl; lia|].
Qed.

Lemma fresh_decoder_collects data n :
  streams data → n = length data → collects data (decoder_new n).
Proof. intros Hl ->. destruct (recovery_exists data Hl) as [rec Hr]. by eapply decoder_new_collects. Qed.

(** Handing the codeword of a genuine message to a genuine decoder. *)
Lemma msg_add_chunk_collects data d m d' :
  collects data d → carries data m → msg_add_chunk d m = Ok d' → collects data d'.
Proof.
  intros Hd (c & Hc & Hcw). unfold msg_add_chunk. rewrite Hc. simpl. intros Ha.
  destruct (add_chunk_collects data d c Hd Hcw) as (d2 & Ha2 & Hcol).
  rewrite Ha in Ha2. by injection Ha2 as ->.
Qed.

(** A step of a genuine encoder. *)
Lemma next_chunk_carries data enc e t :
  encodes data enc → streams data →
  carries data (carrying e t (next_chunk enc).1) ∧ encodes data (next_chunk enc).2.
Proof.
  intros He Hl. destruct (next_chunk_codeword data enc He (proj2 Hl)) as [Hc He']. split; [|done].
  by exists (next_chunk enc).1.
Qed.

(** The encapsulator's ciphertext payload. *)
Lemma build_ct2_encodes t e enc :
  build_ct2_encoder (t_next t e) e (t_st t) (t_ek t) (t_ct1 t) = Ok enc →
  encodes (ct2_payload t e) enc.
Proof.
  unfold build_ct2_encoder. destruct (t_lengths t) as (_ & _ & _ & Hst & _).
  unfold t_ek at 1. rewrite encapsulate2_ok by done. simpl.
  apply encoder_new_inv. apply (payload_bounds t e).
Qed.

(** The owner accepts the payload and derives the transcript's secret. *)
Lemma owner_decapsulates t :
  decapsulate (generate_keypair (t_seed t)) (t_ct1 t) (t_ct2 t) = Ok (t_enc t).2.
Proof.
  destruct (kem_agreement (t_seed t) (t_rand t)) as (ct1 & st & ss & ct2 & _ & He & _ & He2 & Hd).
  fold (t_hdr t) in He. rewrite t_enc_ok in He. injection He as <- <- <-.
  rewrite encapsulate2_ok in He2 by apply t_lengths. injection He2 as <-. done.
Qed.

(** Facts about epoch [e] survive a change of the data nobody has used yet. *)
Lemma enc_sent_change t t' e c ms : emitted_upto c < e → enc_sent t e c ms → enc_sent t' e c ms.
Proof.
  intros Hc Hs m Hm. destruct (Hs m Hm) as (Hb & Hf). split; [done|].
  intros He. destruct (Hf He) as (_ & Hi & Hct2). specialize (Hi Hc).
  split_and!; [|done|congruence]. unfold enc_msg. by rewrite Hi.
Qed.

Lemma log_ok_change t t' e s ks : emitted_upto s < e → log_ok t e s ks → log_ok t' e s ks.
Proof. intros Hs Hl es Hes. destruct (Hl es Hes) as [Hb _]. split; [done|lia]. Qed.

Lemma owner_sent_change t t' e o ms :
  t_auth t' = t_auth t → t_seed t' = t_seed t → owner_sent t e o ms → owner_sent t' e o ms.
Proof.
  intros Ha Hs Ho m Hm. destruct (Ho m Hm) as (?&Hf&?). split_and!; [lia..| |done].
  intros He. destruct (Hf He) as [? Hom]. split; [done|].
  unfold owner_msg, hdr_payload, t_hdr, t_ek in *. by rewrite Ha, Hs.
Qed.

End transcripts.

(** ** Monotonicity of the network and log facts *)

Section monotone.
Context `{Hashes} `{ReedSolomon} `{IncKem}.

Lemma owner_sent_mono t e o o' ms :
  owner_sent t e o ms → state_epoch o ≤ state_epoch o' → (∀ a, o' ≠ KeysUnsampled e a) →
  owner_sent t e o' ms.
Proof.
  intros Ho He Hu m Hm. destruct (Ho m Hm) as (?&Hf&?). split_and!; [lia..| |done].
  intros Hme. split; [done|]. by apply Hf.
Qed.

Lemma owner_sent_cons t e o m ms :
  owner_sent t e o ms → (∀ a, o ≠ KeysUnsampled e a) → 0 ≤ msg_epoch m ≤ state_epoch o →
  owner_msg t e m → (msg_epoch m = e + 1 → mtype m = Idle) → owner_sent t e o (m :: ms).
Proof.
  intros Ho Hu Hb Hm Hi m' [->|Hin]%elem_of_cons; [|by apply Ho].
  split_and!; [lia..|done|done].
Qed.

Lemma enc_sent_mono t e c c' ms :
  enc_sent t e c ms → emitted_upto c ≤ emitted_upto c' →
  (∀ a enc, c = Ct2Sampled e a enc → ∃ a' enc', c' = Ct2Sampled e a' enc') → enc_sent t e c' ms.
Proof.
  intros Hs He Hc m Hm. destruct (Hs m Hm) as (?&Hf). split; [done|]. intros Hme.
  destruct (Hf Hme) as (Hem&Hi&Hct2). split_and!; [done | intros; apply Hi; lia |].
  intros Ht. destruct (Hct2 Ht) as (a & enc & E). by eapply Hc.
Qed.

Lemma enc_sent_cons t e c m ms :
  enc_sent t e c ms → 0 ≤ e → msg_epoch m = e → enc_msg t e m →
  (emitted_upto c < e → mtype m = Idle) →
  (mtype m = Ct2 → ∃ a enc, c = Ct2Sampled e a enc) → enc_sent t e c (m :: ms).
Proof. intros Hs ????? m' [->|Hin]%elem_of_cons; [split; [lia|done] | by apply Hs]. Qed.

Lemma log_ok_mono t e s s' ks : log_ok t e s ks → emitted_upto s ≤ emitted_upto s' → log_ok t e s' ks.
Proof. intros Hl He es Hes. destruct (Hl es Hes). split; [lia|done]. Qed.

Lemma log_ok_cons t e s es ks :
  log_ok t e s ks → es_epoch es ≤ emitted_upto s → es_secret es = t_secret t e →
  log_ok t e s (es :: ks).
Proof. intros Hl ?? es' [->|Hin]%elem_of_cons; [done | by apply Hl]. Qed.

(** Case analysis on the phase components. *)
Lemma phase_epochs t e o c : phase t e o c →
  (state_epoch o = e ∨ state_epoch o = e + 1) ∧ state_epoch c = e ∧ emitted_upto o ≤ e
  ∧ e - 1 ≤ emitted_upto o ∧ e - 1 ≤ emitted_upto c ≤ e.
Proof.
  destruct 1 as [|?? [] []|?? [? []| |] []|?? [? [? []| |]|]|]; simpl; repeat split; lia.
Qed.

(** Neither party is ahead of what the other has emitted. *)
Lemma phase_known t e o c : phase t e o c →
  state_epoch o - 1 ≤ emitted_upto c ∧ state_epoch c - 1 ≤ emitted_upto o.
Proof.
  destruct 1 as [|?? [] []|?? [? []| |] []|?? [? [? []| |]|]|]; simpl; split; lia.
Qed.

End monotone.

(** ** The four kinds of step *)

Section steps.
Context `{HashesOk} `{ReedSolomonOk} `{IncKemOk}.

Lemma owner_sampled_send t e o rng o' m k :
  owner_sampled t e o → state_send o rng = Ok (o', m, k) →
  owner_sampled t e o' ∧ owner_msg t e m ∧ k = None.
Proof.
  intros [enc Henc] Hs. cbn [state_send] in Hs. assert (streams (hdr_payload t e)) as Hb by apply payload_bounds.
  destruct (next_chunk_carries _ _ e Hdr Henc Hb) as [Hc Hn].
  destruct (next_chunk enc) as [ch enc']. simpl in *. simplify_eq.
  split_and!; [by apply os_sampled|exact Hc|done].
Qed.

Lemma owner_ct1_send t e o rng o' m k :
  owner_ct1 t e o → state_send o rng = Ok (o', m, k) → owner_ct1 t e o' ∧ owner_msg t e m ∧ k = None.
Proof.
  intros [s Hs | dec enc Hd Henc | enc Henc] Hr.
  - apply (owner_sampled_send t e) in Hr as (?&?&?); [|done]. split_and!; [by apply oc_sampled|done..].
  - cbn [state_send] in Hr. assert (streams (t_ek t)) as Hb by apply (payload_bounds t e).
    destruct (next_chunk_carries _ _ e Ek Henc Hb) as [Hc Hn].
    destruct (next_chunk enc) as [ch enc']. simpl in *. simplify_eq.
    split_and!; [by apply oc_header_sent|exact Hc|done].
  - cbn [state_send] in Hr. assert (streams (t_ek t)) as Hb by apply (payload_bounds t e).
    destruct (next_chunk_carries _ _ e EkCt1Ack Henc Hb) as [Hc Hn].
    destruct (next_chunk enc) as [ch enc']. simpl in *. simplify_eq.
    split_and!; [by apply oc_ct1_received|exact Hc|done].
Qed.

Lemma owner_ct2_send t e o rng o' m k :
  owner_ct2 t e o → state_send o rng = Ok (o', m, k) → owner_ct2 t e o' ∧ owner_msg t e m ∧ k = None.
Proof.
  intros [s Hs|dec Hd] Hr.
  - apply (owner_ct1_send t e) in Hr as (?&?&?); [|done]. split_and!; [by apply o2_ct1|done..].
  - simpl in Hr. simplify_eq. split_and!; [by apply o2_ek_sent|done..].
Qed.

(** The owner samples its keypair: the transcript's seed is what was drawn. *)
Lemma owner_unsampled_send t e rng o' m k :
  state_send (KeysUnsampled e (t_auth t)) rng = Ok (o', m, k) →
  let t' := mk_transcript (t_auth t) (rng SEED_LEN) (t_rand t) in
  owner_sampled t' e o' ∧ owner_msg t' e m ∧ k = None.
Proof.
  intros Hr t'. cbn [state_send] in Hr. rewrite public_key_parts_ok in Hr.
  cbn [mbind result_bind] in Hr.
  apply result_bind_Ok in Hr as (enc & He & Hr).
  change (header_of (rng SEED_LEN)) with (t_hdr t') in *.
  change (t_hdr t' ++ mac_hdr (t_auth t) e (t_hdr t')) with (hdr_payload t' e) in *.
  assert (streams (hdr_payload t' e)) as Hb by apply payload_bounds.
  apply encoder_new_inv in He; [|apply Hb].
  destruct (next_chunk_carries _ _ e Hdr He Hb) as [Hc Hn].
  destruct (next_chunk enc) as [ch enc']. simpl in *. simplify_eq.
  split_and!; [by apply (os_sampled t' e)|exact Hc|done].
Qed.

Lemma owner_not_unsampled t e o : owner_ct2 t e o → ∀ a, o ≠ KeysUnsampled e a.
Proof. by intros [s [s' []| |]|] a. Qed.

Lemma joint_owner_send t e o c mo mc ko kc rng o' m k :
  joint t e o c mo mc ko kc → state_send o rng = Ok (o', m, k) →
  k = None ∧ ∃ t', joint t' e o' c (m :: mo) mc ko kc.
Proof.
  intros (He0 & Hph & Hmo & Hmc & Hko & Hkc) Hs.
  pose proof (state_send_spec _ _ _ _ _ Hs) as (_ & Hep & Hme & Hem).
  pose proof (phase_epochs _ _ _ _ Hph) as (Hepo & Hepc & _ & _).
  (* steps within an unchanged transcript *)
  assert (owner_msg t e m → (∀ a, o' ≠ KeysUnsampled e a) → k = None → (msg_epoch m = e + 1 → mtype m = Idle) →
          phase t e o' c → joint t e o' c (m :: mo) mc ko kc) as Hkeep.
  { intros Hmsg Hu -> Hi Hph'. simpl in Hem. split_and!; try done.
    - apply owner_sent_cons; [|done|lia|done|done]. eapply owner_sent_mono; [done|lia|done].
    - eapply log_ok_mono; [done|lia]. }
  destruct Hph as [|o c Ho Hc|o c Ho Hc|o enc Ho Hc|enc Hc].
  - (* sampling *)
    apply owner_unsampled_send in Hs as (Ho' & Hmsg & ->). split; [done|].
    set (t' := mk_transcript _ _ _) in *. exists t'. simpl in *. split_and!; [done|..].
    + apply ph_header; [done|]. apply (eh_waiting t' e).
      apply fresh_decoder_collects; [apply payload_bounds | by rewrite hdr_payload_length].
    + intros m' [->|Hin]%elem_of_cons.
      * destruct Ho'. split_and!; [simpl; lia..| done | lia].
      * destruct (Hmo m' Hin) as (Hb & Hf & Hi). simpl in Hb. split_and!; [lia..| |done].
        intros Hme'. destruct (Hf Hme') as [Hu _]. by destruct (Hu (t_auth t)).
    + eapply enc_sent_change; [|done]. simpl. lia.
    + apply (log_ok_change t); [destruct Ho'; simpl; lia|]. eapply log_ok_mono; [done|simpl; lia].
    + apply (log_ok_change t); [simpl; lia|done].
  - apply (owner_sampled_send t e) in Hs as (Ho' & Hmsg & ->); [|done]. split; [done|]. exists t.
    apply Hkeep; [done| |done| |by apply ph_header].
    + by intros a; destruct Ho'.
    + destruct Ho; simpl in *; lia.
  - apply (owner_ct1_send t e) in Hs as (Ho' & Hmsg & ->); [|done]. split; [done|]. exists t.
    apply Hkeep; [done| |done| |by apply ph_ct1].
    + by eapply owner_not_unsampled, o2_ct1.
    + destruct Ho as [? []| |]; simpl in *; lia.
  - apply (owner_ct2_send t e) in Hs as (Ho' & Hmsg & ->); [|done]. split; [done|]. exists t.
    apply Hkeep; [done| |done| |by apply ph_ct2].
    + by eapply owner_not_unsampled.
    + destruct Ho as [? [? []| |]|]; simpl in *; lia.
  - simpl in Hs. simplify_eq. split; [done|]. exists t. apply Hkeep; try done. by apply ph_done.
Qed.

(** The encapsulator samples the ciphertext: the transcript's randomness is what was
    drawn, and it emits the transcript's secret. *)
Lemma enc_received_send t e dec rng c' m k :
  collects (t_ek t) dec →
  state_send (HeaderReceived e (t_auth t) (t_hdr t) dec) rng = Ok (c', m, k) →
  let t' := mk_transcript (t_auth t) (t_seed t) (rng ENCAPS_RANDOMNESS_LEN) in
  enc_ct1 t' e c' ∧ carries (t_ct1 t') m ∧ mtype m = Ct1
  ∧ k = Some (mk_epoch_secret e (t_secret t' e)).
Proof.
  intros Hd Hs t'. cbn [state_send] in Hs.
  change (t_hdr t) with (t_hdr t') in *. change (rng ENCAPS_RANDOMNESS_LEN) with (t_rand t') in Hs.
  change (t_ek t) with (t_ek t') in Hd. change (t_auth t) with (t_auth t') in Hs.
  rewrite t_enc_ok in Hs. cbn [mbind result_bind] in Hs.
  apply result_bind_Ok in Hs as (enc & He & Hs).
  assert (streams (t_ct1 t')) as Hb by apply (payload_bounds t' e).
  apply encoder_new_inv in He; [|apply Hb].
  destruct (next_chunk_carries _ _ e Ct1 He Hb) as [Hc Hn].
  destruct (next_chunk enc) as [ch enc']. simpl in *. simplify_eq.
  split_and!; [by apply (ec_sampled t' e) | done | done | done].
Qed.

Lemma enc_ct1_send t e c rng c' m k :
  enc_ct1 t e c → state_send c rng = Ok (c', m, k) →
  enc_ct1 t e c' ∧ enc_msg t e m ∧ mtype m ≠ Ct2 ∧ k = None.
Proof.
  assert (streams (t_ct1 t)) as Hb by apply (payload_bounds t e).
  intros [enc dec Henc Hd | enc Henc | dec Hd] Hr; cbn [state_send] in Hr.
  - destruct (next_chunk_carries _ _ e Ct1 Henc Hb) as [Hc Hn].
    destruct (next_chunk enc) as [ch enc']. simpl in *. simplify_eq.
    split_and!; [by apply ec_sampled|exact Hc|done..].
  - destruct (next_chunk_carries _ _ e Ct1 Henc Hb) as [Hc Hn].
    destruct (next_chunk enc) as [ch enc']. simpl in *. simplify_eq.
    split_and!; [by apply ec_ek_received|exact Hc|done..].
  - simplify_eq. split_and!; [by apply ec_acknowledged|done..].
Qed.

Lemma ct2_sampled_send t e enc rng c' m k :
  encodes (ct2_payload t e) enc →
  state_send (Ct2Sampled e (t_next t e) enc) rng = Ok (c', m, k) →
  ∃ enc', c' = Ct2Sampled e (t_next t e) enc' ∧ encodes (ct2_payload t e) enc'
          ∧ enc_msg t e m ∧ k = None.
Proof.
  intros Henc Hr. cbn [state_send] in Hr.
  assert (streams (ct2_payload t e)) as Hb by apply payload_bounds.
  destruct (next_chunk_carries _ _ e Ct2 Henc Hb) as [Hc Hn].
  destruct (next_chunk enc) as [ch enc']. simpl in *. simplify_eq.
  exists enc'. split_and!; [done|done|exact Hc|done].
Qed.

Lemma joint_enc_send t e o c mo mc ko kc rng c' m k :
  joint t e o c mo mc ko kc → state_send c rng = Ok (c', m, k) →
  (∀ es, k = Some es → es_epoch es = e)
  ∧ ∃ t', joint t' e o c' mo (m :: mc) ko (option_list k ++ kc).
Proof.
  intros (He0 & Hph & Hmo & Hmc & Hko & Hkc) Hs.
  pose proof (state_send_spec _ _ _ _ _ Hs) as (_ & Hep & Hme & Hem).
  pose proof (phase_epochs _ _ _ _ Hph) as (Hepo & Hepc & _ & Hemo & Hemc).
  assert (enc_msg t e m → k = None → (emitted_upto c' < e → mtype m = Idle) →
          (mtype m = Ct2 → ∃ a enc, c' = Ct2Sampled e a enc) →
          (∀ a enc, c = Ct2Sampled e a enc → ∃ a' enc', c' = Ct2Sampled e a' enc') →
          phase t e o c' → (∀ es, k = Some es → es_epoch es = e)
          ∧ ∃ t', joint t' e o c' mo (m :: mc) ko (option_list k ++ kc)) as Hkeep.
  { intros Hmsg -> Hi H2' Hct Hph'. simpl in Hem. split; [done|]. exists t. split_and!; try done.
    - apply enc_sent_cons; [|lia..|done|done|done]. eapply enc_sent_mono; [done|lia|done].
    - eapply log_ok_mono; [done|lia]. }
  destruct Hph as [|o c Ho Hc|o c Ho Hc|o enc Ho Hc|enc Hc].
  - simpl in Hs. simplify_eq. apply Hkeep; try done. apply ph_unsampled.
  - destruct Hc as [dec Hd|dec Hd].
    { simpl in Hs. simplify_eq. apply Hkeep; try done. apply ph_header; [done|]. by apply eh_waiting. }
    apply enc_received_send in Hs as (Hc' & Hcar & Hty & ->); [|done].
    set (t' := mk_transcript _ _ _) in *. split; [by intros es [= <-]|]. exists t'.
    assert (emitted_upto c' = e) as Hemc' by (by destruct Hc'). simpl in Hme.
    split_and!; [done|..].
    + apply ph_ct1; [|done]. apply oc_sampled. destruct Ho. by apply (os_sampled t' e).
    + by apply (owner_sent_change t).
    + apply enc_sent_cons; [|lia|done| |lia|congruence].
      * apply (enc_sent_mono t' e (HeaderReceived e (t_auth t) (t_hdr t) dec)); [|simpl; lia|done].
        apply (enc_sent_change t); [simpl; lia|done].
      * unfold enc_msg. by rewrite Hty.
    + apply (log_ok_change t); [destruct Ho; simpl; lia|done].
    + simpl. apply log_ok_cons; [|simpl; lia|done].
      apply (log_ok_mono t' e (HeaderReceived e (t_auth t) (t_hdr t) dec)); [|simpl; lia].
      apply (log_ok_change t); [simpl; lia|done].
  - apply (enc_ct1_send t e) in Hs as (Hc' & Hmsg & Hty & ->); [|done].
    apply Hkeep; [done|done| |done| |by apply ph_ct1].
    + by destruct Hc'; simpl; lia.
    + by destruct Hc.
  - apply ct2_sampled_send in Hs as (enc' & -> & Henc' & Hmsg & ->); [|done].
    apply Hkeep; [done|done|simpl; lia|eauto|eauto|by apply ph_ct2].
  - apply ct2_sampled_send in Hs as (enc' & -> & Henc' & Hmsg & ->); [|done].
    apply Hkeep; [done|done|simpl; lia|eauto|eauto|by apply ph_done].
Qed.

Lemma is_msg_current m e ty : msg_epoch m = e → is_msg m e ty = bool_decide (mtype m = ty).
Proof. intros <-. unfold is_msg. by rewrite bool_decide_eq_true_2. Qed.

(** A decoder of [data] fed a codeword of [data] can only yield [data]. *)
Lemma decode_step data dec m dec' out :
  collects data dec → carries data m → msg_add_chunk dec m = Ok dec' →
  message dec' = Ok out → collects data dec' ∧ (out = None ∨ out = Some data).
Proof.
  intros Hd Hc Ha Hm. assert (collects data dec') as Hd' by (by eapply msg_add_chunk_collects).
  split; [done|]. destruct out as [out|]; [right|by left]. f_equal. by eapply message_sound.
Qed.

Lemma owner_ct1_recv t e o m o' k :
  owner_ct1 t e o → enc_msg t e m → mtype m ≠ Ct2 → msg_epoch m = e →
  state_receive o m = Ok (o', k) → owner_ct1 t e o' ∧ k = None.
Proof.
  intros Ho Hmsg Hty He Hr. unfold enc_msg in Hmsg.
  destruct Ho as [s [enc Henc] | dec enc Hd Henc | enc Henc]; cbn [state_receive] in Hr.
  - unfold recv_keys_sampled in Hr. rewrite is_msg_current in Hr by done.
    case_bool_decide as Ht; [|simplify_eq; split; [by apply oc_sampled, os_sampled|done]].
    rewrite Ht in Hmsg. apply result_bind_Ok in Hr as (dec' & Ha & Hr).
    apply result_bind_Ok in Hr as (ek_enc & Hek & Hr).
    destruct (payload_bounds t e) as (_ & _ & Hb & Hb1). simplify_eq. split; [|done].
    apply oc_header_sent; [|by apply encoder_new_inv in Hek; [|apply Hb]].
    eapply msg_add_chunk_collects; [|done..].
    apply fresh_decoder_collects; [done|]. symmetry. apply t_lengths.
  - unfold recv_header_sent in Hr. rewrite is_msg_current in Hr by done.
    case_bool_decide as Ht; [|simplify_eq; split; [by apply oc_header_sent|done]].
    rewrite Ht in Hmsg. apply result_bind_Ok in Hr as (dec' & Ha & Hr).
    apply result_bind_Ok in Hr as (out & Hout & Hr).
    destruct (decode_step _ _ _ _ _ Hd Hmsg Ha Hout) as (Hd' & [->| ->]); simplify_eq.
    + split; [by apply oc_header_sent|done].
    + split; [by apply oc_ct1_received|done].
  - unfold recv_ct1_received in Hr. rewrite is_msg_current, bool_decide_eq_false_2 in Hr by done.
    simplify_eq. split; [by apply oc_ct1_received|done].
Qed.

(** The owner completes the epoch: the reassembled payload decapsulates to the
    transcript's secret and its MAC verifies. *)
Lemma owner_ek_sent_recv t e dec m o' k :
  0 < e < u64_max → collects (ct2_payload t e) dec → enc_msg t e m → msg_epoch m = e →
  state_receive (EkSentCt1Received e (t_auth t) (generate_keypair (t_seed t)) (t_ct1 t) dec) m
    = Ok (o', k) →
  (owner_ct2 t e o' ∧ k = None)
  ∨ (o' = NoHeaderReceived (e + 1) (t_next t e) (decoder_new (pk1_len + MAC_SIZE))
     ∧ k = Some (mk_epoch_secret e (t_secret t e))).
Proof.
  intros Hmax Hd Hmsg He Hr. cbn [state_receive] in Hr. unfold recv_ek_sent_ct1_received in Hr.
  rewrite is_msg_current in Hr by done.
  case_bool_decide as Ht; [|simplify_eq; left; split; [by apply o2_ek_sent|done]].
  unfold enc_msg in Hmsg. rewrite Ht in Hmsg. apply result_bind_Ok in Hr as (dec' & Ha & Hr).
  apply result_bind_Ok in Hr as (out & Hout & Hr).
  destruct (decode_step _ _ _ _ _ Hd Hmsg Ha Hout) as (Hd' & [->| ->]).
  { simplify_eq. left. split; [by apply o2_ek_sent|done]. }
  right. destruct (t_lengths t) as (_ & _ & _ & _ & Hl2). unfold ct2_payload in Hr.
  rewrite <-Hl2, take_app_length, drop_app_length, owner_decapsulates in Hr.
  cbn [mbind result_bind] in Hr.
  change (kdf_ok (t_enc t).2 e) with (t_secret t e) in Hr.
  change (auth_update (t_auth t) e (t_secret t e)) with (t_next t e) in Hr.
  rewrite (proj2 (proj2 (vfy_exact _ _ _ _)) eq_refl) in Hr. simpl in Hr.
  rewrite add_u64_small in Hr by lia. by simplify_eq.
Qed.

Lemma owner_ct2_recv t e o m o' k :
  0 < e < u64_max → owner_ct2 t e o → enc_msg t e m → msg_epoch m = e →
  state_receive o m = Ok (o', k) →
  (owner_ct2 t e o' ∧ k = None)
  ∨ (o' = NoHeaderReceived (e + 1) (t_next t e) (decoder_new (pk1_len + MAC_SIZE))
     ∧ k = Some (mk_epoch_secret e (t_secret t e))).
Proof.
  intros Hmax [s Ho|dec Hd] Hmsg He Hr; [|by apply (owner_ek_sent_recv t e dec m)].
  left. destruct (decide (mtype m = Ct2)) as [Ht|Ht].
  - unfold enc_msg in Hmsg. rewrite Ht in Hmsg.
    destruct Ho as [s [enc Henc] | dec enc Hd Henc | enc Henc]; cbn [state_receive] in Hr.
    + unfold recv_keys_sampled in Hr.
      rewrite is_msg_current, bool_decide_eq_false_2 in Hr by (done || congruence).
      simplify_eq. split; [by apply o2_ct1, oc_sampled, os_sampled|done].
    + unfold recv_header_sent in Hr.
      rewrite is_msg_current, bool_decide_eq_false_2 in Hr by (done || congruence).
      simplify_eq. split; [by apply o2_ct1, oc_header_sent|done].
    + unfold recv_ct1_received in Hr.
      rewrite is_msg_current, bool_decide_eq_true_2 in Hr by done.
      apply result_bind_Ok in Hr as (dec' & Ha & Hr). simplify_eq. split; [|done].
      apply o2_ek_sent. eapply msg_add_chunk_collects; [|done..].
      apply fresh_decoder_collects; [apply payload_bounds | by rewrite ct2_payload_length].
  - apply (owner_ct1_recv t e) in Hr as [??]; [|done..]. split; [by apply o2_ct1|done].
Qed.

Lemma phase_live t e o c : phase t e o c → live o ∧ live c.
Proof. by destruct 1 as [|?? [] []|?? [? []| |] []|?? [? [? []| |]|]|]. Qed.

Lemma joint_owner_recv t e o c mo mc ko kc m o' k :
  joint t e o c mo mc ko kc → e < u64_max → state_epoch o < u64_max → m ∈ mc →
  state_receive o m = Ok (o', k) →
  (∀ es, k = Some es → es_epoch es = e)
  ∧ joint t e o' c mo mc (option_list k ++ ko) kc.
Proof.
  intros (He0 & Hph & Hmo & Hmc & Hko & Hkc) Hmax Hmax' Hin Hr.
  pose proof (phase_epochs _ _ _ _ Hph) as (Hepo & Hepc & Hemo' & Hemo & Hemc).
  destruct (Hmc m Hin) as (Hme & Hf).
  destruct (decide (msg_epoch m < state_epoch o)) as [Hst|Hst].
  { rewrite stale_ignored in Hr by (done || lia). simplify_eq. by split. }
  assert (msg_epoch m = e) as He by lia. destruct (Hf He) as (Hmsg & Hi & Hct2).
  pose proof (state_receive_spec _ _ _ _ (proj1 (phase_live _ _ _ _ Hph)) Hmax' ltac:(lia) Hr)
    as (_ & Hep' & Hem).
  assert (k = None → (∀ a, o' ≠ KeysUnsampled e a) → phase t e o' c →
          (∀ es, k = Some es → es_epoch es = e)
          ∧ joint t e o' c mo mc (option_list k ++ ko) kc) as Hkeep.
  { intros -> Hu Hph'. simpl in Hem. split; [done|]. split_and!; try done.
    - eapply owner_sent_mono; [done|lia|done].
    - eapply log_ok_mono; [done|lia]. }
  destruct Hph as [|o c Ho Hc|o c Ho Hc|o enc Ho Hc|enc Hc].
  - simpl in Hr. simplify_eq. split; [done|]. split_and!; try done. apply ph_unsampled.
  - assert (emitted_upto c < e) as Hlt by (destruct Hc; simpl; lia). specialize (Hi Hlt).
    destruct Ho as [enc Henc]. cbn [state_receive] in Hr. unfold recv_keys_sampled in Hr.
    rewrite is_msg_current, bool_decide_eq_false_2 in Hr by congruence.
    injection Hr as <- <-. apply Hkeep; try done. by apply ph_header; [apply os_sampled|].
  - apply (owner_ct1_recv t e) in Hr as [Ho' ->]; [|done|done| |done].
    + apply Hkeep; [done|by eapply owner_not_unsampled, o2_ct1|by apply ph_ct1].
    + intros Ht. destruct (Hct2 Ht) as (a & enc & ->). inversion Hc.
  - destruct (owner_ct2_recv t e o m o' k ltac:(lia) Ho Hmsg He Hr) as [[Ho' ->]|[-> ->]].
    + apply Hkeep; [done|by eapply owner_not_unsampled|by apply ph_ct2].
    + split; [by intros es [= <-]|]. split_and!; try done.
      * by apply ph_done.
      * eapply owner_sent_mono; [done|simpl; lia|done].
      * simpl. apply log_ok_cons; [|simpl; lia|done]. eapply log_ok_mono; [done|simpl; lia].
  - simpl in *. lia.
Qed.

Lemma enc_ct1_recv t e c m c' k :
  enc_ct1 t e c → owner_msg t e m → msg_epoch m = e → state_receive c m = Ok (c', k) →
  k = None ∧ (enc_ct1 t e c' ∨ ∃ enc, c' = Ct2Sampled e (t_next t e) enc ∧ encodes (ct2_payload t e) enc).
Proof.
  intros Hc Hmsg He Hr. unfold owner_msg in Hmsg.
  destruct Hc as [enc dec Henc Hd | enc Henc | dec Hd]; cbn [state_receive] in Hr.
  - unfold recv_ct1_sampled in Hr. rewrite !is_msg_current in Hr by done.
    destruct (bool_decide (mtype m = Ek) || bool_decide (mtype m = EkCt1Ack)) eqn:Hty;
      [|injection Hr as <- <-; split; [done|left; by apply ec_sampled]].
    assert (carries (t_ek t) m) as Hcar.
    { apply orb_true_iff in Hty as [Ht|Ht]; apply bool_decide_eq_true in Ht;
        by rewrite Ht in Hmsg. }
    apply result_bind_Ok in Hr as (dec' & Ha & Hr).
    apply result_bind_Ok in Hr as (out & Hout & Hr).
    destruct (decode_step _ _ _ _ _ Hd Hcar Ha Hout) as (Hd' & [->| ->]).
    + case_bool_decide; injection Hr as <- <-; (split; [done|left]);
        [by apply ec_acknowledged | by apply ec_sampled].
    + apply result_bind_Ok in Hr as (_ & _ & Hr). case_bool_decide.
      * apply result_bind_Ok in Hr as (enc2 & Hb & Hr). injection Hr as <- <-.
        split; [done|right]. exists enc2. split; [done|]. by apply build_ct2_encodes.
      * injection Hr as <- <-. split; [done|left]. by apply ec_ek_received.
  - unfold recv_ek_received_ct1_sampled in Hr. rewrite is_msg_current in Hr by done.
    case_bool_decide; [|injection Hr as <- <-; split; [done|left; by apply ec_ek_received]].
    apply result_bind_Ok in Hr as (enc2 & Hb & Hr). injection Hr as <- <-.
    split; [done|right]. exists enc2. split; [done|]. by apply build_ct2_encodes.
  - unfold recv_ct1_acknowledged in Hr. rewrite is_msg_current in Hr by done.
    case_bool_decide as Ht; [|injection Hr as <- <-; split; [done|left; by apply ec_acknowledged]].
    rewrite Ht in Hmsg. apply result_bind_Ok in Hr as (dec' & Ha & Hr).
    apply result_bind_Ok in Hr as (out & Hout & Hr).
    destruct (decode_step _ _ _ _ _ Hd Hmsg Ha Hout) as (Hd' & [->| ->]).
    + injection Hr as <- <-. split; [done|left]. by apply ec_acknowledged.
    + apply result_bind_Ok in Hr as (_ & _ & Hr).
      apply result_bind_Ok in Hr as (enc2 & Hb & Hr). injection Hr as <- <-.
      split; [done|right]. exists enc2. split; [done|]. by apply build_ct2_encodes.
Qed.

Lemma enc_header_recv t e c m c' k :
  enc_header t e c → owner_msg t e m → msg_epoch m = e → state_receive c m = Ok (c', k) →
  k = None ∧ enc_header t e c'.
Proof.
  intros [dec Hd|dec Hd] Hmsg He Hr; cbn [state_receive] in Hr;
    [|injection Hr as <- <-; split; [done|by apply eh_received]].
  unfold recv_no_header_received in Hr. rewrite is_msg_current in Hr by done.
  case_bool_decide as Ht; [|injection Hr as <- <-; split; [done|by apply eh_waiting]].
  unfold owner_msg in Hmsg. rewrite Ht in Hmsg.
  apply result_bind_Ok in Hr as (dec' & Ha & Hr).
  apply result_bind_Ok in Hr as (out & Hout & Hr).
  destruct (decode_step _ _ _ _ _ Hd Hmsg Ha Hout) as (Hd' & [->| ->]).
  { injection Hr as <- <-. split; [done|by apply eh_waiting]. }
  destruct (t_lengths t) as (Hl1 & Hl2 & _). unfold hdr_payload in Hr.
  rewrite <-Hl1, take_app_length, drop_app_length in Hr.
  rewrite (proj2 (proj1 (vfy_exact _ _ _ _)) eq_refl) in Hr.
  injection Hr as <- <-. split; [done|]. apply eh_received.
  apply fresh_decoder_collects; [apply (payload_bounds t e)|done].
Qed.

(** The end of an epoch: the encapsulator hears from its peer at the next epoch, and
    the two exchange roles with nothing of that epoch used yet. *)
Lemma joint_swap t e enc mo mc ko kc :
  joint t e (NoHeaderReceived (e + 1) (t_next t e) (decoder_new (pk1_len + MAC_SIZE)))
            (Ct2Sampled e (t_next t e) enc) mo mc ko kc →
  ∃ t', joint t' (e + 1) (KeysUnsampled (e + 1) (t_next t e))
          (NoHeaderReceived (e + 1) (t_next t e) (decoder_new (pk1_len + MAC_SIZE))) mc mo kc ko.
Proof.
  intros (He0 & _ & Hmo & Hmc & Hko & Hkc). exists (mk_transcript (t_next t e) [] []).
  split_and!; [lia|apply (ph_unsampled (mk_transcript _ _ _))|..].
  - intros m Hm. destruct (Hmc m Hm) as [Hb _]. simpl. split_and!; lia.
  - intros m Hm. destruct (Hmo m Hm) as (Hb & _ & Hi). simpl in Hb. split; [lia|].
    intros He. specialize (Hi He). unfold enc_msg. rewrite Hi. done.
  - intros es Hes. destruct (Hkc es Hes) as [Hb _]. simpl in *. split; lia.
  - intros es Hes. destruct (Hko es Hes) as [Hb _]. simpl in *. split; lia.
Qed.

Lemma joint_enc_recv t e o c mo mc ko kc m c' k :
  joint t e o c mo mc ko kc → e < u64_max → m ∈ mo →
  state_receive c m = Ok (c', k) →
  k = None ∧ (joint t e o c' mo mc ko kc
              ∨ ∃ t', joint t' (e + 1) c' o mc mo kc ko).
Proof.
  intros (He0 & Hph & Hmo & Hmc & Hko & Hkc) Hmax Hin Hr.
  pose proof (phase_epochs _ _ _ _ Hph) as (Hepo & Hepc & Hemo' & Hemo & Hemc).
  destruct (Hmo m Hin) as (Hme & Hf & Hf1).
  destruct (decide (msg_epoch m < state_epoch c)) as [Hst|Hst].
  { rewrite stale_ignored in Hr by (done || lia). injection Hr as <- <-. split; [done|by left]. }
  assert (k = None → emitted_upto c ≤ emitted_upto c' →
          (∀ a enc, c = Ct2Sampled e a enc → ∃ a' enc', c' = Ct2Sampled e a' enc') →
          phase t e o c' →
          k = None ∧ (joint t e o c' mo mc ko kc ∨ ∃ t', joint t' (e + 1) c' o mc mo kc ko)) as Hkeep.
  { intros -> Hem Hct Hph'. split; [done|left]. split_and!; try done.
    - by eapply enc_sent_mono.
    - by eapply log_ok_mono. }
  destruct Hph as [|o c Ho Hc|o c Ho Hc|o enc Ho Hc|enc Hc].
  - simpl in Hme, Hst. destruct (Hf ltac:(lia)) as [Hu _]. by destruct (Hu (t_auth t)).
  - assert (msg_epoch m = e) as He by (destruct Ho; simpl in Hme; lia).
    destruct (enc_header_recv t e c m c' k Hc (proj2 (Hf He)) He Hr) as [-> Hc'].
    apply Hkeep; [done| | |by apply ph_header].
    + destruct Hc, Hc'; simpl; lia.
    + by destruct Hc.
  - assert (msg_epoch m = e) as He by (destruct Ho as [? []| |]; simpl in *; lia).
    assert (emitted_upto c = e) as Hcu by (by destruct Hc).
    destruct (enc_ct1_recv t e c m c' k Hc (proj2 (Hf He)) He Hr) as [-> [Hc'|(enc & -> & Henc)]].
    + apply Hkeep; [done|destruct Hc'; simpl; lia|by destruct Hc|by apply ph_ct1].
    + apply Hkeep; [done|simpl; lia|eauto|]. by apply ph_ct2; [apply o2_ct1|].
  - assert (msg_epoch m = e) as He by (destruct Ho as [? [? []| |]|]; simpl in *; lia).
    cbn [state_receive] in Hr. unfold recv_ct2_sampled in Hr.
    rewrite bool_decide_eq_false_2 in Hr by (rewrite add_u64_small; lia).
    injection Hr as <- <-. apply Hkeep; [done|simpl; lia|eauto|by apply ph_ct2].
  - cbn [state_receive] in Hr. unfold recv_ct2_sampled in Hr. rewrite add_u64_small in Hr by lia.
    case_bool_decide as He; [|injection Hr as <- <-; apply Hkeep; [done|simpl; lia|eauto|by apply ph_done]].
    injection Hr as <- <-. split; [done|right].
    apply (joint_swap t e enc). split_and!; try done. by apply ph_done.
Qed.

End steps.

(** ** The invariant of the system *)

Section agreement.
Context `{HashesOk} `{ReedSolomonOk} `{IncKemOk}.

Lemma sys_init_inv auth_seed : sys_inv (sys_init auth_seed).
Proof.
  split; [|intros p q ea eb Hea; by apply elem_of_nil in Hea].
  exists (mk_transcript (auth_init INITIAL_EPOCH auth_seed) [] []), 1, true. simpl.
  split_and!; [lia|apply (ph_unsampled (mk_transcript _ _ _))|..];
    intros x Hx; by apply elem_of_nil in Hx.
Qed.

(** The current joint, whoever owns the keypair, agrees on its epoch's secret. *)
Lemma joint_agree t e o c mo mc ko kc es es' :
  joint t e o c mo mc ko kc → es ∈ ko ++ kc → es' ∈ ko ++ kc →
  es_epoch es = e → es_epoch es' = e → es_secret es = es_secret es'.
Proof.
  intros (_ & _ & _ & _ & Hko & Hkc) [Hx1|Hx1]%elem_of_app [Hx2|Hx2]%elem_of_app He He';
    (apply Hko in Hx1 as [_ Hx1] || apply Hkc in Hx1 as [_ Hx1]);
    (apply Hko in Hx2 as [_ Hx2] || apply Hkc in Hx2 as [_ Hx2]);
    by rewrite Hx1, Hx2.
Qed.

(** A step of party [p] that emits at most the secret of the current epoch [e]. *)
Lemma emitted_step (em : bool → list EpochSecret) p k e :
  (∀ p q ea eb, ea ∈ em p → eb ∈ em q → es_epoch ea = es_epoch eb → es_secret ea = es_secret eb) →
  (∀ es, k = Some es → es_epoch es = e) →
  (k ≠ None → ∀ es es', es ∈ (option_list k ++ em p) ++ em (negb p) →
     es' ∈ (option_list k ++ em p) ++ em (negb p) →
     es_epoch es = e → es_epoch es' = e → es_secret es = es_secret es') →
  let em' := <[p := option_list k ++ em p]> em in
  ∀ q r ea eb, ea ∈ em' q → eb ∈ em' r → es_epoch ea = es_epoch eb → es_secret ea = es_secret eb.
Proof.
  intros Hag Hk Hj em' q r ea eb Ha Hb Heq. destruct k as [es|]; simpl in *.
  2:{ assert (∀ q, em' q = em q) as Hem.
      { intros q'. unfold em'. destruct (decide (p = q')) as [->|];
          [by rewrite fn_lookup_insert | by rewrite fn_lookup_insert_ne]. }
      rewrite Hem in Ha, Hb. by eapply Hag. }
  assert (∀ q x, x ∈ em' q → x = es ∨ x ∈ em q) as Hem.
  { intros q' x. unfold em'. destruct (decide (p = q')) as [->|].
    - rewrite fn_lookup_insert, elem_of_cons. tauto.
    - rewrite fn_lookup_insert_ne by done. tauto. }
  assert (∀ q x, x ∈ em q → x ∈ es :: em p ++ em (negb p)) as Hin.
  { intros q' x Hx. apply elem_of_cons. right. apply elem_of_app. destruct p, q'; auto. }
  specialize (Hk es eq_refl). specialize (Hj ltac:(done)).
  apply Hem in Ha, Hb. destruct Ha as [->|Ha], Hb as [->|Hb]; [done|..].
  - apply Hj; [by apply elem_of_cons; left|by eapply Hin|done|congruence].
  - apply Hj; [by eapply Hin|by apply elem_of_cons; left|congruence|done].
  - by eapply Hag.
Qed.

(** A joint read from the point of view of party [p]. *)
Definition joint_at (p owner : bool) (t : Transcript) (e : Z) (s s' : State) (ms ms' : list Message)
    (ks ks' : list EpochSecret) : Prop :=
  if bool_decide (p = owner) then joint t e s s' ms ms' ks ks' else joint t e s' s ms' ms ks' ks.

Lemma sys_inv_at (P : bool → State) (S : bool → list Message) (E : bool → list EpochSecret) p :
  (∃ t e o, joint t e (P o) (P (negb o)) (S o) (S (negb o)) (E o) (E (negb o))) ↔
  (∃ t e o, joint_at p o t e (P p) (P (negb p)) (S p) (S (negb p)) (E p) (E (negb p))).
Proof.
  unfold joint_at. split; intros (t & e & o & Hj); exists t, e, o; case_bool_decide as Hp.
  all: subst; try done.
  all: assert (o = negb p) as -> by (by destruct p, o).
  all: by rewrite negb_involutive in *.
Qed.

Lemma party_send_step p owner t e s s' ms ms' ks ks' rng s1 m k :
  joint_at p owner t e s s' ms ms' ks ks' → state_send s rng = Ok (s1, m, k) →
  (∀ es, k = Some es → es_epoch es = e)
  ∧ ∃ t', joint_at p owner t' e s1 s' (m :: ms) ms' (option_list k ++ ks) ks'.
Proof.
  unfold joint_at. intros Hj Hs. case_bool_decide.
  - apply (joint_owner_send t e _ s' ms ms' ks ks') in Hs as [-> ?]; [|done]. by split.
  - by apply (joint_enc_send t e s' _ ms' ms ks' ks) in Hs.
Qed.

Lemma party_receive_step p owner t e s s' ms ms' ks ks' s1 m k :
  joint_at p owner t e s s' ms ms' ks ks' → state_epoch s < u64_max → m ∈ ms' →
  state_receive s m = Ok (s1, k) →
  (∀ es, k = Some es → es_epoch es = e)
  ∧ ∃ owner' t' e', (k ≠ None → e' = e)
      ∧ joint_at p owner' t' e' s1 s' ms ms' (option_list k ++ ks) ks'.
Proof.
  unfold joint_at. intros Hj Hmax Hm Hr. case_bool_decide as Hp.
  - pose proof (phase_epochs _ _ _ _ (proj1 (proj2 Hj))).
    destruct (joint_owner_recv _ _ _ _ _ _ _ _ _ _ _ Hj ltac:(lia) Hmax Hm Hr) as [Hk Hj'].
    split; [done|]. exists owner, t, e. by rewrite bool_decide_eq_true_2.
  - pose proof (phase_epochs _ _ _ _ (proj1 (proj2 Hj))).
    destruct (joint_enc_recv _ _ _ _ _ _ _ _ _ _ _ Hj ltac:(lia) Hm Hr) as [-> [Hj'|[t' Hj']]].
    + split; [done|]. exists owner, t, e. by rewrite bool_decide_eq_false_2.
    + split; [done|]. exists p, t', (e + 1). by rewrite bool_decide_eq_true_2.
Qed.

Lemma joint_at_agree p owner t e s s' ms ms' ks ks' es es' :
  joint_at p owner t e s s' ms ms' ks ks' → es ∈ ks ++ ks' → es' ∈ ks ++ ks' →
  es_epoch es = e → es_epoch es' = e → es_secret es = es_secret es'.
Proof.
  unfold joint_at. case_bool_decide; intros Hj Hx1 Hx2; [by eapply joint_agree|].
  eapply joint_agree; [done|..]; rewrite elem_of_app, Logic.or_comm, <-elem_of_app; done.
Qed.

Lemma negb_ne p : negb p ≠ p.
Proof. by destruct p. Qed.

Lemma sys_step_inv sys sys' : sys_inv sys → sys_step sys sys' → sys_inv sys'.
Proof.
  intros [Hj Hag] Hst. destruct Hst as [p rng sys out b' Hmax Hs | p msg sys out b' Hmax Hin Hr].
  - apply (sys_inv_at (λ p, state (party sys p)) (sent sys) (emitted sys) p) in Hj as (t & e & o & Hj).
    rewrite braid_send_run in Hs. destruct (state_send _ _) as [[[s1 m] k]|] eqn:E; [|done].
    simplify_eq. simpl. destruct (party_send_step _ _ _ _ _ _ _ _ _ _ _ _ _ _ Hj E) as [Hk [t' Hj']].
    split; simpl.
    + apply (sys_inv_at (λ q, state (<[p:=mk_braid s1]> (party sys) q)) _ _ p).
      exists t', e, o. rewrite !fn_lookup_insert, !fn_lookup_insert_ne by (symmetry; apply negb_ne). done.
    + apply (emitted_step _ _ _ e); [done..|]. intros _ es es'. by eapply joint_at_agree.
  - apply (sys_inv_at (λ p, state (party sys p)) (sent sys) (emitted sys) p) in Hj as (t & e & o & Hj).
    rewrite braid_receive_run in Hr. destruct (state_receive _ _) as [[s1 k]|] eqn:E; [|done].
    simplify_eq. simpl.
    destruct (party_receive_step _ _ _ _ _ _ _ _ _ _ _ _ _ Hj Hmax Hin E) as (Hk & o' & t' & e' & He & Hj').
    split; simpl.
    + apply (sys_inv_at (λ q, state (<[p:=mk_braid s1]> (party sys) q)) _ _ p).
      exists t', e', o'. rewrite !fn_lookup_insert, !fn_lookup_insert_ne by (symmetry; apply negb_ne). done.
    + apply (emitted_step _ _ _ e); [done..|]. intros Hn es es'. rewrite <-(He Hn). by eapply joint_at_agree.
Qed.

Lemma sys_reachable_inv auth_seed sys : sys_reachable auth_seed sys → sys_inv sys.
Proof.
  unfold sys_reachable. apply (rtc_ind_r sys_inv); [apply sys_init_inv|].
  intros s s' _ Hst Hi. by eapply sys_step_inv.
Qed.

(** The epoch a party sends in is one its peer has the secret of. *)
Lemma peer_knows_epoch auth_seed sys p :
  sys_reachable auth_seed sys →
  state_epoch (state (party sys p)) - 1 ≤ emitted_upto (state (party sys (negb p))).
Proof.
  intros [(t & e & o & _ & Hph & _) _]%sys_reachable_inv. apply phase_known in Hph as [Ho Hc].
  destruct (decide (p = o)) as [->|Hp]; [done|].
  assert (p = negb o) as -> by (by destruct p, o). by rewrite negb_involutive.
Qed.

(** C3. In every state two honest parties reach over a network that loses, reorders and
    duplicates messages at will, the secrets they have emitted for the same epoch are
    equal. *)
Theorem braid_agreement auth_seed sys p q ea eb :
  sys_reachable auth_seed sys → ea ∈ emitted sys p → eb ∈ emitted sys q →
  es_epoch ea = es_epoch eb → es_secret ea = es_secret eb.
Proof. intros Hr. by apply (proj2 (sys_reachable_inv _ _ Hr)). Qed.

End agreement.
