(* ===== verification/BraidProgress.v ===== *)
(** * Honest runs never fail

    In every state two honest parties reach, every call succeeds: a send always
    produces a message and no genuine message is ever refused.  The erasure codec is
    assumed to be maximum-distance separable at the four sizes the braid streams. *)

From S2P Require Import Prelude Foundation Interfaces Kdf Padding Erasure Kem BraidAuth Braid BraidAgreement.

Section progress.
Context `{HashesOk} `{ReedSolomonOk} `{IncKemOk}.

(** The codec recovers objects of [n] bytes from any sufficient set of codewords. *)
Definition recovers_size (n : nat) : Prop := rs_recovers (data_shards_for n) (recovery_shards_for n).

(** The objects the braid streams: header and MAC, ek vector, ciphertext parts. *)
Definition braid_recovers : Prop :=
  recovers_size (pk1_len + MAC_SIZE) ∧ recovers_size pk2_len
  ∧ recovers_size ct1_len ∧ recovers_size (ct2_len + MAC_SIZE).

Lemma decode_total data dec m :
  recovers_size (length data) → collects data dec → carries data m →
  ∃ dec' out, msg_add_chunk dec m = Ok dec' ∧ message dec' = Ok out ∧ collects data dec'
    ∧ (out = None ∨ out = Some data).
Proof.
  intros Hrec Hd (c & Hc & Hcw). destruct (add_chunk_collects data dec c Hd Hcw) as (dec' & Ha & Hd').
  unfold msg_add_chunk. rewrite Hc. exists dec'. destruct (has_message dec') eqn:Eh.
  - exists (Some data). split_and!; [done|by apply message_complete|done|by right].
  - exists None. split_and!; [done| |done|by left]. unfold message. by rewrite Eh.
Qed.

Lemma encoder_total data : streams data → ∃ enc, encoder_new data = Ok enc ∧ encodes data enc.
Proof.
  intros [Hl Hf]. destruct (encoder_new_encodes data) as (e & He & Henc); [|done|by exists e].
  by destruct data; [simpl in Hl; lia|].
Qed.

Lemma build_ct2_total t e :
  ∃ enc, build_ct2_encoder (t_next t e) e (t_st t) (t_ek t) (t_ct1 t) = Ok enc.
Proof.
  unfold build_ct2_encoder. destruct (t_lengths t) as (_ & _ & _ & Hst & _).
  unfold t_ek at 1. rewrite encapsulate2_ok by done. simpl.
  destruct (encoder_total (ct2_payload t e)) as (enc & He & _); [apply payload_bounds|]. eauto.
Qed.

Lemma validate_total t : validate_public_key (t_hdr t) (t_ek t) = Ok ().
Proof.
  unfold validate_public_key, t_hdr, t_ek, header_of, ek_vector_of, generate_keypair.
  by rewrite inc_validate_ok.
Qed.

(** A message of another epoch is ignored by every handler but the last. *)
Lemma is_msg_other m e ty : msg_epoch m ≠ e → is_msg m e ty = false.
Proof. intros. unfold is_msg. by rewrite bool_decide_eq_false_2. Qed.

Context (Hmds : braid_recovers).

Lemma recovers_payloads t e :
  recovers_size (length (hdr_payload t e)) ∧ recovers_size (length (t_ek t))
  ∧ recovers_size (length (t_ct1 t)) ∧ recovers_size (length (ct2_payload t e)).
Proof.
  rewrite hdr_payload_length, ct2_payload_length. destruct (t_lengths t) as (_ & -> & -> & _). apply Hmds.
Qed.

Lemma owner_recv_total t e o m :
  owner_ct2 t e o → (msg_epoch m = e → enc_msg t e m) → is_ok (state_receive o m) = true.
Proof.
  destruct (recovers_payloads t e) as (_ & _ & Hr1 & Hr2). destruct (t_lengths t) as (_ & _ & Hl1 & _ & Hl2).
  destruct (payload_bounds t e) as (_ & Hb2 & Hbk & Hb1).
  intros Ho Hm. destruct (decide (msg_epoch m = e)) as [He|He].
  2:{ destruct Ho as [? [? []| |]|]; cbn [state_receive]; unfold recv_keys_sampled, recv_header_sent,
        recv_ct1_received, recv_ek_sent_ct1_received; by rewrite is_msg_other. }
  specialize (Hm He). unfold enc_msg in Hm.
  destruct Ho as [? [? [enc Henc]|dec enc Hd Henc|enc Henc]|dec Hd]; cbn [state_receive].
  - unfold recv_keys_sampled. rewrite is_msg_current by done. case_bool_decide as Ht; [|done]. rewrite Ht in Hm.
    destruct (decode_total (t_ct1 t) (decoder_new ct1_len) m) as (d & out & -> & _);
      [done|apply fresh_decoder_collects; [done|by rewrite Hl1]|done|].
    destruct (encoder_total (t_ek t) Hbk) as (ek & -> & _). done.
  - unfold recv_header_sent. rewrite is_msg_current by done. case_bool_decide as Ht; [|done]. rewrite Ht in Hm.
    destruct (decode_total (t_ct1 t) dec m Hr1 Hd Hm) as (d & out & -> & Ho & _ & [-> | ->]); simpl; by rewrite Ho.
  - unfold recv_ct1_received. rewrite is_msg_current by done. case_bool_decide as Ht; [|done]. rewrite Ht in Hm.
    destruct (decode_total (ct2_payload t e) (decoder_new (ct2_len + MAC_SIZE)) m) as (d & out & -> & _);
      [done|apply fresh_decoder_collects; [done|by rewrite ct2_payload_length]|done|done].
  - unfold recv_ek_sent_ct1_received. rewrite is_msg_current by done. case_bool_decide as Ht; [|done]. rewrite Ht in Hm.
    destruct (decode_total (ct2_payload t e) dec m Hr2 Hd Hm) as (d & out & -> & Ho & _ & [-> | ->]); cbn [mbind result_bind];
      rewrite Ho; cbn [mbind result_bind]; [done|].
    unfold ct2_payload. rewrite <-Hl2, take_app_length, drop_app_length, owner_decapsulates.
    cbn [mbind result_bind]. by repeat case_match.
Qed.

Lemma enc_recv_total t e c m :
  enc_header t e c ∨ enc_ct1 t e c ∨ (∃ a enc, c = Ct2Sampled e a enc) →
  (msg_epoch m = e → owner_msg t e m) → is_ok (state_receive c m) = true.
Proof.
  destruct (recovers_payloads t e) as (Hrh & Hrk & _).
  intros Hc Hm. destruct (decide (msg_epoch m = e)) as [He|He].
  2:{ destruct Hc as [[]|[[]|(a & enc & ->)]]; cbn [state_receive]; unfold recv_no_header_received, recv_ct1_sampled,
        recv_ek_received_ct1_sampled, recv_ct1_acknowledged, recv_ct2_sampled; rewrite ?is_msg_other by done;
        try done. by case_bool_decide. }
  specialize (Hm He). unfold owner_msg in Hm.
  destruct Hc as [[dec Hd|dec Hd]|[[enc dec Henc Hd|enc Henc|dec Hd]|(a & enc & ->)]]; cbn [state_receive].
  - unfold recv_no_header_received. rewrite is_msg_current by done. case_bool_decide as Ht; [|done]. rewrite Ht in Hm.
    destruct (decode_total (hdr_payload t e) dec m Hrh Hd Hm) as (d & out & -> & Ho & _ & [-> | ->]); cbn [mbind result_bind];
      rewrite Ho; cbn [mbind result_bind]; [done|]. by repeat case_match.
  - done.
  - unfold recv_ct1_sampled. rewrite !is_msg_current by done.
    destruct (bool_decide (mtype m = Ek) || bool_decide (mtype m = EkCt1Ack)) eqn:Hty; [|done].
    assert (carries (t_ek t) m) as Hcar.
    { apply orb_true_iff in Hty as [Ht|Ht]; apply bool_decide_eq_true in Ht; by rewrite Ht in Hm. }
    destruct (decode_total (t_ek t) dec m Hrk Hd Hcar) as (d & out & -> & Ho & _ & [-> | ->]); cbn [mbind result_bind];
      rewrite Ho; cbn [mbind result_bind]; [by destruct (bool_decide (mtype m = EkCt1Ack))|]. rewrite validate_total. cbn [mbind result_bind].
    destruct (bool_decide (mtype m = EkCt1Ack)); [|done]. by destruct (build_ct2_total t e) as (enc2 & ->).
  - unfold recv_ek_received_ct1_sampled. rewrite is_msg_current by done. case_bool_decide; [|done].
    by destruct (build_ct2_total t e) as (enc2 & ->).
  - unfold recv_ct1_acknowledged. rewrite is_msg_current by done. case_bool_decide as Ht; [|done]. rewrite Ht in Hm.
    destruct (decode_total (t_ek t) dec m Hrk Hd Hm) as (d & out & -> & Ho & _ & [-> | ->]); cbn [mbind result_bind];
      rewrite Ho; cbn [mbind result_bind]; [done|]. rewrite validate_total. cbn [mbind result_bind].
    by destruct (build_ct2_total t e) as (enc2 & ->).
  - unfold recv_ct2_sampled. by case_bool_decide.
Qed.

Lemma joint_recv_total t e o c mo mc ko kc m :
  joint t e o c mo mc ko kc →
  (m ∈ mc → is_ok (state_receive o m) = true) ∧ (m ∈ mo → is_ok (state_receive c m) = true).
Proof.
  intros (He0 & Hph & Hmo & Hmc & _).
  assert (m ∈ mc → msg_epoch m = e → enc_msg t e m) as Henc by (intros Hin He; by apply (Hmc m Hin)).
  assert (m ∈ mo → msg_epoch m = e → owner_msg t e m) as Hown by (intros Hin He; by apply (Hmo m Hin)).
  split; intros Hin.
  - destruct Hph as [|o c Ho Hc|o c Ho Hc|o enc Ho Hc|enc Hc].
    + done.
    + eapply owner_recv_total; [by apply o2_ct1, oc_sampled|auto].
    + eapply owner_recv_total; [by apply o2_ct1|auto].
    + by eapply owner_recv_total; [|auto].
    + destruct (Hmc m Hin) as [Hle _]. cbn [state_receive]. unfold recv_no_header_received.
      by rewrite is_msg_other by lia.
  - destruct (Hmo m Hin) as (Hle & Hf & _). destruct Hph as [|o c Ho Hc|o c Ho Hc|o enc Ho Hc|enc Hc].
    + simpl in Hle. destruct (decide (msg_epoch m = e)) as [He|He].
      * destruct (Hf He) as [Hu _]. by destruct (Hu (t_auth t)).
      * cbn [state_receive]. unfold recv_no_header_received. by rewrite is_msg_other.
    + eapply enc_recv_total; [by left|auto].
    + eapply enc_recv_total; [by right; left|auto].
    + eapply enc_recv_total; [right; right; eauto|auto].
    + eapply enc_recv_total; [right; right; eauto|auto].
Qed.

(** A send succeeds in every phase. *)
Lemma unsampled_send_total t e rng : is_ok (state_send (KeysUnsampled e (t_auth t)) rng) = true.
Proof.
  cbn [state_send]. rewrite public_key_parts_ok. cbn [mbind result_bind].
  set (t' := mk_transcript (t_auth t) (rng SEED_LEN) []).
  change (header_of (rng SEED_LEN)) with (t_hdr t').
  change (t_hdr t' ++ mac_hdr (t_auth t) e (t_hdr t')) with (hdr_payload t' e).
  destruct (encoder_total (hdr_payload t' e)) as (enc & -> & _); [apply payload_bounds|].
  cbn [mbind result_bind]. by destruct (next_chunk enc).
Qed.

Lemma received_send_total t e dec rng :
  is_ok (state_send (HeaderReceived e (t_auth t) (t_hdr t) dec) rng) = true.
Proof.
  cbn [state_send]. set (t' := mk_transcript (t_auth t) (t_seed t) (rng ENCAPS_RANDOMNESS_LEN)).
  change (t_hdr t) with (t_hdr t'). change (rng ENCAPS_RANDOMNESS_LEN) with (t_rand t').
  rewrite t_enc_ok. cbn [mbind result_bind].
  destruct (encoder_total (t_ct1 t')) as (enc & -> & _); [apply (payload_bounds t' e)|].
  cbn [mbind result_bind]. by destruct (next_chunk enc).
Qed.

Lemma joint_send_total t e o c mo mc ko kc rng :
  joint t e o c mo mc ko kc → is_ok (state_send o rng) = true ∧ is_ok (state_send c rng) = true.
Proof.
  intros (_ & Hph & _).
  assert (∀ s, owner_ct2 t e s → is_ok (state_send s rng) = true) as Ho.
  { intros s [? [? []| |]|]; cbn [state_send]; try done; by destruct (next_chunk _). }
  destruct Hph as [|o c Hs Hc|o c Hs Hc|o enc Hs _|enc _]; split;
    try (by apply Ho; auto using o2_ct1, oc_sampled); try apply unsampled_send_total.
  - done.
  - destruct Hc; [done|apply received_send_total].
  - destruct Hc; cbn [state_send]; try done; by case_match.
  - cbn [state_send]. by case_match.
  - done.
  - cbn [state_send]. by case_match.
Qed.

Lemma braid_total auth_seed sys p :
  sys_reachable auth_seed sys →
  (∀ rng, is_ok (braid_send rng (party sys p)).1 = true)
  ∧ (∀ msg, msg ∈ sent sys (negb p) → is_ok (braid_receive msg (party sys p)).1 = true).
Proof.
  intros [Hj _]%sys_reachable_inv.
  apply (sys_inv_at (λ p, state (party sys p)) (sent sys) (emitted sys) p) in Hj as (t & e & o & Hj).
  unfold joint_at in Hj. split.
  - intros rng. rewrite braid_send_run.
    assert (is_ok (state_send (state (party sys p)) rng) = true) as Hok
      by (case_bool_decide; by destruct (joint_send_total _ _ _ _ _ _ _ _ rng Hj)).
    by destruct (state_send _ _) as [[[??]?]|].
  - intros msg Hin. rewrite braid_receive_run.
    assert (is_ok (state_receive (state (party sys p)) msg) = true) as Hok
      by (case_bool_decide; destruct (joint_recv_total _ _ _ _ _ _ _ _ msg Hj); auto).
    by destruct (state_receive _ _) as [[??]|].
Qed.

(** C7. In every state two honest parties reach over a lossy, reordering, duplicating
    network, a send succeeds, and so does the receipt of any message the peer ever sent. *)
Theorem braid_never_fails auth_seed sys p :
  sys_reachable auth_seed sys →
  (∀ rng, is_ok (braid_send rng (party sys p)).1 = true)
  ∧ (∀ msg, msg ∈ sent sys (negb p) → is_ok (braid_receive msg (party sys p)).1 = true).
Proof. apply braid_total. Qed.

End progress.
