(* ===== verification/BraidLiveness.v ===== *)
(** * The braid reaches the next epoch

    [rank] orders the states of an epoch; no call lowers it.  Two honest parties that
    exchange messages (each sends one, the other receives it) raise the sum of their
    ranks again and again: either the next message moves a party on ([ready]), or one
    party streams codewords to the decoder of the other ([streaming]), which completes
    after a bounded number of them ([StreamCycle]).  The state from which the exchange
    starts is any that the two parties reach over a network that loses, reorders and
    duplicates. *)

From stdpp Require Import functions.
From S2P Require Import Prelude Foundation Interfaces Kdf Padding Erasure StreamCycle Kem BraidAuth Braid.
From S2P Require Import BraidAgreement BraidProgress.

(** ** The order of the states *)

Definition stage (s : State) : Z :=
  match s with
  | KeysUnsampled _ _ | NoHeaderReceived _ _ _ | Poisoned => 0
  | KeysSampled _ _ _ _ _ | HeaderReceived _ _ _ _ => 1
  | HeaderSent _ _ _ _ _ | Ct1Sampled _ _ _ _ _ _ _ => 2
  | Ct1Received _ _ _ _ _ | EkReceivedCt1Sampled _ _ _ _ _ _ | Ct1Acknowledged _ _ _ _ _ _ => 3
  | EkSentCt1Received _ _ _ _ _ | Ct2Sampled _ _ _ => 4
  end.
Definition rank (s : State) : Z := 10 * state_epoch s + stage s.

(** The last epoch whose ciphertext part a party has acknowledged, and the epoch of an
    acknowledgement that a party has seen. *)
Definition acked_upto (s : State) : Z :=
  match s with
  | Ct1Received e _ _ _ _ | EkSentCt1Received e _ _ _ _ => e
  | s => state_epoch s - 1
  end.
Definition saw_ack (s : State) (e : Z) : Prop :=
  match s with
  | Ct1Acknowledged e' _ _ _ _ _ | Ct2Sampled e' _ _ => e' = e
  | _ => False
  end.

Section order.
Context `{Hashes} `{ReedSolomon} `{IncKem}.

Lemma send_ranks s rng s' m k :
  state_send s rng = Ok (s', m, k) →
  rank s ≤ rank s' ∧ acked_upto s ≤ acked_upto s'
  ∧ (mtype m = EkCt1Ack → msg_epoch m ≤ acked_upto s') ∧ (∀ e, saw_ack s' e → saw_ack s e).
Proof.
  intros Hs. destruct s; simpl in Hs; run_handler; simplify_eq/=; unfold rank; simpl; split_and!; try done; lia.
Qed.

Lemma receive_ranks s m s' k :
  live s → 0 ≤ state_epoch s < u64_max → state_receive s m = Ok (s', k) →
  rank s ≤ rank s' ∧ acked_upto s ≤ acked_upto s'
  ∧ (∀ e, saw_ack s' e → saw_ack s e ∨ mtype m = EkCt1Ack ∧ msg_epoch m = e).
Proof.
  intros Hl He Hr. assert (add_u64 (state_epoch s) 1 = state_epoch s + 1) as Hadd by (apply add_u64_small; lia).
  destruct s; simpl in *;
    unfold recv_keys_sampled, recv_header_sent, recv_ct1_received, recv_ek_sent_ct1_received,
      recv_no_header_received, recv_ct1_sampled, recv_ek_received_ct1_sampled,
      recv_ct1_acknowledged, recv_ct2_sampled, is_msg in Hr;
    run_handler; simplify_eq/=; unfold rank; simpl; rewrite ?Hadd; split_and!; try done; try lia; try tauto;
    intros e <-; right; repeat match goal with
      | Hb : _ && _ = true |- _ => apply andb_true_iff in Hb as [?%bool_decide_eq_true ?%bool_decide_eq_true]
      end; done.
Qed.

End order.

(** ** Acknowledgements *)

Section acknowledgements.
Context `{HashesOk} `{ReedSolomonOk} `{IncKemOk}.

Definition acks_inv (sys : System) : Prop :=
  (∀ p m, m ∈ sent sys p → mtype m = EkCt1Ack → msg_epoch m ≤ acked_upto (state (party sys p)))
  ∧ (∀ p e, saw_ack (state (party sys p)) e → e ≤ acked_upto (state (party sys (negb p)))).

Lemma party_live auth_seed sys p :
  sys_reachable auth_seed sys → live (state (party sys p)) ∧ 0 ≤ state_epoch (state (party sys p)).
Proof.
  intros [(t & e & o & He & Hph & _) _]%sys_reachable_inv. pose proof (phase_live _ _ _ _ Hph) as [Hlo Hlc].
  pose proof (phase_epochs _ _ _ _ Hph) as (Heo & Hec & _).
  destruct (decide (p = o)) as [->|]; [split; [done|lia]|]. assert (p = negb o) as -> by (by destruct p, o). split; [done|lia].
Qed.

Lemma acks_step auth_seed sys sys' : sys_reachable auth_seed sys → sys_step sys sys' → acks_inv sys → acks_inv sys'.
Proof.
  intros Hr Hst [HA HB]. destruct Hst as [p rng sys out b' Hmax Hs|p msg sys out b' Hmax Hin Hs].
  - rewrite braid_send_run in Hs. destruct (state_send _ _) as [[[s1 m] k]|] eqn:E; [|done]. simplify_eq/=.
    destruct (send_ranks _ _ _ _ _ E) as (_ & Hup & Hack & Hsaw). split; simpl.
    + intros q m'. destruct (decide (q = p)) as [->|]; [rewrite !fn_lookup_insert|rewrite !fn_lookup_insert_ne by done; apply HA].
      intros [->|Hm]%elem_of_cons Ht; [by apply Hack|]. specialize (HA p m' Hm Ht). simpl. lia.
    + intros q e. destruct (decide (q = p)) as [->|].
      * rewrite fn_lookup_insert, fn_lookup_insert_ne by (by destruct p). intros He%Hsaw. by apply HB.
      * assert (negb q = p) as -> by (by destruct p, q). rewrite fn_lookup_insert_ne, fn_lookup_insert by done.
        intros He%HB. assert (negb q = p) as Eq by (by destruct p, q). rewrite Eq in He. simpl. lia.
  - destruct (party_live _ _ p Hr) as [Hl He0].
    rewrite braid_receive_run in Hs. destruct (state_receive _ _) as [[s1 k]|] eqn:E; [|done]. simplify_eq/=.
    destruct (receive_ranks _ _ _ _ Hl ltac:(lia) E) as (_ & Hup & Hsaw). split; simpl.
    + intros q m' Hm Ht. specialize (HA q m' Hm Ht).
      destruct (decide (q = p)) as [->|]; [rewrite fn_lookup_insert; simpl; lia|by rewrite fn_lookup_insert_ne].
    + intros q e. destruct (decide (q = p)) as [->|].
      * rewrite fn_lookup_insert, fn_lookup_insert_ne by (by destruct p). intros [He|[Ht <-]]%Hsaw; [by apply HB|by apply HA].
      * assert (negb q = p) as Eq by (by destruct p, q). rewrite Eq, fn_lookup_insert_ne, fn_lookup_insert by done.
        intros He%HB. rewrite Eq in He. simpl. lia.
Qed.

Lemma sys_acks auth_seed sys : sys_reachable auth_seed sys → acks_inv sys.
Proof.
  intros Hr. enough (sys_reachable auth_seed sys ∧ acks_inv sys) by tauto. revert sys Hr.
  apply (rtc_ind_r (λ sys, sys_reachable auth_seed sys ∧ acks_inv sys)).
  - split; [apply rtc_refl|]. split; [by intros p m ?%elem_of_nil|by intros [] e].
  - intros s s' _ Hst [Hr Ha]. split; [by eapply rtc_r|by eapply acks_step].
Qed.

End acknowledgements.

(** ** One message across *)

Section exchanges.
Context `{HashesOk} `{ReedSolomonOk} `{IncKemOk}.
Context (Hmds : braid_recovers).

(** Party [s] sends and party [s'] receives what was sent. *)
Definition passes (rng : Rng) (s s' s1 s1' : State) : Prop :=
  ∃ m k k', state_send s rng = Ok (s1, m, k) ∧ state_receive s' m = Ok (s1', k').

(** A message from the owner [o] to the encapsulator [c] if [d], else the other way. *)
Definition crosses (d : bool) (rng : Rng) (o c o1 c1 : State) : Prop :=
  if d then passes rng o c o1 c1 else passes rng c o c1 o1.

Lemma passes_rank rng s s' s1 s1' :
  passes rng s s' s1 s1' → live s' → 0 ≤ state_epoch s' < u64_max → rank s + rank s' ≤ rank s1 + rank s1'.
Proof.
  intros (m & k & k' & Hs & Hr) Hl He. destruct (send_ranks _ _ _ _ _ Hs) as [? _].
  destruct (receive_ranks _ _ _ _ Hl He Hr) as [? _]. lia.
Qed.

(** A genuine codeword into a genuine decoder. *)
Lemma fed data dec e ty c :
  recovers_size (length data) → collects data dec → codeword_of data c →
  msg_add_chunk dec (carrying e ty c) = Ok (feed1 c dec)
  ∧ message (feed1 c dec) = Ok (if has_message (feed1 c dec) then Some data else None)
  ∧ collects data (feed1 c dec).
Proof.
  intros Hrec Hd Hc. destruct (feed1_collects data dec c Hd Hc) as (Ha & Hd' & _). split_and!; [exact Ha| |done].
  destruct (has_message (feed1 c dec)) eqn:E; [by apply message_complete|]. unfold message. by rewrite E.
Qed.

(** The encapsulator streams [ct1]. *)
Inductive streams_ct1 (t : Transcript) (e : Z) (enc : Encoder) : State → Prop :=
| sc_sampled dec : collects (t_ek t) dec → streams_ct1 t e enc (Ct1Sampled e (t_next t e) (t_hdr t) (t_st t) (t_ct1 t) enc dec)
| sc_received : streams_ct1 t e enc (EkReceivedCt1Sampled e (t_next t e) (t_st t) (t_ct1 t) (t_ek t) enc).

(** One party streams [data] to a decoder of the other that takes every codeword. *)
Inductive streaming (t : Transcript) (e : Z) : State → State → bool → bytes → Encoder → Decoder → Prop :=
| sg_hdr enc dec :
    encodes (hdr_payload t e) enc → collects (hdr_payload t e) dec →
    streaming t e (KeysSampled e (t_auth t) (generate_keypair (t_seed t)) (t_ek t) enc)
      (NoHeaderReceived e (t_auth t) dec) true (hdr_payload t e) enc dec
| sg_ct1 dec ek_enc enc c :
    encodes (t_ct1 t) enc → collects (t_ct1 t) dec → encodes (t_ek t) ek_enc → streams_ct1 t e enc c →
    streaming t e (HeaderSent e (t_auth t) (generate_keypair (t_seed t)) dec ek_enc) c false (t_ct1 t) enc dec
| sg_ek enc dec :
    encodes (t_ek t) enc → collects (t_ek t) dec →
    streaming t e (Ct1Received e (t_auth t) (generate_keypair (t_seed t)) (t_ct1 t) enc)
      (Ct1Acknowledged e (t_next t e) (t_st t) (t_hdr t) (t_ct1 t) dec) true (t_ek t) enc dec
| sg_ct2 enc dec :
    encodes (ct2_payload t e) enc → collects (ct2_payload t e) dec →
    streaming t e (EkSentCt1Received e (t_auth t) (generate_keypair (t_seed t)) (t_ct1 t) dec)
      (Ct2Sampled e (t_next t e) enc) false (ct2_payload t e) enc dec.

(** The next message in direction [d] moves one of the two on. *)
Inductive ready (e : Z) : State → State → bool → Prop :=
| rd_sample a dec : ready e (KeysUnsampled e a) (NoHeaderReceived e a dec) true
| rd_encaps a dk ek enc h dec : ready e (KeysSampled e a dk ek enc) (HeaderReceived e a h dec) false
| rd_ct1 t a dk ek enc enc' c : streams_ct1 t e enc' c → ready e (KeysSampled e a dk ek enc) c false
| rd_ack t a dk ct1 enc enc' c : streams_ct1 t e enc' c → ready e (Ct1Received e a dk ct1 enc) c true
| rd_ct2 a dk ct1 enc a' enc' : ready e (Ct1Received e a dk ct1 enc) (Ct2Sampled e a' enc') false
| rd_swap a dec a' enc : ready e (NoHeaderReceived (e + 1) a dec) (Ct2Sampled e a' enc) true.

(** In every phase one of the two is the case. *)
Lemma phase_cases t e o c :
  phase t e o c → (saw_ack c e → e ≤ acked_upto o) →
  (∃ d, ready e o c d) ∨ (∃ d data enc dec, streaming t e o c d data enc dec).
Proof.
  intros Hph Hack. destruct Hph as [|o c Ho Hc|o c Ho Hc|o enc Ho Henc|enc Henc].
  - left. eexists. apply rd_sample.
  - destruct Ho as [enc Henc], Hc as [dec Hd|dec Hd]; [right|left; eexists; apply rd_encaps].
    eexists _, _, _, _. by apply sg_hdr.
  - assert (saw_ack c e ∨ ∃ enc, encodes (t_ct1 t) enc ∧ streams_ct1 t e enc c) as [Hs|(enc' & Henc' & Hs)].
    { destruct Hc as [enc dec Henc Hd|enc Henc|dec Hd]; [right..|by left]; exists enc; split; try done; by constructor. }
    + specialize (Hack Hs). destruct Hc as [| |dec Hd]; [done|done|].
      destruct Ho as [s Ho|d2 enc2 _ _|enc2 Henc2]; [destruct Ho; simpl in Hack; lia|simpl in Hack; lia|].
      right. eexists _, _, _, _. by apply sg_ek.
    + destruct Ho as [s [enc2 Henc2]|d2 enc2 Hd2 Henc2|enc2 Henc2].
      * left. eexists. by eapply rd_ct1.
      * right. eexists _, _, _, _. by eapply sg_ct1.
      * left. eexists. by eapply rd_ack.
  - specialize (Hack eq_refl). destruct Ho as [s [s' Ho|d2 enc2 _ _|enc2 Henc2]|dec Hd].
    + destruct Ho; simpl in Hack; lia.
    + simpl in Hack; lia.
    + left. eexists. apply rd_ct2.
    + right. eexists _, _, _, _. by apply sg_ct2.
  - left. eexists. apply rd_swap.
Qed.

Lemma ready_forward e o c d rng o1 c1 :
  ready e o c d → 0 ≤ e → e + 1 < u64_max → crosses d rng o c o1 c1 → rank o + rank c < rank o1 + rank c1.
Proof.
  intros Hrd He0 Hmax. assert (add_u64 e 1 = e + 1) as Hadd by (apply add_u64_small; lia).
  destruct Hrd as [| |t a dk ek enc enc' c Hc|t a dk ct1 enc enc' c Hc| |]; simpl; intros (m & k & k' & Hs & Hr);
    try destruct Hc; simpl in Hs; run_handler; simplify_eq; simpl in Hr;
    unfold recv_no_header_received, recv_keys_sampled, recv_ct1_received, recv_ct1_sampled, recv_ek_received_ct1_sampled,
      recv_ct2_sampled, is_msg in Hr; simpl in Hr; rewrite ?Hadd in Hr; repeat (rewrite bool_decide_eq_true_2 in Hr by done);
    simpl in Hr; run_handler; simplify_eq; unfold rank; simpl; lia.
Qed.

(** A message the other way does not disturb it. *)
Lemma ready_backward e o c d rng o1 c1 :
  ready e o c d → 0 ≤ e → e + 1 < u64_max → crosses (negb d) rng o c o1 c1 →
  ready e o1 c1 d.
Proof.
  intros Hrd He0 Hmax. assert (add_u64 e 1 = e + 1) as Hadd by (apply add_u64_small; lia).
  destruct Hrd as [| |t a dk ek enc enc' c Hc|t a dk ct1 enc enc' c Hc| |]; simpl; intros (m & k & k' & Hs & Hr);
    try destruct Hc; simpl in Hs; run_handler; simplify_eq; simpl in Hr;
    unfold recv_no_header_received, recv_keys_sampled, recv_ct1_received, recv_ct1_sampled, recv_ek_received_ct1_sampled,
      recv_ct2_sampled, is_msg in Hr; simpl in Hr; rewrite ?Hadd in Hr;
    repeat first [rewrite bool_decide_eq_true_2 in Hr by done | rewrite bool_decide_eq_false_2 in Hr by (done || lia)];
    simpl in Hr; run_handler; simplify_eq; try lia;
    first [apply rd_sample | apply rd_encaps | apply rd_ct2 | apply rd_swap
          | by eapply rd_ct1, sc_sampled | by eapply rd_ct1, sc_received
          | by eapply rd_ack, sc_sampled | by eapply rd_ack, sc_received].
Qed.

Lemma streaming_genuine t e o c d data enc dec :
  streaming t e o c d data enc dec →
  encodes data enc ∧ collects data dec ∧ streams data ∧ recovers_size (length data).
Proof.
  destruct (payload_bounds t e) as (? & ? & ? & ?). destruct (recovers_payloads Hmds t e) as (? & ? & ? & ?).
  by destruct 1.
Qed.

(** What the receiver of each stream does with the next codeword. *)
Lemma header_fed t e dec ch :
  collects (hdr_payload t e) dec → codeword_of (hdr_payload t e) ch →
  state_receive (NoHeaderReceived e (t_auth t) dec) (carrying e Hdr ch)
  = Ok (if has_message (feed1 ch dec) then HeaderReceived e (t_auth t) (t_hdr t) (decoder_new pk2_len)
        else NoHeaderReceived e (t_auth t) (feed1 ch dec), None).
Proof.
  intros Hd Hc. destruct (recovers_payloads Hmds t e) as (Hrec & _).
  destruct (fed _ dec e Hdr ch Hrec Hd Hc) as (Ha & Hm & _).
  cbn [state_receive]. unfold recv_no_header_received. rewrite is_msg_current, bool_decide_eq_true_2 by done.
  rewrite Ha. cbn [mbind result_bind]. rewrite Hm. destruct (has_message (feed1 ch dec)); cbn [mbind result_bind]; [|done].
  destruct (t_lengths t) as (Hl1 & _). unfold hdr_payload.
  by rewrite <-Hl1, take_app_length, drop_app_length, (proj2 (proj1 (vfy_exact _ _ _ _)) eq_refl).
Qed.

Lemma ct1_fed t e a dk dec enc ch :
  collects (t_ct1 t) dec → codeword_of (t_ct1 t) ch →
  state_receive (HeaderSent e a dk dec enc) (carrying e Ct1 ch)
  = Ok (if has_message (feed1 ch dec) then Ct1Received e a dk (t_ct1 t) enc else HeaderSent e a dk (feed1 ch dec) enc, None).
Proof.
  intros Hd Hc. destruct (recovers_payloads Hmds t e) as (_ & _ & Hrec & _).
  destruct (fed _ dec e Ct1 ch Hrec Hd Hc) as (Ha & Hm & _).
  cbn [state_receive]. unfold recv_header_sent. rewrite is_msg_current, bool_decide_eq_true_2 by done.
  rewrite Ha. cbn [mbind result_bind]. rewrite Hm. by destruct (has_message (feed1 ch dec)).
Qed.

Lemma ek_fed t e dec ch :
  collects (t_ek t) dec → codeword_of (t_ek t) ch →
  ∃ enc, state_receive (Ct1Acknowledged e (t_next t e) (t_st t) (t_hdr t) (t_ct1 t) dec) (carrying e EkCt1Ack ch)
  = Ok (if has_message (feed1 ch dec) then Ct2Sampled e (t_next t e) enc
        else Ct1Acknowledged e (t_next t e) (t_st t) (t_hdr t) (t_ct1 t) (feed1 ch dec), None).
Proof.
  intros Hd Hc. destruct (recovers_payloads Hmds t e) as (_ & Hrec & _).
  destruct (fed _ dec e EkCt1Ack ch Hrec Hd Hc) as (Ha & Hm & _). destruct (build_ct2_total t e) as (enc & Hb). exists enc.
  cbn [state_receive]. unfold recv_ct1_acknowledged. rewrite is_msg_current, bool_decide_eq_true_2 by done.
  rewrite Ha. cbn [mbind result_bind]. rewrite Hm. destruct (has_message (feed1 ch dec)); cbn [mbind result_bind]; [|done].
  rewrite validate_total. cbn [mbind result_bind]. by rewrite Hb.
Qed.

Lemma ct2_fed t e dec ch :
  0 ≤ e → e + 1 < u64_max → collects (ct2_payload t e) dec → codeword_of (ct2_payload t e) ch →
  ∃ k, state_receive (EkSentCt1Received e (t_auth t) (generate_keypair (t_seed t)) (t_ct1 t) dec) (carrying e Ct2 ch)
  = Ok (if has_message (feed1 ch dec) then NoHeaderReceived (e + 1) (t_next t e) (decoder_new (pk1_len + MAC_SIZE))
        else EkSentCt1Received e (t_auth t) (generate_keypair (t_seed t)) (t_ct1 t) (feed1 ch dec), k).
Proof.
  intros He0 Hmax Hd Hc. destruct (recovers_payloads Hmds t e) as (_ & _ & _ & Hrec).
  destruct (fed _ dec e Ct2 ch Hrec Hd Hc) as (Ha & Hm & _).
  cbn [state_receive]. unfold recv_ek_sent_ct1_received. rewrite is_msg_current, bool_decide_eq_true_2 by done.
  rewrite Ha. cbn [mbind result_bind]. rewrite Hm. destruct (has_message (feed1 ch dec)); cbn [mbind result_bind]; [|by eexists].
  destruct (t_lengths t) as (_ & _ & _ & _ & Hl2). unfold ct2_payload.
  rewrite <-Hl2, take_app_length, drop_app_length, owner_decapsulates. cbn [mbind result_bind].
  change (kdf_ok (t_enc t).2 e) with (t_secret t e). change (auth_update (t_auth t) e (t_secret t e)) with (t_next t e).
  rewrite (proj2 (proj2 (vfy_exact _ _ _ _)) eq_refl). cbn [is_ok]. rewrite add_u64_small by lia. by eexists.
Qed.

(** The next codeword of the stream: the decoder completes and a party moves on, or it
    has taken the codeword. *)
Lemma streaming_forward t e o c d data enc dec rng o1 c1 :
  streaming t e o c d data enc dec → 0 ≤ e → e + 1 < u64_max → crosses d rng o c o1 c1 →
  rank o + rank c < rank o1 + rank c1
  ∨ has_message (feed1 (next_chunk enc).1 dec) = false
    ∧ streaming t e o1 c1 d data (next_chunk enc).2 (feed1 (next_chunk enc).1 dec).
Proof.
  intros Hst He0 Hmax Hx. destruct (streaming_genuine _ _ _ _ _ _ _ _ Hst) as (Henc & Hdec & Hstr & Hrec).
  destruct (next_chunk_codeword data enc Henc (proj2 Hstr)) as [Hcw Henc1].
  destruct (feed1_collects data dec _ Hdec Hcw) as (_ & Hd1 & _).
  destruct (next_chunk enc) as [ch enc1] eqn:En. cbn [fst snd] in *.
  destruct Hst as [enc dec _ _|dec ek_enc enc c _ _ Hek Hc|enc dec _ _|enc dec _ _]; destruct Hx as (m & k & k' & Hs & Hr).
  - cbn [state_send] in Hs. rewrite En in Hs. injection Hs as <- <- <-. rewrite header_fed in Hr by done.
    destruct (has_message (feed1 ch dec)); injection Hr as <- <-; [left; unfold rank; simpl; lia|].
    right. split; [done|]. by apply sg_hdr.
  - assert (streams_ct1 t e enc1 c1 ∧ m = carrying e Ct1 ch ∧ rank c1 = rank c) as (Hc1 & -> & Hrk).
    { destruct Hc as [d2 Hd2|]; cbn [state_send] in Hs; rewrite En in Hs; injection Hs as <- <- <-;
        (split; [by constructor|done]). }
    rewrite (ct1_fed t) in Hr by done. destruct (has_message (feed1 ch dec)); injection Hr as <- <-.
    + left. rewrite Hrk. unfold rank. simpl. lia.
    + right. split; [done|]. by apply sg_ct1.
  - cbn [state_send] in Hs. rewrite En in Hs. injection Hs as <- <- <-. destruct (ek_fed t e dec ch Hdec Hcw) as (enc2 & Hf).
    rewrite Hf in Hr. destruct (has_message (feed1 ch dec)); injection Hr as <- <-; [left; unfold rank; simpl; lia|].
    right. split; [done|]. by apply sg_ek.
  - cbn [state_send] in Hs. rewrite En in Hs. injection Hs as <- <- <-.
    destruct (ct2_fed t e dec ch He0 Hmax Hdec Hcw) as (k2 & Hf).
    rewrite Hf in Hr. destruct (has_message (feed1 ch dec)); injection Hr as <- <-; [left; unfold rank; simpl; lia|].
    right. split; [done|]. by apply sg_ct2.
Qed.

(** A message against the stream: a party moves on, or the stream is as it was. *)
Lemma streaming_backward t e o c d data enc dec rng o1 c1 :
  streaming t e o c d data enc dec → 0 ≤ e → e + 1 < u64_max → crosses (negb d) rng o c o1 c1 →
  rank o + rank c < rank o1 + rank c1 ∨ streaming t e o1 c1 d data enc dec.
Proof.
  intros Hst He0 Hmax Hx. assert (add_u64 e 1 = e + 1) as Hadd by (apply add_u64_small; lia).
  destruct Hst as [enc dec Henc Hdec|dec ek_enc enc c Henc Hdec Hek Hc|enc dec Henc Hdec|enc dec Henc Hdec];
    destruct Hx as (m & k & k' & Hs & Hr); cbn [state_send] in Hs.
  - injection Hs as <- <- <-. cbn [state_receive] in Hr. unfold recv_keys_sampled in Hr. rewrite is_msg_current in Hr by done.
    simpl in Hr. injection Hr as <- <-. right. by apply sg_hdr.
  - destruct (payload_bounds t e) as (_ & _ & Hstr & _).
    destruct (next_chunk_carries _ _ e Ek Hek Hstr) as [Hcar Hek1]. destruct (next_chunk ek_enc) as [ch ek1].
    cbn [fst snd] in Hcar, Hek1. injection Hs as <- <- <-. destruct Hc as [d2 Hd2|]; cbn [state_receive] in Hr.
    + unfold recv_ct1_sampled in Hr. rewrite !is_msg_current in Hr by done. simpl in Hr.
      apply result_bind_Ok in Hr as (d3 & Ha & Hr). apply result_bind_Ok in Hr as ([v|] & Hm & Hr); simpl in Hr.
      * apply result_bind_Ok in Hr as (_ & _ & Hr). injection Hr as <- <-. left. unfold rank. simpl. lia.
      * injection Hr as <- <-. right. apply sg_ct1; [done..|]. apply sc_sampled. by eapply msg_add_chunk_collects.
    + unfold recv_ek_received_ct1_sampled in Hr. rewrite is_msg_current in Hr by done. simpl in Hr. injection Hr as <- <-.
      right. apply sg_ct1; [done..|]. apply sc_received.
  - injection Hs as <- <- <-. cbn [state_receive] in Hr. unfold recv_ct1_received in Hr. rewrite is_msg_current in Hr by done.
    simpl in Hr. injection Hr as <- <-. right. by apply sg_ek.
  - injection Hs as <- <- <-. cbn [state_receive] in Hr. unfold recv_ct2_sampled in Hr.
    rewrite Hadd, bool_decide_eq_false_2 in Hr by (simpl; lia). injection Hr as <- <-. right. by apply sg_ct2.
Qed.

End exchanges.

(** ** Rounds of two parties *)

Section rounds.
Context `{HashesOk} `{ReedSolomonOk} `{IncKemOk}.
Context (Hmds : braid_recovers).

(** Party [p] sends a message and its peer receives it. *)
Definition exchange (rng : Rng) (p : bool) (sys : System) : System :=
  match braid_send rng (party sys p) with
  | (Ok out, b) =>
      let sys1 := mk_system (<[p := b]> (party sys)) (<[p := ss_msg out :: sent sys p]> (sent sys))
                    (<[p := option_list (ss_output_key out) ++ emitted sys p]> (emitted sys)) in
      match braid_receive (ss_msg out) (party sys1 (negb p)) with
      | (Ok out', b') =>
          mk_system (<[negb p := b']> (party sys1)) (sent sys1)
            (<[negb p := option_list (sr_output_key out') ++ emitted sys1 (negb p)]> (emitted sys1))
      | (Err _, _) => sys1
      end
  | (Err _, _) => sys
  end.

(** Each party in turn; the randomness of each send is given. *)
Definition round (rngs : bool → Rng) (sys : System) : System :=
  exchange (rngs false) false (exchange (rngs true) true sys).
Fixpoint run_rounds (rngs : nat → bool → Rng) (n : nat) (sys : System) : System :=
  match n with
  | O => sys
  | S n => run_rounds (λ i, rngs (S i)) n (round (rngs O) sys)
  end.

Definition at_party (sys : System) (p : bool) : State := state (party sys p).
Definition pos (sys : System) : Z := rank (at_party sys true) + rank (at_party sys false).
(** The epochs are at least [k] steps from the end of their range. *)
Definition epochs_left (k : nat) (sys : System) : Prop := ∀ p, state_epoch (at_party sys p) + Z.of_nat k < u64_max.

Lemma pos_owner sys o : pos sys = rank (at_party sys o) + rank (at_party sys (negb o)).
Proof. unfold pos. destruct o; simpl; lia. Qed.

Lemma exchange_spec auth_seed rng p sys :
  sys_reachable auth_seed sys → epochs_left 1 sys →
  let sys' := exchange rng p sys in
  sys_reachable auth_seed sys'
  ∧ passes rng (at_party sys p) (at_party sys (negb p)) (at_party sys' p) (at_party sys' (negb p)).
Proof.
  intros Hr Hb. unfold exchange. destruct (braid_total Hmds _ _ p Hr) as [Hsend _]. specialize (Hsend rng).
  destruct (braid_send rng (party sys p)) as [[out|err] b] eqn:Es; [|done]. set (sys1 := mk_system _ _ _).
  assert (sys_step sys sys1) as Hst1 by (apply step_send with (rng := rng); [specialize (Hb p); unfold at_party in Hb; lia|done]).
  assert (sys_reachable auth_seed sys1) as Hr1 by (by eapply rtc_r).
  assert (party sys1 (negb p) = party sys (negb p)) as Hq by (simpl; by rewrite fn_lookup_insert_ne by (by destruct p)).
  assert (ss_msg out ∈ sent sys1 (negb (negb p))) as Hin.
  { rewrite negb_involutive. simpl. rewrite fn_lookup_insert. by left. }
  destruct (braid_total Hmds _ _ (negb p) Hr1) as [_ Hrecv]. specialize (Hrecv _ Hin).
  destruct (braid_receive (ss_msg out) (party sys1 (negb p))) as [[out'|err] b'] eqn:Er; [|done]. cbv zeta. split.
  - eapply rtc_r; [exact Hr1|]. apply step_deliver with (msg := ss_msg out); [|done|done].
    rewrite Hq. specialize (Hb (negb p)). unfold at_party in Hb. lia.
  - unfold at_party. cbn [party]. rewrite fn_lookup_insert, fn_lookup_insert_ne by (by destruct p). simpl.
    rewrite fn_lookup_insert. rewrite Hq in Er. rewrite braid_send_run in Es. rewrite braid_receive_run in Er.
    destruct (state_send _ _) as [[[s1 m] k]|] eqn:E1; [|done]. injection Es as <- <-. simpl in Er.
    destruct (state_receive _ _) as [[s2 k2]|] eqn:E2; [|done]. injection Er as <- <-. by exists m, k, k2.
Qed.

Lemma exchange_bounds auth_seed rng p k sys :
  sys_reachable auth_seed sys → epochs_left (S k) sys →
  epochs_left k (exchange rng p sys) ∧ state_epoch (at_party (exchange rng p sys) p) = state_epoch (at_party sys p)
  ∧ state_epoch (at_party (exchange rng p sys) (negb p)) ≤ state_epoch (at_party sys (negb p)) + 1
  ∧ pos sys ≤ pos (exchange rng p sys).
Proof.
  intros Hr Hb. destruct (exchange_spec auth_seed rng p sys Hr) as [_ Hp]; [intros q; specialize (Hb q); lia|].
  destruct (party_live auth_seed sys (negb p) Hr) as [Hl He0]. pose proof (Hb (negb p)) as Hmax.
  pose proof (passes_rank _ _ _ _ _ Hp Hl ltac:(unfold at_party in *; lia)) as Hrank.
  destruct Hp as (m & k1 & k2 & Hs & Hv). apply state_send_spec in Hs as (_ & Hes & _).
  apply state_receive_spec in Hv as (_ & Hev & _); [|done|lia|done].
  split_and!; [|done|lia|by rewrite !(pos_owner _ p)].
  intros q. pose proof (Hb q). destruct (decide (q = p)) as [->|]; [lia|].
  assert (q = negb p) as -> by (by destruct p, q). lia.
Qed.

(** The exchange of party [q], seen by the owner [o]. *)
Lemma exchange_crosses auth_seed rng q o sys :
  sys_reachable auth_seed sys → epochs_left 1 sys →
  let sys' := exchange rng q sys in
  crosses (eqb q o) rng (at_party sys o) (at_party sys (negb o)) (at_party sys' o) (at_party sys' (negb o)).
Proof.
  intros Hr Hb sys'. destruct (exchange_spec auth_seed rng q sys Hr Hb) as [_ Hp]. fold sys' in Hp.
  by destruct q, o.
Qed.

Lemma round_bounds auth_seed rngs k sys :
  sys_reachable auth_seed sys → epochs_left (S (S (S k))) sys →
  let sys1 := exchange (rngs true) true sys in
  sys_reachable auth_seed sys1 ∧ epochs_left 2 sys1 ∧ pos sys ≤ pos sys1
  ∧ sys_reachable auth_seed (round rngs sys) ∧ epochs_left (S (S k)) (round rngs sys) ∧ pos sys1 ≤ pos (round rngs sys).
Proof.
  intros Hr Hb sys1.
  destruct (exchange_spec auth_seed (rngs true) true sys Hr) as [Hr1 _]; [intros p; specialize (Hb p); lia|].
  destruct (exchange_bounds auth_seed (rngs true) true _ sys Hr Hb) as (Hb1 & Ht1 & Hf1 & Hp1). fold sys1 in Hr1, Hb1, Ht1, Hf1, Hp1.
  destruct (exchange_spec auth_seed (rngs false) false sys1 Hr1) as [Hr2 _]; [intros p; specialize (Hb1 p); lia|].
  destruct (exchange_bounds auth_seed (rngs false) false _ sys1 Hr1 Hb1) as (_ & Hf2 & Ht2 & Hp2).
  change (exchange (rngs false) false sys1) with (round rngs sys) in *. cbn [negb] in Hf1, Ht2. split_and!; [done| |done|done| |done].
  - intros p. specialize (Hb1 p). lia.
  - intros p. pose proof (Hb p). destruct p; lia.
Qed.

(** What a round does to two parties one of which is about to move on. *)
Lemma ready_round auth_seed rngs sys e o d :
  sys_reachable auth_seed sys → epochs_left 3 sys → 0 ≤ e → e + 1 < u64_max →
  ready e (at_party sys o) (at_party sys (negb o)) d → pos sys < pos (round rngs sys).
Proof.
  intros Hr Hb He0 Hmax Hrd. destruct (round_bounds auth_seed rngs 0 sys Hr Hb) as (Hr1 & Hb1 & Hp1 & _ & _ & Hp2).
  pose proof (exchange_crosses auth_seed (rngs true) true o sys Hr ltac:(intros p; specialize (Hb p); lia)) as Hc1.
  set (sys1 := exchange (rngs true) true sys) in *. cbv zeta in Hc1.
  pose proof (exchange_crosses auth_seed (rngs false) false o sys1 Hr1 ltac:(intros p; specialize (Hb1 p); lia)) as Hc2.
  change (exchange (rngs false) false sys1) with (round rngs sys) in Hc2. cbv zeta in Hc2. destruct (decide (eqb true o = d)) as [Hd|Hd].
  - rewrite Hd in Hc1. pose proof (ready_forward _ _ _ _ _ _ _ Hrd He0 Hmax Hc1) as Hup. rewrite !(pos_owner _ o) in *. lia.
  - assert (eqb true o = negb d ∧ eqb false o = d) as [Hd1 Hd2] by (by destruct o, d).
    rewrite Hd1 in Hc1. rewrite Hd2 in Hc2. pose proof (ready_backward _ _ _ _ _ _ _ Hrd He0 Hmax Hc1) as Hrd1.
    pose proof (ready_forward _ _ _ _ _ _ _ Hrd1 He0 Hmax Hc2) as Hup. rewrite !(pos_owner _ o) in *. lia.
Qed.

Lemma streaming_round auth_seed rngs sys t e o d data enc dec :
  sys_reachable auth_seed sys → epochs_left 3 sys → 0 ≤ e → e + 1 < u64_max →
  streaming t e (at_party sys o) (at_party sys (negb o)) d data enc dec →
  pos sys < pos (round rngs sys)
  ∨ has_message (feed1 (next_chunk enc).1 dec) = false
    ∧ streaming t e (at_party (round rngs sys) o) (at_party (round rngs sys) (negb o)) d data
        (next_chunk enc).2 (feed1 (next_chunk enc).1 dec).
Proof.
  intros Hr Hb He0 Hmax Hst. destruct (round_bounds auth_seed rngs 0 sys Hr Hb) as (Hr1 & Hb1 & Hp1 & _ & _ & Hp2).
  pose proof (exchange_crosses auth_seed (rngs true) true o sys Hr ltac:(intros p; specialize (Hb p); lia)) as Hc1.
  set (sys1 := exchange (rngs true) true sys) in *. cbv zeta in Hc1.
  pose proof (exchange_crosses auth_seed (rngs false) false o sys1 Hr1 ltac:(intros p; specialize (Hb1 p); lia)) as Hc2.
  change (exchange (rngs false) false sys1) with (round rngs sys) in Hc2. cbv zeta in Hc2.
  rewrite !(pos_owner _ o) in *. destruct (decide (eqb true o = d)) as [Hd|Hd].
  - assert (eqb false o = negb d) as Hd2 by (by destruct o, d). rewrite Hd in Hc1. rewrite Hd2 in Hc2.
    destruct (streaming_forward Hmds _ _ _ _ _ _ _ _ _ _ _ Hst He0 Hmax Hc1) as [Hup|[Hno Hst1]]; [left; lia|].
    destruct (streaming_backward _ _ _ _ _ _ _ _ _ _ _ Hst1 He0 Hmax Hc2) as [Hup|Hst2]; [left; lia|by right].
  - assert (eqb true o = negb d ∧ eqb false o = d) as [Hd1 Hd2] by (by destruct o, d).
    rewrite Hd1 in Hc1. rewrite Hd2 in Hc2.
    destruct (streaming_backward _ _ _ _ _ _ _ _ _ _ _ Hst He0 Hmax Hc1) as [Hup|Hst1]; [left; lia|].
    destruct (streaming_forward Hmds _ _ _ _ _ _ _ _ _ _ _ Hst1 He0 Hmax Hc2) as [Hup|[Hno Hst2]]; [left; lia|by right].
Qed.

Lemma rounds_add i : ∀ rngs j sys, run_rounds rngs (i + j) sys = run_rounds (λ n, rngs (i + n)%nat) j (run_rounds rngs i sys).
Proof. induction i as [|i IH]; intros rngs j sys; [done|]. cbn [run_rounds Nat.add]. by rewrite IH. Qed.

Lemma rounds_bounds auth_seed n : ∀ rngs k sys,
  sys_reachable auth_seed sys → epochs_left (n + S (S k)) sys →
  sys_reachable auth_seed (run_rounds rngs n sys) ∧ epochs_left (S (S k)) (run_rounds rngs n sys) ∧ pos sys ≤ pos (run_rounds rngs n sys).
Proof.
  induction n as [|n IH]; intros rngs k sys Hr Hb; [split_and!; [done..|apply Z.le_refl]|]. cbn [run_rounds].
  destruct (round_bounds auth_seed (rngs O) (n + k) sys Hr) as (_ & _ & Hp1 & Hr' & Hb' & Hp2).
  { replace (S (S (S (n + k)))) with (S n + S (S k))%nat by lia. done. }
  destruct (IH (λ i, rngs (S i)) k _ Hr') as (Hr2 & Hb2 & Hp3); [by replace (n + S (S k))%nat with (S (S (n + k))) by lia|].
  split_and!; [done..|lia].
Qed.

(** ** Progress *)

Lemma stream_rounds auth_seed t e o d data j : ∀ rngs sys enc dec,
  sys_reachable auth_seed sys → epochs_left (j + 3) sys → 0 ≤ e → e + 1 < u64_max →
  streaming t e (at_party sys o) (at_party sys (negb o)) d data enc dec → has_message (feed j enc dec) = true →
  ∃ i, (i ≤ S j)%nat ∧ pos sys < pos (run_rounds rngs i sys).
Proof.
  induction j as [|j IH]; intros rngs sys enc dec Hr Hb He0 Hmax Hst Hdone.
  - exists 1%nat. split; [lia|]. cbn [run_rounds].
    destruct (streaming_round auth_seed (rngs O) sys t e o d data enc dec) as [Hup|[Hno _]]; [done..|].
    destruct (streaming_genuine Hmds _ _ _ _ _ _ _ _ Hst) as (Henc & Hdec & [_ Hfit] & _).
    cbn [feed] in Hdone. by rewrite (feed1_complete data) in Hno by (done || apply (next_chunk_codeword data enc Henc Hfit)).
  - destruct (round_bounds auth_seed (rngs O) (S j) sys Hr) as (_ & _ & Hp1 & Hr' & Hb' & Hp2);
      [by replace (S (S (S (S j)))) with (S j + 3)%nat by lia|].
    destruct (streaming_round auth_seed (rngs O) sys t e o d data enc dec) as [Hup|[_ Hst']]; try done.
    { intros p. specialize (Hb p). lia. }
    { exists 1%nat. by split; [lia|]. }
    destruct (IH (λ i, rngs (S i)) _ _ _ Hr' ltac:(by replace (j + 3)%nat with (S (S (S j))) by lia) He0 Hmax Hst' Hdone)
      as (i & Hi & Hup). exists (S i). split; [lia|]. cbn [run_rounds]. lia.
Qed.

(** The codewords of the longest object, and the rounds in which a party moves on. *)
Definition longest : nat :=
  (shards_total (pk1_len + MAC_SIZE) `max` shards_total pk2_len)
  `max` (shards_total ct1_len `max` shards_total (ct2_len + MAC_SIZE)).
Definition patience : nat := 2 * longest + 2.

Lemma streaming_longest t e o c d data enc dec :
  streaming t e o c d data enc dec → (shards_total (length data) ≤ longest)%nat.
Proof.
  intros Hst. unfold longest. destruct (t_lengths t) as (_ & Hek & Hct1 & _).
  destruct Hst; rewrite ?hdr_payload_length, ?ct2_payload_length, ?Hek, ?Hct1; lia.
Qed.

Lemma moves_on auth_seed rngs sys :
  sys_reachable auth_seed sys → epochs_left (patience + 2) sys →
  ∃ i, (i ≤ patience)%nat ∧ pos sys < pos (run_rounds rngs i sys).
Proof.
  intros Hr Hb. pose proof (sys_acks _ _ Hr) as [_ Hack]. assert (patience = 2 * longest + 2)%nat as Hpat by done.
  destruct (sys_reachable_inv _ _ Hr) as [(t & e & o & He & Hph & _) _].
  pose proof (phase_epochs _ _ _ _ Hph) as (_ & Hec & _).
  assert (e + 1 < u64_max) as Hmax by (specialize (Hb (negb o)); unfold at_party in Hb; lia).
  destruct (phase_cases _ _ _ _ Hph) as [(d & Hrd)|(d & data & enc & dec & Hst)].
  - intros Hs%(Hack (negb o)). by rewrite negb_involutive in Hs.
  - exists 1%nat. split; [lia|]. apply (ready_round auth_seed (rngs O) sys e o d); try done; [|lia].
    intros p. specialize (Hb p). lia.
  - pose proof (streaming_longest _ _ _ _ _ _ _ _ Hst).
    destruct (streaming_genuine Hmds _ _ _ _ _ _ _ _ Hst) as (Henc & Hdec & [_ Hfit] & _).
    destruct (stream_completes data Hfit enc dec Henc Hdec) as (j & Hj & Hdone).
    destruct (stream_rounds auth_seed t e o d data j rngs sys enc dec) as (i & Hi & Hup); try done; [|lia|].
    + intros p. specialize (Hb p). lia.
    + exists i. split; [lia|done].
Qed.

Lemma keeps_moving auth_seed n : ∀ rngs sys,
  sys_reachable auth_seed sys → epochs_left (n * patience + 2) sys →
  pos sys + Z.of_nat n ≤ pos (run_rounds rngs (n * patience) sys).
Proof.
  induction n as [|n IH]; intros rngs sys Hr Hb; [simpl; lia|].
  destruct (moves_on auth_seed rngs sys Hr) as (i & Hi & Hup); [intros p; specialize (Hb p); lia|].
  destruct (rounds_bounds auth_seed i rngs (S n * patience - i) sys Hr) as (Hr1 & Hb1 & _);
    [intros p; specialize (Hb p); lia|].
  destruct (rounds_bounds auth_seed (patience - i) (λ m, rngs (i + m)%nat) (n * patience) _ Hr1) as (Hr2 & Hb2 & Hp2);
    [intros p; specialize (Hb1 p); lia|].
  rewrite <-(rounds_add i rngs (patience - i) sys) in Hr2, Hb2, Hp2.
  replace (i + (patience - i))%nat with patience in Hr2, Hb2, Hp2 by lia.
  specialize (IH (λ m, rngs (patience + m)%nat) _ Hr2 ltac:(intros p; specialize (Hb2 p); lia)).
  cbn [Nat.mul]. rewrite rounds_add. lia.
Qed.

(** The epochs of the two parties against the sum of their ranks. *)
Lemma pos_epochs auth_seed sys :
  sys_reachable auth_seed sys →
  ∃ e, pos sys ≤ 20 * e + 14
    ∧ ∀ p, e ≤ state_epoch (at_party sys p) ∧ 20 * state_epoch (at_party sys p) - 6 ≤ pos sys.
Proof.
  intros Hr. destruct (sys_reachable_inv _ _ Hr) as [(t & e & o & He & Hph & _) _]. exists e.
  rewrite (pos_owner sys o). fold (at_party sys o) (at_party sys (negb o)) in Hph.
  assert (∀ s c, phase t e s c → rank s + rank c ≤ 20 * e + 14
    ∧ (e ≤ state_epoch s ∧ 20 * state_epoch s - 6 ≤ rank s + rank c)
    ∧ (e ≤ state_epoch c ∧ 20 * state_epoch c - 6 ≤ rank s + rank c)) as Hpos.
  { intros s c. destruct 1 as [|?? [] []|?? [? []| |] []|?? [? [? []| |]|]|]; unfold rank; simpl; lia. }
  destruct (Hpos _ _ Hph) as (Hle & Ho & Hc). split; [done|]. intros p.
  destruct (decide (p = o)) as [->|]; [done|]. by assert (p = negb o) as -> by (by destruct p, o).
Qed.

(** C6. The braid is live: from every state two honest parties reach over a network that
    loses, reorders and duplicates, once each sends and the other receives in turn, both
    are in a later epoch after [21 * patience] rounds, unless the 64-bit epoch counter
    runs out first; [patience] is twice the number of codewords of the longest streamed
    object, plus two. *)
Theorem braid_reaches_next_epoch auth_seed sys rngs :
  sys_reachable auth_seed sys → epochs_left (21 * patience + 2) sys →
  let sys' := run_rounds rngs (21 * patience) sys in
  sys_reachable auth_seed sys' ∧ ∀ p q, state_epoch (at_party sys p) < state_epoch (at_party sys' q).
Proof.
  intros Hr Hb sys'. pose proof (keeps_moving auth_seed 21 rngs sys Hr Hb) as Hmv. fold sys' in Hmv.
  destruct (rounds_bounds auth_seed (21 * patience) rngs 0 sys Hr Hb) as (Hr' & _). fold sys' in Hr'.
  split; [done|]. intros p q. destruct (pos_epochs _ _ Hr) as (e & _ & Hlo), (pos_epochs _ _ Hr') as (e' & Hhi & He').
  specialize (Hlo p). specialize (He' q). lia.
Qed.

End rounds.
