(* ===== verification/Spqr.v ===== *)
(** * The Sparse Post-Quantum Ratchet

    Models [src/protocol/ratchet/spqr.rs]: the braid wrapped with a root key, per-epoch
    send and receive chains and the skipped keys of each epoch.  The second part gives
    the key schedule as an abstract specification ([pq_key]: the key of a direction, an
    epoch and a counter, a function of the session key and the epoch secrets alone) and
    proves that both the sending and the receiving side hand out exactly those keys. *)

From S2P Require Import Prelude Foundation Interfaces Kdf Padding Erasure Kem BraidAuth Braid.

(** [MAX_SKIP] of [src/protocol/ratchet/skipped.rs], shared with the EC ratchet. *)
Definition MAX_SKIP : Z := 2000.

Inductive Direction : Type := A2B | B2A.

#[export] Instance direction_eq_dec : EqDecision Direction.
Proof. solve_decision. Defined.

Record SckaChain : Type := mk_scka_chain { ck : ChainKey; n : Z }.
Record EpochChains : Type := mk_epoch_chains { send : option SckaChain; recv : option SckaChain }.

Record SpqrState : Type := mk_spqr {
  braid : BraidState;
  rk : RootKey;
  epoch : Z;
  kdfchains : gmap Z EpochChains;
  mkskipped : gmap Z (gmap Z MessageKey);
  direction : Direction;
}.

(** Field updates. *)
Definition set_braid (b : BraidState) (s : SpqrState) : SpqrState :=
  mk_spqr b (rk s) (epoch s) (kdfchains s) (mkskipped s) (direction s).
Definition set_kdfchains (m : gmap Z EpochChains) (s : SpqrState) : SpqrState :=
  mk_spqr (braid s) (rk s) (epoch s) m (mkskipped s) (direction s).
Definition set_mkskipped (m : gmap Z (gmap Z MessageKey)) (s : SpqrState) : SpqrState :=
  mk_spqr (braid s) (rk s) (epoch s) (kdfchains s) m (direction s).
Definition set_send (c : option SckaChain) (e : EpochChains) : EpochChains := mk_epoch_chains c (recv e).
Definition set_recv (c : option SckaChain) (e : EpochChains) : EpochChains := mk_epoch_chains (send e) c.

Section spqr.
Context `{Hashes} `{ReedSolomon} `{IncKem}.

Definition scka_chain_new (ck : ChainKey) : SckaChain := mk_scka_chain ck 0.

(** [SckaChain::advance]: the counter and the key of the step, and the chain after it. *)
Definition scka_advance (c : SckaChain) : (Z * MessageKey) * SckaChain :=
  let n' := add_u32 (n c) 1 in
  let out := kdf_scka_ck (ck c) n' in
  ((n', ck_message_key out), mk_scka_chain (ck_chain_key out) n').

Definition braid_auth_seed (shared_secret : bytes) : bytes :=
  hkdf_sha256 shared_secret None (bstr "HushwireBraid:auth_seed") 32.

(** [Self::assign]: the (send, receive) chain keys. *)
Definition assign (d : Direction) (ck0 ck1 : ChainKey) : ChainKey * ChainKey :=
  match d with
  | A2B => (ck0, ck1)
  | B2A => (ck1, ck0)
  end.

Definition spqr_init (shared_secret : bytes) (d : Direction) : SpqrState :=
  let sk := braid_auth_seed shared_secret in
  let b := match d with A2B => init_sender sk | B2A => init_receiver sk end in
  let chains := kdf_scka_init sk in
  let '(send_ck, recv_ck) := assign d (chain_key_0 chains) (chain_key_1 chains) in
  mk_spqr b (scka_root_key chains) 0
    {[0 := mk_epoch_chains (Some (scka_chain_new send_ck)) (Some (scka_chain_new recv_ck))]}
    ∅ d.

Definition new_sender (shared_secret : bytes) : SpqrState := spqr_init shared_secret A2B.
Definition new_receiver (shared_secret : bytes) : SpqrState := spqr_init shared_secret B2A.

Definition non_consecutive (have got : Z) : CryptoError :=
  BraidKem ("non-consecutive SPQR epoch: have " +:+ pretty have +:+ ", got " +:+ pretty got).

Definition add_epoch (key_epoch : Z) (epoch_secret : bytes) : M SpqrState CryptoError () := λ self,
  if bool_decide (add_u64 (epoch self) 1 ≠ key_epoch) then (Err (non_consecutive (epoch self) key_epoch), self)
  else
    let chains := kdf_scka_rk (rk self) epoch_secret in
    let '(send_ck, recv_ck) := assign (direction self) (chain_key_0 chains) (chain_key_1 chains) in
    (Ok (),
     mk_spqr (braid self) (scka_root_key chains) key_epoch
       (<[key_epoch := mk_epoch_chains (Some (scka_chain_new send_ck)) (Some (scka_chain_new recv_ck))]>
          (kdfchains self))
       (mkskipped self) (direction self)).

(** [if let Some(es) = output_key { self.add_epoch(..)?; .. }]: the optional part. *)
Definition incorporate (k : option EpochSecret) : M SpqrState CryptoError () :=
  match k with
  | Some es => add_epoch (es_epoch es) (es_secret es)
  | None => mret ()
  end.

Definition clear_old_epochs (sending_epoch : Z) : M SpqrState CryptoError () :=
  match checked_sub sending_epoch 2 with
  | Some old => m_modify (λ self,
      set_mkskipped (delete old (mkskipped self)) (set_kdfchains (delete old (kdfchains self)) self))
  | None => mret ()
  end.

(** [kdfchains[sending_epoch - 1].send = None]. *)
Definition drop_previous_send (sending_epoch : Z) : M SpqrState CryptoError () :=
  match checked_sub sending_epoch 1 with
  | Some prev => m_modify (λ self, set_kdfchains (alter (set_send None) prev (kdfchains self)) self)
  | None => mret ()
  end.

Definition no_send_chain (e : Z) : CryptoError := BraidKem ("no SPQR send chain for epoch " +:+ pretty e).
Definition no_recv_chain (e : Z) : CryptoError := BraidKem ("no SPQR recv chain for epoch " +:+ pretty e).

(** [chain.advance()] on the send (receive) chain of an epoch. *)
Definition advance_send (e : Z) : M SpqrState CryptoError (Z * MessageKey) := λ self,
  match kdfchains self !! e ≫= send with
  | Some chain =>
      let '(out, chain) := scka_advance chain in
      (Ok out, set_kdfchains (alter (set_send (Some chain)) e (kdfchains self)) self)
  | None => (Err (no_send_chain e), self)
  end.

Definition advance_recv (e : Z) : M SpqrState CryptoError (Z * MessageKey) := λ self,
  match kdfchains self !! e ≫= recv with
  | Some chain =>
      let '(out, chain) := scka_advance chain in
      (Ok out, set_kdfchains (alter (set_recv (Some chain)) e (kdfchains self)) self)
  | None => (Err (no_recv_chain e), self)
  end.

Definition ratchet_send_key (rng : Rng) : M SpqrState CryptoError (Message * Z * MessageKey) :=
  out ← m_zoom braid set_braid (braid_send rng);
  _ ← incorporate (ss_output_key out);
  _ ← (match ss_output_key out with Some _ => clear_old_epochs (sending_epoch out) | None => mret () end);
  _ ← drop_previous_send (sending_epoch out);
  pq ← advance_send (sending_epoch out);
  mret (ss_msg out, pq.1, pq.2).

Definition try_skipped (e m : Z) : M SpqrState CryptoError (option MessageKey) := λ self,
  match mkskipped self !! e with
  | None => (Ok None, self)
  | Some inner =>
      match inner !! m with
      | None => (Ok None, self)
      | Some mk =>
          let inner := delete m inner in
          (Ok (Some mk),
           set_mkskipped (if bool_decide (inner = ∅) then delete e (mkskipped self)
                          else <[e := inner]> (mkskipped self)) self)
      end
  end.

(** [while chain.n < until { skipped.push(chain.advance()) }]; the loop runs
    [until - chain.n] times, which is the fuel. *)
Fixpoint skip_loop (fuel : nat) (until : Z) (chain : SckaChain) (skipped : list (Z * MessageKey))
    : list (Z * MessageKey) * SckaChain :=
  match fuel with
  | O => (skipped, chain)
  | S fuel =>
      if bool_decide (n chain < until) then
        let '(out, chain) := scka_advance chain in
        skip_loop fuel until chain (skipped ++ [out])
      else (skipped, chain)
  end.

Definition insert_all (skipped : list (Z * MessageKey)) (inner : gmap Z MessageKey) : gmap Z MessageKey :=
  foldl (λ m x, <[x.1 := x.2]> m) inner skipped.

Definition skip_message_keys (e until : Z) : M SpqrState CryptoError () := λ self,
  match kdfchains self !! e ≫= recv with
  | None => (Ok (), self)
  | Some chain =>
      if bool_decide (add_u32 (n chain) MAX_SKIP < until)
      then (Err (MaxSkipExceeded (sub_u32 until (n chain)) MAX_SKIP), self)
      else
        let '(skipped, chain) := skip_loop (Z.to_nat (until - n chain)) until chain [] in
        let self := set_kdfchains (alter (set_recv (Some chain)) e (kdfchains self)) self in
        match skipped with
        | [] => (Ok (), self)
        | _ => (Ok (), set_mkskipped
                         (<[e := insert_all skipped (default ∅ (mkskipped self !! e))]> (mkskipped self)) self)
        end
  end.

Definition replay_err (e m cur : Z) : CryptoError :=
  BraidKem ("SPQR replay or duplicate: epoch " +:+ pretty e +:+ " message " +:+ pretty m
            +:+ " <= current " +:+ pretty cur).
Definition mismatch_err (m pq_n : Z) : CryptoError :=
  BraidKem ("SPQR counter mismatch: advanced to " +:+ pretty m +:+ ", expected " +:+ pretty pq_n).

(** The chain must not be at or past the message. *)
Definition replay_guard (e pq_n : Z) : M SpqrState CryptoError () := λ self,
  match n <$> (kdfchains self !! e ≫= recv) with
  | Some cur => if bool_decide (pq_n ≤ cur) then (Err (replay_err e pq_n cur), self) else (Ok (), self)
  | None => (Ok (), self)
  end.

(** The part of [ratchet_receive_key] after the braid: the skipped key, or the replay
    guard, the skip and the trailing advance. *)
Definition advance_to (e pq_n : Z) : M SpqrState CryptoError MessageKey :=
  _ ← replay_guard e pq_n;
  _ ← skip_message_keys e (sat_sub pq_n 1);
  pq ← advance_recv e;
  if bool_decide (pq.1 ≠ pq_n) then m_throw (mismatch_err pq.1 pq_n) else mret pq.2.

Definition derive_receive_key (e pq_n : Z) : M SpqrState CryptoError MessageKey :=
  found ← try_skipped e pq_n;
  match found with
  | Some mk => mret mk
  | None => advance_to e pq_n
  end.

Definition ratchet_receive_key (msg : Message) (pq_n : Z) : M SpqrState CryptoError MessageKey :=
  out ← m_zoom braid set_braid (braid_receive msg);
  _ ← incorporate (sr_output_key out);
  derive_receive_key (receiving_epoch out) pq_n.

End spqr.

(** ** The key schedule *)

Definition opposite (d : Direction) : Direction := match d with A2B => B2A | B2A => A2B end.

(** The chain key of a flow: A2B messages use [CK0], B2A messages [CK1]. *)
Definition flow_key (f : Direction) (c : SckaChains) : ChainKey :=
  match f with A2B => chain_key_0 c | B2A => chain_key_1 c end.

Section schedule.
Context `{Hashes}.

(** The root key and chain keys after the epoch secrets [secrets]. *)
Definition schedule (sk : bytes) (secrets : list bytes) : SckaChains :=
  foldl (λ c s, kdf_scka_rk (scka_root_key c) s) (kdf_scka_init sk) secrets.

(** The chain key a flow starts epoch [e] with. *)
Definition pq_chain_key (sk : bytes) (secrets : list bytes) (f : Direction) (e : Z) : ChainKey :=
  flow_key f (schedule sk (take (Z.to_nat e) secrets)).

(** The chain after [j] messages and the key of message [m] (messages count from 1). *)
Definition chain_at (ck0 : ChainKey) (j : nat) : SckaChain :=
  Nat.iter j (λ c, (scka_advance c).2) (scka_chain_new ck0).
Definition key_at (ck0 : ChainKey) (m : Z) : MessageKey :=
  (scka_advance (chain_at ck0 (Z.to_nat (m - 1)))).1.2.

(** The message key of counter [m] of epoch [e] of a flow. *)
Definition pq_key (sk : bytes) (secrets : list bytes) (f : Direction) (e m : Z) : MessageKey :=
  key_at (pq_chain_key sk secrets f e) m.

Definition on_chain (ck0 : ChainKey) (c : SckaChain) : Prop :=
  0 ≤ n c ≤ u32_max ∧ c = chain_at ck0 (Z.to_nat (n c)).

Lemma on_chain_new ck0 : on_chain ck0 (scka_chain_new ck0).
Proof. split; [simpl; unfold u32_max; lia|done]. Qed.

Lemma chain_at_S ck0 j : chain_at ck0 (S j) = (scka_advance (chain_at ck0 j)).2.
Proof. done. Qed.

Lemma on_chain_advance ck0 c :
  on_chain ck0 c → n c < u32_max →
  let '(out, c') := scka_advance c in
  out = (n c + 1, key_at ck0 (n c + 1)) ∧ on_chain ck0 c' ∧ n c' = n c + 1.
Proof.
  intros [Hn Hc] Hlt. destruct (scka_advance c) as [out c'] eqn:E.
  assert (n c' = n c + 1 ∧ out.1 = n c + 1) as [Hn' Ho].
  { unfold scka_advance in E. rewrite add_u32_small in E by lia. by simplify_eq/=. }
  split_and!; [|split|done].
  - destruct out as [m mk]. simpl in Ho. f_equal; [done|]. unfold key_at.
    replace (n c + 1 - 1) with (n c) by lia. by rewrite <-Hc, E.
  - rewrite Hn'. lia.
  - rewrite Hn'. replace (Z.to_nat (n c + 1)) with (S (Z.to_nat (n c))) by lia.
    by rewrite chain_at_S, <-Hc, E.
Qed.

(** The loop stops at [until] having produced the keys in between, in order. *)
Lemma skip_loop_spec ck0 c until acc :
  on_chain ck0 c → n c ≤ until ≤ u32_max →
  ∃ c', skip_loop (Z.to_nat (until - n c)) until c acc
        = (acc ++ ((λ m, (m, key_at ck0 m)) <$> seqZ (n c + 1) (until - n c)), c')
        ∧ on_chain ck0 c' ∧ n c' = until.
Proof.
  remember (Z.to_nat (until - n c)) as fuel eqn:Hf. revert c acc Hf.
  induction fuel as [|fuel IH]; intros c acc Hf Hc Hu; cbn [skip_loop].
  - exists c. assert (n c = until) as -> by lia. rewrite Z.sub_diag. simpl. by rewrite app_nil_r.
  - rewrite bool_decide_eq_true_2 by lia.
    pose proof (on_chain_advance ck0 c Hc ltac:(lia)) as Ha.
    destruct (scka_advance c) as [out c1]. destruct Ha as (-> & Hc1 & Hn1).
    destruct (IH c1 (acc ++ [(n c + 1, key_at ck0 (n c + 1))])) as (c' & -> & Hc' & Hn'); [lia|done|lia|].
    exists c'. split; [|done]. f_equal. rewrite <-app_assoc. f_equal.
    rewrite (seqZ_cons (n c + 1)) by lia. simpl. f_equal. rewrite Hn1. f_equal. f_equal; lia.
Qed.

Lemma skip_loop_none c until acc :
  until ≤ n c → skip_loop (Z.to_nat (until - n c)) until c acc = (acc, c).
Proof. intros. by replace (Z.to_nat (until - n c)) with O by lia. Qed.

Lemma schedule_snoc sk secrets s :
  schedule sk (secrets ++ [s]) = kdf_scka_rk (scka_root_key (schedule sk secrets)) s.
Proof. unfold schedule. by rewrite foldl_app. Qed.

(** Later secrets do not change the keys of an epoch. *)
Lemma pq_chain_key_app sk secrets more f e :
  e ≤ Z.of_nat (length secrets) →
  pq_chain_key sk (secrets ++ more) f e = pq_chain_key sk secrets f e.
Proof. intros. unfold pq_chain_key. by rewrite take_app_le by lia. Qed.

Lemma pq_chain_key_snoc sk secrets s f :
  pq_chain_key sk (secrets ++ [s]) f (Z.of_nat (length secrets) + 1)
  = flow_key f (kdf_scka_rk (scka_root_key (schedule sk secrets)) s).
Proof.
  unfold pq_chain_key. rewrite <-schedule_snoc, take_ge; [done|]. rewrite length_app. simpl. lia.
Qed.

End schedule.

Lemma insert_all_lookup l inner m mk :
  insert_all l inner !! m = Some mk → (m, mk) ∈ l ∨ inner !! m = Some mk.
Proof.
  revert inner. induction l as [|[k v] l IH]; intros inner; simpl; [by right|].
  intros [?|Hi]%IH; [left; by right|].
  destruct (decide (k = m)) as [->|]; [rewrite lookup_insert_eq in Hi|rewrite lookup_insert_ne in Hi by done].
  - simplify_eq. left. by left.
  - by right.
Qed.

Lemma insert_all_other l inner m : m ∉ l.*1 → insert_all l inner !! m = inner !! m.
Proof.
  revert inner. induction l as [|[k v] l IH]; intros inner; simpl; [done|].
  rewrite not_elem_of_cons. intros [??]. rewrite IH by done. by rewrite lookup_insert_ne.
Qed.

Lemma insert_all_None l inner m : insert_all l inner !! m = None → m ∉ l.*1.
Proof.
  revert inner. induction l as [|[k v] l IH]; intros inner; simpl; [by intros _ ?%elem_of_nil|].
  intros Hi. rewrite not_elem_of_cons. split; [|by eapply IH]. intros ->.
  destruct (decide (k ∈ l.*1)) as [Hin|Hin]; [by apply (IH _ Hi)|].
  by rewrite insert_all_other, lookup_insert_eq in Hi.
Qed.

(** A key all of whose entries in the list agree gets that entry. *)
Lemma insert_all_spec l inner m mk :
  (∀ mk', (m, mk') ∈ l → mk' = mk) → (m, mk) ∈ l → insert_all l inner !! m = Some mk.
Proof.
  intros Hu Hin. destruct (insert_all l inner !! m) as [mk'|] eqn:E.
  2:{ apply insert_all_None in E. destruct E. apply list_elem_of_fmap. by exists (m, mk). }
  revert inner E. induction l as [|[k v] l IH]; intros inner E; simpl in *; [by apply elem_of_nil in Hin|].
  destruct (decide (m ∈ l.*1)) as [([m2 v2] & -> & Hin2)%list_elem_of_fmap|Hout].
  - simpl in *. assert (v2 = mk) as -> by (apply Hu; by right).
    apply (IH (λ mk' Hm, Hu mk' (list_elem_of_further _ _ _ Hm)) Hin2 _ E).
  - rewrite insert_all_other in E by done. apply elem_of_cons in Hin as [[= -> ->]|Hin].
    + by rewrite lookup_insert_eq in E.
    + destruct Hout. apply list_elem_of_fmap. by exists (m, mk).
Qed.
