(* ===== verification/SpqrBraid.v ===== *)
(** * The ratchet and its braid

    The post-quantum ratchet acts on its braid only through the braid's own API: chains,
    skipped keys and epochs leave the braid alone, so the braid after a call is the one
    that [braid_send] or [braid_receive] returns, and a property of the braid that those
    keep is kept by every call on the ratchet. *)

From S2P Require Import Prelude Foundation Interfaces Kdf Padding Erasure Kem BraidAuth Braid BraidTypes Spqr.

Section spqr_braid.
Context `{Hashes} `{ReedSolomon} `{IncKem}.
Context (P : BraidState → Prop).

Definition keeps_braid (st st' : SpqrState) : Prop := P (braid st) → P (braid st').

#[export] Instance keeps_braid_refl : Reflexive keeps_braid.
Proof. intros s Hs. exact Hs. Qed.
#[export] Instance keeps_braid_trans : Transitive keeps_braid.
Proof. intros s1 s2 s3 Ha Hb Hs. by apply Hb, Ha. Qed.

Lemma incorporate_braid k : m_rel keeps_braid (incorporate k).
Proof. intros s Hs. unfold incorporate, add_epoch. by repeat case_match. Qed.
Lemma clear_old_epochs_braid e : m_rel keeps_braid (clear_old_epochs e).
Proof. intros s Hs. unfold clear_old_epochs. by case_match. Qed.
Lemma drop_previous_send_braid e : m_rel keeps_braid (drop_previous_send e).
Proof. intros s Hs. unfold drop_previous_send. by case_match. Qed.
Lemma advance_send_braid e : m_rel keeps_braid (advance_send e).
Proof. intros s Hs. unfold advance_send. by repeat case_match. Qed.
Lemma advance_recv_braid e : m_rel keeps_braid (advance_recv e).
Proof. intros s Hs. unfold advance_recv. by repeat case_match. Qed.
Lemma try_skipped_braid e m : m_rel keeps_braid (try_skipped e m).
Proof. intros s Hs. unfold try_skipped. by repeat case_match. Qed.
Lemma replay_guard_braid e m : m_rel keeps_braid (replay_guard e m).
Proof. intros s Hs. unfold replay_guard. by repeat case_match. Qed.
Lemma skip_message_keys_braid e m : m_rel keeps_braid (skip_message_keys e m).
Proof. intros s Hs. unfold skip_message_keys. by repeat case_match. Qed.

#[local] Hint Resolve incorporate_braid clear_old_epochs_braid drop_previous_send_braid advance_send_braid
  advance_recv_braid try_skipped_braid replay_guard_braid skip_message_keys_braid : core.

(** What follows the braid in a receipt, and in a send. *)
Lemma after_receive_braid out pq_n :
  m_rel keeps_braid (_ ← incorporate (sr_output_key out); derive_receive_key (receiving_epoch out) pq_n).
Proof. keeps. Qed.
Lemma after_send_braid out :
  m_rel keeps_braid
    (_ ← incorporate (ss_output_key out);
     _ ← (match ss_output_key out with Some _ => clear_old_epochs (sending_epoch out) | None => mret () end);
     _ ← drop_previous_send (sending_epoch out);
     pq ← advance_send (sending_epoch out);
     mret (ss_msg out, pq.1, pq.2)).
Proof. keeps. Qed.

End spqr_braid.

Section api.
Context `{Hashes} `{ReedSolomon} `{IncKem}.

(** The braid after a call, whether or not the call succeeds. *)
Lemma ratchet_receive_key_braid m pq_n st :
  braid (ratchet_receive_key m pq_n st).2 = (braid_receive m (braid st)).2.
Proof.
  unfold ratchet_receive_key, m_zoom. unfold mbind at 1, m_bind at 1.
  destruct (braid_receive m (braid st)) as [[out|err] b]; [|done].
  exact (after_receive_braid (λ b', b' = b) out pq_n (set_braid b st) eq_refl).
Qed.

Lemma ratchet_send_key_braid rng st :
  braid (ratchet_send_key rng st).2 = (braid_send rng (braid st)).2.
Proof.
  unfold ratchet_send_key, m_zoom. unfold mbind at 1, m_bind at 1.
  destruct (braid_send rng (braid st)) as [[out|err] b]; [|done].
  exact (after_send_braid (λ b', b' = b) out (set_braid b st) eq_refl).
Qed.

(** The message that a successful send hands out is the braid's. *)
Lemma ratchet_send_key_msg rng st msg n mk st' :
  ratchet_send_key rng st = (Ok (msg, n, mk), st') →
  ∃ out b, braid_send rng (braid st) = (Ok out, b) ∧ msg = ss_msg out.
Proof.
  intros (out & st1 & Hz & (? & ? & _ & (? & ? & _ & (? & ? & _ & (pq & ? & _ & Hr)%m_bind_Ok)%m_bind_Ok)%m_bind_Ok)%m_bind_Ok)%m_bind_Ok.
  unfold m_zoom in Hz. destruct (braid_send rng (braid st)) as [r b] eqn:E. injection Hz as -> _.
  injection Hr as <- _ _. eauto.
Qed.

End api.
