(* ===== verification/SpqrKeys.v ===== *)
(** * The ratchet refines its key schedule

    [keys_ok] ties the chains and skipped keys of a party to the schedule of [Spqr];
    every operation preserves it, errors included, and the keys handed out are those of
    [pq_key].  [spqr_inv] adds the braid: the epochs of the two stay in step and the
    send chain of the current sending epoch is always there, so the fail-closed errors
    of the source cannot occur. *)

From S2P Require Import Prelude Foundation Interfaces Kdf Padding Erasure Kem BraidAuth Braid Spqr.

#[global] Arguments scka_advance : simpl never.

Section keys.
Context `{Hashes} `{ReedSolomon} `{IncKem}.

Definition chains_ok (sk : bytes) (secrets : list bytes) (d : Direction) (e : Z) (c : EpochChains) : Prop :=
  0 ≤ e ≤ Z.of_nat (length secrets)
  ∧ (∀ ch, send c = Some ch → on_chain (pq_chain_key sk secrets d e) ch)
  ∧ (∀ ch, recv c = Some ch → on_chain (pq_chain_key sk secrets (opposite d) e) ch).

(** The counter of the receive chain of an epoch. *)
Definition recv_count (st : SpqrState) (e : Z) : option Z := n <$> (kdfchains st !! e ≫= recv).
Definition skipped_key (st : SpqrState) (e m : Z) : option MessageKey :=
  mkskipped st !! e ≫= λ inner, inner !! m.

Record keys_ok (sk : bytes) (secrets : list bytes) (st : SpqrState) : Prop := {
  ko_epoch : epoch st = Z.of_nat (length secrets);
  ko_rk : rk st = scka_root_key (schedule sk secrets);
  ko_chains e c : kdfchains st !! e = Some c → chains_ok sk secrets (direction st) e c;
  ko_skipped e m mk : skipped_key st e m = Some mk →
    mk = pq_key sk secrets (opposite (direction st)) e m
    ∧ ∃ cur, recv_count st e = Some cur ∧ 1 ≤ m ≤ cur;
}.

Lemma chains_ok_app sk secrets more d e c :
  chains_ok sk secrets d e c → chains_ok sk (secrets ++ more) d e c.
Proof.
  intros (He & Hs & Hr). split_and!; [lia| rewrite length_app; lia |..].
  - intros. rewrite pq_chain_key_app by lia. auto.
  - intros. rewrite pq_chain_key_app by lia. auto.
Qed.

Lemma chains_ok_new sk secrets s d :
  let chains := kdf_scka_rk (scka_root_key (schedule sk secrets)) s in
  let '(send_ck, recv_ck) := assign d (chain_key_0 chains) (chain_key_1 chains) in
  chains_ok sk (secrets ++ [s]) d (Z.of_nat (length secrets) + 1)
    (mk_epoch_chains (Some (scka_chain_new send_ck)) (Some (scka_chain_new recv_ck))).
Proof.
  intros chains. destruct (assign d _ _) as [send_ck recv_ck] eqn:Ea. split_and!; simpl.
  - lia.
  - rewrite length_app. simpl. lia.
  - intros ch [= <-]. rewrite pq_chain_key_snoc. destruct d; simplify_eq/=; apply on_chain_new.
  - intros ch [= <-]. rewrite pq_chain_key_snoc. destruct d; simplify_eq/=; apply on_chain_new.
Qed.

Lemma keys_ok_init ss d : keys_ok (braid_auth_seed ss) [] (spqr_init ss d).
Proof.
  unfold spqr_init. destruct (assign d _ _) as [send_ck recv_ck] eqn:Ea. split; simpl; try done.
  - intros e c [<- <-]%lookup_singleton_Some. split_and!; simpl; [lia..| |];
      intros ch [= <-]; destruct d; simplify_eq/=; apply on_chain_new.
Qed.

Lemma keys_ok_set_braid sk secrets b st : keys_ok sk secrets st → keys_ok sk secrets (set_braid b st).
Proof. by intros []. Qed.

(** Incorporating the secret of the next epoch. *)
Lemma add_epoch_ok sk secrets st s :
  keys_ok sk secrets st → epoch st < u64_max →
  ∃ st', add_epoch (epoch st + 1) s st = (Ok (), st') ∧ keys_ok sk (secrets ++ [s]) st'
         ∧ braid st' = braid st ∧ direction st' = direction st
         ∧ (∀ e, e ≤ epoch st → kdfchains st' !! e = kdfchains st !! e)
         ∧ mkskipped st' = mkskipped st
         ∧ epoch st' = epoch st + 1
         ∧ ∃ c ch, kdfchains st' !! (epoch st + 1) = Some c ∧ send c = Some ch ∧ n ch = 0.
Proof.
  intros [He Hrk Hch Hsk] Hmax. unfold add_epoch.
  rewrite add_u64_small, bool_decide_eq_false_2 by (try lia; tauto).
  pose proof (chains_ok_new sk secrets s (direction st)) as Hnew. simpl in Hnew.
  rewrite Hrk. destruct (assign _ _ _) as [send_ck recv_ck].
  eexists. split; [done|]. rewrite He in *. split_and!; simpl; try done.
  - split; simpl.
    + rewrite length_app. simpl. lia.
    + by rewrite schedule_snoc.
    + intros e c [[<- <-]|[? Hc]]%lookup_insert_Some; [done|]. by apply chains_ok_app, Hch.
    + intros e m mk Hm. destruct (Hsk e m mk Hm) as (-> & cur & Hcur & Hb).
      assert (e ≤ Z.of_nat (length secrets)) as Hle.
      { unfold recv_count in Hcur. destruct (kdfchains st !! e) as [c|] eqn:E; [|done].
        by destruct (Hch e c E) as [[??] _]. }
      split; [unfold pq_key; by rewrite pq_chain_key_app by lia|].
      exists cur. split; [|done]. rewrite <-Hcur. unfold recv_count. simpl.
      by rewrite lookup_insert_ne by lia.
  - intros e Hle. by rewrite lookup_insert_ne by lia.
  - eexists _, _. rewrite lookup_insert_eq. done.
Qed.

(** Removing an epoch, or a send chain, loses keys but makes none wrong. *)
Lemma clear_old_epochs_run e st :
  ∃ st', clear_old_epochs e st = (Ok (), st') ∧ braid st' = braid st ∧ direction st' = direction st
    ∧ rk st' = rk st ∧ epoch st' = epoch st
    ∧ (∀ k, kdfchains st' !! k = if bool_decide (k = e - 2 ∧ 0 ≤ k) then None else kdfchains st !! k)
    ∧ (∀ k, mkskipped st' !! k = if bool_decide (k = e - 2 ∧ 0 ≤ k) then None else mkskipped st !! k).
Proof.
  unfold clear_old_epochs, checked_sub. destruct (Z.ltb_spec e 2).
  - exists st. split_and!; try done; intros k; rewrite bool_decide_eq_false_2 by lia; done.
  - eexists. split_and!; try done; intros k; simpl; case_bool_decide as Hk.
    + destruct Hk as [-> _]. apply lookup_delete_eq.
    + apply lookup_delete_ne. lia.
    + destruct Hk as [-> _]. apply lookup_delete_eq.
    + apply lookup_delete_ne. lia.
Qed.

Lemma clear_old_epochs_ok sk secrets e st st' r :
  keys_ok sk secrets st → clear_old_epochs e st = (r, st') → keys_ok sk secrets st'.
Proof.
  intros [He Hrk Hch Hsk] Hr.
  destruct (clear_old_epochs_run e st) as (st1 & Hr1 & _ & Hd & Hrk1 & He1 & Hk1 & Hs1).
  rewrite Hr in Hr1. simplify_eq. split; [congruence..| |].
  - intros k c. rewrite Hk1, Hd. case_bool_decide; [done|]. apply Hch.
  - intros k m mk. unfold skipped_key, recv_count. rewrite Hs1, Hk1, Hd.
    case_bool_decide; [done|]. apply Hsk.
Qed.

Lemma drop_previous_send_run e st :
  ∃ st', drop_previous_send e st = (Ok (), st') ∧ braid st' = braid st ∧ direction st' = direction st
    ∧ rk st' = rk st ∧ epoch st' = epoch st ∧ mkskipped st' = mkskipped st
    ∧ (∀ k, kdfchains st' !! k
            = if bool_decide (k = e - 1 ∧ 0 ≤ k) then set_send None <$> kdfchains st !! k
              else kdfchains st !! k).
Proof.
  unfold drop_previous_send, checked_sub. destruct (Z.ltb_spec e 1).
  - exists st. split_and!; try done; intros k; rewrite bool_decide_eq_false_2 by lia; done.
  - eexists. split_and!; try done; intros k; simpl; case_bool_decide as Hk.
    + destruct Hk as [-> _]. apply lookup_alter_eq.
    + apply lookup_alter_ne. lia.
Qed.

Lemma drop_previous_send_ok sk secrets e st st' r :
  keys_ok sk secrets st → drop_previous_send e st = (r, st') → keys_ok sk secrets st'.
Proof.
  intros [He Hrk Hch Hsk] Hr.
  destruct (drop_previous_send_run e st) as (st1 & Hr1 & _ & Hd & Hrk1 & He1 & Hs1 & Hk1).
  rewrite Hr in Hr1. simplify_eq. split; [congruence..| |].
  - intros k c. rewrite Hk1, Hd. case_bool_decide; [|apply Hch].
    intros (c0 & Hc & ->)%fmap_Some. by destruct (Hch _ _ Hc) as (?&?&?).
  - intros k m mk. unfold skipped_key, recv_count. rewrite Hs1, Hk1, Hd.
    intros Hm. destruct (Hsk _ _ _ Hm) as (-> & cur & Hcur & Hb). split; [done|].
    exists cur. split; [|done]. rewrite <-Hcur. unfold recv_count.
    case_bool_decide; [|done]. by destruct (kdfchains st !! k).
Qed.

(** The parts of the state other than the chains and the skipped keys. *)
Definition same_frame (st st' : SpqrState) : Prop :=
  braid st' = braid st ∧ direction st' = direction st ∧ rk st' = rk st ∧ epoch st' = epoch st.

Lemma same_frame_trans s1 s2 s3 : same_frame s1 s2 → same_frame s2 s3 → same_frame s1 s3.
Proof. unfold same_frame. intros (?&?&?&?) (?&?&?&?). split_and!; congruence. Qed.

Lemma advance_send_ok sk secrets st e c ch :
  keys_ok sk secrets st → kdfchains st !! e = Some c → send c = Some ch → n ch < u32_max →
  ∃ ch', advance_send e st = (Ok (n ch + 1, pq_key sk secrets (direction st) e (n ch + 1)),
                              set_kdfchains (alter (set_send (Some ch')) e (kdfchains st)) st)
         ∧ n ch' = n ch + 1
         ∧ keys_ok sk secrets (set_kdfchains (alter (set_send (Some ch')) e (kdfchains st)) st).
Proof.
  intros [He Hrk Hch Hsk] Hc Hs Hlt. destruct (Hch e c Hc) as (Hb & Hsend & Hrecv).
  pose proof (on_chain_advance _ _ (Hsend ch Hs) Hlt) as Ha.
  unfold advance_send. rewrite Hc, bind_Some_eq, Hs.
  destruct (scka_advance ch) as [out ch']. destruct Ha as (-> & Hon & Hn).
  exists ch'. split_and!; [done|done|]. split; simpl; try done.
  - intros k c'. destruct (decide (k = e)) as [->|]; [|rewrite lookup_alter_ne by done; apply Hch].
    rewrite lookup_alter_eq, Hc. simpl. intros [= <-]. split_and!; simpl; [lia..| |done].
    by intros ? [= <-].
  - intros k m mk Hm. destruct (Hsk k m mk Hm) as (-> & cur & Hcur & Hm'). split; [done|].
    exists cur. split; [|done]. rewrite <-Hcur. unfold recv_count. simpl.
    destruct (decide (k = e)) as [->|]; [|by rewrite lookup_alter_ne].
    by rewrite lookup_alter_eq, Hc.
Qed.

(** Moving a receive chain forward. *)
Definition put_recv (e : Z) (ch : SckaChain) (st : SpqrState) : SpqrState :=
  set_kdfchains (alter (set_recv (Some ch)) e (kdfchains st)) st.

Lemma put_recv_count e ch st k :
  recv_count (put_recv e ch st) k
  = if bool_decide (k = e ∧ is_Some (kdfchains st !! e)) then Some (n ch) else recv_count st k.
Proof.
  unfold recv_count, put_recv. simpl. destruct (decide (k = e)) as [->|].
  - rewrite lookup_alter_eq. destruct (kdfchains st !! e); simpl.
    + rewrite bool_decide_eq_true_2; [done|]. split; [done|eauto].
    + rewrite bool_decide_eq_false_2; [done|]. by intros [_ [??]].
  - rewrite lookup_alter_ne by done. rewrite bool_decide_eq_false_2; [done|]. tauto.
Qed.

Lemma put_recv_ok sk secrets st e c ch ch' :
  keys_ok sk secrets st → kdfchains st !! e = Some c → recv c = Some ch →
  on_chain (pq_chain_key sk secrets (opposite (direction st)) e) ch' → n ch ≤ n ch' →
  keys_ok sk secrets (put_recv e ch' st).
Proof.
  intros [He Hrk Hch Hsk] Hc Hr Hon Hn. split; try done.
  - intros k c'. unfold put_recv. simpl.
    destruct (decide (k = e)) as [->|]; [|rewrite lookup_alter_ne by done; apply Hch].
    rewrite lookup_alter_eq, Hc. simpl. intros [= <-].
    destruct (Hch e c Hc) as (Hb & Hsend & _). split_and!; simpl; [lia..|done|].
    by intros ? [= <-].
  - intros k m mk Hm. destruct (Hsk k m mk Hm) as (-> & cur & Hcur & Hm'). split; [done|].
    rewrite put_recv_count. case_bool_decide as Hk; [|eauto].
    destruct Hk as [-> _]. exists (n ch'). split; [done|].
    unfold recv_count in Hcur. rewrite Hc in Hcur. simpl in Hcur. rewrite Hr in Hcur.
    simplify_eq/=. lia.
Qed.

(** Storing the keys passed over. *)
Lemma set_mkskipped_ok sk secrets st e l cur :
  keys_ok sk secrets st → recv_count st e = Some cur →
  (∀ m mk, (m, mk) ∈ l → mk = pq_key sk secrets (opposite (direction st)) e m ∧ 1 ≤ m ≤ cur) →
  keys_ok sk secrets
    (set_mkskipped (<[e := insert_all l (default ∅ (mkskipped st !! e))]> (mkskipped st)) st).
Proof.
  intros [He Hrk Hch Hsk] Hcur Hl. split; try done.
  intros k m mk. unfold skipped_key. simpl.
  destruct (decide (k = e)) as [->|]; [|rewrite lookup_insert_ne by done; apply Hsk].
  rewrite lookup_insert_eq. simpl. intros [Hin|Hin]%insert_all_lookup.
  - destruct (Hl m mk Hin) as [-> ?]. split; [done|]. by exists cur.
  - apply Hsk. unfold skipped_key. by destruct (mkskipped st !! e).
Qed.

(** The list of keys the loop produces, as a set and as an update of a map. *)
Definition key_range (ck0 : ChainKey) (lo until : Z) : list (Z * MessageKey) :=
  (λ m, (m, key_at ck0 m)) <$> seqZ (lo + 1) (until - lo).

Lemma elem_of_key_range ck0 lo until m mk :
  (m, mk) ∈ key_range ck0 lo until ↔ lo < m ≤ until ∧ mk = key_at ck0 m.
Proof.
  unfold key_range. rewrite list_elem_of_fmap. split.
  - intros (m' & [= -> ->] & Hm). apply elem_of_seqZ in Hm. split; [lia|done].
  - intros [Hm ->]. exists m. split; [done|]. apply elem_of_seqZ. lia.
Qed.

Lemma key_range_nonempty ck0 lo until : lo < until → key_range ck0 lo until ≠ [].
Proof.
  intros Hlt E. assert ((until, key_at ck0 until) ∈ key_range ck0 lo until) as Hin
    by (apply elem_of_key_range; split; [lia|done]).
  rewrite E in Hin. by apply elem_of_nil in Hin.
Qed.

Lemma insert_key_range ck0 lo until inner m :
  insert_all (key_range ck0 lo until) inner !! m
  = if bool_decide (lo < m ≤ until) then Some (key_at ck0 m) else inner !! m.
Proof.
  assert (m ∈ (key_range ck0 lo until).*1 ↔ lo < m ≤ until) as Hdom.
  { rewrite list_elem_of_fmap. split.
    - intros ([m' mk] & -> & Hin%elem_of_key_range). apply Hin.
    - intros Hm. exists (m, key_at ck0 m). split; [done|]. by apply elem_of_key_range. }
  case_bool_decide as Hm; [|apply insert_all_other; tauto].
  destruct (insert_all _ inner !! m) as [mk|] eqn:E; [|apply insert_all_None in E; tauto].
  destruct (decide (key_at ck0 m = mk)) as [->|Hne]; [done|].
  rewrite (insert_all_spec _ _ m (key_at ck0 m)) in E; [done| |by apply elem_of_key_range].
  intros mk' [_ ->]%elem_of_key_range. done.
Qed.

Lemma skip_message_keys_ok sk secrets st e until c ch :
  keys_ok sk secrets st → kdfchains st !! e = Some c → recv c = Some ch → until ≤ u32_max →
  (add_u32 (n ch) MAX_SKIP < until
   ∧ skip_message_keys e until st = (Err (MaxSkipExceeded (sub_u32 until (n ch)) MAX_SKIP), st))
  ∨ (until ≤ add_u32 (n ch) MAX_SKIP
     ∧ ∃ st', skip_message_keys e until st = (Ok (), st') ∧ keys_ok sk secrets st' ∧ same_frame st st'
        ∧ (∀ k, recv_count st' k = if bool_decide (k = e) then Some (Z.max (n ch) until) else recv_count st k)
        ∧ (∀ k m, skipped_key st' k m
             = if bool_decide (k = e ∧ n ch < m ≤ until)
               then Some (pq_key sk secrets (opposite (direction st)) e m) else skipped_key st k m)).
Proof.
  intros Hok Hc Hr Hu. unfold skip_message_keys. rewrite Hc, bind_Some_eq, Hr.
  case_bool_decide as Hskip; [by left|]. right. split; [lia|].
  destruct (ko_chains _ _ _ Hok e c Hc) as (_ & _ & Hon). specialize (Hon ch Hr).
  destruct (decide (until ≤ n ch)) as [Hle|Hgt].
  - rewrite skip_loop_none by done. fold (put_recv e ch st).
    exists (put_recv e ch st). split_and!; [done|by eapply put_recv_ok|done..| |].
    + intros k. rewrite put_recv_count, Z.max_l, Hc by lia. do 2 case_bool_decide; try tauto.
      exfalso. eauto.
    + intros k m. by rewrite bool_decide_eq_false_2 by lia.
  - destruct (skip_loop_spec _ ch until [] Hon ltac:(lia)) as (ch' & -> & Hon' & Hn').
    rewrite app_nil_l. fold (key_range (pq_chain_key sk secrets (opposite (direction st)) e) (n ch) until).
    fold (put_recv e ch' st).
    destruct (key_range _ _ _) eqn:El; [by apply key_range_nonempty in El; [|lia]|].
    rewrite <-El. clear El. eexists. split_and!; [done| |done..| |].
    + eapply set_mkskipped_ok; [eapply put_recv_ok; [done..|lia]| |].
      { rewrite put_recv_count, bool_decide_eq_true_2 by (split; [done|by rewrite Hc]). done. }
      intros m mk [Hm ->]%elem_of_key_range. destruct Hon as [Hb _]. split; [done|lia].
    + intros k. rewrite Z.max_r, <-Hn' by lia. transitivity (recv_count (put_recv e ch' st) k); [done|].
      rewrite put_recv_count, Hc. do 2 case_bool_decide; try tauto. exfalso. eauto.
    + intros k m. unfold skipped_key at 1. simpl. destruct (decide (k = e)) as [->|].
      * rewrite lookup_insert_eq, bind_Some_eq, insert_key_range.
        do 2 case_bool_decide; try tauto. unfold skipped_key. by destruct (mkskipped st !! e).
      * rewrite lookup_insert_ne by done. by rewrite bool_decide_eq_false_2 by tauto.
Qed.

Lemma try_skipped_none st e m : skipped_key st e m = None → try_skipped e m st = (Ok None, st).
Proof.
  unfold skipped_key, try_skipped. intros E. destruct (mkskipped st !! e) as [inner|]; [|done].
  rewrite bind_Some_eq in E. by rewrite E.
Qed.

Lemma try_skipped_ok sk secrets st e m :
  keys_ok sk secrets st →
  ∃ st', try_skipped e m st = (Ok (skipped_key st e m), st') ∧ keys_ok sk secrets st' ∧ same_frame st st'
    ∧ kdfchains st' = kdfchains st
    ∧ ∀ k j, skipped_key st' k j = if bool_decide (k = e ∧ j = m) then None else skipped_key st k j.
Proof.
  intros Hok. destruct (skipped_key st e m) as [mk|] eqn:E.
  2:{ exists st. split_and!; try done.
      - by apply try_skipped_none.
      - intros k j. case_bool_decide as Hk; [|done]. by destruct Hk as [-> ->]. }
  unfold skipped_key in E. apply bind_Some in E as (inner & Ei & Em).
  unfold try_skipped. rewrite Ei, Em.
  eexists. split; [done|]. set (st' := set_mkskipped _ st).
  assert (∀ k j, skipped_key st' k j = if bool_decide (k = e ∧ j = m) then None else skipped_key st k j) as Hsk.
  { intros k j. unfold skipped_key, st'. simpl. destruct (decide (k = e)) as [->|Hk].
    - rewrite Ei, bind_Some_eq. case_bool_decide as Hd.
      + rewrite lookup_delete_eq. simpl. case_bool_decide as Hj; [done|].
        rewrite <-(lookup_delete_ne inner m j), Hd by (intros ->; tauto). by rewrite lookup_empty.
      + rewrite lookup_insert_eq, bind_Some_eq. case_bool_decide as Hj.
        * destruct Hj as [_ ->]. apply lookup_delete_eq.
        * apply lookup_delete_ne. intros ->. tauto.
    - rewrite (bool_decide_eq_false_2 (k = e ∧ j = m)) by tauto.
      case_bool_decide; [by rewrite lookup_delete_ne|by rewrite lookup_insert_ne]. }
  split_and!; try done. destruct Hok as [He Hrk Hch Hks]. split; try done.
  intros k j mk'. rewrite Hsk. case_bool_decide; [done|]. apply Hks.
Qed.

Lemma advance_recv_ok sk secrets st e cur :
  keys_ok sk secrets st → recv_count st e = Some cur → cur < u32_max →
  ∃ st', advance_recv e st = (Ok (cur + 1, pq_key sk secrets (opposite (direction st)) e (cur + 1)), st')
    ∧ keys_ok sk secrets st' ∧ same_frame st st'
    ∧ (∀ k, recv_count st' k = if bool_decide (k = e) then Some (cur + 1) else recv_count st k)
    ∧ (∀ k j, skipped_key st' k j = skipped_key st k j).
Proof.
  intros Hok Hcur Hlt. unfold recv_count in Hcur.
  destruct (kdfchains st !! e) as [c|] eqn:Hc; [|done]. simpl in Hcur.
  destruct (recv c) as [ch|] eqn:Hr; [|done]. injection Hcur as <-.
  destruct (ko_chains _ _ _ Hok e c Hc) as (_ & _ & Hon). specialize (Hon ch Hr).
  pose proof (on_chain_advance _ _ Hon Hlt) as Ha.
  unfold advance_recv. rewrite Hc, bind_Some_eq, Hr.
  destruct (scka_advance ch) as [out ch']. destruct Ha as (-> & Hon' & Hn').
  fold (put_recv e ch' st). exists (put_recv e ch' st).
  split_and!; [done|eapply put_recv_ok; [done..|lia]|done..| |done].
  intros k. rewrite put_recv_count, Hc, Hn'. do 2 case_bool_decide; try tauto. exfalso. eauto.
Qed.

Lemma recv_count_Some st e cur :
  recv_count st e = Some cur ↔ ∃ c ch, kdfchains st !! e = Some c ∧ recv c = Some ch ∧ n ch = cur.
Proof.
  unfold recv_count. split.
  - intros (ch & (c & Hc & Hr)%bind_Some & ->)%fmap_Some. by exists c, ch.
  - intros (c & ch & -> & Hr & <-). rewrite bind_Some_eq, Hr. done.
Qed.

(** What [derive_receive_key] answers, on every branch. *)
Definition receive_answer (sk : bytes) (secrets : list bytes) (st : SpqrState) (e pq_n : Z)
    : result MessageKey :=
  match skipped_key st e pq_n, recv_count st e with
  | Some mk, _ => Ok mk
  | None, None => Err (no_recv_chain e)
  | None, Some cur =>
      if bool_decide (pq_n ≤ cur) then Err (replay_err e pq_n cur)
      else if bool_decide (add_u32 cur MAX_SKIP < pq_n - 1)
      then Err (MaxSkipExceeded (sub_u32 (pq_n - 1) cur) MAX_SKIP)
      else Ok (pq_key sk secrets (opposite (direction st)) e pq_n)
  end.

(** A key handed out on the receiving side is the scheduled one. *)
Lemma receive_answer_key sk secrets st e pq_n mk :
  keys_ok sk secrets st → receive_answer sk secrets st e pq_n = Ok mk →
  mk = pq_key sk secrets (opposite (direction st)) e pq_n.
Proof.
  intros Hok. unfold receive_answer. destruct (skipped_key st e pq_n) as [mk'|] eqn:E.
  - intros [= <-]. by apply (ko_skipped _ _ _ Hok).
  - destruct (recv_count st e); [|done]. repeat case_bool_decide; by intros [= <-].
Qed.

(** A message whose key can no longer be handed out. *)
Definition spent (st : SpqrState) (e m : Z) : Prop :=
  e ≤ epoch st ∧ skipped_key st e m = None ∧ ∀ cur, recv_count st e = Some cur → m ≤ cur.

Lemma spent_answer sk secrets st e m : spent st e m → is_ok (receive_answer sk secrets st e m) = false.
Proof.
  intros (_ & Hs & Hc). unfold receive_answer. rewrite Hs. destruct (recv_count st e) as [cur|]; [|done].
  by rewrite bool_decide_eq_true_2 by (by apply Hc).
Qed.

(** A message whose key can still be handed out, and what a receipt does to the others:
    it keeps them, moves no chain past the message and only the chain of its epoch. *)
Definition pending (st : SpqrState) (e m : Z) : Prop :=
  is_Some (skipped_key st e m) ∨ ∃ cur, recv_count st e = Some cur ∧ cur < m.

Definition recv_bounded (b : Z) (st : SpqrState) : Prop := ∀ e cur, recv_count st e = Some cur → cur ≤ b.

Definition receives (e m : Z) (st st' : SpqrState) : Prop :=
  (∀ k j, (k, j) ≠ (e, m) → pending st k j → pending st' k j)
  ∧ (∀ b, m ≤ b → recv_bounded b st → recv_bounded b st')
  ∧ (∀ k, k ≠ e → recv_count st' k = recv_count st k)
  ∧ (∀ cur', recv_count st' e = Some cur' → ∃ cur, recv_count st e = Some cur ∧ cur ≤ cur' ≤ Z.max cur m).

Lemma receives_refl e m st : receives e m st st.
Proof. split_and!; [done..|]. intros cur Hc. exists cur. split; [done|lia]. Qed.

Lemma pending_answer sk secrets st e m :
  keys_ok sk secrets st → pending st e m → recv_bounded (u32_max - MAX_SKIP) st →
  (∀ cur, recv_count st e = Some cur → m - 1 ≤ cur + MAX_SKIP) →
  receive_answer sk secrets st e m = Ok (pq_key sk secrets (opposite (direction st)) e m).
Proof.
  intros Hok Hp Hb Hgap. unfold receive_answer. destruct (skipped_key st e m) as [mk|] eqn:E.
  { f_equal. by apply (ko_skipped _ _ _ Hok). }
  destruct Hp as [[? ?]|(cur & Hcur & Hlt)]; [congruence|]. rewrite Hcur.
  specialize (Hb e cur Hcur). specialize (Hgap cur Hcur).
  assert (0 ≤ cur) as Hcur0.
  { apply recv_count_Some in Hcur as (c & ch & Hc & Hr & <-).
    destruct (ko_chains _ _ _ Hok e c Hc) as (_ & _ & Hon). destruct (Hon ch Hr); lia. }
  rewrite bool_decide_eq_false_2 by lia. rewrite add_u32_small by (unfold MAX_SKIP in *; lia).
  by rewrite bool_decide_eq_false_2 by lia.
Qed.

Definition keeps_spent (st st' : SpqrState) : Prop := ∀ e m, spent st e m → spent st' e m.

Lemma recv_count_epoch sk secrets st e cur :
  keys_ok sk secrets st → recv_count st e = Some cur → e ≤ epoch st ∧ 0 ≤ cur ≤ u32_max.
Proof.
  intros Hok (c & ch & Hc & Hr & <-)%recv_count_Some.
  destruct (ko_chains _ _ _ Hok e c Hc) as (Hb & _ & Hon). rewrite (ko_epoch _ _ _ Hok).
  destruct (Hon ch Hr) as [? _]. lia.
Qed.

Lemma keeps_spent_refl st : keeps_spent st st.
Proof. by intros e m. Qed.

Lemma keeps_spent_trans s1 s2 s3 : keeps_spent s1 s2 → keeps_spent s2 s3 → keeps_spent s1 s3.
Proof. intros Ha Hb e m Hs. by apply Hb, Ha. Qed.

#[local] Hint Resolve keeps_spent_refl receives_refl : core.

Lemma advance_to_none st e pq_n : recv_count st e = None → advance_to e pq_n st = (Err (no_recv_chain e), st).
Proof.
  unfold recv_count. intros Hn%fmap_None. unfold advance_to.
  rewrite (m_bind_run _ _ _ () st) by (unfold replay_guard; by rewrite Hn).
  rewrite (m_bind_run _ _ _ () st) by (unfold skip_message_keys; by rewrite Hn).
  rewrite (m_bind_err _ _ _ (no_recv_chain e) st); [done|]. unfold advance_recv. by rewrite Hn.
Qed.

Lemma advance_to_ok sk secrets st e pq_n cur :
  keys_ok sk secrets st → 0 ≤ pq_n ≤ u32_max → skipped_key st e pq_n = None → recv_count st e = Some cur →
  ∃ st', advance_to e pq_n st = (receive_answer sk secrets st e pq_n, st')
    ∧ keys_ok sk secrets st' ∧ same_frame st st' ∧ keeps_spent st st'
    ∧ (is_ok (receive_answer sk secrets st e pq_n) = true → spent st' e pq_n)
    ∧ receives e pq_n st st'.
Proof.
  intros Hok Hn Hnone Hcur. unfold receive_answer. rewrite Hnone, Hcur.
  destruct (recv_count_epoch _ _ _ _ _ Hok Hcur) as [Hle Hrange].
  pose proof Hcur as (c & ch & Hc & Hr & <-)%recv_count_Some. unfold advance_to.
  assert (replay_guard e pq_n st =
    (if bool_decide (pq_n ≤ n ch) then Err (replay_err e pq_n (n ch)) else Ok (), st)) as Hg.
  { unfold replay_guard. fold (recv_count st e). rewrite Hcur. by case_bool_decide. }
  case_bool_decide as Hrep; [rewrite (m_bind_err _ _ _ _ _ Hg); by exists st|].
  rewrite (m_bind_run _ _ _ _ _ Hg). unfold sat_sub. rewrite Z.max_r by lia.
  destruct (skip_message_keys_ok sk secrets st e (pq_n - 1) c ch Hok Hc Hr ltac:(lia))
    as [[Hmax Hs]|(Hmax & s1 & Hs & Hok1 & Hf1 & Hr1 & Hs1)].
  { rewrite (m_bind_err _ _ _ _ _ Hs), bool_decide_eq_true_2 by done. by exists st. }
  rewrite (m_bind_run _ _ _ _ _ Hs), bool_decide_eq_false_2 by lia.
  assert (recv_count s1 e = Some (pq_n - 1)) as Hcur1
    by (rewrite Hr1, bool_decide_eq_true_2, Z.max_r by (done || lia); done).
  destruct (advance_recv_ok sk secrets s1 e (pq_n - 1) Hok1 Hcur1 ltac:(lia))
    as (s2 & Ha & Hok2 & Hf2 & Hr2 & Hs2).
  rewrite (m_bind_run _ _ _ _ _ Ha). replace (pq_n - 1 + 1) with pq_n in * by lia.
  simpl. rewrite bool_decide_eq_false_2 by tauto.
  assert (direction s1 = direction st) as Hd by apply Hf1. rewrite Hd.
  pose proof (same_frame_trans _ _ _ Hf1 Hf2) as Hf. assert (epoch s2 = epoch st) as He by apply Hf.
  exists s2. split; [done|]. split; [done|]. split; [done|]. split_and!.
  - intros k m (Hke & Hks & Hkc). split_and!; [lia| |].
    + rewrite Hs2, Hs1. case_bool_decide as Hkm; [|done]. destruct Hkm as [-> Hm].
      specialize (Hkc _ Hcur). lia.
    + intros c'. rewrite Hr2, Hr1. repeat case_bool_decide; [|apply Hkc].
      intros [= <-]. subst. specialize (Hkc _ Hcur). lia.
  - intros _. split_and!; [lia| |].
    + by rewrite Hs2, Hs1, bool_decide_eq_false_2 by lia.
    + intros c'. rewrite Hr2, bool_decide_eq_true_2 by done. intros [= <-]. lia.
  - split_and!.
    + intros k j Hne Hp. unfold pending. rewrite Hs2, Hs1, Hr2, Hr1.
      destruct (decide (k = e)) as [->|Hk].
      2:{ by rewrite !(bool_decide_eq_false_2 (k = e)), bool_decide_eq_false_2 by tauto. }
      rewrite !(bool_decide_eq_true_2 (e = e)) by done. case_bool_decide as Hj; [left; eauto|].
      destruct Hp as [?|(cur & Hcur' & Hlt)]; [by left|right]. rewrite Hcur in Hcur'. injection Hcur' as <-.
      exists pq_n. split; [done|]. assert (j ≠ pq_n) by congruence. lia.
    + intros b Hb Hbd k c'. rewrite Hr2, Hr1. repeat case_bool_decide; [|apply Hbd]. intros [= <-]. lia.
    + intros k Hk. by rewrite Hr2, Hr1, !bool_decide_eq_false_2.
    + intros c'. rewrite Hr2, bool_decide_eq_true_2 by done. intros [= <-]. exists (n ch). split; [done|lia].
Qed.

Lemma derive_receive_key_ok sk secrets st e pq_n :
  keys_ok sk secrets st → 0 ≤ pq_n ≤ u32_max →
  ∃ st', derive_receive_key e pq_n st = (receive_answer sk secrets st e pq_n, st')
    ∧ keys_ok sk secrets st' ∧ same_frame st st' ∧ keeps_spent st st'
    ∧ (is_ok (receive_answer sk secrets st e pq_n) = true → spent st' e pq_n)
    ∧ receives e pq_n st st'.
Proof.
  intros Hok Hn. unfold derive_receive_key.
  destruct (skipped_key st e pq_n) as [mk|] eqn:Emk.
  - destruct (try_skipped_ok sk secrets st e pq_n Hok) as (s1 & Ht & Hok1 & Hf1 & Hc1 & Hs1).
    assert (∀ k, recv_count s1 k = recv_count st k) as Hr1 by (intros k; unfold recv_count; by rewrite Hc1).
    assert (epoch s1 = epoch st) as He1 by apply Hf1.
    rewrite (m_bind_run _ _ _ _ _ Ht). unfold receive_answer. rewrite Emk.
    destruct (ko_skipped _ _ _ Hok e pq_n mk Emk) as (_ & cur & Hcur & Hb).
    exists s1. split_and!; try done.
    + intros k m (Hle & Hsk & Hkc). split; [lia|]. rewrite Hs1, Hr1. by case_bool_decide.
    + intros _. split_and!.
      * rewrite He1. by apply (recv_count_epoch sk secrets st e cur).
      * by rewrite Hs1, bool_decide_eq_true_2.
      * rewrite Hr1, Hcur. intros ? [= <-]. lia.
    + split_and!; [|intros b _ Hbd k c'; rewrite Hr1; apply Hbd|by intros k _|].
      2:{ intros c'. rewrite Hr1. intros Hc'. exists c'. split; [done|lia]. }
      intros k j Hne. unfold pending. rewrite Hs1, Hr1. case_bool_decide as Hk; [|done].
      destruct Hk as [-> ->]. done.
  - assert (try_skipped e pq_n st = (Ok None, st)) as Ht by by apply try_skipped_none.
    rewrite (m_bind_run _ _ _ _ _ Ht). destruct (recv_count st e) as [cur|] eqn:Ecur.
    + by apply (advance_to_ok _ _ _ _ _ cur).
    + rewrite advance_to_none by done. unfold receive_answer. rewrite Emk, Ecur. by exists st.
Qed.

End keys.

(** ** Together with the braid *)

(** The secrets a braid call adds to the schedule. *)
Definition new_secrets (k : option EpochSecret) : list bytes := es_secret <$> option_list k.

Definition has_send (st : SpqrState) (e : Z) : Prop :=
  ∃ c ch, kdfchains st !! e = Some c ∧ send c = Some ch.

(** The counter of the send chain of an epoch. *)
Definition send_count (st : SpqrState) (e : Z) : option Z := n <$> (kdfchains st !! e ≫= send).

Section ops.
Context `{Hashes} `{ReedSolomon} `{IncKem}.

Record spqr_inv (sk : bytes) (secrets : list bytes) (st : SpqrState) : Prop := {
  si_keys : keys_ok sk secrets st;
  si_live : live (state (braid st));
  si_emitted : emitted_upto (state (braid st)) = epoch st;
  si_pos : 1 ≤ state_epoch (state (braid st));
  si_send e : state_epoch (state (braid st)) - 1 ≤ e ≤ epoch st → has_send st e;
}.

Lemma emitted_ge s : state_epoch s - 1 ≤ emitted_upto s ≤ state_epoch s.
Proof. destruct s; simpl; lia. Qed.

Lemma spqr_inv_init ss d : spqr_inv (braid_auth_seed ss) [] (spqr_init ss d).
Proof.
  assert (epoch (spqr_init ss d) = 0) as He by (by destruct d).
  split; [apply keys_ok_init|by destruct d..|].
  intros e. rewrite He. assert (state_epoch (state (braid (spqr_init ss d))) = 1) as -> by (by destruct d).
  intros Hb. assert (e = 0) as -> by lia.
  unfold spqr_init. destruct (assign d _ _) as [send_ck recv_ck]. eexists _, _. simpl.
  by rewrite lookup_singleton_eq.
Qed.

Lemma has_send_count st e m : send_count st e = Some m → has_send st e.
Proof.
  unfold send_count. intros (ch & (c & Hc & Hs)%bind_Some & _)%fmap_Some. by exists c, ch.
Qed.

Lemma incorporate_ok sk secrets st b' k :
  spqr_inv sk secrets st → emits_next (state (braid st)) (state b') k → epoch st < u64_max →
  ∃ st1, incorporate k (set_braid b' st) = (Ok (), st1)
    ∧ keys_ok sk (secrets ++ new_secrets k) st1 ∧ braid st1 = b' ∧ direction st1 = direction st
    ∧ epoch st1 = emitted_upto (state b') ∧ keeps_spent st st1
    ∧ (∀ e, e ≤ epoch st → kdfchains st1 !! e = kdfchains st !! e)
    ∧ (∀ e m, send_count st1 e = Some m → send_count st e = Some m ∨ m = 0)
    ∧ (∀ e, state_epoch (state (braid st)) - 1 ≤ e ≤ epoch st1 → has_send st1 e).
Proof.
  intros [Hok Hl Hem Hpos Hsend] Hnext Hmax.
  destruct k as [es|]; simpl in Hnext; unfold incorporate, new_secrets; simpl.
  - destruct Hnext as [He1 He2]. rewrite Hem in He1. rewrite He1.
    destruct (add_epoch_ok sk secrets (set_braid b' st) (es_secret es)) as
      (st1 & Ha & Hok1 & Hb1 & Hd1 & Hc1 & Hs1 & Hep1 & Hnew); [by apply keys_ok_set_braid|done|].
    simpl in *. exists st1. split_and!; try done; try lia.
    + intros e m (Hle & Hsk & Hcur). split_and!; [lia| |].
      * unfold skipped_key. by rewrite Hs1.
      * unfold recv_count. by rewrite Hc1.
    + intros e m Hm. destruct (decide (e ≤ epoch st)) as [Hle|Hgt].
      { left. unfold send_count in *. by rewrite <-Hc1. }
      right. destruct Hnew as (c & ch & Hc & Hch & Hn0).
      assert (e = epoch st + 1) as ->.
      { apply has_send_count in Hm as (c' & ch' & Hc' & _).
        destruct (ko_chains _ _ _ Hok1 e c' Hc') as [Hb _]. rewrite <-(ko_epoch _ _ _ Hok1) in Hb. lia. }
      unfold send_count in Hm. rewrite Hc, bind_Some_eq, Hch in Hm. by simplify_eq/=.
    + intros e He. destruct (decide (e = epoch st + 1)) as [->|].
      * destruct Hnew as (c & ch & ? & ? & _). by exists c, ch.
      * unfold has_send. rewrite Hc1 by lia. apply Hsend. lia.
  - exists (set_braid b' st). rewrite app_nil_r. split_and!; try done.
    + by apply keys_ok_set_braid.
    + simpl. by rewrite Hnext.
    + by intros e m.
    + intros e m Hm. by left.
Qed.

(** Pruning on the sending path never touches the chains still needed. *)
Lemma prune_ok sk secrets st (k : option EpochSecret) se :
  keys_ok sk secrets st →
  ∃ st1, (∀ B (f : M SpqrState CryptoError B),
            (match k with Some _ => clear_old_epochs se | None => mret () end ≫= λ _,
             drop_previous_send se ≫= λ _, f) st = f st1)
    ∧ keys_ok sk secrets st1 ∧ same_frame st st1 ∧ keeps_spent st st1
    ∧ (∀ e, se ≤ e → kdfchains st1 !! e = kdfchains st !! e).
Proof.
  intros Hok.
  assert (∃ s1, (match k with Some _ => clear_old_epochs se | None => mret () end) st = (Ok (), s1)
    ∧ keys_ok sk secrets s1 ∧ same_frame st s1 ∧ keeps_spent st s1
    ∧ (∀ e, se ≤ e → kdfchains s1 !! e = kdfchains st !! e)) as (s1 & Hr1 & Hok1 & Hf1 & Hk1 & Hc1).
  { destruct k as [es|]; [|exists st; split_and!; try done; apply keeps_spent_refl].
    destruct (clear_old_epochs_run se st) as (s1 & Hr & Hb & Hd & Hrk & He & Hc & Hs).
    exists s1. split_and!; [done|by eapply clear_old_epochs_ok|done..| |].
    - intros e m (Hle & Hsk & Hcur). unfold spent, skipped_key, recv_count. rewrite He, Hc, Hs.
      case_bool_decide; [by split_and!|]. done.
    - intros e Hle. by rewrite Hc, bool_decide_eq_false_2 by lia. }
  destruct (drop_previous_send_run se s1) as (s2 & Hr & Hb & Hd & Hrk & He & Hs & Hc).
  exists s2. split_and!; [intros B f; by rewrite (m_bind_run _ _ _ _ _ Hr1), (m_bind_run _ _ _ _ _ Hr)|by eapply drop_previous_send_ok| | |].
  - eapply same_frame_trans; [done|]. by split_and!.
  - eapply keeps_spent_trans; [done|]. intros e m (Hle & Hsk & Hcur).
    unfold spent, skipped_key, recv_count. rewrite He, Hs, Hc. split_and!; [done..|].
    case_bool_decide; [|done]. unfold recv_count in Hcur. by destruct (kdfchains s1 !! e).
  - intros e Hle. rewrite Hc, bool_decide_eq_false_2 by lia. by apply Hc1.
Qed.

(** Deriving a receive key leaves the send chains alone. *)
Definition same_sends (s s' : SpqrState) : Prop :=
  ∀ k, kdfchains s' !! k ≫= send = kdfchains s !! k ≫= send.

#[local] Instance same_sends_refl : Reflexive same_sends.
Proof. by intros s k. Qed.
#[local] Instance same_sends_trans : Transitive same_sends.
Proof. intros s1 s2 s3 Ha Hb k. by rewrite Hb. Qed.

Lemma put_recv_sends e ch s : same_sends s (put_recv e ch s).
Proof.
  intros k. unfold put_recv. simpl. destruct (decide (k = e)) as [->|]; [|by rewrite lookup_alter_ne].
  rewrite lookup_alter_eq. by destruct (kdfchains s !! e).
Qed.

Lemma derive_receive_key_sends e pq_n : m_rel same_sends (derive_receive_key e pq_n).
Proof.
  apply m_rel_bind; [apply _|by intros s; unfold try_skipped; repeat case_match|].
  intros [mk|]; [by apply m_rel_ret, _|].
  apply m_rel_bind; [apply _|intros s; unfold replay_guard; by repeat case_match|intros _].
  apply m_rel_bind; [apply _| |intros _].
  { intros s. unfold skip_message_keys. destruct (kdfchains s !! e ≫= recv) as [ch|]; [|done].
    case_bool_decide; [done|]. destruct (skip_loop _ _ _ _) as [l ch'].
    destruct l; apply (put_recv_sends e ch' s). }
  apply m_rel_bind; [apply _| |].
  { intros s. unfold advance_recv. destruct (kdfchains s !! e ≫= recv) as [ch|]; [|done].
    destruct (scka_advance ch) as [out ch']. apply put_recv_sends. }
  intros [m mk]. case_bool_decide; [by apply m_rel_throw, _|by apply m_rel_ret, _].
Qed.

Lemma set_braid_self st : set_braid (braid st) st = st.
Proof. by destruct st. Qed.

(** Sending: the key handed out is the scheduled key of the next counter of the sending
    epoch; the only error is the braid's, and it changes nothing. *)
Lemma ratchet_send_key_ok sk secrets st rng :
  spqr_inv sk secrets st → state_epoch (state (braid st)) < u64_max →
  let se := state_epoch (state (braid st)) - 1 in
  (∀ m, send_count st se = Some m → m < u32_max) →
  match braid_send rng (braid st) with
  | (Err e, _) => ratchet_send_key rng st = (Err e, st)
  | (Ok out, b') =>
      let secrets' := secrets ++ new_secrets (ss_output_key out) in
      ∃ m st', send_count st se = Some m
        ∧ ratchet_send_key rng st = (Ok (ss_msg out, m + 1, pq_key sk secrets' (direction st) se (m + 1)), st')
        ∧ spqr_inv sk secrets' st' ∧ braid st' = b' ∧ direction st' = direction st
        ∧ keeps_spent st st'
        ∧ (∀ e j, se ≤ e → send_count st' e = Some j → e = se ∧ j = m + 1 ∨ send_count st e = Some j ∨ j = 0)
        ∧ send_count st' se = Some (m + 1)
  end.
Proof.
  intros Hinv Hmax se Hcnt. pose proof (emitted_ge (state (braid st))) as Hge.
  pose proof Hinv as [Hok Hl Hem Hpos Hsend].
  unfold ratchet_send_key. destruct (braid_send rng (braid st)) as [[out|err] b'] eqn:Eb.
  2:{ assert (m_zoom braid set_braid (braid_send rng) st = (Err err, st)) as Hz.
      { unfold m_zoom. rewrite Eb. rewrite braid_send_run in Eb.
        destruct (state_send _ _) as [[[s1 m1] k1]|]; [done|]. simplify_eq. by rewrite set_braid_self. }
      by rewrite (m_bind_err _ _ _ _ _ Hz). }
  assert (m_zoom braid set_braid (braid_send rng) st = (Ok out, set_braid b' st)) as Hz
    by (unfold m_zoom; by rewrite Eb).
  rewrite (m_bind_run _ _ _ _ _ Hz). rewrite braid_send_run in Eb.
  destruct (state_send _ _) as [[[s1 msg1] k1]|] eqn:Es; [|done]. simplify_eq. simpl.
  apply state_send_spec in Es as (Hl1 & He1 & Hm1 & Hnext).
  destruct (incorporate_ok sk secrets st (mk_braid s1) k1 Hinv Hnext ltac:(lia)) as
    (st1 & Hi & Hok1 & Hb1 & Hd1 & Hep1 & Hk1 & Hc1 & Hsc1 & Hs1).
  rewrite (m_bind_run _ _ _ _ _ Hi). unfold sat_sub. rewrite Z.max_r, He1 by lia. fold se.
  destruct (prune_ok sk _ st1 k1 se Hok1) as (st2 & Hp & Hok2 & Hf2 & Hk2 & Hc2).
  rewrite Hp.
  destruct (Hsend se ltac:(lia)) as (c & ch & Hc & Hch).
  assert (kdfchains st2 !! se = Some c) as Hc2se by (rewrite Hc2, Hc1 by lia; done).
  assert (send_count st se = Some (n ch)) as Hm
    by (unfold send_count; rewrite Hc, bind_Some_eq, Hch; done).
  destruct (advance_send_ok sk _ st2 se c ch Hok2 Hc2se Hch (Hcnt _ Hm)) as (ch' & Ha & Hn' & Hok3).
  rewrite (m_bind_run _ _ _ _ _ Ha). simpl.
  destruct Hf2 as (Hfb & Hfd & Hfr & Hfe).
  exists (n ch). eexists. split_and!; [done|by rewrite Hfd, Hd1| |simpl; congruence|simpl; congruence| | |].
  - split; simpl; [done|by rewrite Hfb, Hb1|by rewrite Hfb, Hb1, Hfe|by rewrite Hfb, Hb1; simpl; lia|].
    rewrite Hfb, Hb1, Hfe. simpl. intros e Hle. unfold has_send. simpl.
    destruct (decide (e = se)) as [->|]; [rewrite lookup_alter_eq, Hc2se; by eexists _, _|].
    rewrite lookup_alter_ne, Hc2 by (done || lia). apply Hs1. lia.
  - eapply keeps_spent_trans; [exact Hk1|]. eapply keeps_spent_trans; [exact Hk2|].
    intros e m (Hle & Hsk & Hcur). split_and!; [done..|]. unfold recv_count. simpl.
    destruct (decide (e = se)) as [->|]; [|by rewrite lookup_alter_ne].
    rewrite lookup_alter_eq. unfold recv_count in Hcur. by destruct (kdfchains st2 !! se).
  - intros e j Hle Hj. unfold send_count in Hj. simpl in Hj. destruct (decide (e = se)) as [->|].
    + rewrite lookup_alter_eq, Hc2se in Hj. simplify_eq/=. left. lia.
    + rewrite lookup_alter_ne, Hc2 in Hj by (done || lia). right. by apply Hsc1.
  - unfold send_count. simpl. rewrite lookup_alter_eq, Hc2se. simpl. by rewrite Hn'.
Qed.

(** Receiving: whatever the counter, the answer is that of the schedule
    ([receive_answer]) in the state that has incorporated the braid's secret; the
    counter-mismatch and non-consecutive-epoch errors do not occur. *)
Lemma ratchet_receive_key_ok sk secrets st msg pq_n :
  spqr_inv sk secrets st → state_epoch (state (braid st)) < u64_max → 0 ≤ pq_n ≤ u32_max →
  match braid_receive msg (braid st) with
  | (Err e, _) => ratchet_receive_key msg pq_n st = (Err e, st)
  | (Ok out, b') =>
      let secrets' := secrets ++ new_secrets (sr_output_key out) in
      let st1 := (incorporate (sr_output_key out) (set_braid b' st)).2 in
      let answer := receive_answer sk secrets' st1 (receiving_epoch out) pq_n in
      ∃ st', ratchet_receive_key msg pq_n st = (answer, st')
        ∧ spqr_inv sk secrets' st' ∧ braid st' = b' ∧ direction st' = direction st
        ∧ keeps_spent st st'
        ∧ (is_ok answer = true → ¬ spent st (receiving_epoch out) pq_n ∧ spent st' (receiving_epoch out) pq_n)
        ∧ (∀ e j, send_count st' e = Some j → send_count st e = Some j ∨ j = 0)
        ∧ receives (receiving_epoch out) pq_n st1 st'
  end.
Proof.
  intros Hinv Hmax Hn. pose proof (emitted_ge (state (braid st))) as Hge.
  pose proof Hinv as [Hok Hl Hem Hpos Hsend].
  unfold ratchet_receive_key. destruct (braid_receive msg (braid st)) as [[out|err] b'] eqn:Eb.
  2:{ assert (m_zoom braid set_braid (braid_receive msg) st = (Err err, st)) as Hz.
      { unfold m_zoom. rewrite Eb. rewrite braid_receive_run in Eb.
        destruct (state_receive _ _) as [[s1 k1]|]; [done|]. simplify_eq. by rewrite set_braid_self. }
      by rewrite (m_bind_err _ _ _ _ _ Hz). }
  assert (m_zoom braid set_braid (braid_receive msg) st = (Ok out, set_braid b' st)) as Hz
    by (unfold m_zoom; by rewrite Eb).
  rewrite (m_bind_run _ _ _ _ _ Hz). rewrite braid_receive_run in Eb.
  destruct (state_receive _ _) as [[s1 k1]|] eqn:Es; [|done]. simplify_eq. cbn [sr_output_key receiving_epoch].
  apply state_receive_spec in Es as (Hl1 & He1 & Hnext); [|done|done|lia].
  destruct (incorporate_ok sk secrets st (mk_braid s1) k1 Hinv Hnext ltac:(lia)) as
    (st1 & Hi & Hok1 & Hb1 & Hd1 & Hep1 & Hk1 & Hc1 & Hsc1 & Hs1).
  rewrite (m_bind_run _ _ _ _ _ Hi), Hi. cbn [snd].
  destruct (derive_receive_key_ok sk _ st1 (sat_sub (msg_epoch msg) 1) pq_n Hok1 Hn) as
    (st2 & Hr2 & Hok2 & (Hfb & Hfd & Hfr & Hfe) & Hk2 & Hsp & Hrcv).
  pose proof (derive_receive_key_sends (sat_sub (msg_epoch msg) 1) pq_n st1) as Hsends.
  rewrite Hr2 in Hsends. unfold same_sends in Hsends. simpl in Hsends.
  exists st2. split_and!; [done| |congruence|congruence| | | |done].
  - split; [done|by rewrite Hfb, Hb1|by rewrite Hfb, Hb1, Hfe|rewrite Hfb, Hb1; simpl; lia|].
    rewrite Hfb, Hb1, Hfe. simpl. intros e Hle.
    destruct (Hs1 e ltac:(lia)) as (c & ch & Hc & Hch).
    apply (has_send_count _ _ (n ch)). unfold send_count. rewrite Hsends, Hc, bind_Some_eq, Hch. done.
  - by eapply keeps_spent_trans.
  - intros Hans. split; [|by apply Hsp]. intros Hspent%Hk1%(spent_answer sk (secrets ++ new_secrets k1)). congruence.
  - intros e j Hj. apply Hsc1. unfold send_count in *. by rewrite Hsends in Hj.
Qed.

End ops.

(** ** Any sequence of calls on one party *)

Inductive SpqrOp : Type :=
| SpSend (rng : Rng)
| SpReceive (msg : Message) (pq_n : Z).

Definition op_in_range (op : SpqrOp) : Prop :=
  match op with SpSend _ => True | SpReceive _ pq_n => in_u32 pq_n end.

Section calls.
Context `{Hashes} `{ReedSolomon} `{IncKem}.

(** The (epoch, counter) whose key a call hands out on the receiving side, if any. *)
Definition spqr_call (op : SpqrOp) (st : SpqrState) : list (Z * Z) * SpqrState :=
  match op with
  | SpSend rng => ([], (ratchet_send_key rng st).2)
  | SpReceive msg pq_n =>
      match ratchet_receive_key msg pq_n st with
      | (Ok _, st') => ([(sat_sub (msg_epoch msg) 1, pq_n)], st')
      | (Err _, st') => ([], st')
      end
  end.

Fixpoint spqr_calls (ops : list SpqrOp) (st : SpqrState) : list (Z * Z) * SpqrState :=
  match ops with
  | [] => ([], st)
  | op :: ops =>
      let '(u, st1) := spqr_call op st in
      let '(us, st2) := spqr_calls ops st1 in
      (u ++ us, st2)
  end.

(** Bounds on the epoch and the send counters after [k] calls. *)
Definition within (k : Z) (st : SpqrState) : Prop :=
  state_epoch (state (braid st)) ≤ k + 1
  ∧ ∀ e m, state_epoch (state (braid st)) - 1 ≤ e → send_count st e = Some m → m ≤ k.

Lemma spqr_call_ok sk secrets op st k u st' :
  spqr_inv sk secrets st → op_in_range op → 0 ≤ k < u32_max → within k st →
  spqr_call op st = (u, st') →
  ∃ secrets', spqr_inv sk secrets' st' ∧ within (k + 1) st' ∧ keeps_spent st st' ∧ NoDup u
    ∧ ∀ e m, (e, m) ∈ u → ¬ spent st e m ∧ spent st' e m.
Proof.
  intros Hinv Hop Hk [Hke Hkc] Hc.
  assert (state_epoch (state (braid st)) < u64_max) as Hmax by (unfold u32_max, u64_max in *; lia).
  assert (∃ secrets', spqr_inv sk secrets' st ∧ within (k + 1) st ∧ keeps_spent st st ∧ NoDup (@nil (Z * Z))
    ∧ ∀ e m, (e, m) ∈ @nil (Z * Z) → ¬ spent st e m ∧ spent st e m) as Hsame.
  { exists secrets. split_and!; [done| |apply keeps_spent_refl|constructor|by intros ?? ?%elem_of_nil].
    split; [lia|]. intros e m He Hm. specialize (Hkc e m He Hm). lia. }
  destruct op as [rng|msg pq_n]; simpl in Hc.
  - pose proof (ratchet_send_key_ok sk secrets st rng Hinv Hmax) as Hs. simpl in Hs.
    specialize (Hs (λ m Hm, ltac:(specialize (Hkc _ m (Z.le_refl _) Hm); lia))).
    destruct (braid_send rng (braid st)) as [[out|err] b'] eqn:Eb; [|rewrite Hs in Hc; by simplify_eq].
    destruct Hs as (m & st1 & Hm & Hr & Hinv1 & Hb1 & _ & Hsp & Hsc & _). rewrite Hr in Hc. injection Hc as <- <-.
    rewrite braid_send_run in Eb. destruct (state_send _ _) as [[[s1 m1] k1]|] eqn:Es; [|done].
    injection Eb as <- Eb. apply state_send_spec in Es as (_ & He1 & _).
    eexists. split_and!; [done| |done|constructor|by intros ?? ?%elem_of_nil].
    unfold within. cbn [snd]. rewrite Hb1, <-Eb. simpl. rewrite He1. split; [lia|]. intros e j Hle Hj. specialize (Hkc _ m (Z.le_refl _) Hm) as Hkm.
    destruct (Hsc e j Hle Hj) as [?|[Hj'| ->]]; [lia| |lia]. specialize (Hkc e j Hle Hj'). lia.
  - pose proof (ratchet_receive_key_ok sk secrets st msg pq_n Hinv Hmax Hop) as Hs.
    destruct (braid_receive msg (braid st)) as [[out|err] b'] eqn:Eb; [|rewrite Hs in Hc; by simplify_eq].
    destruct Hs as (st1 & Hr & Hinv1 & Hb1 & _ & Hsp & Hans & Hsc & _). rewrite Hr in Hc.
    rewrite braid_receive_run in Eb. destruct (state_receive _ _) as [[s1 k1]|] eqn:Es; [|done].
    injection Eb as <- Eb.
    apply state_receive_spec in Es as (_ & He1 & _); [|apply Hinv|done|pose proof (si_pos _ _ _ Hinv); lia].
    assert (st' = st1) as -> by (by destruct (receive_answer _ _ _ _ _); simplify_eq).
    eexists. split_and!; [exact Hinv1| |done| |].
    + unfold within. rewrite Hb1, <-Eb. simpl. split; [lia|]. intros e j Hle Hj.
      destruct (Hsc e j Hj) as [Hj'| ->]; [|lia]. specialize (Hkc e j ltac:(lia) Hj'). lia.
    + destruct (receive_answer _ _ _ _ _); simplify_eq; [apply NoDup_singleton|constructor].
    + destruct (receive_answer _ _ _ _ _); simplify_eq; [|by intros ?? ?%elem_of_nil].
      intros e m [= -> ->]%list_elem_of_singleton. by apply Hans.
Qed.

Lemma spqr_calls_ok sk ops : ∀ secrets st k us st',
  spqr_inv sk secrets st → Forall op_in_range ops → 0 ≤ k → k + Z.of_nat (length ops) < u32_max →
  within k st → spqr_calls ops st = (us, st') →
  NoDup us ∧ ∀ e m, (e, m) ∈ us → ¬ spent st e m.
Proof.
  induction ops as [|op ops IH]; intros secrets st k us st' Hinv Hops Hk0 Hk Hw Hc; simpl in Hc.
  { simplify_eq. split; [constructor|by intros ?? ?%elem_of_nil]. }
  apply Forall_cons_1 in Hops as [Hop Hops]. simpl in Hk.
  destruct (spqr_call op st) as [u st1] eqn:E1. destruct (spqr_calls ops st1) as [us1 st2] eqn:E2. simplify_eq.
  destruct (spqr_call_ok _ _ _ _ k _ _ Hinv Hop ltac:(lia) Hw E1) as (secrets' & Hinv1 & Hw1 & Hkeep & Hnd & Hu).
  destruct (IH _ _ (k + 1) _ _ Hinv1 Hops ltac:(lia) ltac:(lia) Hw1 E2) as [Hnd1 Hus]. split.
  - apply list.NoDup_app. split_and!; [done| |done]. intros [e m] Hin Hin'.
    destruct (Hu e m Hin) as [_ Hsp]. by apply (Hus e m).
  - intros e m [Hin|Hin]%elem_of_app; [by apply Hu|]. intros Hsp. by apply (Hus e m Hin), Hkeep.
Qed.

Lemma within_init ss d : within 0 (spqr_init ss d).
Proof.
  split; [by destruct d|]. intros e m He Hm.
  assert (m = 0) as ->; [|done]. unfold send_count, spqr_init in Hm.
  destruct (assign d _ _) as [send_ck recv_ck]. simpl in Hm.
  apply fmap_Some in Hm as (ch & (c & Hc & Hs)%bind_Some & ->).
  apply lookup_singleton_Some in Hc as [_ <-]. simplify_eq/=. done.
Qed.

(** Whatever a party is fed (forged, replayed or reordered messages with arbitrary
    counters) and however its own sends interleave, the key of an (epoch, counter) is
    handed out on the receiving side at most once. *)
Theorem spqr_receive_once ss d ops :
  Forall op_in_range ops → Z.of_nat (length ops) < u32_max →
  NoDup (spqr_calls ops (spqr_init ss d)).1.
Proof.
  intros Hops Hlen. destruct (spqr_calls ops (spqr_init ss d)) as [us st'] eqn:E.
  eapply (spqr_calls_ok _ _ _ _ 0); [apply spqr_inv_init|done|done|lia|apply within_init|exact E].
Qed.

End calls.
