(* ===== verification/SpqrRetention.v ===== *)
(** * Which epochs a party keeps

    [clear_old_epochs] runs only on a send that emits an epoch secret, and a party emits
    on a send only in the epochs in which it encapsulates: every second one.  So the
    receive chain of an epoch is kept for at least two more epochs, and the receive
    chains of the epochs in which the party encapsulates are never erased at all.  The
    file also gives the exact effect of the two operations on the receive chains and
    the skipped keys. *)

From S2P Require Import Prelude Foundation Interfaces Kdf Padding Erasure Kem BraidAuth Braid Spqr SpqrKeys.

(** ** The roles of the braid *)

(** The six states of the party that encapsulates. *)
Definition encapsulating (s : State) : bool :=
  match s with
  | NoHeaderReceived _ _ _ | HeaderReceived _ _ _ _ | Ct1Sampled _ _ _ _ _ _ _
  | EkReceivedCt1Sampled _ _ _ _ _ _ | Ct1Acknowledged _ _ _ _ _ _ | Ct2Sampled _ _ _ => true
  | _ => false
  end.

(** The initiator encapsulates in the even epochs, the responder in the odd ones. *)
Definition encapsulates_at (d : Direction) (e : Z) : bool :=
  match d with A2B => Z.even e | B2A => Z.odd e end.

Definition turn (d : Direction) (s : State) : Prop := encapsulating s = encapsulates_at d (state_epoch s).

Lemma encapsulates_at_succ d e : encapsulates_at d (e + 1) = negb (encapsulates_at d e).
Proof. destruct d; simpl; rewrite ?Z.add_1_r, ?Z.even_succ, ?Z.odd_succ; by rewrite ?Z.negb_even, ?Z.negb_odd. Qed.

Lemma encapsulates_at_pred3 d e : encapsulates_at d (e - 3) = negb (encapsulates_at d e).
Proof.
  replace e with (e - 3 + 1 + 1 + 1) at 2 by lia. rewrite !encapsulates_at_succ.
  by rewrite !negb_involutive.
Qed.

Section role.
Context `{Hashes} `{ReedSolomon} `{IncKem}.

Lemma state_send_turn d s rng s' msg k :
  turn d s → state_send s rng = Ok (s', msg, k) →
  turn d s' ∧ (is_Some k → encapsulates_at d (state_epoch s) = true).
Proof.
  unfold turn. intros Ht Hs. destruct s; simpl in *; run_handler; simplify_eq/=; split; try done;
    by intros [? ?].
Qed.

Lemma state_receive_turn d s msg s' k :
  turn d s → 0 ≤ state_epoch s < u64_max → state_receive s msg = Ok (s', k) → turn d s'.
Proof.
  unfold turn. intros Ht He Hr.
  assert (encapsulates_at d (add_u64 (state_epoch s) 1) = negb (encapsulates_at d (state_epoch s))) as Hadd
    by (rewrite add_u64_small by lia; apply encapsulates_at_succ).
  destruct s; simpl in *;
    unfold recv_keys_sampled, recv_header_sent, recv_ct1_received, recv_ek_sent_ct1_received,
      recv_no_header_received, recv_ct1_sampled, recv_ek_received_ct1_sampled,
      recv_ct1_acknowledged, recv_ct2_sampled in Hr;
    run_handler; simplify_eq/=; rewrite ?Hadd; by try rewrite <-Ht.
Qed.

(** ** The effect of the operations on the receive chains *)

Lemma recv_count_set_send c e st k :
  recv_count (set_kdfchains (alter (set_send c) e (kdfchains st)) st) k = recv_count st k.
Proof.
  unfold recv_count. simpl. destruct (decide (k = e)) as [->|]; [|by rewrite lookup_alter_ne].
  rewrite lookup_alter_eq. by destruct (kdfchains st !! e).
Qed.

Lemma incorporate_recv k st st' :
  incorporate k st = (Ok (), st') →
  (∀ e, recv_count st' e = if bool_decide (Some e = es_epoch <$> k) then Some 0 else recv_count st e)
  ∧ (∀ e m, skipped_key st' e m = skipped_key st e m).
Proof.
  destruct k as [es|]; cbn [incorporate]; [|by intros [= <-]]. unfold add_epoch. case_bool_decide; [done|]. destruct (assign _ _ _) as [send_ck recv_ck].
  intros [= <-]. split; [|done]. intros e. unfold recv_count. simpl. case_bool_decide as He.
  - injection He as ->. by rewrite lookup_insert_eq.
  - by rewrite lookup_insert_ne by congruence.
Qed.

(** The epoch a send that emits a secret erases. *)
Definition erases (se : Z) (k : option EpochSecret) (e : Z) : Prop := is_Some k ∧ e = se - 2 ∧ 0 ≤ e.

#[export] Instance erases_dec se k e : Decision (erases se k e) := _.

Lemma ratchet_send_key_recv rng st r st' out b' :
  braid_send rng (braid st) = (Ok out, b') → ratchet_send_key rng st = (Ok r, st') →
  (∀ e, recv_count st' e = if bool_decide (erases (sending_epoch out) (ss_output_key out) e) then None
                           else if bool_decide (Some e = es_epoch <$> ss_output_key out) then Some 0
                           else recv_count st e)
  ∧ (∀ e m, skipped_key st' e m = if bool_decide (erases (sending_epoch out) (ss_output_key out) e) then None
                                  else skipped_key st e m).
Proof.
  intros Eb Hr. unfold ratchet_send_key in Hr.
  rewrite (m_bind_run _ _ st out (set_braid b' st)) in Hr by (unfold m_zoom; by rewrite Eb).
  apply m_bind_Ok in Hr as ([] & s1 & Hi & Hr). apply incorporate_recv in Hi as [Hc1 Hk1].
  apply m_bind_Ok in Hr as ([] & s2 & Hcl & Hr).
  assert (∀ e, recv_count s2 e = if bool_decide (erases (sending_epoch out) (ss_output_key out) e) then None
                                 else recv_count s1 e) as Hc2.
  { intros e. destruct (ss_output_key out) as [es|].
    - destruct (clear_old_epochs_run (sending_epoch out) s1) as (s2' & Hr2 & _ & _ & _ & _ & Hc & _).
      rewrite Hcl in Hr2. injection Hr2 as <-. unfold recv_count. rewrite Hc. unfold erases.
      assert (is_Some (Some es)) by eauto. do 2 case_bool_decide; tauto.
    - injection Hcl as <-. rewrite bool_decide_eq_false_2; [done|]. by intros [[? ?] _]. }
  assert (∀ e m, skipped_key s2 e m = if bool_decide (erases (sending_epoch out) (ss_output_key out) e) then None
                                      else skipped_key s1 e m) as Hk2.
  { intros e m. destruct (ss_output_key out) as [es|].
    - destruct (clear_old_epochs_run (sending_epoch out) s1) as (s2' & Hr2 & _ & _ & _ & _ & _ & Hs).
      rewrite Hcl in Hr2. injection Hr2 as <-. unfold skipped_key. rewrite Hs. unfold erases.
      assert (is_Some (Some es)) by eauto. do 2 case_bool_decide; tauto.
    - injection Hcl as <-. rewrite bool_decide_eq_false_2; [done|]. by intros [[? ?] _]. }
  destruct (drop_previous_send_run (sending_epoch out) s2) as (s3 & Hd & _ & _ & _ & _ & Hs3 & Hc3).
  rewrite (m_bind_run _ _ _ _ _ Hd) in Hr. apply m_bind_Ok in Hr as (pq & s4 & Ha & [= <- <-]).
  unfold advance_send in Ha. destruct (kdfchains s3 !! sending_epoch out ≫= send) as [ch|]; [|done].
  destruct (scka_advance ch) as [o ch']. injection Ha as <- <-.
  assert (∀ e, recv_count s3 e = recv_count s2 e) as Hr3.
  { intros e. unfold recv_count. rewrite Hc3. case_bool_decide; [|done]. by destruct (kdfchains s2 !! e). }
  split.
  - intros e. rewrite recv_count_set_send, Hr3, Hc2, Hc1. done.
  - intros e m. transitivity (skipped_key s2 e m); [unfold skipped_key; simpl; by rewrite Hs3|].
    rewrite Hk2, Hk1. done.
Qed.

(** Receiving erases no chain. *)
Definition keeps_recv (s s' : SpqrState) : Prop := ∀ e, is_Some (recv_count s e) → is_Some (recv_count s' e).

#[local] Instance keeps_recv_refl : Reflexive keeps_recv.
Proof. by intros s e. Qed.
#[local] Instance keeps_recv_trans : Transitive keeps_recv.
Proof. intros s1 s2 s3 Ha Hb e He. auto. Qed.

Lemma put_recv_keeps e ch st : keeps_recv st (put_recv e ch st).
Proof. intros k Hk. rewrite put_recv_count. case_bool_decide; [eauto|done]. Qed.

Lemma derive_receive_key_keeps e pq_n : m_rel keeps_recv (derive_receive_key e pq_n).
Proof.
  apply m_rel_bind; [apply _|by intros s k Hk; unfold try_skipped; repeat case_match|].
  intros [mk|]; [by apply m_rel_ret, _|].
  apply m_rel_bind; [apply _|intros s k Hk; unfold replay_guard; by repeat case_match|intros _].
  apply m_rel_bind; [apply _| |intros _].
  { intros s. unfold skip_message_keys. destruct (kdfchains s !! e ≫= recv) as [ch|]; [|done].
    case_bool_decide; [done|]. destruct (skip_loop _ _ _ _) as [l ch'].
    destruct l; apply (put_recv_keeps e ch' s). }
  apply m_rel_bind; [apply _| |].
  { intros s. unfold advance_recv. destruct (kdfchains s !! e ≫= recv) as [ch|]; [|done].
    destruct (scka_advance ch) as [o ch']. apply put_recv_keeps. }
  intros [m mk]. case_bool_decide; [by apply m_rel_throw, _|by apply m_rel_ret, _].
Qed.

(** ** Retention *)

(** What is always there: the epochs the party encapsulates in, and the last three. *)
Definition retains (st : SpqrState) : Prop :=
  turn (direction st) (state (braid st))
  ∧ ∀ e, 0 ≤ e ≤ epoch st → encapsulates_at (direction st) e = true ∨ epoch st - 2 ≤ e →
      is_Some (recv_count st e).

Lemma retains_init ss d : retains (spqr_init ss d).
Proof.
  unfold retains, spqr_init. destruct (assign d _ _) as [send_ck recv_ck]. simpl. split; [by destruct d|].
  intros e He _. assert (e = 0) as -> by lia. eexists. done.
Qed.

Lemma ratchet_send_key_retains sk secrets st rng :
  spqr_inv sk secrets st → state_epoch (state (braid st)) < u64_max →
  (∀ m, send_count st (state_epoch (state (braid st)) - 1) = Some m → m < u32_max) →
  retains st →
  retains (ratchet_send_key rng st).2 ∧ direction (ratchet_send_key rng st).2 = direction st.
Proof.
  intros Hinv Hmax Hcnt [Ht Hret].
  pose proof (ratchet_send_key_ok sk secrets st rng Hinv Hmax Hcnt) as Hspec.
  destruct (braid_send rng (braid st)) as [[out|err] b'] eqn:Eb; [|rewrite Hspec; split; [by split|done]].
  destruct Hspec as (m & st' & _ & Hr & Hinv' & Hb & Hd & _). rewrite Hr. cbn [snd]. split; [|done].
  destruct (ratchet_send_key_recv _ _ _ _ _ _ Eb Hr) as [Hc _].
  rewrite braid_send_run in Eb. destruct (state_send _ _) as [[[s1 m1] k1]|] eqn:Es; [|done].
  injection Eb as <- <-. destruct (state_send_turn _ _ _ _ _ _ Ht Es) as [Ht' Hk].
  apply state_send_spec in Es as (_ & He1 & _ & Hnext).
  unfold retains. rewrite Hd, Hb. split; [done|].
  assert (epoch st' = emitted_upto s1) as Hep by (by rewrite <-(si_emitted _ _ _ Hinv'), Hb).
  pose proof (si_emitted _ _ _ Hinv) as Hem. pose proof (emitted_ge s1). pose proof (emitted_ge (state (braid st))). pose proof (si_pos _ _ _ Hinv).
  intros e Hb' Hkept. rewrite Hc. cbn [sending_epoch ss_output_key].
  unfold sat_sub. rewrite Z.max_r, He1 by lia. case_bool_decide as Her.
  - destruct Her as (Hs & -> & He0). pose proof (Hk Hs) as Hk'. destruct k1 as [es|]; [|by destruct Hs].
    destruct Hnext as [? ?]. destruct Hkept as [Hke|?]; [|lia].
    replace (state_epoch (state (braid st)) - 1 - 2) with (state_epoch (state (braid st)) - 3) in Hke by lia.
    by rewrite encapsulates_at_pred3, Hk' in Hke.
  - case_bool_decide as Hnew; [eauto|]. apply Hret.
    + destruct k1 as [es|]; simpl in *; [|lia]. destruct Hnext as [Hn1 Hn2].
      assert (e ≠ es_epoch es) by congruence. lia.
    + destruct k1 as [es|]; simpl in *; [|destruct Hkept; [auto|right; lia]].
      destruct Hnext as [Hn1 Hn2]. destruct Hkept; [auto|right; lia].
Qed.

Lemma ratchet_receive_key_retains sk secrets st msg pq_n :
  spqr_inv sk secrets st → state_epoch (state (braid st)) < u64_max → in_u32 pq_n →
  retains st →
  retains (ratchet_receive_key msg pq_n st).2 ∧ direction (ratchet_receive_key msg pq_n st).2 = direction st.
Proof.
  intros Hinv Hmax Hn [Ht Hret].
  pose proof (ratchet_receive_key_ok sk secrets st msg pq_n Hinv Hmax Hn) as Hspec.
  destruct (braid_receive msg (braid st)) as [[out|err] b'] eqn:Eb; [|rewrite Hspec; split; [by split|done]].
  destruct Hspec as (st' & Hr & Hinv' & Hb & Hd & _). rewrite Hr. cbn [snd]. split; [|done].
  unfold ratchet_receive_key in Hr.
  rewrite (m_bind_run _ _ st out (set_braid b' st)) in Hr by (unfold m_zoom; by rewrite Eb).
  rewrite braid_receive_run in Eb. destruct (state_receive _ _) as [[s1 k1]|] eqn:Es; [|done].
  pose proof (si_pos _ _ _ Hinv). injection Eb as <- <-. cbn [sr_output_key receiving_epoch] in *.
  pose proof (state_receive_turn _ _ _ _ _ Ht ltac:(lia) Es) as Ht'.
  apply state_receive_spec in Es as (_ & _ & Hnext); [|apply Hinv|done|lia].
  pose proof (emitted_ge (state (braid st))). pose proof (si_emitted _ _ _ Hinv) as Hem.
  destruct (incorporate_ok sk secrets st (mk_braid s1) k1 Hinv Hnext ltac:(lia)) as (st1 & Hi & _).
  rewrite (m_bind_run _ _ _ _ _ Hi) in Hr. apply incorporate_recv in Hi as [Hc _].
  pose proof (derive_receive_key_keeps (sat_sub (msg_epoch msg) 1) pq_n st1) as Hkeep. rewrite Hr in Hkeep.
  unfold retains. rewrite Hd, Hb. split; [done|].
  assert (epoch st' = emitted_upto s1) as Hep by (by rewrite <-(si_emitted _ _ _ Hinv'), Hb).
  intros e Hb' Hkept. apply Hkeep. rewrite Hc. case_bool_decide as Hnew; [eauto|]. apply Hret.
  - destruct k1 as [es|]; simpl in *; [|lia]. destruct Hnext. assert (e ≠ es_epoch es) by congruence. lia.
  - destruct k1 as [es|]; simpl in *; [|destruct Hkept; [auto|right; lia]].
    destruct Hnext. destruct Hkept; [auto|right; lia].
Qed.

Lemma spqr_calls_retains sk ops : ∀ secrets st k,
  spqr_inv sk secrets st → Forall op_in_range ops → 0 ≤ k → k + Z.of_nat (length ops) < u32_max →
  within k st → retains st →
  let st' := (spqr_calls ops st).2 in
  retains st' ∧ direction st' = direction st ∧ ∃ secrets', spqr_inv sk secrets' st'.
Proof.
  induction ops as [|op ops IH]; intros secrets st k Hinv Hops Hk0 Hk Hw Hret; simpl; [eauto|].
  apply Forall_cons_1 in Hops as [Hop Hops]. simpl in Hk. pose proof Hw as [Hke Hkc].
  assert (state_epoch (state (braid st)) < u64_max) as Hmax by (unfold u32_max, u64_max in *; lia).
  destruct (spqr_call op st) as [u st1] eqn:E1. destruct (spqr_calls ops st1) as [us st2] eqn:E2.
  destruct (spqr_call_ok _ _ _ _ k _ _ Hinv Hop ltac:(lia) Hw E1) as (secrets' & Hinv1 & Hw1 & _).
  assert (retains st1 ∧ direction st1 = direction st) as [Hret1 Hd1].
  { destruct op as [rng|msg pq_n]; simpl in E1.
    - injection E1 as <- <-. assert (∀ m, send_count st (state_epoch (state (braid st)) - 1) = Some m → m < u32_max)
        as Hcnt by (intros m Hm; specialize (Hkc _ m (Z.le_refl _) Hm); lia).
      by eapply ratchet_send_key_retains.
    - pose proof (ratchet_receive_key_retains _ _ _ msg pq_n Hinv Hmax Hop Hret) as Hr.
      destruct (ratchet_receive_key msg pq_n st) as [[]]; by simplify_eq. }
  destruct (IH secrets' st1 (k + 1) Hinv1 Hops) as (Hr & Hd & Hi); [lia|lia|done|done|].
  rewrite E2 in Hr, Hd, Hi. rewrite <-Hd1. auto.
Qed.

(** The epochs never erased, counted. *)
Lemma kept_epochs_size (d : Direction) (m : gmap Z EpochChains) (top : Z) :
  0 ≤ top → (∀ e, 0 ≤ e ≤ top → encapsulates_at d e = true → is_Some (m !! e)) →
  (top + 1) / 2 ≤ Z.of_nat (size m).
Proof.
  intros Ht Hm.
  set (first := match d with A2B => 0 | B2A => 1 end).
  set (es := (λ i, 2 * i + first) <$> seqZ 0 ((top + 1) / 2)).
  assert (NoDup es) as Hnd by (apply NoDup_fmap; [intros x y; simpl; lia|apply NoDup_seqZ]).
  assert (list_to_set es ⊆ dom m) as Hsub.
  { intros e (i & -> & Hi)%elem_of_list_to_set%list_elem_of_fmap. apply elem_of_seqZ in Hi.
    apply elem_of_dom, Hm; unfold first in *.
    - pose proof (Z.div_mod (top + 1) 2). pose proof (Z.mod_pos_bound (top + 1) 2). destruct d; lia.
    - destruct d; simpl; [by rewrite Z.add_0_r, Z.even_mul|].
      by rewrite Z.add_1_r, Z.odd_succ, Z.even_mul. }
  rewrite <-size_dom. apply subseteq_size in Hsub. rewrite size_list_to_set in Hsub by done.
  unfold es in Hsub. rewrite length_fmap, length_seqZ in Hsub.
  pose proof (Z.div_pos (top + 1) 2). lia.
Qed.

(** C16. Pruning on the sending path reaches only every second epoch.  Whatever a party sends
    and receives, it still holds the receive chain of every epoch in which it was the
    encapsulator, back to the first, so its state grows with the number of epochs and
    the keys of those epochs stay derivable from it; and the chains of the last three
    epochs are always there. *)
Theorem stale_epochs_retained ss d ops :
  Forall op_in_range ops → Z.of_nat (length ops) < u32_max →
  let st := (spqr_calls ops (spqr_init ss d)).2 in
  (∀ e, 0 ≤ e ≤ epoch st → encapsulates_at d e = true ∨ epoch st - 2 ≤ e →
     ∃ c ch, kdfchains st !! e = Some c ∧ recv c = Some ch)
  ∧ (epoch st + 1) / 2 ≤ Z.of_nat (size (kdfchains st)).
Proof.
  intros Hops Hlen st.
  destruct (spqr_calls_retains _ ops _ (spqr_init ss d) 0 (spqr_inv_init ss d) Hops) as
    ([_ Hret] & Hd & secrets & Hinv); [lia|lia|apply within_init|apply retains_init|]. fold st in Hret, Hd, Hinv.
  assert (direction (spqr_init ss d) = d) as Hd0 by (by destruct d). rewrite Hd, Hd0 in Hret. split.
  - intros e He Hk. destruct (Hret e He Hk) as (cur & (c & ch & Hc & Hr & _)%recv_count_Some). by exists c, ch.
  - apply (kept_epochs_size d); [|intros e He Hk].
    + rewrite (ko_epoch _ _ _ (si_keys _ _ _ Hinv)). lia.
    + destruct (Hret e He (or_introl Hk)) as (cur & (c & ch & Hc & _)%recv_count_Some). by exists c.
Qed.

End role.
