(* ===== verification/SpqrGrowth.v ===== *)
(** * How many skipped post-quantum keys a party stores

    [skip_message_keys] bounds the gap of one message, not the store: one receipt stores
    at most [MAX_SKIP] keys, but receipts accumulate without limit within an epoch.  The
    comment of [spqr.rs] on [MAX_SKIP] and the documentation bound the store per chain. *)

From S2P Require Import Prelude Foundation Interfaces Kdf Padding Erasure Kem BraidAuth Braid.
From S2P Require Import Spqr SpqrKeys.

(** The stored keys of an epoch. *)
Definition store_of (st : SpqrState) (e : Z) : gmap Z MessageKey := default ∅ (mkskipped st !! e).

(** ** One receipt *)

Lemma size_insert_all l : ∀ inner, (size (insert_all l inner) ≤ size inner + length l)%nat.
Proof.
  induction l as [|[k v] l IH]; intros inner; cbn [insert_all foldl length]; [lia|].
  specialize (IH (<[k := v]> inner)). unfold insert_all in IH. etrans; [exact IH|].
  rewrite map_size_insert. cbn [fst]. destruct (inner !! k); simpl; lia.
Qed.

Section growth.
Context `{Hashes} `{ReedSolomon} `{IncKem}.

Lemma skip_loop_length fuel until : ∀ c acc,
  (length (skip_loop fuel until c acc).1 ≤ length acc + fuel)%nat.
Proof.
  induction fuel as [|fuel IH]; intros c acc; cbn [skip_loop]; [simpl; lia|].
  case_bool_decide; [|simpl; lia]. destruct (scka_advance c) as [out c']. etrans; [apply IH|].
  rewrite length_app. simpl. lia.
Qed.

(** The store of an epoch gains at most [MAX_SKIP] keys. *)
Definition grows_little (st st' : SpqrState) : Prop :=
  ∀ e, Z.of_nat (size (store_of st' e)) ≤ Z.of_nat (size (store_of st e)) + MAX_SKIP.

Lemma grows_little_same st st' : mkskipped st' = mkskipped st → grows_little st st'.
Proof. intros E e. unfold store_of. rewrite E. unfold MAX_SKIP. lia. Qed.

Lemma skip_message_keys_growth sk secrets st e until :
  keys_ok sk secrets st → grows_little st (skip_message_keys e until st).2.
Proof.
  intros Hok. unfold skip_message_keys. destruct (kdfchains st !! e ≫= recv) as [ch|] eqn:E; [|by apply grows_little_same].
  case_bool_decide as Hgap; [by apply grows_little_same|].
  assert (0 ≤ n ch ≤ u32_max) as Hn by (eapply (recv_count_epoch _ _ _ e); [exact Hok|unfold recv_count; by rewrite E]).
  assert (add_u32 (n ch) MAX_SKIP ≤ n ch + MAX_SKIP) as Hadd by (apply Z.mod_le; unfold MAX_SKIP, u32_max in *; lia).
  pose proof (skip_loop_length (Z.to_nat (until - n ch)) until ch []) as Hl.
  destruct (skip_loop _ _ _ _) as [l ch']. destruct l as [|x l]; [by apply grows_little_same|].
  intros k. unfold store_of. cbn [snd set_mkskipped mkskipped set_kdfchains].
  destruct (decide (k = e)) as [->|]; [|rewrite lookup_insert_ne by done; unfold MAX_SKIP; lia].
  rewrite lookup_insert_eq. cbn [default from_option id].
  pose proof (size_insert_all (x :: l) (default ∅ (mkskipped st !! e))). cbn [fst length] in Hl |- *.
  unfold MAX_SKIP in *. cbn [length] in *. lia.
Qed.

Lemma try_skipped_growth e m st : grows_little st (try_skipped e m st).2.
Proof.
  unfold try_skipped. destruct (mkskipped st !! e) as [inner|] eqn:E; [|by apply grows_little_same].
  destruct (inner !! m) as [mk|] eqn:Em; [|by apply grows_little_same].
  intros k. unfold store_of. cbn [snd set_mkskipped mkskipped].
  pose proof (map_size_delete_Some m inner (mk_is_Some _ _ Em)) as Hd.
  destruct (decide (k = e)) as [->|]; [|case_bool_decide; rewrite ?lookup_insert_ne, ?lookup_delete_ne by done; unfold MAX_SKIP; lia].
  rewrite E. case_bool_decide; rewrite ?lookup_insert_eq, ?lookup_delete_eq; simpl; [rewrite map_size_empty|];
    unfold MAX_SKIP; lia.
Qed.

Lemma derive_receive_key_growth sk secrets st e m :
  keys_ok sk secrets st → grows_little st (derive_receive_key e m st).2.
Proof.
  intros Hok. unfold derive_receive_key, mbind, m_bind. pose proof (try_skipped_growth e m st) as Ht.
  assert (∀ s, try_skipped e m st = (Ok None, s) → s = st) as Hsame by (unfold try_skipped; intros s; repeat case_match; by intros [= <-]).
  destruct (try_skipped e m st) as [[[mk|]|err] st1]; [exact Ht| |exact Ht].
  rewrite (Hsame st1 eq_refl). unfold advance_to, mbind, m_bind.
  assert ((replay_guard e m st).2 = st) as Hg by (unfold replay_guard; by repeat case_match).
  destruct (replay_guard e m st) as [[[]|err] st2]; simpl in Hg; subst st2; [|by apply grows_little_same].
  pose proof (skip_message_keys_growth _ _ _ e (sat_sub m 1) Hok) as Hs.
  destruct (skip_message_keys e (sat_sub m 1) st) as [[[]|err] st3]; [|exact Hs].
  unfold advance_recv. destruct (kdfchains st3 !! e ≫= recv) as [ch|]; [|exact Hs].
  destruct (scka_advance ch). simpl. case_bool_decide; exact Hs.
Qed.

Lemma receive_growth sk secrets st msg pq_n :
  spqr_inv sk secrets st → state_epoch (state (braid st)) < u64_max → 
  grows_little st (ratchet_receive_key msg pq_n st).2.
Proof.
  intros Hinv Hmax. pose proof (emitted_ge (state (braid st))) as Hge. pose proof Hinv as [Hok Hl Hem Hpos _].
  unfold ratchet_receive_key, mbind, m_bind, m_zoom. rewrite braid_receive_run.
  destruct (state_receive _ _) as [[s1 k1]|] eqn:Es; [|by apply grows_little_same]. cbn [sr_output_key receiving_epoch].
  apply state_receive_spec in Es as (Hl1 & He1 & Hnext); [|done|done|lia].
  destruct (incorporate_ok sk secrets st (mk_braid s1) k1 Hinv Hnext ltac:(lia)) as (st1 & Hi & Hok1 & _).
  assert (mkskipped st1 = mkskipped st) as Hm
    by (destruct k1; unfold incorporate, add_epoch, mret, m_ret in Hi; repeat case_match; by inversion Hi).
  rewrite Hi. pose proof (derive_receive_key_growth _ _ _ (sat_sub (msg_epoch msg) 1) pq_n Hok1) as Hd.
  intros e. specialize (Hd e). unfold store_of in *. by rewrite Hm in Hd.
Qed.

(** ** Many receipts *)

(** Idle messages of the first epoch, each as far ahead as one gap may be. *)
Definition flood (j : nat) : list SpqrOp :=
  (λ k, SpReceive (idle 1) (Z.of_nat k * (MAX_SKIP + 1))) <$> seq 1 j.

(** The counters passed over by the flood. *)
Fixpoint flooded (j : nat) : list Z :=
  match j with
  | O => []
  | S j => flooded j ++ seqZ (Z.of_nat j * (MAX_SKIP + 1) + 1) MAX_SKIP
  end.

Lemma flooded_length j : Z.of_nat (length (flooded j)) = Z.of_nat j * MAX_SKIP.
Proof. induction j as [|j IH]; cbn [flooded]; [done|]. rewrite length_app, length_seqZ. unfold MAX_SKIP in *. lia. Qed.

Lemma flooded_bound j m : m ∈ flooded j → 1 ≤ m < Z.of_nat j * (MAX_SKIP + 1).
Proof.
  induction j as [|j IH]; cbn [flooded]; [by intros ?%elem_of_nil|].
  unfold MAX_SKIP in *. intros [?%IH|?%elem_of_seqZ]%elem_of_app; lia.
Qed.

Lemma flooded_NoDup j : NoDup (flooded j).
Proof.
  induction j as [|j IH]; cbn [flooded]; [constructor|]. apply list.NoDup_app. split_and!; [done| |apply NoDup_seqZ].
  intros m Hm%flooded_bound ?%elem_of_seqZ. lia.
Qed.

(** The keys of the flooded counters are all stored. *)
Record flood_inv (sk : bytes) (j : nat) (b : BraidState) (st : SpqrState) : Prop := {
  fi_inv : spqr_inv sk [] st;
  fi_braid : braid st = b;
  fi_count : recv_count st 0 = Some (Z.of_nat j * (MAX_SKIP + 1));
  fi_stored m : m ∈ flooded j → is_Some (skipped_key st 0 m);
}.

(** The braid of a fresh party takes no notice of an idle message. *)
Definition fresh_braid (b : BraidState) : Prop :=
  state_epoch (state b) = 1 ∧ state_receive (state b) (idle 1) = Ok (state b, None).

Lemma flood_step sk j b st :
  fresh_braid b → flood_inv sk j b st → Z.of_nat (S j) * (MAX_SKIP + 1) ≤ u32_max →
  ∃ st', (spqr_call (SpReceive (idle 1) (Z.of_nat (S j) * (MAX_SKIP + 1))) st).2 = st' ∧ flood_inv sk (S j) b st'.
Proof.
  intros [He Hb] [Hinv Hbr Hcur Hst] Hmax. remember (Z.of_nat (S j) * (MAX_SKIP + 1)) as m eqn:Em.
  set (cur := Z.of_nat j * (MAX_SKIP + 1)) in *.
  assert (0 ≤ m ≤ u32_max ∧ 0 ≤ cur ∧ m = cur + MAX_SKIP + 1) as (Hm & Hcur0 & Hmc) by (unfold cur, MAX_SKIP in *; lia).
  assert (0 < MAX_SKIP) as Hms by done.
  pose proof (ratchet_receive_key_ok sk [] st (idle 1) m Hinv ltac:(rewrite Hbr, He; unfold u64_max; lia) Hm) as Hr.
  rewrite braid_receive_run, Hbr, Hb in Hr. cbn [sr_output_key receiving_epoch idle msg_epoch incorporate] in Hr.
  change (sat_sub 1 1) with 0 in Hr. destruct Hr as (st' & Hrun & Hinv' & Hb' & _ & _ & Hsp & _ & Hrcv).
  set (st1 := set_braid (mk_braid (state b)) st).
  change ((mret () : M SpqrState CryptoError ()) (set_braid (mk_braid (state b)) st)).2 with st1 in Hrun, Hsp, Hrcv.
  assert (receive_answer sk ([] ++ new_secrets None) st1 0 m = Ok (pq_key sk [] (opposite (direction st)) 0 m)) as Hans.
  { unfold receive_answer. change (skipped_key st1 0 m) with (skipped_key st 0 m). change (recv_count st1 0) with (recv_count st 0).
    rewrite Hcur. destruct (skipped_key st 0 m) as [mk|] eqn:Emk.
    - destruct (ko_skipped _ _ _ (si_keys _ _ _ Hinv) _ _ _ Emk) as (_ & c & Hc & Hb2). rewrite Hcur in Hc. injection Hc as <-. unfold MAX_SKIP in *. lia.
    - rewrite bool_decide_eq_false_2, add_u32_small, bool_decide_eq_false_2 by (unfold MAX_SKIP in *; lia). done. }
  exists st'. split; [cbn [spqr_call]; rewrite Hrun; by destruct (receive_answer _ _ _ _ _)|].
  rewrite Hans in Hsp. destruct (Hsp eq_refl) as (_ & _ & Hnone & Hge). destruct Hrcv as (Hpend & _ & _ & Hcnt).
  pose proof (si_keys _ _ _ Hinv') as Hok'.
  assert (pending st1 0 (m + 1)) as Hp by (right; exists cur; split; [exact Hcur|lia]).
  assert (∃ c, recv_count st' 0 = Some c) as [c Hc].
  { apply (Hpend 0 (m + 1)) in Hp as [[mk Hmk]|(c & Hc & _)]; [|eauto|by intros [= ?]; lia].
    destruct (ko_skipped _ _ _ Hok' _ _ _ Hmk) as (_ & c & Hc & _). eauto. }
  assert (c = m) as ->.
  { destruct (Hcnt c Hc) as (c0 & Hc0 & Hb0). change (recv_count st1 0) with (recv_count st 0) in Hc0.
    rewrite Hcur in Hc0. injection Hc0 as <-. specialize (Hge c Hc). lia. }
  split; [exact Hinv'|by rewrite Hb'; destruct b|rewrite Hc; congruence|].
  intros k Hk. pose proof (flooded_bound _ _ Hk) as Hb2. rewrite <-Em in Hb2.
  assert (pending st1 0 k) as Hpk.
  { cbn [flooded] in Hk. apply elem_of_app in Hk as [Hk|Hk%elem_of_seqZ]; [left; by apply Hst|].
    right. exists cur. split; [exact Hcur|lia]. }
  apply (Hpend 0 k) in Hpk as [?|(c & Hc' & Hlt)]; [done| |by intros [= ?]; lia]. rewrite Hc in Hc'. simplify_eq. lia.
Qed.

Lemma flood_run sk b j : ∀ i st,
  fresh_braid b → flood_inv sk i b st → Z.of_nat (i + j) * (MAX_SKIP + 1) ≤ u32_max →
  flood_inv sk (i + j) b
    (spqr_calls ((λ k, SpReceive (idle 1) (Z.of_nat k * (MAX_SKIP + 1))) <$> seq (S i) j) st).2.
Proof.
  induction j as [|j IH]; intros i st Hb Hf Hmax; [by rewrite Nat.add_0_r|].
  destruct (flood_step sk i b st Hb Hf ltac:(unfold MAX_SKIP in *; lia)) as (st' & Hst' & Hf').
  cbn [seq fmap list_fmap spqr_calls]. destruct (spqr_call _ st) as [u st1] eqn:E. simpl in Hst'. subst st1.
  specialize (IH (S i) st' Hb Hf' ltac:(replace (S i + j)%nat with (i + S j)%nat by lia; done)).
  destruct (spqr_calls _ st') as [us st2]. replace (i + S j)%nat with (S i + j)%nat by lia. exact IH.
Qed.

Lemma flood_init ss d : flood_inv (braid_auth_seed ss) 0 (braid (spqr_init ss d)) (spqr_init ss d).
Proof.
  split; [apply spqr_inv_init|done| |by intros m ?%elem_of_nil].
  unfold recv_count, spqr_init. destruct (assign d _ _). simpl. by rewrite lookup_singleton_eq.
Qed.

Lemma fresh_init ss d : fresh_braid (braid (spqr_init ss d)).
Proof. unfold spqr_init. destruct (assign d _ _), d; done. Qed.

Lemma spqr_calls_inv sk ops : ∀ secrets st k,
  spqr_inv sk secrets st → Forall op_in_range ops → 0 ≤ k → k + Z.of_nat (length ops) < u32_max → within k st →
  ∃ secrets', spqr_inv sk secrets' (spqr_calls ops st).2 ∧ within (k + Z.of_nat (length ops)) (spqr_calls ops st).2.
Proof.
  induction ops as [|op ops IH]; intros secrets st k Hinv Hops Hk0 Hk Hw; cbn [spqr_calls length].
  { rewrite Z.add_0_r. eauto. }
  apply Forall_cons_1 in Hops as [Hop Hops]. cbn [length] in Hk. destruct (spqr_call op st) as [u st1] eqn:E1.
  destruct (spqr_call_ok _ _ _ _ k _ _ Hinv Hop ltac:(lia) Hw E1) as (secrets' & Hinv1 & Hw1 & _).
  destruct (IH _ _ (k + 1) Hinv1 Hops ltac:(lia) ltac:(lia) Hw1) as (secrets2 & Hinv2 & Hw2).
  destruct (spqr_calls ops st1) as [us st2]. exists secrets2. split; [exact Hinv2|].
  by replace (k + Z.of_nat (S (length ops))) with (k + 1 + Z.of_nat (length ops)) by lia.
Qed.

(** C28. One receipt, of whatever message, stores at most [MAX_SKIP] keys of an epoch; but
    the store itself has no bound: a fresh party that receives [j] messages, each a
    permitted gap ahead of the last, holds [j * MAX_SKIP] keys of one epoch (up to the
    width of the counter, some four thousand million keys). *)
Theorem pq_skipped_growth ss d ops msg pq_n j :
  Forall op_in_range ops → Z.of_nat (length ops) < u32_max → Z.of_nat j * (MAX_SKIP + 1) ≤ u32_max →
  let st := (spqr_calls ops (spqr_init ss d)).2 in
  (∀ e, Z.of_nat (size (store_of (ratchet_receive_key msg pq_n st).2 e))
        ≤ Z.of_nat (size (store_of st e)) + MAX_SKIP)
  ∧ Z.of_nat j * MAX_SKIP ≤ Z.of_nat (size (store_of (spqr_calls (flood j) (spqr_init ss d)).2 0)).
Proof.
  intros Hops Hlen Hj st. split.
  { destruct (spqr_calls_inv (braid_auth_seed ss) ops [] (spqr_init ss d) 0) as (secrets & Hinv & Hw & _);
      [apply spqr_inv_init|done|lia|lia|apply within_init|].
    fold st in Hw. eapply receive_growth; [exact Hinv|]. unfold u32_max, u64_max in *. lia. }
  pose proof (flood_run _ _ j 0 _ (fresh_init ss d) (flood_init ss d) Hj) as [_ _ _ Hst].
  rewrite <-flooded_length. set (st' := (spqr_calls (flood j) (spqr_init ss d)).2).
  assert (list_to_set (flooded j) ⊆ dom (store_of st' 0)) as Hsub%subseteq_size.
  { intros m Hm%elem_of_list_to_set. apply elem_of_dom. specialize (Hst m Hm).
    unfold skipped_key in Hst. unfold store_of. fold (flood j) in Hst. fold st' in Hst.
    by destruct (mkskipped st' !! 0); [|destruct Hst]. }
  rewrite size_list_to_set, size_dom in Hsub by apply flooded_NoDup. lia.
Qed.

End growth.
