(* ===== verification/SpqrAgreement.v ===== *)
(** * Two ratchets agree on every message key

    Two parties run the post-quantum ratchet over a network that loses, reorders and
    duplicates the braid messages; message counters may be anything.  A run of the two
    ratchets simulates a run of the two braids ([BraidAgreement]), so their epoch
    secrets agree, and each side hands out the keys of the schedule ([SpqrKeys]): the
    keys the two sides derive for the same flow, epoch and counter are equal. *)

From stdpp Require Import functions.
From S2P Require Import Prelude Foundation Interfaces Kdf Padding Erasure Kem BraidAuth Braid.
From S2P Require Import BraidAgreement Spqr SpqrKeys.

(** A key handed out: by whom it is sent, its epoch, its counter. *)
Record KeyUse : Type := mk_key_use {
  ku_flow : Direction;
  ku_epoch : Z;
  ku_counter : Z;
  ku_key : MessageKey;
}.

Record RatchetPair : Type := mk_pair {
  rp_state : bool → SpqrState;
  rp_wire : bool → list Message;
  rp_keys : bool → list KeyUse;
}.

Definition role (p : bool) : Direction := if p then A2B else B2A.

Section pair.
Context `{Hashes} `{ReedSolomon} `{IncKem}.

Definition pair_init (ss : bytes) : RatchetPair :=
  mk_pair (λ p, if p then new_sender ss else new_receiver ss) (λ _, []) (λ _, []).

(** What a successful call adds to the wire and to the log. *)
Definition sent_msg (r : result (Message * Z * MessageKey)) : list Message :=
  match r with Ok (msg, _, _) => [msg] | Err _ => [] end.
Definition sent_use (p : bool) (r : result (Message * Z * MessageKey)) : list KeyUse :=
  match r with Ok (msg, m, mk) => [mk_key_use (role p) (msg_epoch msg - 1) m mk] | Err _ => [] end.
Definition recv_use (p : bool) (msg : Message) (pq_n : Z) (r : result MessageKey) : list KeyUse :=
  match r with
  | Ok mk => [mk_key_use (opposite (role p)) (sat_sub (msg_epoch msg) 1) pq_n mk]
  | Err _ => []
  end.

(** A call by party [p], successful or not.  Epochs stay below [2^64] and a chain's
    counter below [2^32]. *)
Inductive pair_step : RatchetPair → RatchetPair → Prop :=
| pair_send p rng sys r st' :
    state_epoch (state (braid (rp_state sys p))) < u64_max →
    (∀ m, send_count (rp_state sys p) (state_epoch (state (braid (rp_state sys p))) - 1) = Some m →
          m < u32_max) →
    ratchet_send_key rng (rp_state sys p) = (r, st') →
    pair_step sys
      (mk_pair (<[p := st']> (rp_state sys)) (<[p := sent_msg r ++ rp_wire sys p]> (rp_wire sys))
               (<[p := sent_use p r ++ rp_keys sys p]> (rp_keys sys)))
| pair_deliver p msg pq_n sys r st' :
    state_epoch (state (braid (rp_state sys p))) < u64_max →
    msg ∈ rp_wire sys (negb p) → in_u32 pq_n →
    ratchet_receive_key msg pq_n (rp_state sys p) = (r, st') →
    pair_step sys
      (mk_pair (<[p := st']> (rp_state sys)) (rp_wire sys)
               (<[p := recv_use p msg pq_n r ++ rp_keys sys p]> (rp_keys sys))).

Definition pair_reachable (ss : bytes) (sys : RatchetPair) : Prop := rtc pair_step (pair_init ss) sys.

(** ** The simulation *)

(** The epoch secrets of a log, oldest first. *)
Definition secrets_of (ks : list EpochSecret) : list bytes := es_secret <$> reverse ks.

Definition party_ok (ss : bytes) (p : bool) (st : SpqrState) (uses : list KeyUse) (ks : list EpochSecret) : Prop :=
  spqr_inv (braid_auth_seed ss) (secrets_of ks) st ∧ direction st = role p
  ∧ es_epoch <$> reverse ks = seqZ 1 (Z.of_nat (length ks))
  ∧ ∀ u, u ∈ uses →
      ku_key u = pq_key (braid_auth_seed ss) (secrets_of ks) (ku_flow u) (ku_epoch u) (ku_counter u)
      ∧ ku_epoch u ≤ Z.of_nat (length ks).

Definition simulates (ss : bytes) (sys : RatchetPair) (bsys : System) : Prop :=
  sys_reachable (braid_auth_seed ss) bsys
  ∧ ∀ p, party bsys p = braid (rp_state sys p) ∧ sent bsys p = rp_wire sys p
         ∧ party_ok ss p (rp_state sys p) (rp_keys sys p) (emitted bsys p).

Lemma secrets_of_cons ks k : secrets_of (option_list k ++ ks) = secrets_of ks ++ new_secrets k.
Proof.
  unfold secrets_of, new_secrets. destruct k; simpl; [|by rewrite app_nil_r].
  by rewrite reverse_cons, fmap_app.
Qed.

Lemma length_secrets_of ks : length (secrets_of ks) = length ks.
Proof. unfold secrets_of. by rewrite length_fmap, length_reverse. Qed.

(** Growing the log keeps what was said of the keys handed out before. *)
Lemma uses_app ss (uses : list KeyUse) ks k :
  (∀ u, u ∈ uses →
      ku_key u = pq_key (braid_auth_seed ss) (secrets_of ks) (ku_flow u) (ku_epoch u) (ku_counter u)
      ∧ ku_epoch u ≤ Z.of_nat (length ks)) →
  ∀ u, u ∈ uses →
      ku_key u = pq_key (braid_auth_seed ss) (secrets_of (option_list k ++ ks)) (ku_flow u) (ku_epoch u) (ku_counter u)
      ∧ ku_epoch u ≤ Z.of_nat (length (option_list k ++ ks)).
Proof.
  intros Hu u Hin. destruct (Hu u Hin) as [-> He]. rewrite secrets_of_cons, length_app. split; [|lia].
  unfold pq_key. rewrite pq_chain_key_app; [done|]. rewrite length_secrets_of. lia.
Qed.

Lemma epochs_cons ks k s s' :
  es_epoch <$> reverse ks = seqZ 1 (Z.of_nat (length ks)) → emitted_upto s = Z.of_nat (length ks) →
  emits_next s s' k →
  es_epoch <$> reverse (option_list k ++ ks) = seqZ 1 (Z.of_nat (length (option_list k ++ ks))).
Proof.
  intros Hk He Hn. destruct k as [es|]; simpl in *; [|done]. destruct Hn as [Hes _].
  rewrite reverse_cons, fmap_app, Hk, Nat2Z.inj_succ, <-Z.add_1_r, seqZ_app by lia. f_equal.
  rewrite seqZ_cons by lia. simpl. rewrite Hes, He. f_equal. lia.
Qed.

Lemma simulates_init ss : simulates ss (pair_init ss) (sys_init (braid_auth_seed ss)).
Proof.
  split; [apply rtc_refl|]. intros p. split; [by destruct p|]. split; [done|].
  split; [destruct p; apply spqr_inv_init|]. split; [by destruct p|]. split; [done|].
  by intros u Hu%elem_of_nil.
Qed.

Lemma party_ok_step ss p st st' uses new ks k s' :
  party_ok ss p st uses ks → emits_next (state (braid st)) s' k →
  spqr_inv (braid_auth_seed ss) (secrets_of ks ++ new_secrets k) st' → direction st' = direction st →
  (∀ u, u ∈ new →
     ku_key u = pq_key (braid_auth_seed ss) (secrets_of ks ++ new_secrets k) (ku_flow u) (ku_epoch u) (ku_counter u)
     ∧ ku_epoch u ≤ epoch st') →
  party_ok ss p st' (new ++ uses) (option_list k ++ ks).
Proof.
  intros (Hinv & Hd & Hep & Hu) Hnext Hinv' Hd' Hnew.
  assert (emitted_upto (state (braid st)) = Z.of_nat (length ks)) as He.
  { rewrite (si_emitted _ _ _ Hinv), (ko_epoch _ _ _ (si_keys _ _ _ Hinv)). by rewrite length_secrets_of. }
  split_and!; [by rewrite secrets_of_cons|congruence|by eapply epochs_cons|].
  intros u [Hin|Hin]%elem_of_app; [|by apply (uses_app ss uses)].
  destruct (Hnew u Hin) as [-> Hle]. rewrite secrets_of_cons. split; [done|].
  rewrite (ko_epoch _ _ _ (si_keys _ _ _ Hinv')) in Hle.
  by rewrite <-length_secrets_of, secrets_of_cons.
Qed.

Lemma simulates_other ss p q st' sys uses w bsys b' sent' em :
  q ≠ p →
  (party bsys q = braid (rp_state sys q) ∧ sent bsys q = rp_wire sys q
         ∧ party_ok ss q (rp_state sys q) (rp_keys sys q) (emitted bsys q)) →
  let sys' := mk_pair (<[p := st']> (rp_state sys)) (<[p := w]> (rp_wire sys)) (<[p := uses]> (rp_keys sys)) in
  let bsys' := mk_system (<[p := b']> (party bsys)) (<[p := sent']> (sent bsys)) (<[p := em]> (emitted bsys)) in
  party bsys' q = braid (rp_state sys' q) ∧ sent bsys' q = rp_wire sys' q
         ∧ party_ok ss q (rp_state sys' q) (rp_keys sys' q) (emitted bsys' q).
Proof. intros Hq Hok. simpl. by rewrite !fn_lookup_insert_ne by done. Qed.

(** One party's call, when the braid's succeeds. *)
Lemma party_send ss p st uses ks rng r st' out b' :
  party_ok ss p st uses ks → state_epoch (state (braid st)) < u64_max →
  (∀ m, send_count st (state_epoch (state (braid st)) - 1) = Some m → m < u32_max) →
  ratchet_send_key rng st = (r, st') → braid_send rng (braid st) = (Ok out, b') →
  party_ok ss p st' (sent_use p r ++ uses) (option_list (ss_output_key out) ++ ks)
  ∧ braid st' = b' ∧ sent_msg r = [ss_msg out].
Proof.
  intros Hok Hmax Hcnt Hr Eb. pose proof Hok as (Hinv & Hd & _).
  pose proof (ratchet_send_key_ok _ _ _ rng Hinv Hmax Hcnt) as Hspec. rewrite Eb in Hspec.
  destruct Hspec as (m & st1 & Hm & Hr1 & Hinv1 & Hb1 & Hd1 & _).
  rewrite Hr in Hr1. injection Hr1 as -> ->. split_and!; [|done|done].
  rewrite braid_send_run in Eb. destruct (state_send _ _) as [[[s1 m1] k1]|] eqn:Es; [|done].
  injection Eb as <- <-. apply state_send_spec in Es as (_ & _ & Hme & Hnext).
  eapply party_ok_step; [done..|]. cbn [ss_msg ss_output_key sent_use].
  intros u ->%list_elem_of_singleton. simpl.
  rewrite Hme, Hd. split; [done|]. pose proof (emitted_ge (state (braid st))).
  rewrite <-(si_emitted _ _ _ Hinv1), Hb1. simpl. destruct k1; simpl in Hnext; lia.
Qed.

Lemma party_recv ss p st uses ks msg pq_n r st' out b' :
  party_ok ss p st uses ks → state_epoch (state (braid st)) < u64_max → in_u32 pq_n →
  ratchet_receive_key msg pq_n st = (r, st') → braid_receive msg (braid st) = (Ok out, b') →
  party_ok ss p st' (recv_use p msg pq_n r ++ uses) (option_list (sr_output_key out) ++ ks)
  ∧ braid st' = b'.
Proof.
  intros Hok Hmax Hn Hr Eb. pose proof Hok as (Hinv & Hd & _).
  pose proof (ratchet_receive_key_ok _ _ _ msg pq_n Hinv Hmax Hn) as Hspec. rewrite Eb in Hspec.
  destruct Hspec as (st1 & Hr1 & Hinv1 & Hb1 & Hd1 & _ & Hsp & _).
  rewrite Hr in Hr1. injection Hr1 as Hans ->. split; [|done].
  assert (receiving_epoch out = sat_sub (msg_epoch msg) 1) as Hre.
  { rewrite braid_receive_run in Eb. destruct (state_receive _ _) as [[s1 k1]|]; [|done]. by simplify_eq. }
  assert (emits_next (state (braid st)) (state b') (sr_output_key out)) as Hnext.
  { rewrite braid_receive_run in Eb. destruct (state_receive _ _) as [[s1 k1]|] eqn:Es; [|done].
    injection Eb as <- <-. destruct Hinv as [_ Hl _ Hpos _].
    by apply state_receive_spec in Es as (_ & _ & ?); [|done|done|lia]. }
  eapply party_ok_step; [done..|]. rewrite <-Hans in Hsp.
  destruct (incorporate_ok _ _ _ b' _ Hinv Hnext) as (s1 & Hi & Hok1 & _ & Hdir & _).
  { pose proof (emitted_ge (state (braid st))). rewrite <-(si_emitted _ _ _ Hinv). lia. }
  rewrite Hi in Hans. destruct r as [mk|]; [|by intros u ?%elem_of_nil].
  intros u ->%list_elem_of_singleton. simpl. rewrite <-Hre, <-Hd, <-Hdir.
  split; [|by apply Hsp]. symmetry in Hans. by apply (receive_answer_key _ _ _ _ _ _ Hok1).
Qed.

Lemma simulates_same ss sys bsys p w :
  simulates ss sys bsys → w = rp_wire sys p →
  simulates ss (mk_pair (<[p := rp_state sys p]> (rp_state sys)) (<[p := w]> (rp_wire sys))
                        (<[p := rp_keys sys p]> (rp_keys sys))) bsys.
Proof.
  intros [Hreach Hall] ->. split; [done|]. intros q. simpl.
  destruct (decide (q = p)) as [->|Hq]; [rewrite !fn_lookup_insert | rewrite !fn_lookup_insert_ne by done];
    by apply Hall.
Qed.

Lemma simulates_send ss sys bsys p rng r st' :
  simulates ss sys bsys → state_epoch (state (braid (rp_state sys p))) < u64_max →
  (∀ m, send_count (rp_state sys p) (state_epoch (state (braid (rp_state sys p))) - 1) = Some m → m < u32_max) →
  ratchet_send_key rng (rp_state sys p) = (r, st') →
  ∃ bsys', simulates ss (mk_pair (<[p := st']> (rp_state sys)) (<[p := sent_msg r ++ rp_wire sys p]> (rp_wire sys))
               (<[p := sent_use p r ++ rp_keys sys p]> (rp_keys sys))) bsys'.
Proof.
  intros Hsim Hmax Hcnt Hr. pose proof Hsim as [Hreach Hall]. destruct (Hall p) as (Hp & Hs & Hok).
  destruct (braid_send rng (braid (rp_state sys p))) as [[out|err] b'] eqn:Eb.
  - destruct (party_send _ _ _ _ _ _ _ _ _ _ Hok Hmax Hcnt Hr Eb) as (Hok' & Hb & Hw). eexists. split.
    { eapply rtc_r; [exact Hreach|]. apply (step_send p rng bsys out b'); by rewrite Hp. }
    intros q. destruct (decide (q = p)) as [->|Hq]; [|by apply simulates_other].
    simpl. rewrite !fn_lookup_insert, Hs, Hw. by split_and!.
  - destruct Hok as (Hinv & _).
    pose proof (ratchet_send_key_ok _ _ _ rng Hinv Hmax Hcnt) as Hspec. rewrite Eb, Hr in Hspec.
    injection Hspec as -> ->. exists bsys. by apply simulates_same.
Qed.

Lemma simulates_deliver ss sys bsys p msg pq_n r st' :
  simulates ss sys bsys → state_epoch (state (braid (rp_state sys p))) < u64_max →
  msg ∈ rp_wire sys (negb p) → in_u32 pq_n →
  ratchet_receive_key msg pq_n (rp_state sys p) = (r, st') →
  ∃ bsys', simulates ss (mk_pair (<[p := st']> (rp_state sys)) (rp_wire sys)
               (<[p := recv_use p msg pq_n r ++ rp_keys sys p]> (rp_keys sys))) bsys'.
Proof.
  intros Hsim Hmax Hin Hn Hr. pose proof Hsim as [Hreach Hall]. destruct (Hall p) as (Hp & Hs & Hok).
  destruct (braid_receive msg (braid (rp_state sys p))) as [[out|err] b'] eqn:Eb.
  - destruct (party_recv _ _ _ _ _ _ _ _ _ _ _ Hok Hmax Hn Hr Eb) as (Hok' & Hb). eexists. split.
    { eapply rtc_r; [exact Hreach|]. apply (step_deliver p msg bsys out b'); [by rewrite Hp| |by rewrite Hp].
      by destruct (Hall (negb p)) as (_ & -> & _). }
    intros q. simpl. destruct (decide (q = p)) as [->|Hq];
      [rewrite !fn_lookup_insert; by split_and! | rewrite !fn_lookup_insert_ne by done; apply Hall].
  - destruct Hok as (Hinv & _).
    pose proof (ratchet_receive_key_ok _ _ _ msg pq_n Hinv Hmax Hn) as Hspec. rewrite Eb, Hr in Hspec.
    injection Hspec as -> ->. exists bsys. split; [done|]. intros q. simpl.
    destruct (decide (q = p)) as [->|Hq]; [rewrite !fn_lookup_insert | rewrite !fn_lookup_insert_ne by done];
      apply Hall.
Qed.

Lemma pair_simulates ss sys : pair_reachable ss sys → ∃ bsys, simulates ss sys bsys.
Proof.
  unfold pair_reachable. apply (rtc_ind_r (λ sys, ∃ bsys, simulates ss sys bsys)).
  - eexists. apply simulates_init.
  - intros s s' _ Hstep [bsys Hsim].
    destruct Hstep; [by eapply simulates_send | by eapply simulates_deliver].
Qed.

End pair.

Section agreement.
Context `{HashesOk} `{ReedSolomonOk} `{IncKemOk}.

(** The secrets of the two parties agree as far as both have them. *)
Lemma secrets_agree ss sys bsys p q e :
  simulates ss sys bsys →
  e ≤ Z.of_nat (length (emitted bsys p)) → e ≤ Z.of_nat (length (emitted bsys q)) →
  take (Z.to_nat e) (secrets_of (emitted bsys p)) = take (Z.to_nat e) (secrets_of (emitted bsys q)).
Proof.
  intros [Hreach Hall] Hp Hq. apply sys_reachable_inv in Hreach as [_ Hag].
  assert (∀ p i, (i < length (emitted bsys p))%nat → ∃ es, es ∈ emitted bsys p
    ∧ es_epoch es = Z.of_nat i + 1 ∧ secrets_of (emitted bsys p) !! i = Some (es_secret es)) as Hlk.
  { intros p' i Hi. destruct (Hall p') as (_ & _ & _ & _ & Hep & _).
    rewrite <-length_reverse in Hi. apply lookup_lt_is_Some in Hi as [es Hes].
    exists es. split_and!.
    - apply elem_of_reverse. by eapply list_elem_of_lookup_2.
    - assert ((es_epoch <$> reverse (emitted bsys p')) !! i = Some (es_epoch es)) as Hl
        by (by rewrite list_lookup_fmap, Hes).
      rewrite Hep in Hl. apply lookup_seqZ in Hl. lia.
    - unfold secrets_of. by rewrite list_lookup_fmap, Hes. }
  apply list_eq. intros i. destruct (decide (i < Z.to_nat e)%nat) as [Hi|Hi].
  - rewrite !lookup_take_lt by done.
    destruct (Hlk p i ltac:(lia)) as (x & Hx & Hxe & ->), (Hlk q i ltac:(lia)) as (y & Hy & Hye & ->).
    f_equal. eapply Hag; [done..|]. congruence.
  - rewrite !lookup_take_ge by lia. done.
Qed.

Lemma pair_keys_agree ss sys p q u v :
  pair_reachable ss sys → u ∈ rp_keys sys p → v ∈ rp_keys sys q →
  ku_flow u = ku_flow v → ku_epoch u = ku_epoch v → ku_counter u = ku_counter v →
  ku_key u = ku_key v.
Proof.
  intros [bsys Hsim]%pair_simulates Hu Hv Hf He Hc. pose proof Hsim as [_ Hall].
  destruct (Hall p) as (_ & _ & _ & _ & _ & Hup), (Hall q) as (_ & _ & _ & _ & _ & Hvq).
  destruct (Hup u Hu) as [-> Hup'], (Hvq v Hv) as [-> Hvq'].
  unfold pq_key, pq_chain_key. rewrite Hf, Hc, He.
  by rewrite (secrets_agree ss sys bsys p q) by congruence.
Qed.

(** C2. In every state two honest parties reach, the message keys handed out (on either
    side, by sending or by receiving, in or out of order) for the same flow, epoch and
    counter are equal. *)
Theorem spqr_agreement ss sys p q u v :
  pair_reachable ss sys → u ∈ rp_keys sys p → v ∈ rp_keys sys q →
  ku_flow u = ku_flow v → ku_epoch u = ku_epoch v → ku_counter u = ku_counter v →
  ku_key u = ku_key v.
Proof. apply pair_keys_agree. Qed.

(** What holds of each party of a run: its invariant, its role, and that the epoch its
    peer sends in is one it has incorporated. *)
Lemma pair_party ss sys p :
  pair_reachable ss sys →
  (∃ secrets, spqr_inv (braid_auth_seed ss) secrets (rp_state sys p))
  ∧ direction (rp_state sys p) = role p
  ∧ state_epoch (state (braid (rp_state sys (negb p)))) - 1 ≤ epoch (rp_state sys p).
Proof.
  intros (bsys & Hb & Hall)%pair_simulates.
  destruct (Hall p) as (Hp & _ & Hinv & Hd & _), (Hall (negb p)) as (Hq & _).
  split_and!; [eauto|done|]. rewrite <-(si_emitted _ _ _ Hinv), <-Hp, <-Hq.
  pose proof (peer_knows_epoch _ _ (negb p) Hb) as Hk. by rewrite negb_involutive in Hk.
Qed.

End agreement.
