(* ===== verification/BraidDeadlock.v ===== *)
(** * A forged epoch number at the encapsulator

    In [Ct2Sampled] the encapsulator takes any message of the next epoch, of whatever
    type, as proof that its ciphertext arrived, and stops sending it.  The epoch of a
    message is not authenticated by the braid, and the session runs the braid before it
    checks the AEAD tag.  If too few codewords of the ciphertext have left it by then, the
    two parties wait for each other: [stuck] is the deadlock, and honest steps do not
    leave it.  The
    encapsulator already sends under the keys of the new epoch, which its peer does not
    have. *)

From stdpp Require Import functions.
From S2P Require Import Prelude Foundation Interfaces Kdf Padding Erasure Kem BraidAuth Braid.
From S2P Require Import BraidAgreement Spqr SpqrBraid SpqrKeys SpqrAgreement.

Section states.
Context `{Hashes} `{ReedSolomon} `{IncKem}.

(** ** What a party has sent *)

(** Both parties are live, and send in no epoch past their own. *)
Definition behind (sys : System) : Prop :=
  ∀ p, live (state (party sys p)) ∧ 0 ≤ state_epoch (state (party sys p))
    ∧ ∀ m, m ∈ sent sys p → msg_epoch m ≤ state_epoch (state (party sys p)).

Lemma behind_init auth_seed : behind (sys_init auth_seed).
Proof. intros []; (split_and!; [done..|by intros ? ?%elem_of_nil]). Qed.

Lemma behind_step sys sys' : behind sys → sys_step sys sys' → behind sys'.
Proof.
  intros Hb Hst. revert Hb.
  destruct Hst as [p rng sys out b' Hmax Hs|p msg sys out b' Hmax Hin Hr]; intros Hb q; simpl; destruct (Hb p) as (Hl & Hpos & Hm).
  - rewrite braid_send_run in Hs. destruct (state_send _ _) as [[[s1 m1] k1]|] eqn:E; [|done]. injection Hs as <- <-.
    apply state_send_spec in E as (Hl1 & He1 & Hm1 & _).
    destruct (decide (q = p)) as [->|]; [|rewrite !fn_lookup_insert_ne by done; apply Hb].
    rewrite !fn_lookup_insert. simpl. rewrite He1. split_and!; [done|lia|].
    intros m [->|Hin]%elem_of_cons; [lia|by apply Hm].
  - rewrite braid_receive_run in Hr. destruct (state_receive _ _) as [[s1 k1]|] eqn:E; [|done]. injection Hr as <- <-.
    apply state_receive_spec in E as (Hl1 & He1 & _); [|done|done|lia].
    destruct (decide (q = p)) as [->|]; [|rewrite !fn_lookup_insert_ne by done; apply Hb].
    rewrite !fn_lookup_insert. simpl. split_and!; [done|lia|]. intros m Hin'%Hm. lia.
Qed.

Lemma reachable_behind auth_seed sys : sys_reachable auth_seed sys → behind sys.
Proof.
  unfold sys_reachable. intros Hr. pose proof (behind_init auth_seed) as Hb. revert Hb.
  induction Hr as [|s1 s2 s3 Hs _ IH]; [done|]. intros Hb. by eapply IH, behind_step.
Qed.

(** ** One party *)

(** The indices of the codewords of the second ciphertext that are there to be had: too few
    to decode it. *)
Context (had : gset Z) (Hfew : (size had < data_shards_for (ct2_len + MAC_SIZE))%nat).

Definition within_had (e : Z) (m : Message) : Prop :=
  is_msg m e Ct2 = true → ∀ c, msg_chunk m = Some c → chunk_index c ∈ had.

(** The encapsulator after the forgery, and its peer before the ciphertext is complete. *)
Definition ahead (e : Z) (s : State) : Prop :=
  match s with KeysUnsampled e' _ | KeysSampled e' _ _ _ _ => e' = e + 1 | _ => False end.
Definition waits (e : Z) (s : State) : Prop :=
  match s with
  | Ct1Received e' _ _ _ _ => e' = e
  | EkSentCt1Received e' _ _ _ dec =>
      e' = e ∧ data_shards dec = data_shards_for (ct2_len + MAC_SIZE) ∧ dom (received dec) ⊆ had
  | _ => False
  end.

Lemma is_msg_epoch m e t : msg_epoch m ≠ e → is_msg m e t = false.
Proof. intros. unfold is_msg. by rewrite bool_decide_eq_false_2. Qed.
Lemma ahead_epochs e s : ahead e s → state_epoch s = e + 1 ∧ emitted_upto s = e.
Proof. clear Hfew. destruct s; simpl; try done; lia. Qed.
Lemma waits_epochs e s : waits e s → state_epoch s = e ∧ emitted_upto s = e - 1.
Proof. clear Hfew. destruct s; simpl; try done; [lia|]. intros [-> _]. lia. Qed.
Lemma is_msg_carrying e t c e' t' : t ≠ t' → is_msg (carrying e t c) e' t' = false.
Proof. intros. unfold is_msg. simpl. rewrite (bool_decide_eq_false_2 (t = t')) by done. apply andb_false_r. Qed.

Lemma ahead_send e s rng s' m k :
  ahead e s → state_send s rng = Ok (s', m, k) → ahead e s' ∧ is_msg m e Ct2 = false ∧ msg_epoch m = e + 1.
Proof.
  intros Ha Hs. destruct s; try done; simpl in Hs; run_handler; simplify_eq/=; eauto using is_msg_carrying.
Qed.
Lemma waits_send e s rng s' m k :
  waits e s → state_send s rng = Ok (s', m, k) → waits e s' ∧ is_msg m (e + 1) Ct1 = false.
Proof.
  intros Ha Hs. destruct s; try done; simpl in Hs; run_handler; simplify_eq/=; eauto using is_msg_carrying.
  split; [done|]. unfold is_msg. simpl. apply andb_false_r.
Qed.
Lemma ahead_receive e s m s' k :
  ahead e s → is_msg m (e + 1) Ct1 = false → state_receive s m = Ok (s', k) → s' = s.
Proof.
  intros Ha Hm Hs. destruct s; try done; simpl in Ha, Hs; [by simplify_eq|].
  unfold recv_keys_sampled in Hs. rewrite Ha, Hm in Hs. by simplify_eq.
Qed.
(** A decoder that takes no more than [had] stays incomplete. *)
Lemma had_incomplete dec dec' m e :
  data_shards dec = data_shards_for (ct2_len + MAC_SIZE) → dom (received dec) ⊆ had →
  is_msg m e Ct2 = true → within_had e m → msg_add_chunk dec m = Ok dec' →
  data_shards dec' = data_shards_for (ct2_len + MAC_SIZE) ∧ dom (received dec') ⊆ had ∧ message dec' = Ok None.
Proof.
  intros Hk Hd Hty Hh Ha. unfold msg_add_chunk in Ha. apply result_bind_Ok in Ha as (c & Hc%ok_or_Ok & Ha).
  pose proof (Hh Hty c Hc) as Hin. pose proof (add_chunk_dom _ _ _ Ha) as Hdom.
  assert (data_shards dec' = data_shards dec) as Hk' by (unfold add_chunk in Ha; by repeat case_match; simplify_eq).
  assert (dom (received dec') ⊆ had) as Hsub by (rewrite Hdom; apply union_subseteq; split; [by apply singleton_subseteq_l|done]).
  split_and!; [congruence|done|]. apply subseteq_size in Hsub as Hsz. rewrite size_dom in Hsz.
  unfold message, has_message. rewrite Hk', Hk. by rewrite (proj2 (Nat.leb_gt _ _)) by lia.
Qed.

Lemma waits_receive e s m s' k :
  waits e s → within_had e m → state_receive s m = Ok (s', k) → waits e s' ∧ k = None.
Proof.
  intros Hw Hh Hs. destruct s; try done; simpl in Hw, Hs.
  - unfold recv_ct1_received in Hs. destruct (is_msg m epoch Ct2) eqn:Ety; [|by simplify_eq].
    apply result_bind_Ok in Hs as (dec & Ha & Hs). injection Hs as <- <-. subst epoch. simpl.
    destruct (had_incomplete (decoder_new (ct2_len + MAC_SIZE)) dec m e) as (? & ? & _); try done.
  - unfold recv_ek_sent_ct1_received in Hs. destruct Hw as (-> & Hk & Hd).
    destruct (is_msg m e Ct2) eqn:Ety; [|by simplify_eq].
    apply result_bind_Ok in Hs as (dec' & Ha & Hs).
    destruct (had_incomplete _ dec' m e Hk Hd Ety Hh Ha) as (Hk' & Hd' & Hm). rewrite Hm in Hs. by simplify_eq/=.
Qed.
(** Messages of other epochs leave the waiting party as it is. *)
Lemma waits_other e s m : waits e s → msg_epoch m ≠ e → state_receive s m = Ok (s, None).
Proof.
  intros Hw He. destruct s; try done; simpl in Hw |- *.
  - subst. unfold recv_ct1_received. by rewrite is_msg_epoch.
  - destruct Hw as [-> _]. unfold recv_ek_sent_ct1_received. by rewrite is_msg_epoch.
Qed.

(** The invariant of one ratchet, through a call of either kind. *)
Lemma send_inv sk secrets st rng :
  spqr_inv sk secrets st → state_epoch (state (braid st)) < u64_max →
  (∀ m, send_count st (state_epoch (state (braid st)) - 1) = Some m → m < u32_max) →
  ∃ secrets', spqr_inv sk secrets' (ratchet_send_key rng st).2.
Proof.
  intros Hinv Hmax Hcnt. pose proof (ratchet_send_key_ok sk secrets st rng Hinv Hmax Hcnt) as Hs.
  destruct (braid_send rng (braid st)) as [[out|err] b]; [|rewrite Hs; eauto].
  destruct Hs as (m & st' & _ & -> & Hinv' & _). eauto.
Qed.
Lemma receive_inv sk secrets st msg pq_n :
  spqr_inv sk secrets st → state_epoch (state (braid st)) < u64_max → in_u32 pq_n →
  ∃ secrets', spqr_inv sk secrets' (ratchet_receive_key msg pq_n st).2.
Proof.
  intros Hinv Hmax Hn. pose proof (ratchet_receive_key_ok sk secrets st msg pq_n Hinv Hmax Hn) as Hs.
  destruct (braid_receive msg (braid st)) as [[out|err] b]; [|rewrite Hs; eauto].
  destruct Hs as (st' & -> & Hinv' & _). eauto.
Qed.

(** The waiting peer has no keys for what the other party sends. *)
Lemma waits_refuses sk secrets e st m pq_n :
  spqr_inv sk secrets st → waits e (state (braid st)) → msg_epoch m = e + 1 → e < u64_max → in_u32 pq_n →
  ratchet_receive_key m pq_n st = (Err (no_recv_chain e), st).
Proof.
  clear Hfew. intros Hinv Hw Hm Hmax Hn. destruct (waits_epochs _ _ Hw) as [He Hu]. pose proof (si_pos _ _ _ Hinv) as Hpos.
  pose proof (waits_other _ _ m Hw ltac:(lia)) as E.
  unfold ratchet_receive_key, m_zoom. unfold mbind at 1, m_bind at 1. rewrite braid_receive_run, E. 
  cbn [sr_output_key receiving_epoch incorporate]. rewrite (m_bind_run _ _ _ () (set_braid (mk_braid (state (braid st))) st)) by done.
  assert (set_braid (mk_braid (state (braid st))) st = st) as -> by (by destruct st as [[]]).
  replace (sat_sub (msg_epoch m) 1) with e by (unfold sat_sub; lia).
  pose proof (si_keys _ _ _ Hinv) as Hok. pose proof (si_emitted _ _ _ Hinv) as Hep.
  assert (recv_count st e = None) as Hc.
  { destruct (recv_count st e) eqn:Er; [|done]. apply (recv_count_epoch _ _ _ _ _ Hok) in Er as [? _]. lia. }
  assert (skipped_key st e pq_n = None) as Hsk.
  { destruct (skipped_key st e pq_n) eqn:Er; [|done]. destruct (ko_skipped _ _ _ Hok _ _ _ Er) as (_ & c & Hc' & _). congruence. }
  unfold derive_receive_key. rewrite (m_bind_run _ _ _ _ _ (try_skipped_none _ _ _ Hsk)). by apply advance_to_none.
Qed.

End states.

(** ** The deadlock *)

Section deadlock.
Context `{Hashes} `{ReedSolomon} `{IncKem}.
Context (ss : bytes) (p : bool) (e : Z) (had : gset Z) (Hfew : (size had < data_shards_for (ct2_len + MAC_SIZE))%nat).

(** Neither party has sent, or will send, what the other waits for; [before] is what [p]
    had sent before the forgery. *)
Record stuck (before : list Message) (sys : RatchetPair) : Prop := {
  sk_inv q : ∃ secrets, spqr_inv (braid_auth_seed ss) secrets (rp_state sys q);
  sk_ahead : ahead e (state (braid (rp_state sys p)));
  sk_waits : waits had e (state (braid (rp_state sys (negb p))));
  sk_sent m : m ∈ rp_wire sys p → within_had had e m ∧ (m ∈ before ∨ msg_epoch m = e + 1);
  sk_peer_sent m : m ∈ rp_wire sys (negb p) → is_msg m (e + 1) Ct1 = false;
}.

Lemma sent_msg_inv rng st r st' m :
  ratchet_send_key rng st = (r, st') → m ∈ sent_msg r →
  ∃ s' k, state_send (state (braid st)) rng = Ok (s', m, k) ∧ braid st' = mk_braid s'.
Proof.
  intros Hr Hm. destruct r as [[[msg n] mk]|]; [|by apply elem_of_nil in Hm].
  apply list_elem_of_singleton in Hm as ->. destruct (ratchet_send_key_msg _ _ _ _ _ _ Hr) as (out & b & Hb & ->).
  pose proof (ratchet_send_key_braid rng st) as Hbr. rewrite Hr, Hb in Hbr. simpl in Hbr.
  rewrite braid_send_run in Hb. destruct (state_send _ _) as [[[s' m] k]|]; [|done]. simplify_eq. eauto.
Qed.

(** A call that fails before it sends still leaves the party in its place. *)
Lemma send_stays (Q : State → Prop) rng st :
  (∀ s' m k, state_send (state (braid st)) rng = Ok (s', m, k) → Q s') → Q (state (braid st)) →
  Q (state (braid (ratchet_send_key rng st).2)).
Proof.
  intros Hs Hq. rewrite ratchet_send_key_braid, braid_send_run.
  destruct (state_send _ _) as [[[s' m] k]|] eqn:E; [|done]. by eapply Hs.
Qed.
Lemma receive_stays (Q : State → Prop) msg pq_n st :
  (∀ s' k, state_receive (state (braid st)) msg = Ok (s', k) → Q s') → Q (state (braid st)) →
  Q (state (braid (ratchet_receive_key msg pq_n st).2)).
Proof.
  intros Hs Hq. rewrite ratchet_receive_key_braid, braid_receive_run.
  destruct (state_receive _ _) as [[s' k]|] eqn:E; [|done]. by eapply Hs.
Qed.

Lemma stuck_send before sys q rng r st' :
  stuck before sys → state_epoch (state (braid (rp_state sys q))) < u64_max →
  (∀ m, send_count (rp_state sys q) (state_epoch (state (braid (rp_state sys q))) - 1) = Some m → m < u32_max) →
  ratchet_send_key rng (rp_state sys q) = (r, st') →
  stuck before (mk_pair (<[q := st']> (rp_state sys)) (<[q := sent_msg r ++ rp_wire sys q]> (rp_wire sys))
                        (<[q := sent_use q r ++ rp_keys sys q]> (rp_keys sys))).
Proof.
  intros [Hinv Ha Hw Hs Hps] Hmax Hcnt Hr.
  assert (st' = (ratchet_send_key rng (rp_state sys q)).2) as Hst by (by rewrite Hr).
  split; simpl.
  - intros q'. destruct (decide (q' = q)) as [->|]; [rewrite fn_lookup_insert|rewrite fn_lookup_insert_ne by done; apply Hinv].
    destruct (Hinv q) as [secrets Hi]. rewrite Hst. by eapply send_inv.
  - destruct (decide (q = p)) as [->|]; [rewrite fn_lookup_insert|by rewrite fn_lookup_insert_ne].
    rewrite Hst. apply send_stays; [|done]. intros s1 m k E. by destruct (ahead_send _ _ _ _ _ _ Ha E).
  - destruct (decide (q = negb p)) as [->|]; [rewrite fn_lookup_insert|by rewrite fn_lookup_insert_ne].
    rewrite Hst. apply send_stays; [|done]. intros s1 m k E. by destruct (waits_send _ _ _ _ _ _ _ Hw E).
  - intros m. destruct (decide (q = p)) as [->|]; [rewrite fn_lookup_insert|rewrite fn_lookup_insert_ne by done; apply Hs].
    intros [Hm|Hm]%elem_of_app; [|by apply Hs]. destruct (sent_msg_inv _ _ _ _ _ Hr Hm) as (s1 & k & E & _).
    destruct (ahead_send _ _ _ _ _ _ Ha E) as (_ & Hno & ?). split; [by intros Hty; rewrite Hno in Hty|auto].
  - intros m. destruct (decide (q = negb p)) as [->|]; [rewrite fn_lookup_insert|rewrite fn_lookup_insert_ne by done; apply Hps].
    intros [Hm|Hm]%elem_of_app; [|by apply Hps]. destruct (sent_msg_inv _ _ _ _ _ Hr Hm) as (s1 & k & E & _).
    by destruct (waits_send _ _ _ _ _ _ _ Hw E).
Qed.

Lemma stuck_deliver before sys q msg pq_n r st' :
  stuck before sys → state_epoch (state (braid (rp_state sys q))) < u64_max →
  msg ∈ rp_wire sys (negb q) → in_u32 pq_n → ratchet_receive_key msg pq_n (rp_state sys q) = (r, st') →
  stuck before (mk_pair (<[q := st']> (rp_state sys)) (rp_wire sys)
                        (<[q := recv_use q msg pq_n r ++ rp_keys sys q]> (rp_keys sys))).
Proof.
  intros [Hinv Ha Hw Hs Hps] Hmax Hin Hn Hr.
  assert (st' = (ratchet_receive_key msg pq_n (rp_state sys q)).2) as Hst by (by rewrite Hr).
  split; simpl; [..|exact Hs|exact Hps].
  - intros q'. destruct (decide (q' = q)) as [->|]; [rewrite fn_lookup_insert|rewrite fn_lookup_insert_ne by done; apply Hinv].
    destruct (Hinv q) as [secrets Hi]. rewrite Hst. by eapply receive_inv.
  - destruct (decide (q = p)) as [->|]; [rewrite fn_lookup_insert|by rewrite fn_lookup_insert_ne].
    rewrite Hst. apply receive_stays; [|done]. intros s1 k E. by rewrite (ahead_receive _ _ _ _ _ Ha (Hps _ Hin) E).
  - destruct (decide (q = negb p)) as [->|]; [rewrite fn_lookup_insert|by rewrite fn_lookup_insert_ne].
    rewrite negb_involutive in Hin. destruct (Hs _ Hin) as [Hm _].
    rewrite Hst. apply receive_stays; [|done]. intros s1 k E. exact (proj1 (waits_receive _ Hfew _ _ _ _ _ Hw Hm E)).
Qed.

Lemma stuck_steps before sys sys' : rtc pair_step sys sys' → stuck before sys → stuck before sys'.
Proof.
  induction 1 as [|s1 s2 s3 Hs _ IH]; [done|]. intros Hk. apply IH.
  destruct Hs; [by eapply stuck_send|by eapply stuck_deliver].
Qed.

(** C22. One forged epoch number deadlocks two honest ratchets and makes one of them
    unreadable.  The encapsulator [p] has sampled its second ciphertext; the codewords of
    it that it has sent, and those its peer holds, have their indices in [had], which are
    fewer than the data shards needed to decode it.  Now [p] receives a message of the
    next epoch, of any type, content and counter (in a session, with any ciphertext: the
    tag is checked later).  From then on, whatever the two send and whatever the network
    delivers, neither ever reaches another epoch, and every message [p] sends is refused
    by its peer. *)
Theorem forged_epoch_deadlocks sys auth enc m pq_n :
  pair_reachable ss sys → e + 1 < u64_max →
  state (braid (rp_state sys p)) = Ct2Sampled e auth enc → waits had e (state (braid (rp_state sys (negb p)))) →
  (∀ m', m' ∈ rp_wire sys p → within_had had e m') →
  msg_epoch m = e + 1 → in_u32 pq_n →
  let st := (ratchet_receive_key m pq_n (rp_state sys p)).2 in
  ∀ sys', rtc pair_step (mk_pair (<[p := st]> (rp_state sys)) (rp_wire sys) (rp_keys sys)) sys' →
    epoch (rp_state sys' p) = e ∧ epoch (rp_state sys' (negb p)) = e - 1
    ∧ ∀ m', m' ∈ rp_wire sys' p → m' ∈ rp_wire sys p
        ∨ ∀ n, in_u32 n → ratchet_receive_key m' n (rp_state sys' (negb p))
                          = (Err (no_recv_chain e), rp_state sys' (negb p)).
Proof.
  intros Hreach Hmax Hst Hw Hsent Hm Hn st sys' Hsteps.
  destruct (pair_simulates ss sys Hreach) as (bsys & Hb%reachable_behind & Hall).
  assert (∀ q, ∃ secrets, spqr_inv (braid_auth_seed ss) secrets (rp_state sys q)) as Hinv
    by (intros q; destruct (Hall q) as (_ & _ & Hi & _); eauto).
  destruct (Hinv p) as [secrets Hi]. pose proof (si_pos _ _ _ Hi) as Hpos. rewrite Hst in Hpos. simpl in Hpos.
  assert (stuck (rp_wire sys p) sys') as [Hinv' Ha' Hw' Hs' _].
  { apply (stuck_steps _ _ _ Hsteps). split; simpl.
    - intros q. destruct (decide (q = p)) as [->|]; [rewrite fn_lookup_insert|rewrite fn_lookup_insert_ne by done; apply Hinv].
      eapply receive_inv; [exact Hi|rewrite Hst; simpl; lia|done].
    - rewrite fn_lookup_insert. unfold st. rewrite ratchet_receive_key_braid, braid_receive_run, Hst. simpl.
      unfold recv_ct2_sampled. rewrite add_u64_small, bool_decide_eq_true_2 by lia. done.
    - by rewrite fn_lookup_insert_ne by (by destruct p).
    - intros m' Hin. auto.
    - intros m' Hin. destruct (Hall (negb p)) as (Hq & Hwire & _), (Hb (negb p)) as (_ & _ & Hle).
      rewrite <-Hwire in Hin. apply is_msg_epoch. apply Hle in Hin. rewrite Hq in Hin.
      destruct (waits_epochs _ _ _ Hw). lia. }
  destruct (Hinv' p) as [sec1 H1'], (Hinv' (negb p)) as [sec2 H2'].
  destruct (ahead_epochs _ _ Ha') as [_ E1], (waits_epochs _ _ _ Hw') as [_ E2].
  rewrite <-(si_emitted _ _ _ H1'), <-(si_emitted _ _ _ H2'). split_and!; [done|done|].
  intros m' [_ [?|He]]%Hs'; [by left|right]. intros n' Hn'. by eapply waits_refuses; [exact H2'|done..|lia|done].
Qed.

End deadlock.
