(* ===== verification/PqFlow.v ===== *)
(** * The post-quantum ratchet over a lossy, reordering network

    One direction of traffic between two post-quantum ratchets: how many messages the
    sender has numbered in each epoch, which of them are still on their way, and that
    each of those can still be received while the receiver holds the chain of its epoch
    ([pq_flow]).  The invariant is preserved by every call of either party, so a message
    of an epoch at most two behind the receiver's is always given its key. *)

From stdpp Require Import functions.
From S2P Require Import Prelude Foundation Interfaces Kdf Padding Erasure Kem BraidAuth Braid.
From S2P Require Import BraidAgreement BraidProgress Spqr SpqrKeys SpqrRetention SpqrAgreement.

(** The epoch a party sends in. *)
Definition sending (st : SpqrState) : Z := state_epoch (state (braid st)) - 1.

(** ** What a call does to the counters *)

(** A send that numbers its message [m]. *)
Record send_effect (m : Z) (st st' : SpqrState) : Prop := {
  se_sending : sending st' = sending st;
  se_before : send_count st (sending st) = Some (m - 1);
  se_after : send_count st' (sending st) = Some m;
  se_later e j : sending st < e → send_count st' e = Some j → send_count st e = Some j ∨ j = 0;
  se_recv e : recv_count st' e = recv_count st e ∨ recv_count st' e = None
              ∨ epoch st < e ∧ recv_count st' e = Some 0;
  se_pending e j : e ≤ epoch st → is_Some (recv_count st' e) → pending st e j → pending st' e j;
}.

(** The receipt of message [m] of epoch [e0], successful if [ok]. *)
Record recv_effect (e0 m : Z) (ok : bool) (st st' : SpqrState) : Prop := {
  re_sending : sending st ≤ sending st' ≤ sending st + 1;
  re_sends e : e ≤ epoch st → send_count st' e = send_count st e;
  re_new_sends e j : epoch st < e → send_count st' e = Some j → j = 0;
  re_has_send : is_Some (send_count st' (sending st'));
  re_other k : k ≠ e0 → recv_count st' k = recv_count st k ∨ epoch st < k ∧ recv_count st' k = Some 0;
  re_chain cur' : recv_count st' e0 = Some cur' →
    ∃ cur, recv_count st e0 = Some cur ∧ cur ≤ cur' ≤ Z.max cur m;
  re_pending k j : (k, j) ≠ (e0, m) → pending st k j → pending st' k j;
  re_ok cur' : ok = true → recv_count st' e0 = Some cur' → m ≤ cur';
}.

Section effects.
Context `{Hashes} `{ReedSolomon} `{IncKem}.

Lemma has_send_Some st e : has_send st e → is_Some (send_count st e).
Proof. intros (c & ch & Hc & Hs). unfold send_count. rewrite Hc, bind_Some_eq, Hs. eauto. Qed.

Lemma ratchet_send_key_effect sk secrets st rng :
  spqr_inv sk secrets st → sending st + 1 < u64_max →
  (∀ m, send_count st (sending st) = Some m → m < u32_max) →
  is_ok (braid_send rng (braid st)).1 = true →
  ∃ msg m mk st', ratchet_send_key rng st = (Ok (msg, m, mk), st')
    ∧ msg_epoch msg = sending st + 1 ∧ send_effect m st st'.
Proof.
  unfold sending. intros Hinv Hmax Hcnt Hok. replace (_ - 1 + 1) with (state_epoch (state (braid st))) in * by lia.
  pose proof (ratchet_send_key_ok sk secrets st rng Hinv Hmax Hcnt) as Hspec.
  destruct (braid_send rng (braid st)) as [[out|err] b'] eqn:Eb; [|done].
  destruct Hspec as (m & st' & Hm & Hr & Hinv' & Hb & _ & _ & Hlater & Hafter).
  destruct (ratchet_send_key_recv _ _ _ _ _ _ Eb Hr) as [Hc Hk].
  rewrite braid_send_run in Eb. destruct (state_send _ _) as [[[s1 m1] k1]|] eqn:Es; [|done].
  injection Eb as <- <-. apply state_send_spec in Es as (_ & He1 & Hme & Hnext). cbn [ss_msg ss_output_key] in *.
  eexists _, _, _, st'. split_and!; [done|done|].
  assert (∀ e, Some e = es_epoch <$> k1 → epoch st < e) as Hnew.
  { intros e He. destruct k1 as [es|]; [|done]. injection He as ->. destruct Hnext as [-> _].
    rewrite (si_emitted _ _ _ Hinv). lia. }
  split; unfold sending; [rewrite Hb; simpl; lia|rewrite Hm; f_equal; lia|done| | |].
  - intros e j He Hj. destruct (Hlater e j ltac:(lia) Hj) as [[-> _]|Ho]; [lia|done].
  - intros e. rewrite Hc. case_bool_decide; [by right; left|]. case_bool_decide as He; [|by left].
    right. right. auto.
  - intros e j He [cur Hcur] Hp. unfold pending in *. rewrite Hk. rewrite Hc in Hcur |- *.
    case_bool_decide; [done|]. case_bool_decide as Hn; [apply Hnew in Hn; lia|done].
Qed.

(** Deriving a receive key leaves the sending chains as the braid's output left them. *)
Lemma ratchet_receive_key_sends st msg m s1 k1 st1 r st' :
  state_receive (state (braid st)) msg = Ok (s1, k1) → incorporate k1 (set_braid (mk_braid s1) st) = (Ok (), st1) →
  ratchet_receive_key msg m st = (r, st') → ∀ e, send_count st' e = send_count st1 e.
Proof.
  intros Es Hi Hr e. unfold ratchet_receive_key in Hr.
  rewrite (m_bind_run _ _ st (mk_scka_receive (sat_sub (msg_epoch msg) 1) k1) (set_braid (mk_braid s1) st)) in Hr
    by (unfold m_zoom; by rewrite braid_receive_run, Es).
  cbn [sr_output_key receiving_epoch] in Hr. rewrite (m_bind_run _ _ _ _ _ Hi) in Hr.
  unfold send_count. f_equal. pose proof (derive_receive_key_sends (sat_sub (msg_epoch msg) 1) m st1 e) as Hsame.
  by rewrite Hr in Hsame.
Qed.

Lemma ratchet_receive_key_effect sk secrets st msg m :
  spqr_inv sk secrets st → sending st + 1 < u64_max → in_u32 m →
  is_ok (braid_receive msg (braid st)).1 = true → 1 ≤ msg_epoch msg ≤ epoch st + 1 →
  ∃ r st', ratchet_receive_key msg m st = (r, st') ∧ recv_effect (msg_epoch msg - 1) m (is_ok r) st st'
    ∧ (pending st (msg_epoch msg - 1) m → recv_bounded (u32_max - MAX_SKIP) st →
       (∀ cur, recv_count st (msg_epoch msg - 1) = Some cur → m - 1 ≤ cur + MAX_SKIP) → is_ok r = true).
Proof.
  unfold sending at 1. intros Hinv Hmax Hn Hok He0.
  replace (_ - 1 + 1) with (state_epoch (state (braid st))) in * by lia.
  pose proof (ratchet_receive_key_ok sk secrets st msg m Hinv Hmax Hn) as Hspec.
  pose proof (si_pos _ _ _ Hinv) as Hpos. pose proof (emitted_ge (state (braid st))) as Hge.
  pose proof (si_emitted _ _ _ Hinv) as Hem.
  rewrite braid_receive_run in Hok, Hspec. destruct (state_receive _ _) as [[s1 k1]|] eqn:Es; [|done].
  pose proof Es as Es0. apply state_receive_spec in Es as (_ & Hse & Hnext); [|apply Hinv|done|lia].
  cbn [sr_output_key receiving_epoch] in Hspec. unfold sat_sub in Hspec. rewrite Z.max_r in Hspec by lia.
  destruct (incorporate_ok sk secrets st (mk_braid s1) k1 Hinv Hnext ltac:(lia)) as
    (st1 & Hi & Hok1 & Hb1 & Hd1 & Hep1 & _ & Hch1 & Hsc1 & Hs1).
  rewrite Hi in Hspec. cbn [snd] in Hspec. pose proof (incorporate_recv _ _ _ Hi) as [Hc1 Hk1].
  set (e0 := msg_epoch msg - 1) in *. set (ans := receive_answer _ _ st1 e0 m) in *.
  destruct Hspec as (st' & Hr & Hinv' & Hb' & _ & _ & Hsp & _ & Hrp & Hrb & Hro & Hrc).
  assert (∀ e, recv_count st1 e = recv_count st e ∨ epoch st < e ∧ recv_count st1 e = Some 0) as Hc1'.
  { intros e. rewrite Hc1. case_bool_decide as He; [|by left]. right. split; [|done].
    destruct k1 as [es|]; [|done]. injection He as ->. simpl in Hnext. lia. }
  assert (recv_count st1 e0 = recv_count st e0) as Hce by (destruct (Hc1' e0) as [|[? _]]; [done|lia]).
  assert (∀ k j, pending st k j → pending st1 k j) as Hp1.
  { intros k j. unfold pending. rewrite Hk1, Hc1. case_bool_decide as He; [|done].
    intros [?|(cur & Hcur & _)]; [by left|]. destruct (recv_count_epoch _ _ _ _ _ (si_keys _ _ _ Hinv) Hcur).
    destruct k1 as [es|]; [|done]. injection He as ->. simpl in Hnext. lia. }
  pose proof (ratchet_receive_key_sends st msg m s1 k1 st1 ans st' Es0 Hi Hr) as Hsends.
  exists ans, st'. split_and!; [done| |].
  2:{ intros Hp Hbd Hgap. unfold ans. rewrite pending_answer; [done|done|by apply Hp1| |by rewrite Hce].
      intros e cur Hcur. destruct (Hc1' e) as [E|[_ E]]; rewrite E in Hcur; [by eapply Hbd|].
      injection Hcur as <-. unfold u32_max, MAX_SKIP. lia. }
  assert (sending st' = state_epoch s1 - 1) as Hse' by (unfold sending; by rewrite Hb').
  split.
  - rewrite Hse'. unfold sending. lia.
  - intros e He. rewrite Hsends. unfold send_count. by rewrite Hch1.
  - intros e j He. rewrite Hsends. intros [Hj|]%Hsc1; [|done].
    apply has_send_count in Hj as (c & ch & Hc & _).
    destruct (ko_chains _ _ _ (si_keys _ _ _ Hinv) e c Hc) as [Hb _].
    rewrite <-(ko_epoch _ _ _ (si_keys _ _ _ Hinv)) in Hb. lia.
  - apply has_send_Some, (si_send _ _ _ Hinv'). rewrite Hb'. unfold sending. rewrite Hb'. simpl.
    pose proof (emitted_ge s1). rewrite <-(si_emitted _ _ _ Hinv'), Hb'. simpl. lia.
  - intros k Hk. rewrite Hro by done. apply Hc1'.
  - intros cur'. rewrite <-Hce. apply Hrc.
  - intros k j Hne Hp. by apply Hrp, Hp1.
  - intros cur' Hans Hcur'. destruct (Hsp Hans) as [_ (_ & _ & Hle)]. by apply Hle.
Qed.

End effects.

(** ** One direction of traffic *)

(** The counters a flow may reach: the skip check of the source adds [MAX_SKIP] to a
    counter in 32 bits. *)
Definition PQ_LIMIT : Z := u32_max - MAX_SKIP.

(** [T e] messages have been numbered in epoch [e]; [F] are the (epoch, counter) pairs of
    the messages that have not arrived. *)
Record pq_flow (T : Z → Z) (F : list (Z * Z)) (snd rcv : SpqrState) : Prop := {
  pf_count : send_count snd (sending snd) = Some (T (sending snd));
  pf_later e : sending snd < e → T e = 0 ∧ ∀ j, send_count snd e = Some j → j = 0;
  pf_range e : 0 ≤ T e ≤ PQ_LIMIT;
  pf_recv e cur : recv_count rcv e = Some cur → cur ≤ T e;
  pf_flight e m : (e, m) ∈ F →
    0 ≤ e ≤ sending snd ∧ 1 ≤ m ≤ T e ∧ (is_Some (recv_count rcv e) → pending rcv e m);
  pf_gap e m cur : recv_count rcv e = Some cur → cur < m ≤ T e → (e, m) ∈ F;
  pf_nodup : NoDup F;
}.

Lemma flow_send T F snd rcv m snd' :
  pq_flow T F snd rcv → send_effect m snd snd' → 0 ≤ sending snd → m ≤ PQ_LIMIT →
  pq_flow (<[sending snd := m]> T) ((sending snd, m) :: F) snd' rcv.
Proof.
  intros [Hc Hl Hr Hrc Hf Hg Hnd] [Es Eb Ea El _ _] Hse Hm. rewrite Hc in Eb. injection Eb as Eb.
  pose proof (Hr (sending snd)) as Hr0.
  assert (∀ e, T e ≤ <[sending snd := m]> T e) as Hmono.
  { intros e. destruct (decide (e = sending snd)) as [->|]; [rewrite fn_lookup_insert|rewrite fn_lookup_insert_ne by done]; lia. }
  split.
  - rewrite Es, fn_lookup_insert. done.
  - intros e He. rewrite Es in He. rewrite fn_lookup_insert_ne by lia. destruct (Hl e He) as [HT Hj].
    split; [done|]. intros j Hj'. destruct (El e j He Hj') as [?| ->]; auto.
  - intros e. destruct (decide (e = sending snd)) as [->|];
      [rewrite fn_lookup_insert; lia|rewrite fn_lookup_insert_ne by done; apply Hr].
  - intros e cur Hcur. specialize (Hrc e cur Hcur). specialize (Hmono e). lia.
  - intros e j [[= -> ->]|Hin]%elem_of_cons; rewrite Es.
    + rewrite fn_lookup_insert. split_and!; [lia..|]. intros [cur Hcur]. right. exists cur.
      split; [done|]. specialize (Hrc _ _ Hcur). lia.
    + destruct (Hf e j Hin) as (? & ? & ?). specialize (Hmono e). split_and!; [lia..|done].
  - intros e j cur Hcur Hj. destruct (decide (e = sending snd)) as [->|].
    + rewrite fn_lookup_insert in Hj. destruct (decide (j = m)) as [->|]; [by left|].
      right. apply (Hg _ _ cur Hcur). lia.
    + rewrite fn_lookup_insert_ne in Hj by done. right. by apply (Hg _ _ cur).
  - constructor; [|done]. intros Hin. destruct (Hf _ _ Hin). lia.
Qed.

Lemma flow_peer_send T F snd rcv m rcv' :
  pq_flow T F snd rcv → send_effect m rcv rcv' → sending snd ≤ epoch rcv → pq_flow T F snd rcv'.
Proof.
  intros [Hc Hl Hr Hrc Hf Hg Hnd] [_ _ _ _ Er Ep] Hk. split; try done.
  - intros e cur Hcur. destruct (Er e) as [E|[E|[_ E]]]; rewrite E in Hcur; [by apply Hrc|done|].
    injection Hcur as <-. apply Hr.
  - intros e j Hin. destruct (Hf e j Hin) as (He & Hj & Hp). split_and!; [lia..|]. intros Hs.
    apply Ep; [lia|done|]. apply Hp. destruct (Er e) as [<-|[E|[? _]]]; [done| |lia].
    rewrite E in Hs. by destruct Hs.
  - intros e j cur Hcur Hj. destruct (Er e) as [E|[E|[He E]]]; rewrite E in Hcur; [by eapply Hg|done|].
    destruct (Hl e ltac:(lia)). injection Hcur as <-. lia.
Qed.

Lemma flow_recv T F F' snd rcv e0 m0 ok rcv' :
  pq_flow T F snd rcv → F ≡ₚ (e0, m0) :: F' → recv_effect e0 m0 ok rcv rcv' → sending snd ≤ epoch rcv →
  (is_Some (recv_count rcv e0) → ok = true) → pq_flow T F' snd rcv'.
Proof.
  intros [Hc Hl Hr Hrc Hf Hg Hnd] HF [_ _ _ _ Eo Ec Ep Eok] Hk Hok.
  rewrite HF in Hnd. apply list.NoDup_cons in Hnd as [Hnin Hnd].
  assert (∀ x, x ∈ F' → x ∈ F) as Hsub by (intros x Hx; rewrite HF; by right).
  assert ((e0, m0) ∈ F) as Hin0 by (rewrite HF; by left). destruct (Hf _ _ Hin0) as (He0 & Hm0 & _).
  assert (∀ e, e ≤ epoch rcv → is_Some (recv_count rcv' e) → is_Some (recv_count rcv e)) as Hback.
  { intros e He [cur' Hcur']. destruct (decide (e = e0)) as [->|Hne].
    - destruct (Ec cur' Hcur') as (cur & -> & _). eauto.
    - destruct (Eo e Hne) as [<-|[? _]]; [eauto|lia]. }
  split; try done.
  - intros e cur' Hcur'. destruct (decide (e = e0)) as [->|Hne].
    + destruct (Ec cur' Hcur') as (cur & Hcur & Hb). specialize (Hrc _ _ Hcur). lia.
    + destruct (Eo e Hne) as [E|[_ E]]; rewrite E in Hcur'; [by apply Hrc|]. injection Hcur' as <-. apply Hr.
  - intros e j Hin. destruct (Hf e j (Hsub _ Hin)) as (He & Hj & Hp). split_and!; [lia..|]. intros Hs.
    apply Ep; [by intros [= -> ->]|]. apply Hp, Hback; [lia|done].
  - intros e j cur' Hcur' Hj. destruct (decide (e = e0)) as [->|Hne].
    + destruct (Ec cur' Hcur') as (cur & Hcur & Hb).
      assert (m0 ≤ cur') by (apply Eok; [apply Hok; eauto|done]).
      pose proof (Hg e0 j cur Hcur ltac:(lia)) as Hin. rewrite HF in Hin.
      apply elem_of_cons in Hin as [[= ->]|]; [lia|done].
    + destruct (Eo e Hne) as [E|[He E]]; rewrite E in Hcur'.
      * pose proof (Hg e j cur' Hcur' Hj) as Hin. rewrite HF in Hin.
        apply elem_of_cons in Hin as [[= -> ->]|]; [done|done].
      * destruct (Hl e ltac:(lia)). injection Hcur' as <-. lia.
Qed.

Lemma flow_peer_recv T F snd rcv e0 m0 ok snd' :
  pq_flow T F snd rcv → recv_effect e0 m0 ok snd snd' → sending snd ≤ epoch snd → pq_flow T F snd' rcv.
Proof.
  intros [Hc Hl Hr Hrc Hf Hg Hnd] [Es El En [j0 Hj0] _ _ _ _] Hep.
  assert (∀ e j, sending snd < e → send_count snd' e = Some j → j = 0) as Hzero.
  { intros e j He Hj. destruct (decide (e ≤ epoch snd)); [|apply (En e j); [lia|done]].
    rewrite El in Hj by done. by apply (Hl e He). }
  split; try done.
  - destruct (decide (sending snd' = sending snd)) as [->|]; [by rewrite El|].
    rewrite Hj0. f_equal. rewrite (Hzero (sending snd') j0) by (lia || done). symmetry. apply Hl. lia.
  - intros e He. split; [apply Hl; lia|]. intros j Hj. apply (Hzero e j); [lia|done].
  - intros e j Hin. destruct (Hf e j Hin) as (? & ? & ?). split_and!; [lia..|done].
Qed.

(** No message is further ahead of the receiver than the messages in flight. *)
Lemma flow_gap T F snd rcv e m cur :
  pq_flow T F snd rcv → (e, m) ∈ F → recv_count rcv e = Some cur → m - cur ≤ Z.of_nat (length F).
Proof.
  intros [Hc Hl Hr Hrc Hf Hg Hnd] Hin Hcur. destruct (Hf e m Hin) as (_ & Hm & _).
  destruct (decide (m ≤ cur)); [lia|].
  assert (((λ i, (e, i)) <$> seqZ (cur + 1) (m - cur)) ⊆+ F) as Hsub.
  { apply NoDup_submseteq; [apply NoDup_fmap; [by intros x y [=]|apply NoDup_seqZ]|].
    intros x (i & -> & Hi)%list_elem_of_fmap. apply elem_of_seqZ in Hi. apply (Hg e i cur Hcur). lia. }
  apply submseteq_length in Hsub. rewrite length_fmap, length_seqZ in Hsub. lia.
Qed.

(** ** Two parties *)

(** Room for one more message: epochs below [2^64], counters below the limit. *)
Definition pq_room (st : SpqrState) : Prop :=
  sending st + 1 < u64_max ∧ ∀ m, send_count st (sending st) = Some m → m < PQ_LIMIT.

Section joint.
Context `{HashesOk} `{ReedSolomonOk} `{IncKemOk}.

Record pq_joint (ss : bytes) (sys : RatchetPair) (T : bool → Z → Z) (F : bool → list (Z * Z)) : Prop := {
  pj_reach : pair_reachable ss sys;
  pj_retains p : retains (rp_state sys p);
  pj_flow p : pq_flow (T p) (F p) (rp_state sys p) (rp_state sys (negb p));
}.

Lemma pq_joint_init ss : pq_joint ss (pair_init ss) (λ _ _, 0) (λ _, []).
Proof.
  split; [apply rtc_refl|intros []; apply retains_init|].
  assert (∀ d e, send_count (spqr_init ss d) e = Some 0 ∧ recv_count (spqr_init ss d) e = Some 0 ∧ e = 0
                 ∨ send_count (spqr_init ss d) e = None ∧ recv_count (spqr_init ss d) e = None) as Hi.
  { intros d e. unfold send_count, recv_count, spqr_init. destruct (assign d _ _) as [send_ck recv_ck]. simpl.
    destruct (decide (e = 0)) as [->|]; [by left|right; by rewrite lookup_singleton_ne by done]. }
  intros p.
  assert (∀ q, rp_state (pair_init ss) q = spqr_init ss (role q)) as Hq by (by intros []). rewrite !Hq.
  assert (∀ d, sending (spqr_init ss d) = 0) as Hse by (by intros []).
  split; rewrite ?Hse; try done.
  - destruct (Hi (role p) 0) as [(-> & _)|[E _]]; [done|]. by destruct p.
  - intros e He. split; [done|]. intros j Hj. destruct (Hi (role p) e) as [(_ & _ & ?)|[E _]]; [lia|congruence].
  - intros e cur Hcur. destruct (Hi (role (negb p)) e) as [(_ & E & _)|[_ E]]; [|congruence].
    rewrite E in Hcur. by injection Hcur as <-.
  - by intros e m ?%elem_of_nil.
  - intros e m cur Hcur Hm. destruct (Hi (role (negb p)) e) as [(_ & E & _)|[_ E]]; [|congruence].
    rewrite E in Hcur. injection Hcur as <-. lia.
  - constructor.
Qed.

Context (Hmds : braid_recovers).

Lemma pair_braid_total ss sys p :
  pair_reachable ss sys →
  (∀ rng, is_ok (braid_send rng (braid (rp_state sys p))).1 = true)
  ∧ (∀ msg, msg ∈ rp_wire sys (negb p) → is_ok (braid_receive msg (braid (rp_state sys p))).1 = true).
Proof.
  intros (bsys & Hb & Hall)%pair_simulates. destruct (Hall p) as (<- & _), (Hall (negb p)) as (_ & <- & _).
  exact (braid_total Hmds _ bsys p Hb).
Qed.

Lemma pq_joint_send ss sys T F p rng :
  pq_joint ss sys T F → pq_room (rp_state sys p) →
  ∃ msg m mk st', ratchet_send_key rng (rp_state sys p) = (Ok (msg, m, mk), st')
    ∧ 0 ≤ msg_epoch msg - 1
    ∧ pq_joint ss
        (mk_pair (<[p := st']> (rp_state sys)) (<[p := msg :: rp_wire sys p]> (rp_wire sys))
           (<[p := mk_key_use (role p) (msg_epoch msg - 1) m mk :: rp_keys sys p]> (rp_keys sys)))
        (<[p := <[msg_epoch msg - 1 := m]> (T p)]> T) (<[p := (msg_epoch msg - 1, m) :: F p]> F).
Proof.
  intros [Hreach Hret Hflow] [Hmax Hcnt].
  destruct (pair_party ss sys p Hreach) as ((secrets & Hinv) & _ & _).
  destruct (pair_party ss sys (negb p) Hreach) as (_ & _ & Hk). rewrite negb_involutive in Hk.
  destruct (pair_braid_total ss sys p Hreach) as [Htot _].
  destruct (ratchet_send_key_effect _ secrets _ rng Hinv Hmax) as (msg & m & mk & st' & Hr & Hme & Heff);
    [intros j Hj; specialize (Hcnt j Hj); unfold PQ_LIMIT, MAX_SKIP in Hcnt; lia|by apply Htot|].
  pose proof (si_pos _ _ _ Hinv) as Hpos.
  exists msg, m, mk, st'. split_and!; [done|unfold sending in Hme; lia|].
  pose proof (Hcnt _ (se_before _ _ _ Heff)) as Hm.
  replace (msg_epoch msg - 1) with (sending (rp_state sys p)) by lia.
  assert (pair_step sys (mk_pair (<[p := st']> (rp_state sys)) (<[p := msg :: rp_wire sys p]> (rp_wire sys))
           (<[p := mk_key_use (role p) (sending (rp_state sys p)) m mk :: rp_keys sys p]> (rp_keys sys)))) as Hstep.
  { replace (sending (rp_state sys p)) with (msg_epoch msg - 1) by lia. apply (pair_send p rng sys (Ok (msg, m, mk)) st'); [| |exact Hr].
    - unfold sending in Hmax. lia.
    - intros j Hj. specialize (Hcnt j Hj). unfold PQ_LIMIT, MAX_SKIP in Hcnt. lia. }
  split; [by eapply rtc_r|..].
  - intros q. simpl. destruct (decide (q = p)) as [->|]; [rewrite fn_lookup_insert|by rewrite fn_lookup_insert_ne].
    assert (∀ j, send_count (rp_state sys p) (state_epoch (state (braid (rp_state sys p))) - 1) = Some j → j < u32_max)
      as Hcnt' by (intros j Hj; specialize (Hcnt j Hj); unfold PQ_LIMIT, MAX_SKIP in Hcnt; lia).
    destruct (ratchet_send_key_retains _ _ _ rng Hinv ltac:(unfold sending in Hmax; lia) Hcnt' (Hret p)) as [Hr' _].
    by rewrite Hr in Hr'.
  - intros q. simpl. destruct (decide (q = p)) as [->|Hq].
    + rewrite !fn_lookup_insert, fn_lookup_insert_ne by (by destruct p).
      apply flow_send; [apply Hflow|done|unfold sending; lia|lia].
    + rewrite !(fn_lookup_insert_ne _ p q) by done. assert (negb q = p) as -> by (by destruct p, q).
      rewrite fn_lookup_insert. eapply flow_peer_send; [|done|].
      * specialize (Hflow q). by assert (negb q = p) as <- by (by destruct p, q).
      * assert (q = negb p) as -> by (by destruct p, q).
        destruct (pair_party ss sys p Hreach) as (_ & _ & Hk'). exact Hk'.
Qed.

Lemma pq_joint_deliver ss sys T F F' p msg m :
  pq_joint ss sys T F → sending (rp_state sys p) + 1 < u64_max →
  msg ∈ rp_wire sys (negb p) → F (negb p) ≡ₚ (msg_epoch msg - 1, m) :: F' →
  Z.of_nat (length (F (negb p))) ≤ MAX_SKIP →
  ∃ r st', ratchet_receive_key msg m (rp_state sys p) = (r, st')
    ∧ pq_joint ss
        (mk_pair (<[p := st']> (rp_state sys)) (rp_wire sys)
           (<[p := recv_use p msg m r ++ rp_keys sys p]> (rp_keys sys)))
        T (<[negb p := F']> F)
    ∧ (epoch (rp_state sys p) - 2 ≤ msg_epoch msg - 1 → is_ok r = true).
Proof.
  intros [Hreach Hret Hflow] Hmax Hin HF Hlen.
  destruct (pair_party ss sys p Hreach) as ((secrets & Hinv) & _ & Hk).
  destruct (pair_braid_total ss sys p Hreach) as [_ Htot].
  pose proof (Hflow (negb p)) as Hfl. rewrite negb_involutive in Hfl.
  assert ((msg_epoch msg - 1, m) ∈ F (negb p)) as HinF by (rewrite HF; by left).
  destruct (pf_flight _ _ _ _ Hfl _ _ HinF) as (He & Hm & Hpend).
  pose proof (pf_range _ _ _ _ Hfl (msg_epoch msg - 1)) as Hrange.
  assert (in_u32 m) as Hmu by (unfold in_u32, PQ_LIMIT, MAX_SKIP in *; lia).
  fold (sending (rp_state sys (negb p))) in Hk.
  destruct (ratchet_receive_key_effect _ secrets _ msg m Hinv Hmax Hmu) as (r & st' & Hr & Heff & Hans);
    [by apply Htot|lia|].
  assert (is_Some (recv_count (rp_state sys p) (msg_epoch msg - 1)) → is_ok r = true) as Hok.
  { intros Hs. apply Hans; [by apply Hpend| |].
    - intros e cur Hcur. pose proof (pf_recv _ _ _ _ Hfl e cur Hcur). pose proof (pf_range _ _ _ _ Hfl e).
      unfold PQ_LIMIT in *. lia.
    - intros cur Hcur. pose proof (flow_gap _ _ _ _ _ _ _ Hfl HinF Hcur). lia. }
  exists r, st'. split_and!; [done| |].
  2:{ intros He'. apply Hok, (Hret p); [lia|right; lia]. }
  split.
  - eapply rtc_r; [exact Hreach|]. apply (pair_deliver p msg m sys); [unfold sending in Hmax; lia|done..].
  - intros q. simpl. destruct (decide (q = p)) as [->|]; [rewrite fn_lookup_insert|by rewrite fn_lookup_insert_ne].
    destruct (ratchet_receive_key_retains _ _ _ msg m Hinv ltac:(unfold sending in Hmax; lia) Hmu (Hret p)) as [Hr' _].
    by rewrite Hr in Hr'.
  - intros q. simpl. destruct (decide (q = p)) as [->|Hq].
    + rewrite fn_lookup_insert, !(fn_lookup_insert_ne) by (by destruct p).
      eapply flow_peer_recv; [apply Hflow|done|]. unfold sending. rewrite <-(si_emitted _ _ _ Hinv).
      apply emitted_ge.
    + assert (q = negb p) as -> by (by destruct p, q).
      rewrite negb_involutive, !fn_lookup_insert, fn_lookup_insert_ne by (by destruct p).
      by eapply flow_recv.
Qed.

End joint.
