(* ===== verification/Pqxdh.v ===== *)
(** * PQXDH key agreement

    Models [src/protocol/prekey.rs] (the published bundle and the initial message) and
    [src/protocol/pqxdh.rs] (both sides of the handshake).  ML-KEM-1024 is an
    interface; the ephemeral secret and the encapsulation randomness are arguments. *)

From S2P Require Import Prelude Foundation Interfaces Kdf Keys.

(** ** ML-KEM-1024 *)

Class Kyber : Type := {
  DecapsulationKey : Type;
  EncapsulationKey : Type;
  kyber_ek_len : nat;
  kyber_ct_len : nat;
  (** [EK::new] on an array of the right length, and [ek.to_bytes()]. *)
  kyber_ek_new : bytes → option EncapsulationKey;
  kyber_ek_to_bytes : EncapsulationKey → bytes;
  kyber_from_seed : bytes → DecapsulationKey;
  (** [dk.to_seed()]: a key imported in expanded form has none. *)
  kyber_to_seed : DecapsulationKey → option bytes;
  kyber_ek : DecapsulationKey → EncapsulationKey;
  kyber_encapsulate : EncapsulationKey → bytes → bytes * bytes;
  kyber_decapsulate : DecapsulationKey → bytes → bytes;
}.

Class KyberOk `{Kyber} : Prop := {
  kyber_ek_length ek : length (kyber_ek_to_bytes ek) = kyber_ek_len;
  kyber_ek_roundtrip ek : kyber_ek_new (kyber_ek_to_bytes ek) = Some ek;
  kyber_seed_roundtrip s : kyber_to_seed (kyber_from_seed s) = Some s;
  kyber_ct_length ek r : length (kyber_encapsulate ek r).1 = kyber_ct_len;
  kyber_correct dk r :
    kyber_decapsulate dk (kyber_encapsulate (kyber_ek dk) r).1 = (kyber_encapsulate (kyber_ek dk) r).2;
}.

(** ** Bundles and messages *)

Record OneTimePreKey : Type := mk_otpk { otpk_id : PreKeyId; otpk_public_key : DhPublicKey }.

Record KyberPreKey : Type := mk_kpk {
  kpk_id : KyberPreKeyId;
  kpk_public_key : bytes;
  kpk_signature : bytes;
  is_last_resort : bool;
}.

Definition PQXDH_INFO : bytes := bstr "HushwireProtocol".

Section pqxdh.
Context `{Hashes} `{X25519} `{Ed25519} `{Kyber}.

Record PreKeyBundle : Type := mk_bundle {
  b_registration_id : RegistrationId;
  b_device_id : DeviceId;
  b_identity_key : IdentityPublicKey;
  b_signed_pre_key_id : SignedPreKeyId;
  signed_pre_key_public : DhPublicKey;
  signed_pre_key_signature : bytes;
  one_time_pre_key : option OneTimePreKey;
  kyber_pre_key : KyberPreKey;
}.

Record PqxdhInitialMessage : Type := mk_initial {
  im_registration_id : RegistrationId;
  ephemeral_public_key : DhPublicKey;
  im_signed_pre_key_id : SignedPreKeyId;
  one_time_pre_key_id : option PreKeyId;
  im_kyber_pre_key_id : KyberPreKeyId;
  im_kyber_ciphertext : bytes;
  im_identity_key : IdentityPublicKey;
}.

Record PqxdhOutput : Type := mk_pqxdh_output {
  shared_secret : bytes;
  initial_message : PqxdhInitialMessage;
}.

Definition ek_from_bytes (bs : bytes) : result EncapsulationKey :=
  if bool_decide (length bs = kyber_ek_len) then
    ok_or (kyber_ek_new bs) (InvalidPrekeyBundle "invalid ML-KEM-1024 public key")
  else Err (InvalidPrekeyBundle "wrong ML-KEM-1024 key length").

(** [0xFF * 32 || DH1 || DH2 || DH3 [|| DH4] || SS], through HKDF. *)
Definition derive_shared_secret (dh1 dh2 dh3 : bytes) (dh4 : option bytes) (ss : bytes) : bytes :=
  let dh_material := replicate 32 xff ++ dh1 ++ dh2 ++ dh3 ++ default [] dh4 ++ ss in
  hkdf_sha256 dh_material (Some zero32) PQXDH_INFO 32.

Definition process_prekey_bundle (ephemeral_rng encaps_rng : bytes) (our_identity : IdentityKeyPair)
    (their_bundle : PreKeyBundle) : result PqxdhOutput :=
  _ ← identity_verify (b_identity_key their_bundle) (signed_pre_key_public their_bundle)
        (signed_pre_key_signature their_bundle);
  _ ← identity_verify (b_identity_key their_bundle) (kpk_public_key (kyber_pre_key their_bundle))
        (kpk_signature (kyber_pre_key their_bundle));
  let ephemeral := ephemeral_generate ephemeral_rng in
  let our_x25519 := x25519_private_key our_identity in
  let their_x25519 := to_x25519 (b_identity_key their_bundle) in
  let spk_x25519 := signed_pre_key_public their_bundle in
  let dh1 := diffie_hellman our_x25519 spk_x25519 in
  let dh2 := ephemeral_diffie_hellman ephemeral their_x25519 in
  let dh3 := ephemeral_diffie_hellman ephemeral spk_x25519 in
  let dh4 := (λ opk, ephemeral_diffie_hellman ephemeral (otpk_public_key opk)) <$> one_time_pre_key their_bundle in
  let opk_id := otpk_id <$> one_time_pre_key their_bundle in
  ek ← ek_from_bytes (kpk_public_key (kyber_pre_key their_bundle));
  let '(ct, ss) := kyber_encapsulate ek encaps_rng in
  Ok (mk_pqxdh_output (derive_shared_secret dh1 dh2 dh3 dh4 ss)
        (mk_initial 0 (public_key_bytes ephemeral) (b_signed_pre_key_id their_bundle) opk_id
           (kpk_id (kyber_pre_key their_bundle)) ct (public_key our_identity))).

(** DH4 of the responder: required when the message names a one-time prekey. *)
Definition responder_dh4 (one_time_pre_key_private : option bytes) (msg : PqxdhInitialMessage)
    : result (option bytes) :=
  match one_time_pre_key_id msg with
  | Some _ =>
      opk_private ← ok_or one_time_pre_key_private (InvalidPrekeyBundle "missing one-time prekey private");
      Ok (Some (diffie_hellman opk_private (ephemeral_public_key msg)))
  | None => Ok None
  end.

Definition process_initial_message (our_identity : IdentityKeyPair) (signed_pre_key_private : bytes)
    (one_time_pre_key_private : option bytes) (kyber_decapsulation_key : DecapsulationKey)
    (msg : PqxdhInitialMessage) : result bytes :=
  let our_x25519 := x25519_private_key our_identity in
  let their_x25519 := to_x25519 (im_identity_key msg) in
  let ek_x25519 := ephemeral_public_key msg in
  let dh1 := diffie_hellman signed_pre_key_private their_x25519 in
  let dh2 := diffie_hellman our_x25519 ek_x25519 in
  let dh3 := diffie_hellman signed_pre_key_private ek_x25519 in
  dh4 ← responder_dh4 one_time_pre_key_private msg;
  if bool_decide (length (im_kyber_ciphertext msg) = kyber_ct_len) then
    let ss := kyber_decapsulate kyber_decapsulation_key (im_kyber_ciphertext msg) in
    Ok (derive_shared_secret dh1 dh2 dh3 dh4 ss)
  else Err InvalidCiphertext.

Definition generate_kyber_keypair (seed_rng : bytes) : DecapsulationKey * bytes :=
  let dk := kyber_from_seed seed_rng in
  (dk, kyber_ek_to_bytes (kyber_ek dk)).

(** [dk.to_seed().expect(..)]: [None] is the panic. *)
Definition dk_to_seed_bytes (dk : DecapsulationKey) : option bytes := kyber_to_seed dk.
Definition dk_from_seed_bytes (seed_bytes : bytes) : DecapsulationKey := kyber_from_seed seed_bytes.

(** ** The responder's keys and the bundle it publishes *)

Record ResponderKeys : Type := mk_responder {
  rk_identity : IdentityKeyPair;
  rk_spk : bytes;
  rk_opk : option (PreKeyId * bytes);
  rk_kyber : DecapsulationKey;
}.

Definition published (k : ResponderKeys) (reg : RegistrationId) (dev : DeviceId)
    (spk_id : SignedPreKeyId) (kyber_id : KyberPreKeyId) (last_resort : bool) : PreKeyBundle :=
  let spk := x25519_public (rk_spk k) in
  let ek := kyber_ek_to_bytes (kyber_ek (rk_kyber k)) in
  mk_bundle reg dev (public_key (rk_identity k)) spk_id spk (identity_sign (rk_identity k) spk)
    ((λ o, mk_otpk o.1 (x25519_public o.2)) <$> rk_opk k)
    (mk_kpk kyber_id ek (identity_sign (rk_identity k) ek) last_resort).

(** ** Agreement *)

Context `{!HashesOk} `{!X25519Ok} `{!Ed25519Ok} `{!MontgomeryOk} `{!KyberOk}.

Lemma ek_from_bytes_ok ek : ek_from_bytes (kyber_ek_to_bytes ek) = Ok ek.
Proof.
  unfold ek_from_bytes. rewrite bool_decide_eq_true_2 by apply kyber_ek_length.
  by rewrite kyber_ek_roundtrip.
Qed.

Lemma derive_shared_secret_wf d1 d2 d3 d4 ss : wf_key (derive_shared_secret d1 d2 d3 d4 ss).
Proof. apply hkdf_length. lia. Qed.

(** What the initiator computes from a published bundle. *)
Lemma process_published k a eph r reg dev sid kid lr :
  let ek := kyber_ek (rk_kyber k) in
  let spk := x25519_public (rk_spk k) in
  process_prekey_bundle eph r a (published k reg dev sid kid lr)
  = Ok (mk_pqxdh_output
          (derive_shared_secret (diffie_hellman (x25519_private_key a) spk)
             (diffie_hellman eph (x25519_public_key (rk_identity k))) (diffie_hellman eph spk)
             ((λ o, diffie_hellman eph (x25519_public o.2)) <$> rk_opk k) (kyber_encapsulate ek r).2)
          (mk_initial 0 (x25519_public eph) sid (fst <$> rk_opk k) kid (kyber_encapsulate ek r).1 (public_key a))).
Proof.
  intros ek spk. unfold process_prekey_bundle, published. cbn [b_identity_key signed_pre_key_public
    signed_pre_key_signature kyber_pre_key kpk_public_key kpk_signature one_time_pre_key kpk_id b_signed_pre_key_id].
  rewrite !identity_sign_verify. cbn [mbind result_bind]. rewrite ek_from_bytes_ok. cbn [mbind result_bind].
  fold ek. destruct (kyber_encapsulate ek r) as [ct ss] eqn:E. simpl.
  by destruct (rk_opk k).
Qed.

Lemma pqxdh_agrees k a eph r reg dev sid kid lr :
  ∃ out, process_prekey_bundle eph r a (published k reg dev sid kid lr) = Ok out
    ∧ process_initial_message (rk_identity k) (rk_spk k) (snd <$> rk_opk k) (rk_kyber k) (initial_message out)
      = Ok (shared_secret out)
    ∧ wf_key (shared_secret out) ∧ im_identity_key (initial_message out) = public_key a.
Proof.
  rewrite process_published. eexists. split_and!; [done| |apply derive_shared_secret_wf|done].
  unfold process_initial_message. cbn [initial_message im_identity_key ephemeral_public_key
    im_kyber_ciphertext shared_secret].
  assert (responder_dh4 (snd <$> rk_opk k)
    (mk_initial 0 (x25519_public eph) sid (fst <$> rk_opk k) kid
       (kyber_encapsulate (kyber_ek (rk_kyber k)) r).1 (public_key a))
    = Ok ((λ o, diffie_hellman eph (x25519_public o.2)) <$> rk_opk k)) as ->.
  { unfold responder_dh4. destruct (rk_opk k) as [[i o]|]; simpl; [|done]. by rewrite dh_comm. }
  cbn [mbind result_bind]. rewrite bool_decide_eq_true_2 by apply kyber_ct_length.
  rewrite kyber_correct. change (to_x25519 (public_key a)) with (x25519_public_key a).
  rewrite !x25519_public_key_eq. by rewrite (dh_comm (rk_spk k)), (dh_comm _ eph), (dh_comm (rk_spk k) eph).
Qed.

(** C9. An honest handshake: the initiator accepts the published bundle and the responder,
    given the private halves, derives the same 32-byte secret, with or without a
    one-time prekey. *)
Theorem pqxdh_agreement k a eph r reg dev sid kid lr :
  ∃ out, process_prekey_bundle eph r a (published k reg dev sid kid lr) = Ok out
    ∧ process_initial_message (rk_identity k) (rk_spk k) (snd <$> rk_opk k) (rk_kyber k) (initial_message out)
      = Ok (shared_secret out)
    ∧ wf_key (shared_secret out) ∧ im_identity_key (initial_message out) = public_key a.
Proof. apply pqxdh_agrees. Qed.

(** The bundle with another one-time prekey. *)
Definition with_one_time (o : option OneTimePreKey) (b : PreKeyBundle) : PreKeyBundle :=
  mk_bundle (b_registration_id b) (b_device_id b) (b_identity_key b) (b_signed_pre_key_id b) (signed_pre_key_public b)
    (signed_pre_key_signature b) o (kyber_pre_key b).

(** C27. What the initiator checks of a bundle, exactly: it derives a secret if and only if the
    signed prekey and the Kyber prekey carry signatures that verify under the bundle's
    identity key and the Kyber key decodes.  The one-time prekey is not signed: the
    bundle with any other, or none, is accepted or refused alike.  The message to the
    responder names the one-time prekey that was used and the initiator's identity. *)
Theorem bundle_authenticated eph r a b :
  (is_ok (process_prekey_bundle eph r a b) = true
   ↔ identity_verify (b_identity_key b) (signed_pre_key_public b) (signed_pre_key_signature b) = Ok ()
     ∧ identity_verify (b_identity_key b) (kpk_public_key (kyber_pre_key b)) (kpk_signature (kyber_pre_key b)) = Ok ()
     ∧ is_ok (ek_from_bytes (kpk_public_key (kyber_pre_key b))) = true)
  ∧ (∀ o, is_ok (process_prekey_bundle eph r a (with_one_time o b)) = is_ok (process_prekey_bundle eph r a b))
  ∧ ∀ out, process_prekey_bundle eph r a b = Ok out →
      one_time_pre_key_id (initial_message out) = otpk_id <$> one_time_pre_key b
      ∧ im_identity_key (initial_message out) = public_key a.
Proof.
  unfold process_prekey_bundle. cbn [b_identity_key signed_pre_key_public signed_pre_key_signature kyber_pre_key with_one_time].
  destruct (identity_verify _ (signed_pre_key_public b) _) as [[]|]; [|split_and!; [by split; [|intros [? _]]|done|done]].
  destruct (identity_verify _ (kpk_public_key _) _) as [[]|]; [|split_and!; [by split; [|intros (_ & ? & _)]|done|done]].
  cbn [mbind result_bind].
  destruct (ek_from_bytes _) as [ek|]; [|split_and!; [by split; [|intros (_ & _ & ?)]|done|done]].
  cbn [mbind result_bind]. destruct (kyber_encapsulate ek r) as [ct ss]. split_and!; [done|done|]. by intros out [= <-].
Qed.

(** The responder refuses a message naming a one-time prekey whose private half it no
    longer has, and a ciphertext of the wrong length. *)
Theorem initial_message_errors i spk opk dk msg :
  (is_Some (one_time_pre_key_id msg) → opk = None →
     process_initial_message i spk opk dk msg
     = Err (InvalidPrekeyBundle "missing one-time prekey private"))
  ∧ (length (im_kyber_ciphertext msg) ≠ kyber_ct_len →
     is_ok (process_initial_message i spk opk dk msg) = false).
Proof.
  unfold process_initial_message, responder_dh4. split.
  - by intros [x ->] ->.
  - intros Hl. rewrite bool_decide_eq_false_2 by done.
    destruct (one_time_pre_key_id msg); [|done]. by destruct opk.
Qed.

(** A stored decapsulation key is recovered from its seed. *)
Lemma kyber_seed_storage s : dk_from_seed_bytes <$> dk_to_seed_bytes (dk_from_seed_bytes s) = Some (dk_from_seed_bytes s).
Proof. unfold dk_to_seed_bytes, dk_from_seed_bytes. by rewrite kyber_seed_roundtrip. Qed.

End pqxdh.
