(* ===== verification/Skipped.v ===== *)
(** * Symmetric chains, message headers and the skipped-key store

    Models [src/protocol/ratchet/chain.rs], [header.rs] and [skipped.rs].  The store is
    a finite map from (message number, chain key) to the key; its serialized form is a
    list of entries in the map's iteration order, which is arbitrary. *)

From S2P Require Import Prelude Foundation Interfaces Kdf Padding Erasure Kem BraidAuth Braid Spqr.

(** ** Chains *)

Record ChainState : Type := mk_chain { chain_key : ChainKey; message_number : Z }.

Definition chain_new (ck : ChainKey) : ChainState := mk_chain ck 0.

Definition chain_advance `{Hashes} (c : ChainState) : MessageKey * ChainState :=
  let out := kdf_ck (chain_key c) in
  (ck_message_key out, mk_chain (ck_chain_key out) (add_u32 (message_number c) 1)).

(** ** Headers *)

Record MessageHeader : Type := mk_header {
  dh_public_key : DhPublicKey;
  previous_chain_length : Z;
  h_message_number : Z;
  braid_msg : Message;
  pq_message_number : Z;
}.

(** [MessageHeader::serialize] panics if the codec fails, which it never does
    ([PostcardOk]); the value in that case is immaterial. *)
Definition header_serialize `{Postcard MessageHeader} (h : MessageHeader) : bytes :=
  default [] (result_opt (to_allocvec h)).

Definition header_deserialize `{Postcard MessageHeader} (data : bytes) : result MessageHeader :=
  map_err Serialization (from_bytes data).

Lemma header_roundtrip `{PostcardOk MessageHeader} h : header_deserialize (header_serialize h) = Ok h.
Proof.
  unfold header_deserialize, header_serialize. destruct (postcard_roundtrip h) as (bs & -> & Hd).
  simpl. by rewrite Hd.
Qed.

(** ** Skipped keys *)

Record SkippedKey : Type := mk_skipped { sk_message_key : MessageKey; sk_dh : bytes }.
Record SkippedKeyEntry : Type := mk_entry { e_message_number : Z; e_message_key : MessageKey; e_dh : bytes }.

Abbreviation SkippedKeys := (gmap (Z * bytes) SkippedKey).

Definition skipped_new : SkippedKeys := ∅.
Definition skipped_len (s : SkippedKeys) : nat := size s.
Definition skipped_is_empty (s : SkippedKeys) : bool := bool_decide (s = ∅).

Definition skipped_insert (num : Z) (dh : bytes) (message_key : MessageKey) (s : SkippedKeys) : SkippedKeys :=
  if bool_decide (MAX_SKIP ≤ Z.of_nat (size s)) then s
  else <[(num, dh) := mk_skipped message_key dh]> s.

Definition try_remove_by_dh (dh : bytes) (num : Z) (s : SkippedKeys) : option MessageKey * SkippedKeys :=
  (sk_message_key <$> s !! (num, dh), delete (num, dh) s).

(** [impl Serialize] and [impl Deserialize]. *)
Definition skipped_entries (s : SkippedKeys) : list SkippedKeyEntry :=
  (λ kv : (Z * bytes) * SkippedKey, mk_entry kv.1.1 (sk_message_key kv.2) (sk_dh kv.2)) <$> map_to_list s.

Definition add_entry (keys : SkippedKeys) (e : SkippedKeyEntry) : SkippedKeys :=
  <[(e_message_number e, e_dh e) := mk_skipped (e_message_key e) (e_dh e)]> keys.
Definition skipped_from_entries (entries : list SkippedKeyEntry) : SkippedKeys := foldl add_entry ∅ entries.

(** The invariant of the store: bounded, and each key is filed under its own chain. *)
Definition skipped_wf (s : SkippedKeys) : Prop :=
  Z.of_nat (size s) ≤ MAX_SKIP ∧ ∀ num dh k, s !! (num, dh) = Some k → sk_dh k = dh.

Lemma skipped_new_wf : skipped_wf skipped_new.
Proof. split; [done|]. by intros. Qed.

Lemma skipped_insert_wf num dh mk s : skipped_wf s → skipped_wf (skipped_insert num dh mk s).
Proof.
  intros [Hsz Hwf]. unfold skipped_insert. case_bool_decide as Hb; [done|]. split.
  - pose proof (map_size_insert (num, dh) (mk_skipped mk dh) s) as E. rewrite E. case_match; simpl; lia.
  - intros num' dh' k [[[= <- <-] <-]|[_ Hk]]%lookup_insert_Some; [done|by eapply Hwf].
Qed.

Lemma skipped_delete_size (k : Z * bytes) (s : SkippedKeys) : (size (delete k s) ≤ size s)%nat.
Proof. rewrite map_size_delete. case_match; simpl; lia. Qed.

Lemma try_remove_wf num dh s : skipped_wf s → skipped_wf (try_remove_by_dh dh num s).2.
Proof.
  intros [Hsz Hwf]. split; simpl.
  - pose proof (skipped_delete_size (num, dh) s). lia.
  - intros num' dh' k [_ Hk]%lookup_delete_Some. by eapply Hwf.
Qed.

(** A key inserted below the bound is found once, under its chain only. *)
Lemma try_remove_insert num dh mk s :
  Z.of_nat (size s) < MAX_SKIP →
  (try_remove_by_dh dh num (skipped_insert num dh mk s)).1 = Some mk
  ∧ (try_remove_by_dh dh num (try_remove_by_dh dh num (skipped_insert num dh mk s)).2).1 = None.
Proof.
  intros. unfold try_remove_by_dh, skipped_insert. rewrite bool_decide_eq_false_2 by lia. simpl.
  by rewrite lookup_insert_eq, lookup_delete_eq.
Qed.

Definition entry_key (e : SkippedKeyEntry) : Z * bytes := (e_message_number e, e_dh e).
Definition entry_val (e : SkippedKeyEntry) : SkippedKey := mk_skipped (e_message_key e) (e_dh e).

Lemma skipped_from_entries_app (es : list SkippedKeyEntry) (acc : SkippedKeys) :
  foldl add_entry acc es
  = list_to_map (reverse ((λ e, (entry_key e, entry_val e)) <$> es)) ∪ acc.
Proof.
  revert acc. induction es as [|e es IH]; intros acc; simpl; [by rewrite (left_id_L ∅ (∪))|].
  rewrite IH, reverse_cons, list_to_map_app. simpl.
  by rewrite <-(assoc_L (∪)), insert_empty, <-insert_union_singleton_l.
Qed.

(** Loading the entries in any order gives back the store. *)
Lemma skipped_entries_roundtrip s es :
  skipped_wf s → es ≡ₚ skipped_entries s → skipped_from_entries es = s.
Proof.
  intros [_ Hwf] Hp. unfold skipped_from_entries. rewrite skipped_from_entries_app, (right_id_L ∅ (∪)).
  assert ((λ e, (entry_key e, entry_val e)) <$> skipped_entries s = map_to_list s) as Hs.
  { unfold skipped_entries. rewrite <-list_fmap_compose. rewrite <-(list_fmap_id (map_to_list s)) at 2.
    apply list_fmap_ext. intros i [[num dh] [mk dh']] Hi. unfold compose, entry_key, entry_val. simpl.
    apply list_elem_of_lookup_2, elem_of_map_to_list in Hi.
    apply Hwf in Hi. simpl in Hi. by subst. }
  rewrite <-(list_to_map_to_list s), <-Hs at 1. symmetry. apply list_to_map_proper.
  - rewrite Hs. apply NoDup_fst_map_to_list.
  - by rewrite reverse_Permutation, Hp.
Qed.
