(* ===== verification/Ratchet.v ===== *)
(** * The Double Ratchet session

    Models [src/protocol/ratchet/mod.rs]: session state, the two initialisations,
    encryption and decryption with the hybrid message key, the DH ratchet step, pre-key
    messages and the stored form of a session.  The random bytes each operation draws
    (DH secret, AEAD nonce, braid randomness) are its first arguments.  A method keeps
    the writes it made before an early return. *)

From S2P Require Import Prelude Foundation Interfaces Padding Kdf Keys AeadRecord Erasure Kem.
From S2P Require Import BraidAuth Braid Spqr Pqxdh Skipped.

Record RatchetMessage : Type := mk_ratchet_message { header : bytes; ciphertext : bytes }.

(** [SESSION_VERSION]. *)
Definition SESSION_VERSION : Z := 6.
Definition default_session_version : Z := SESSION_VERSION.

(** [shared_secret_id]: the first eight bytes, big-endian. *)
Definition shared_secret_id (shared_secret : bytes) : Z := be_Z (take 8 shared_secret).

Section ratchet.
Context `{Hashes} `{X25519} `{Ed25519} `{Aead} `{Kyber} `{ReedSolomon} `{IncKem}.
Context `{Postcard MessageHeader}.

Record PreKeyRatchetMessage : Type := mk_prekey_message {
  pk_registration_id : RegistrationId;
  pk_pre_key_id : option PreKeyId;
  pk_signed_pre_key_id : SignedPreKeyId;
  pk_kyber_pre_key_id : KyberPreKeyId;
  pk_ephemeral_dh_key : DhPublicKey;
  pk_kyber_ciphertext : bytes;
  pk_identity_key : IdentityPublicKey;
  pk_message : RatchetMessage;
}.

Inductive EncryptedOutput : Type :=
| OutMessage (m : RatchetMessage)
| OutPreKeyMessage (m : PreKeyRatchetMessage).

Record RatchetSession : Type := mk_session {
  dh_self : bytes;
  dh_self_public : DhPublicKey;
  dh_remote : option DhPublicKey;
  s_root_key : RootKey;
  sending_chain : option ChainState;
  receiving_chain : option ChainState;
  previous_sending_chain_length : Z;
  skipped : SkippedKeys;
  pending_prekey : option PqxdhInitialMessage;
  spqr : SpqrState;
  initial_root_id : Z;
}.

(** Field updates. *)
Definition set_spqr (x : SpqrState) (s : RatchetSession) : RatchetSession :=
  mk_session (dh_self s) (dh_self_public s) (dh_remote s) (s_root_key s) (sending_chain s)
    (receiving_chain s) (previous_sending_chain_length s) (skipped s) (pending_prekey s) x (initial_root_id s).
Definition set_sending_chain (c : option ChainState) (s : RatchetSession) : RatchetSession :=
  mk_session (dh_self s) (dh_self_public s) (dh_remote s) (s_root_key s) c
    (receiving_chain s) (previous_sending_chain_length s) (skipped s) (pending_prekey s) (spqr s) (initial_root_id s).
Definition set_receiving (c : option ChainState) (k : SkippedKeys) (s : RatchetSession) : RatchetSession :=
  mk_session (dh_self s) (dh_self_public s) (dh_remote s) (s_root_key s) (sending_chain s)
    c (previous_sending_chain_length s) k (pending_prekey s) (spqr s) (initial_root_id s).
Definition set_pending_prekey (p : option PqxdhInitialMessage) (s : RatchetSession) : RatchetSession :=
  mk_session (dh_self s) (dh_self_public s) (dh_remote s) (s_root_key s) (sending_chain s)
    (receiving_chain s) (previous_sending_chain_length s) (skipped s) p (spqr s) (initial_root_id s).

(** ** Initialisation *)

Definition initialize_alice (dh_private_bytes shared_secret bob_dh_public : bytes) : result RatchetSession :=
  let dh_self := dh_private_bytes in
  let dh_out := diffie_hellman dh_self bob_dh_public in
  let rk_out := kdf_rk shared_secret dh_out in
  Ok (mk_session dh_self (x25519_public dh_self) (Some bob_dh_public) (rk_root_key rk_out)
        (Some (chain_new (rk_chain_key rk_out))) None 0 skipped_new None
        (new_sender shared_secret) (shared_secret_id shared_secret)).

Definition initialize_alice_with_prekey (dh_private_bytes shared_secret bob_dh_public : bytes)
    (initial : PqxdhInitialMessage) : result RatchetSession :=
  session ← initialize_alice dh_private_bytes shared_secret bob_dh_public;
  Ok (set_pending_prekey (Some initial) session).

Definition initialize_bob (shared_secret : bytes) (bob_dh_keypair : bytes * bytes) : RatchetSession :=
  let '(dh_private_bytes, dh_public_bytes) := bob_dh_keypair in
  mk_session dh_private_bytes dh_public_bytes None shared_secret None None 0 skipped_new None
    (new_receiver shared_secret) (shared_secret_id shared_secret).

(** ** Encryption *)

Definition build_ad (sender recipient : IdentityPublicKey) (header : bytes) : bytes :=
  to_x25519 sender ++ to_x25519 recipient ++ header.

(** Advance the sending chain: the key and the number of the message it protects. *)
Definition advance_sending : M RatchetSession CryptoError (MessageKey * Z) := λ s,
  match sending_chain s with
  | None => (Err InvalidSessionState, s)
  | Some chain =>
      let '(mk, chain) := chain_advance chain in
      (Ok (mk, sub_u32 (message_number chain) 1), set_sending_chain (Some chain) s)
  end.

Definition encrypt_raw (rng : Rng) (nonce plaintext : bytes) (sender recipient : IdentityPublicKey)
    : M RatchetSession CryptoError RatchetMessage :=
  pq ← m_zoom spqr set_spqr (ratchet_send_key rng);
  let '(bmsg, pq_n, pq_mk) := pq in
  ec ← advance_sending;
  s ← m_get;
  let h := mk_header (dh_self_public s) (previous_sending_chain_length s) ec.2 bmsg pq_n in
  let header_bytes := header_serialize h in
  let ad := build_ad sender recipient header_bytes in
  let mk := kdf_hybrid ec.1 pq_mk in
  ct ← m_lift (encrypt nonce mk (pad plaintext) ad);
  mret (mk_ratchet_message header_bytes ct).

(** [RatchetSession::encrypt]. *)
Definition session_encrypt (rng : Rng) (nonce plaintext : bytes) (sender recipient : IdentityPublicKey)
    : M RatchetSession CryptoError RatchetMessage :=
  s ← m_get;
  match pending_prekey s with
  | Some _ => m_throw InvalidSessionState
  | None => encrypt_raw rng nonce plaintext sender recipient
  end.

Definition wrap_prekey (i : PqxdhInitialMessage) (sender : IdentityPublicKey) (m : RatchetMessage)
    : PreKeyRatchetMessage :=
  mk_prekey_message (im_registration_id i) (one_time_pre_key_id i) (im_signed_pre_key_id i)
    (im_kyber_pre_key_id i) (ephemeral_public_key i) (im_kyber_ciphertext i) sender m.

Definition encrypt_message (rng : Rng) (nonce plaintext : bytes) (sender recipient : IdentityPublicKey)
    : M RatchetSession CryptoError EncryptedOutput :=
  ratchet_msg ← encrypt_raw rng nonce plaintext sender recipient;
  s ← m_get;
  match pending_prekey s with
  | Some initial =>
      _ ← m_modify (set_pending_prekey None);
      mret (OutPreKeyMessage (wrap_prekey initial sender ratchet_msg))
  | None => mret (OutMessage ratchet_msg)
  end.

Definition encrypt_prekey_message (rng : Rng) (nonce plaintext : bytes) (sender recipient : IdentityPublicKey)
    (pqxdh_initial : PqxdhInitialMessage) : M RatchetSession CryptoError PreKeyRatchetMessage :=
  ratchet_msg ← session_encrypt rng nonce plaintext sender recipient;
  mret (wrap_prekey pqxdh_initial sender ratchet_msg).

(** ** Decryption *)

(** [while chain.message_number < until { .. self.skipped.insert(..) }], with the number
    of iterations as fuel. *)
Fixpoint skip_receiving_loop (fuel : nat) (until : Z) (chain_dh : bytes) (chain : ChainState)
    (store : SkippedKeys) : ChainState * SkippedKeys :=
  match fuel with
  | O => (chain, store)
  | S fuel =>
      if bool_decide (message_number chain < until) then
        let '(mk, chain) := chain_advance chain in
        let num := sub_u32 (message_number chain) 1 in
        skip_receiving_loop fuel until chain_dh chain (skipped_insert num chain_dh mk store)
      else (chain, store)
  end.

Definition skip_receiving_messages (until : Z) : M RatchetSession CryptoError () := λ s,
  let chain_dh := default zero32 (dh_remote s) in
  match receiving_chain s with
  | None => (Ok (), s)
  | Some chain =>
      if bool_decide (until < message_number chain) then (Ok (), s)
      else
        let gap := until - message_number chain in
        if bool_decide (MAX_SKIP < gap) then (Err (MaxSkipExceeded gap MAX_SKIP), s)
        else
          let '(chain, store) := skip_receiving_loop (Z.to_nat gap) until chain_dh chain (skipped s) in
          (Ok (), set_receiving (Some chain) store s)
  end.

Definition perform_dh_ratchet_step (new_dh : bytes) (h : MessageHeader) : M RatchetSession CryptoError () := λ s,
  let previous := match sending_chain s with Some c => message_number c | None => 0 end in
  let remote := dh_public_key h in
  let rk_out := kdf_rk (s_root_key s) (diffie_hellman (dh_self s) remote) in
  let rk_out2 := kdf_rk (rk_root_key rk_out) (diffie_hellman new_dh remote) in
  (Ok (),
   mk_session new_dh (x25519_public new_dh) (Some remote) (rk_root_key rk_out2)
     (Some (chain_new (rk_chain_key rk_out2))) (Some (chain_new (rk_chain_key rk_out)))
     previous (skipped s) (pending_prekey s) (spqr s) (initial_root_id s)).

Definition advance_receiving : M RatchetSession CryptoError MessageKey := λ s,
  match receiving_chain s with
  | None => (Err InvalidSessionState, s)
  | Some chain =>
      let '(mk, chain) := chain_advance chain in
      (Ok mk, set_receiving (Some chain) (skipped s) s)
  end.

(** The EC half of the message key: the skipped key, or the receiving chain after any
    DH ratchet step. *)
Definition take_skipped (h : MessageHeader) : M RatchetSession CryptoError (option MessageKey) := λ s,
  let '(mk, store) := try_remove_by_dh (dh_public_key h) (h_message_number h) (skipped s) in
  (Ok mk, set_receiving (receiving_chain s) store s).

Definition needs_ratchet (h : MessageHeader) (s : RatchetSession) : bool :=
  match dh_remote s with Some r => negb (bool_decide (r = dh_public_key h)) | None => true end.

Definition ec_message_key (new_dh : bytes) (h : MessageHeader) : M RatchetSession CryptoError MessageKey :=
  found ← take_skipped h;
  match found with
  | Some mk => mret mk
  | None =>
      s ← m_get;
      _ ← (if needs_ratchet h s then
             _ ← skip_receiving_messages (previous_chain_length h);
             perform_dh_ratchet_step new_dh h
           else mret ());
      _ ← skip_receiving_messages (h_message_number h);
      advance_receiving
  end.

(** [RatchetSession::decrypt]. *)
Definition session_decrypt (new_dh : bytes) (message : RatchetMessage) (sender recipient : IdentityPublicKey)
    : M RatchetSession CryptoError bytes :=
  h ← m_lift (header_deserialize (header message));
  let ad := build_ad sender recipient (header message) in
  ec_mk ← ec_message_key new_dh h;
  pq_mk ← m_zoom spqr set_spqr (ratchet_receive_key (braid_msg h) (pq_message_number h));
  let mk := kdf_hybrid ec_mk pq_mk in
  padded ← m_lift (decrypt mk (ciphertext message) ad);
  m_lift (unpad padded).

Definition decrypt_prekey_message (new_dh : bytes) (msg : PreKeyRatchetMessage) (our_identity : IdentityKeyPair)
    (signed_pre_key_private signed_pre_key_public : bytes) (one_time_pre_key_private : option bytes)
    (kyber_dk_seed : bytes) : result (RatchetSession * bytes) :=
  let dk := dk_from_seed_bytes kyber_dk_seed in
  let initial := mk_initial (pk_registration_id msg) (pk_ephemeral_dh_key msg) (pk_signed_pre_key_id msg)
    (pk_pre_key_id msg) (pk_kyber_pre_key_id msg) (pk_kyber_ciphertext msg) (pk_identity_key msg) in
  shared ← process_initial_message our_identity signed_pre_key_private one_time_pre_key_private dk initial;
  let session := initialize_bob shared (signed_pre_key_private, signed_pre_key_public) in
  match session_decrypt new_dh (pk_message msg) (pk_identity_key msg) (public_key our_identity) session with
  | (Ok plaintext, session) => Ok (session, plaintext)
  | (Err e, _) => Err e
  end.

(** ** Diagnostics *)

Definition root_key_fingerprint (s : RatchetSession) : Z :=
  foldl (λ a x, add_u32 (mul_u32 a 31) (Z_of_byte x)) 0 (s_root_key s).

Definition root_key_id (s : RatchetSession) : Z := initial_root_id s.

(** ** The stored form *)

Record SerializedState : Type := mk_serialized {
  session_version : Z;
  ser_dh_self_bytes : bytes;
  ser_dh_self_public : DhPublicKey;
  ser_dh_remote : option DhPublicKey;
  ser_root_key : RootKey;
  ser_sending_chain : option ChainState;
  ser_receiving_chain : option ChainState;
  ser_previous_sending_chain_length : Z;
  ser_skipped : list SkippedKeyEntry;
  ser_pending_prekey : option PqxdhInitialMessage;
  ser_spqr : SpqrState;
}.

Definition to_serialized (s : RatchetSession) : SerializedState :=
  mk_serialized SESSION_VERSION (dh_self s) (dh_self_public s) (dh_remote s) (s_root_key s)
    (sending_chain s) (receiving_chain s) (previous_sending_chain_length s) (skipped_entries (skipped s))
    (pending_prekey s) (spqr s).

Context `{Postcard SerializedState}.

Definition session_serialize (s : RatchetSession) : result bytes := serialize (to_serialized s).

Definition session_deserialize (data : bytes) : result RatchetSession :=
  st ← (deserialize data : result SerializedState);
  if bool_decide (session_version st ≠ SESSION_VERSION)
  then Err (Serialization ("session version " +:+ pretty (session_version st)
              +:+ " is not the supported version " +:+ pretty SESSION_VERSION))
  else Ok (mk_session (ser_dh_self_bytes st) (ser_dh_self_public st) (ser_dh_remote st) (ser_root_key st)
             (ser_sending_chain st) (ser_receiving_chain st) (ser_previous_sending_chain_length st)
             (skipped_from_entries (ser_skipped st)) (ser_pending_prekey st) (ser_spqr st) 0).

End ratchet.
