(* ===== verification/Session.v ===== *)
(** * The session invariant and its stored form

    Every operation of a session, on any input and whether it succeeds or not, keeps
    the skipped-key store bounded and filed by chain, the public ratchet key in step
    with the secret one, and every key 32 bytes long.  A session that satisfies the
    invariant is read back from storage as it was written, up to the runtime-only
    identifier. *)

From S2P Require Import Prelude Foundation Interfaces Padding Kdf Keys AeadRecord Erasure Kem.
From S2P Require Import BraidAuth Braid Spqr Pqxdh Skipped Ratchet.

Section session.
Context `{Hashes} `{X25519} `{Ed25519} `{Aead} `{Kyber} `{ReedSolomon} `{IncKem}.
Context `{Postcard MessageHeader}.

Definition chain_wf (c : ChainState) : Prop := wf_key (chain_key c) ∧ in_u32 (message_number c).

Record session_wf (s : RatchetSession) : Prop := {
  sw_skipped : skipped_wf (skipped s);
  sw_public : dh_self_public s = x25519_public (dh_self s);
  sw_root : wf_key (s_root_key s);
  sw_sending c : sending_chain s = Some c → chain_wf c;
  sw_receiving c : receiving_chain s = Some c → chain_wf c ∧ is_Some (dh_remote s);
  sw_previous : in_u32 (previous_sending_chain_length s);
}.

(** The calls of the API on an existing session. *)
Inductive SessionOp : Type :=
| OpEncrypt (rng : Rng) (nonce plaintext : bytes) (sender recipient : IdentityPublicKey)
| OpEncryptMessage (rng : Rng) (nonce plaintext : bytes) (sender recipient : IdentityPublicKey)
| OpEncryptPrekey (rng : Rng) (nonce plaintext : bytes) (sender recipient : IdentityPublicKey)
    (initial : PqxdhInitialMessage)
| OpDecrypt (new_dh : bytes) (message : RatchetMessage) (sender recipient : IdentityPublicKey).

Definition session_call (s : RatchetSession) (op : SessionOp) : RatchetSession :=
  match op with
  | OpEncrypt rng nonce pt a b => (session_encrypt rng nonce pt a b s).2
  | OpEncryptMessage rng nonce pt a b => (encrypt_message rng nonce pt a b s).2
  | OpEncryptPrekey rng nonce pt a b i => (encrypt_prekey_message rng nonce pt a b i s).2
  | OpDecrypt new_dh m a b => (session_decrypt new_dh m a b s).2
  end.

Context `{!HashesOk}.

Lemma chain_new_wf ck : wf_key ck → chain_wf (chain_new ck).
Proof. intros. split; [done|]. unfold in_u32, u32_max. simpl. lia. Qed.

Lemma chain_advance_wf c : chain_wf (chain_advance c).2.
Proof. split; [apply (kdf_ck_wf (chain_key c))|apply add_u32_range]. Qed.

Lemma initialize_alice_wf dh ss bob s : initialize_alice dh ss bob = Ok s → session_wf s.
Proof.
  intros [= <-]. destruct (kdf_rk_wf ss (diffie_hellman dh bob)) as [Hr Hc]. split; simpl; [apply skipped_new_wf|done..| |done|].
  - intros c [= <-]. by apply chain_new_wf.
  - unfold in_u32, u32_max. lia.
Qed.

Lemma initialize_bob_wf ss priv : wf_key ss → session_wf (initialize_bob ss (priv, x25519_public priv)).
Proof. intros. split; simpl; [apply skipped_new_wf|done..|unfold in_u32, u32_max; lia]. Qed.

(** The relation every method establishes. *)
Definition keeps_wf (s s' : RatchetSession) : Prop := session_wf s → session_wf s'.
#[local] Instance keeps_wf_refl : Reflexive keeps_wf.
Proof. intros s Hs. exact Hs. Qed.
#[local] Instance keeps_wf_trans : Transitive keeps_wf.
Proof. intros s1 s2 s3 Ha Hb Hs. by apply Hb, Ha. Qed.

Lemma lift_keeps {A} (r : result A) : m_rel keeps_wf (m_lift r).
Proof. intros s Hs. exact Hs. Qed.

Lemma get_keeps : m_rel keeps_wf (m_get (E := CryptoError)).
Proof. intros s Hs. exact Hs. Qed.

Lemma zoom_spqr_keeps {A} (m : M SpqrState CryptoError A) : m_rel keeps_wf (m_zoom spqr set_spqr m).
Proof. intros s Hs. unfold m_zoom. destruct (m (spqr s)) as [r st]. by destruct Hs. Qed.

Lemma advance_sending_keeps : m_rel keeps_wf advance_sending.
Proof.
  intros s Hs. unfold advance_sending. destruct (sending_chain s) as [c|] eqn:E; [|done].
  pose proof (chain_advance_wf c) as Hc. destruct (chain_advance c) as [mk c']. destruct Hs. split; simpl; try done.
  by intros ? [= <-].
Qed.

Lemma set_receiving_wf c k s :
  session_wf s → skipped_wf k → (∀ c', c = Some c' → chain_wf c' ∧ is_Some (dh_remote s)) →
  session_wf (set_receiving c k s).
Proof. intros [] ??. by split. Qed.

Lemma skip_receiving_loop_wf fuel until dh : ∀ c k,
  chain_wf c → skipped_wf k →
  let '(c', k') := skip_receiving_loop fuel until dh c k in chain_wf c' ∧ skipped_wf k'.
Proof.
  induction fuel as [|fuel IH]; intros c k Hc Hk; cbn [skip_receiving_loop]; [done|].
  case_bool_decide; [|done]. pose proof (chain_advance_wf c) as Hc'. destruct (chain_advance c) as [mk c'].
  by apply IH, skipped_insert_wf.
Qed.

Lemma skip_receiving_keeps until : m_rel keeps_wf (skip_receiving_messages until).
Proof.
  intros s Hs. unfold skip_receiving_messages. destruct (receiving_chain s) as [c|] eqn:E; [|done].
  destruct (sw_receiving _ Hs c E) as [Hc Hr]. do 2 (case_bool_decide; [done|]).
  pose proof (skip_receiving_loop_wf (Z.to_nat (until - message_number c)) until (default zero32 (dh_remote s))
    c (skipped s) Hc (sw_skipped _ Hs)) as Hl.
  destruct (skip_receiving_loop _ _ _ _ _) as [c' k']. destruct Hl.
  apply set_receiving_wf; [done..|]. by intros ? [= <-].
Qed.

Lemma perform_step_keeps new_dh h : m_rel keeps_wf (perform_dh_ratchet_step new_dh h).
Proof.
  intros s [Hk _ _ Hsend _ _]. unfold perform_dh_ratchet_step. cbn [snd].
  set (out := kdf_rk (s_root_key s) _). set (out2 := kdf_rk (rk_root_key out) _).
  destruct (kdf_rk_wf (s_root_key s) (diffie_hellman (dh_self s) (dh_public_key h))) as [Hr Hc].
  destruct (kdf_rk_wf (rk_root_key out) (diffie_hellman new_dh (dh_public_key h))) as [Hr2 Hc2].
  split; simpl; try done.
  - intros c [= <-]. by apply chain_new_wf.
  - intros c [= <-]. split; [by apply chain_new_wf|eauto].
  - destruct (sending_chain s) as [c|] eqn:E; [by apply Hsend|]. unfold in_u32, u32_max. lia.
Qed.

Lemma advance_receiving_keeps : m_rel keeps_wf advance_receiving.
Proof.
  intros s Hs. unfold advance_receiving. destruct (receiving_chain s) as [c|] eqn:E; [|done].
  destruct (sw_receiving _ Hs c E) as [_ Hr]. pose proof (chain_advance_wf c) as Hc.
  destruct (chain_advance c) as [mk c']. apply set_receiving_wf; [done|apply Hs|]. by intros ? [= <-].
Qed.

Lemma take_skipped_keeps h : m_rel keeps_wf (take_skipped h).
Proof.
  intros s Hs. unfold take_skipped.
  pose proof (try_remove_wf (h_message_number h) (dh_public_key h) _ (sw_skipped _ Hs)) as Hk.
  destruct (try_remove_by_dh _ _ _) as [mk k']. apply set_receiving_wf; [done|done|]. apply Hs.
Qed.

#[local] Hint Resolve lift_keeps get_keeps zoom_spqr_keeps advance_sending_keeps skip_receiving_keeps
  perform_step_keeps advance_receiving_keeps take_skipped_keeps : core.

Lemma ec_message_key_keeps new_dh h : m_rel keeps_wf (ec_message_key new_dh h).
Proof. unfold ec_message_key. keeps. Qed.
#[local] Hint Resolve ec_message_key_keeps : core.

Lemma session_decrypt_keeps new_dh m a b : m_rel keeps_wf (session_decrypt new_dh m a b).
Proof. unfold session_decrypt. keeps. Qed.

Lemma encrypt_raw_keeps rng nonce pt a b : m_rel keeps_wf (encrypt_raw rng nonce pt a b).
Proof. unfold encrypt_raw. keeps. Qed.
#[local] Hint Resolve encrypt_raw_keeps : core.

Lemma session_encrypt_keeps rng nonce pt a b : m_rel keeps_wf (session_encrypt rng nonce pt a b).
Proof. unfold session_encrypt. keeps. Qed.
#[local] Hint Resolve session_encrypt_keeps : core.

Lemma encrypt_message_keeps rng nonce pt a b : m_rel keeps_wf (encrypt_message rng nonce pt a b).
Proof.
  unfold encrypt_message. keeps. by intros s [].
Qed.

Lemma encrypt_prekey_keeps rng nonce pt a b i : m_rel keeps_wf (encrypt_prekey_message rng nonce pt a b i).
Proof. unfold encrypt_prekey_message. keeps. Qed.

Lemma session_call_wf s op : session_wf s → session_wf (session_call s op).
Proof.
  destruct op; simpl; [apply session_encrypt_keeps|apply encrypt_message_keeps|apply encrypt_prekey_keeps
    |apply session_decrypt_keeps].
Qed.

Lemma session_calls_wf ops : ∀ s, session_wf s → session_wf (foldl session_call s ops).
Proof. induction ops as [|op ops IH]; intros s Hs; simpl; [done|]. by apply IH, session_call_wf. Qed.

(** C8. Whatever calls are made on an initiator's or a responder's session (forged
    messages and failing calls included), the session keeps its invariant. *)
Theorem session_invariant dh ss peer priv ops :
  wf_key ss →
  (∀ s, initialize_alice dh ss peer = Ok s → session_wf (foldl session_call s ops))
  ∧ session_wf (foldl session_call (initialize_bob ss (priv, x25519_public priv)) ops).
Proof.
  intros Hss. split.
  - intros s Hs. by eapply session_calls_wf, initialize_alice_wf.
  - by apply session_calls_wf, initialize_bob_wf.
Qed.

(** ** Storage *)

Context `{PostcardOk SerializedState}.

Definition forget_root_id (s : RatchetSession) : RatchetSession :=
  mk_session (dh_self s) (dh_self_public s) (dh_remote s) (s_root_key s) (sending_chain s)
    (receiving_chain s) (previous_sending_chain_length s) (skipped s) (pending_prekey s) (spqr s) 0.

Lemma session_deserialize_framed body st :
  from_bytes body = Ok st →
  session_deserialize (MAGIC ++ [CURRENT_VERSION] ++ body)
  = if bool_decide (session_version st ≠ SESSION_VERSION)
    then Err (Serialization ("session version " +:+ pretty (session_version st)
              +:+ " is not the supported version " +:+ pretty SESSION_VERSION))
    else Ok (mk_session (ser_dh_self_bytes st) (ser_dh_self_public st) (ser_dh_remote st) (ser_root_key st)
             (ser_sending_chain st) (ser_receiving_chain st) (ser_previous_sending_chain_length st)
             (skipped_from_entries (ser_skipped st)) (ser_pending_prekey st) (ser_spqr st) 0).
Proof. intros Hb. unfold session_deserialize. rewrite deserialize_framed, Hb. done. Qed.

Lemma session_reloads s :
  session_wf s → ∃ bs, session_serialize s = Ok bs ∧ session_deserialize bs = Ok (forget_root_id s).
Proof.
  intros Hs. destruct (postcard_roundtrip (to_serialized s)) as (body & Henc & Hdec).
  exists (MAGIC ++ [CURRENT_VERSION] ++ body). split.
  - unfold session_serialize, serialize. by rewrite Henc.
  - rewrite (session_deserialize_framed _ _ Hdec), bool_decide_eq_false_2 by (simpl; tauto). simpl.
    by rewrite (skipped_entries_roundtrip (skipped s)) by (done || apply Hs).
Qed.

(** C21. A stored session is read back as it was, up to the runtime-only identifier; a
    record of any other session version is refused. *)
Theorem session_stored_roundtrip s :
  session_wf s →
  (∃ bs, session_serialize s = Ok bs ∧ session_deserialize bs = Ok (forget_root_id s))
  ∧ ∀ v, v ≠ SESSION_VERSION → ∀ bs,
      serialize (mk_serialized v (dh_self s) (dh_self_public s) (dh_remote s) (s_root_key s)
        (sending_chain s) (receiving_chain s) (previous_sending_chain_length s) (skipped_entries (skipped s))
        (pending_prekey s) (spqr s)) = Ok bs →
      is_ok (session_deserialize bs) = false.
Proof.
  intros Hs. split.
  - by apply session_reloads.
  - intros v Hv bs (body & Henc & ->)%serialize_shape.
    destruct (postcard_roundtrip (mk_serialized v (dh_self s) (dh_self_public s) (dh_remote s) (s_root_key s)
      (sending_chain s) (receiving_chain s) (previous_sending_chain_length s) (skipped_entries (skipped s))
      (pending_prekey s) (spqr s))) as (body' & Henc' & Hdec).
    rewrite Henc in Henc'. injection Henc' as <-.
    by rewrite (session_deserialize_framed _ _ Hdec), bool_decide_eq_true_2.
Qed.

End session.
