(* ===== verification/BraidWedge.v ===== *)
(** * A forged codeword at the encapsulator

    The codewords of [ek_vector] are not authenticated one by one: the decoder keeps the
    first value it sees for an index, and [recv_ct1_sampled] and [recv_ct1_acknowledged]
    never reset it.  [forged_at] says that a systematic block of the decoder differs from
    the genuine object; [wedged] that the encapsulator holds such a decoder.  No call
    leaves [wedged], and a codeword that completes the object makes [receive], hence
    [decrypt], fail.  The documentation of [BraidState::receive] and the test
    [injected_garbage_codeword_does_not_brick_session] promise the opposite. *)

From S2P Require Import Prelude Foundation Interfaces Padding Kdf Keys AeadRecord Erasure Kem.
From S2P Require Import BraidAuth Braid BraidTypes Spqr SpqrBraid Pqxdh Skipped Ratchet Session.

(** ** Blocks of a decoded object *)

(** The bytes of codeword [i] of an object. *)
Definition block (i : Z) (v : bytes) : bytes := take CHUNK_BYTES (drop (Z.to_nat i * CHUNK_BYTES) v).

(** The decoder holds, for a systematic codeword of [v], other bytes than those of [v]. *)
Definition forged_at (v : bytes) (i : Z) (d : bytes) (dec : Decoder) : Prop :=
  0 ≤ i < Z.of_nat (data_shards dec) ∧ received dec !! i = Some d
  ∧ block i v ≠ take (length (block i v)) d.

Lemma take_prefix {A} k a (x : list A) : take k (take a x) = take (length (take k (take a x))) (take k x).
Proof.
  rewrite !take_take, length_take. destruct (decide (length x ≤ k `min` a)%nat).
  - rewrite !take_ge by lia. done.
  - f_equal. lia.
Qed.

Section blocks.
Context `{ReedSolomonOk}.

Lemma gather_block rcv restored n : ∀ j out i d,
  map_Forall (λ _ d, length d = CHUNK_BYTES) rcv → map_Forall (λ _ d, length d = CHUNK_BYTES) restored →
  gather rcv restored (seqZ j (Z.of_nat n)) = Ok out →
  j ≤ i < j + Z.of_nat n → rcv !! i = Some d → block (i - j) out = d.
Proof.
  intros j out i d Hr Hs. revert j out. induction n as [|n IH]; intros j out; [lia|].
  rewrite seqZ_cons by lia. cbn [gather].
  intros (x & Hx & (rest & Hg & [= <-])%result_bind_Ok)%result_bind_Ok Hi Hd.
  replace (Z.pred (Z.of_nat (S n))) with (Z.of_nat n) in Hg by lia.
  assert (length x = CHUNK_BYTES) as Hl.
  { unfold shard_at in Hx. destruct (rcv !! j) eqn:E; [injection Hx as <-; exact (Hr j _ E)|].
    destruct (restored !! j) eqn:E'; [|done]. injection Hx as <-. exact (Hs j _ E'). }
  unfold block. destruct (decide (i = j)) as [->|Hne].
  - unfold shard_at in Hx. rewrite Hd in Hx. injection Hx as <-. rewrite Z.sub_diag, drop_0.
    by rewrite <-Hl, take_app_length.
  - rewrite <-(IH (Z.succ j) rest Hg ltac:(lia) Hd). unfold block.
    replace (Z.to_nat (i - j)) with (S (Z.to_nat (i - Z.succ j))) by lia.
    rewrite Nat.mul_succ_l, drop_app_ge by (rewrite Hl; apply Nat.le_add_l). do 2 f_equal. rewrite Hl. apply Nat.add_sub.
Qed.

(** What a decoder returns agrees with every systematic codeword it received. *)
Lemma message_block n dec out i d :
  decoder_ok n dec → message dec = Ok (Some out) → 0 ≤ i < Z.of_nat (data_shards dec) →
  received dec !! i = Some d → block i out = take (length (block i out)) d.
Proof.
  intros Hok Hm Hi Hrcv. destruct (message_gathered _ _ _ Hok Hm) as (restored & o & Hr & Hs & Hg & ->).
  apply (gather_block _ _ _ 0 o i d Hr Hs) in Hg; [|lia|done]. rewrite Z.sub_0_r in Hg. subst d.
  unfold block. rewrite skipn_firstn_comm. apply take_prefix.
Qed.

Lemma forged_message v i d dec : decoder_ok (length v) dec → forged_at v i d dec → message dec ≠ Ok (Some v).
Proof. intros Hd (Hi & Hr & Hne) Hm. apply Hne. by eapply message_block. Qed.

(** An adversary cannot remove the codeword, and neither can the peer. *)
Lemma forged_at_kept v i d dec m dec' :
  forged_at v i d dec → msg_add_chunk dec m = Ok dec' → forged_at v i d dec'.
Proof.
  intros (Hi & Hr & Hne). unfold msg_add_chunk, add_chunk. destruct (msg_chunk m) as [c|]; [|done]. simpl.
  case_bool_decide; [done|]. case_match; [done|]. intros [= <-]. split_and!; [apply Hi..| |done]. cbn.
  destruct (received dec !! chunk_index c) eqn:E; [done|]. rewrite lookup_insert_ne; [done|]. congruence.
Qed.

End blocks.

(** ** The wedged encapsulator *)

Section wedge.
Context `{HashesOk} `{ReedSolomonOk} `{IncKemOk}.

(** The genuine key of an epoch, and a codeword of it that is not genuine. *)
Context (header ek : bytes) (e : Z) (i : Z) (d : bytes).

(** The decoder of [ek_vector] in the two states that collect it once [ct1] is sampled. *)
Definition collecting (s : State) : option Decoder :=
  match s with
  | Ct1Sampled e' _ header' _ _ _ ek_dec | Ct1Acknowledged e' _ _ header' _ ek_dec =>
      if bool_decide (e' = e ∧ header' = header) then Some ek_dec else None
  | _ => None
  end.

Lemma collecting_inv s dec :
  collecting s = Some dec →
  (∃ auth st ct1 enc, s = Ct1Sampled e auth header st ct1 enc dec)
  ∨ (∃ auth st ct1, s = Ct1Acknowledged e auth st header ct1 dec).
Proof. destruct s; simpl; try done; case_bool_decide as Hb; intros [= <-]; destruct Hb; subst; [left|right]; by repeat eexists. Qed.

Lemma collecting_ok s dec : state_ok s → collecting s = Some dec → decoder_ok pk2_len dec.
Proof. intros Hs [(? & ? & ? & ? & ->)|(? & ? & ? & ->)]%collecting_inv; simpl in Hs; tauto. Qed.

Lemma collecting_sampled auth st ct1 enc dec : collecting (Ct1Sampled e auth header st ct1 enc dec) = Some dec.
Proof. simpl. by rewrite bool_decide_eq_true_2. Qed.
Lemma collecting_acknowledged auth st ct1 dec : collecting (Ct1Acknowledged e auth st header ct1 dec) = Some dec.
Proof. simpl. by rewrite bool_decide_eq_true_2. Qed.
#[local] Hint Resolve collecting_sampled collecting_acknowledged : core.

Definition wedged (s : State) : Prop :=
  state_ok s ∧ ∃ dec, collecting s = Some dec ∧ forged_at ek i d dec.

(** The header commits to the vector. *)
Hypothesis Hcommit : ∀ v, inc_validate_pk header v = Ok () → v = ek.
Hypothesis Hlen : length ek = pk2_len.

Lemma validate_forged dec v x :
  decoder_ok pk2_len dec → forged_at ek i d dec → message dec = Ok (Some v) →
  validate_public_key header v ≠ Ok x.
Proof.
  intros Hd Hf Hm Hv. unfold validate_public_key in Hv. destruct (inc_validate_pk header v) as [[]|] eqn:E; [|done].
  apply Hcommit in E as ->. rewrite <-Hlen in Hd. by eapply forged_message.
Qed.

Lemma wedged_epoch s : wedged s → state_epoch s = e.
Proof. by intros (_ & dec & [(? & ? & ? & ? & ->)|(? & ? & ? & ->)]%collecting_inv & _). Qed.

(** The run is stuck: the object is complete but is not the committed one. *)
Ltac refuse := exfalso; match goal with
  | Ha : msg_add_chunk _ _ = Ok ?x, Hm' : message ?x = Ok (Some ?v), Hv : validate_public_key _ ?v = Ok _ |- _ =>
      eapply (validate_forged x v); [..|exact Hv]; eauto using msg_add_chunk_ok, forged_at_kept
  end.

Lemma wedged_send s rng s' m k : wedged s → state_send s rng = Ok (s', m, k) → wedged s' ∧ k = None.
Proof.
  intros (Hok & dec & Hc & Hf) Hs. destruct (state_send_ok _ _ _ _ _ Hok Hs) as (Hok' & _).
  unfold wedged. apply collecting_inv in Hc as [(? & ? & ? & ? & ->)|(? & ? & ? & ->)]; simpl in Hs; run_handler;
    simplify_eq; eauto 6.
Qed.

Lemma wedged_receive s m s' k : wedged s → msg_ok m → state_receive s m = Ok (s', k) → wedged s' ∧ k = None.
Proof.
  intros (Hok & dec & Hc & Hf) Hm Hs. destruct (state_receive_ok _ _ _ _ Hok Hm Hs) as (Hok' & _).
  pose proof (collecting_ok _ _ Hok Hc) as Hdec. unfold wedged.
  apply collecting_inv in Hc as [(? & ? & ? & ? & ->)|(? & ? & ? & ->)]; simpl in Hs;
    unfold recv_ct1_sampled, recv_ct1_acknowledged in Hs; run_handler; simplify_eq;
    first [refuse | eauto 8 using forged_at_kept].
Qed.

(** The state takes codewords of [ek_vector] from messages of this type. *)
Definition listens (s : State) (t : MsgType) : bool :=
  match s, t with
  | Ct1Sampled _ _ _ _ _ _ _, (Ek | EkCt1Ack) | Ct1Acknowledged _ _ _ _ _ _, EkCt1Ack => true
  | _, _ => false
  end.

(** The message brings the last codeword that the object needs, at a new index. *)
Definition completes (s : State) (m : Message) : Prop :=
  msg_epoch m = e ∧ listens s (mtype m) = true
  ∧ ∃ dec c, collecting s = Some dec ∧ msg_chunk m = Some c ∧ shard_ok pk2_len (chunk_index c) (chunk_data c)
      ∧ received dec !! chunk_index c = None ∧ (data_shards dec ≤ S (size (received dec)))%nat.

Lemma wedged_refuses s m : wedged s → msg_ok m → completes s m → is_ok (state_receive s m) = false.
Proof.
  intros (Hok & dec & Hc & Hf) Hm (He & Hlis & dec' & c & Hc' & Hch & Hsh & Hnew & Hsz).
  rewrite Hc in Hc'. injection Hc' as <-.
  destruct (state_receive s m) as [[s' k]|] eqn:Hs; [exfalso|done].
  assert (∀ x, msg_add_chunk dec m = Ok x → has_message x = true) as Hhas.
  { unfold msg_add_chunk, add_chunk. rewrite Hch. simpl. intros x. case_bool_decide; [done|]. case_match; [done|].
    intros [= <-]. unfold has_message. simpl. rewrite Hnew, map_size_insert_None by done. by apply Nat.leb_le. }
  assert (∀ x, msg_add_chunk dec m = Ok x → message x ≠ Ok None) as Hsome.
  { intros x Hx Hn. unfold message in Hn. rewrite (Hhas x Hx) in Hn. simpl in Hn. by inv_ok. }
  pose proof (collecting_ok _ _ Hok Hc) as Hdec.
  apply collecting_inv in Hc as [(? & ? & ? & ? & ->)|(? & ? & ? & ->)]; simpl in Hs, Hlis;
    unfold recv_ct1_sampled, recv_ct1_acknowledged, is_msg in Hs; rewrite bool_decide_eq_true_2 in Hs by done;
    destruct (mtype m); try discriminate Hlis; simpl in Hs; run_handler; simplify_eq;
    first [refuse | by eapply Hsome].
Qed.

Lemma wedged_enters s m c auth st ct1 enc dec :
  s = Ct1Sampled e auth header st ct1 enc dec → state_ok s →
  m = carrying e Ek c → chunk_index c = i → chunk_data c = d → msg_ok m →
  0 ≤ i < Z.of_nat (data_shards dec) → received dec !! i = None → (S (size (received dec)) < data_shards dec)%nat →
  length d = CHUNK_BYTES → block i ek ≠ take (length (block i ek)) d →
  ∃ s', state_receive s m = Ok (s', None) ∧ wedged s'.
Proof.
  intros -> Hok -> Hci Hcd Hm Hi Hnew Hsz Hld Hne. simpl. unfold recv_ct1_sampled, is_msg. simpl.
  rewrite bool_decide_eq_true_2 by done. simpl.
  set (dec' := with_received dec (<[i := d]> (received dec))).
  assert (msg_add_chunk dec (carrying e Ek c) = Ok dec') as Ha.
  { unfold msg_add_chunk, add_chunk. cbn [msg_chunk carrying ok_or mbind result_bind].
    rewrite Hci, Hcd, Hnew, bool_decide_eq_false_2 by tauto. unfold total_shards.
    destruct (Z.leb_spec (Z.of_nat (data_shards dec + recovery_shards dec)) i); [lia|done]. }
  rewrite Ha. simpl. unfold message, has_message. simpl. rewrite map_size_insert_None by done.
  destruct (Nat.leb_spec (data_shards dec) (S (size (received dec)))); [lia|]. simpl.
  eexists. split; [done|]. split.
  - simpl in Hok |- *. destruct_and?. split_and!; try done.
    eapply msg_add_chunk_ok; [..|exact Ha]; done.
  - exists dec'. split; [apply collecting_sampled|]. split_and!; [apply Hi..|apply lookup_insert_eq|done].
Qed.

End wedge.

(** ** A session and its braid

    A session acts on its braid only through the braid's own API: a property of the braid
    that [send] and [receive] keep is kept by every call on the session. *)

Section session_braid.
Context `{Hashes} `{X25519} `{Ed25519} `{Aead} `{Kyber} `{ReedSolomon} `{IncKem} `{Postcard MessageHeader}.

(** The header's braid message has the field widths of the wire. *)
Definition op_typed (op : SessionOp) : Prop :=
  match op with
  | OpDecrypt _ m _ _ => ∀ h, header_deserialize (header m) = Ok h → msg_ok (braid_msg h)
  | _ => True
  end.

Context (P : BraidState → Prop).
Hypothesis P_send : ∀ rng b, P b → P (braid_send rng b).2.
Hypothesis P_receive : ∀ m b, msg_ok m → P b → P (braid_receive m b).2.

Definition keeps_session_braid (s s' : RatchetSession) : Prop := keeps_braid P (spqr s) (spqr s').

#[local] Instance keeps_session_refl : Reflexive keeps_session_braid.
Proof. intros s Hs. exact Hs. Qed.
#[local] Instance keeps_session_trans : Transitive keeps_session_braid.
Proof. intros s1 s2 s3 Ha Hb Hs. by apply Hb, Ha. Qed.

Lemma ratchet_send_key_keeps rng : m_rel (keeps_braid P) (ratchet_send_key rng).
Proof. intros s Hs. rewrite ratchet_send_key_braid. by apply P_send. Qed.
Lemma ratchet_receive_key_keeps m n : msg_ok m → m_rel (keeps_braid P) (ratchet_receive_key m n).
Proof. intros Hm s Hs. rewrite ratchet_receive_key_braid. by apply P_receive. Qed.

Lemma zoom_spqr_braid {A} (m : M SpqrState CryptoError A) :
  m_rel (keeps_braid P) m → m_rel keeps_session_braid (m_zoom spqr set_spqr m).
Proof. intros Hm s Hs. unfold m_zoom. specialize (Hm _ Hs). by destruct (m (spqr s)). Qed.

(** The EC half of a session never touches the post-quantum half. *)
Definition same_spqr (s s' : RatchetSession) : Prop := spqr s' = spqr s.
#[local] Instance same_spqr_refl : Reflexive same_spqr.
Proof. done. Qed.
#[local] Instance same_spqr_trans : Transitive same_spqr.
Proof. unfold same_spqr. intros ???. congruence. Qed.

Lemma take_skipped_spqr h : m_rel same_spqr (take_skipped h).
Proof. intros s. unfold take_skipped. by case_match. Qed.
Lemma skip_receiving_spqr until : m_rel same_spqr (skip_receiving_messages until).
Proof. intros s. unfold skip_receiving_messages. by repeat case_match. Qed.
Lemma perform_step_spqr new_dh h : m_rel same_spqr (perform_dh_ratchet_step new_dh h).
Proof. by intros s. Qed.
Lemma advance_receiving_spqr : m_rel same_spqr advance_receiving.
Proof. intros s. unfold advance_receiving. by repeat case_match. Qed.
Lemma get_spqr : m_rel same_spqr (m_get (E := CryptoError)).
Proof. by intros s. Qed.
#[local] Hint Resolve take_skipped_spqr skip_receiving_spqr perform_step_spqr advance_receiving_spqr get_spqr : core.

Lemma ec_message_key_spqr new_dh h : m_rel same_spqr (ec_message_key new_dh h).
Proof. unfold ec_message_key. keeps. Qed.
Lemma ec_message_key_keeps_braid new_dh h : m_rel keeps_session_braid (ec_message_key new_dh h).
Proof. intros s Hs. unfold keeps_braid. by rewrite (ec_message_key_spqr new_dh h s). Qed.

Lemma lift_keeps_braid {A} (r : result A) : m_rel keeps_session_braid (m_lift r).
Proof. by intros s Hs. Qed.
Lemma get_keeps_braid : m_rel keeps_session_braid (m_get (E := CryptoError)).
Proof. by intros s Hs. Qed.
Lemma advance_sending_keeps_braid : m_rel keeps_session_braid advance_sending.
Proof. intros s Hs. unfold advance_sending. by repeat case_match. Qed.
Lemma set_pending_keeps_braid p : m_rel keeps_session_braid (m_modify (E := CryptoError) (set_pending_prekey p)).
Proof. by intros s Hs. Qed.

#[local] Hint Resolve ec_message_key_keeps_braid lift_keeps_braid get_keeps_braid advance_sending_keeps_braid
  set_pending_keeps_braid zoom_spqr_braid ratchet_send_key_keeps ratchet_receive_key_keeps : core.

Lemma encrypt_raw_braid rng nonce pt a b : m_rel keeps_session_braid (encrypt_raw rng nonce pt a b).
Proof. unfold encrypt_raw. keeps. Qed.
#[local] Hint Resolve encrypt_raw_braid : core.

Lemma session_encrypt_braid rng nonce pt a b : m_rel keeps_session_braid (session_encrypt rng nonce pt a b).
Proof. unfold session_encrypt. keeps. Qed.
#[local] Hint Resolve session_encrypt_braid : core.

Lemma session_decrypt_braid new_dh m a b :
  (∀ h, header_deserialize (header m) = Ok h → msg_ok (braid_msg h)) →
  m_rel keeps_session_braid (session_decrypt new_dh m a b).
Proof.
  intros Hm. unfold session_decrypt. apply m_rel_lift; [apply _|]. intros h Hh. specialize (Hm h Hh). keeps.
Qed.

Lemma session_call_braid s op : op_typed op → P (braid (spqr s)) → P (braid (spqr (session_call s op))).
Proof.
  destruct op as [| | |new_dh m a b]; simpl; intros Ht; [apply session_encrypt_braid| | |by apply session_decrypt_braid].
  - revert s. change (m_rel keeps_session_braid (encrypt_message rng nonce plaintext sender recipient)).
    unfold encrypt_message. keeps.
  - revert s. change (m_rel keeps_session_braid (encrypt_prekey_message rng nonce plaintext sender recipient initial)).
    unfold encrypt_prekey_message. keeps.
Qed.

Lemma session_calls_braid ops : ∀ s,
  Forall op_typed ops → P (braid (spqr s)) → P (braid (spqr (foldl session_call s ops))).
Proof.
  induction ops as [|op ops IH]; intros s Ht Hs; simpl; [done|]. apply Forall_cons_1 in Ht as [Ht Hts].
  by apply IH, session_call_braid.
Qed.

End session_braid.

(** ** The wedged session *)

Section wedged_session.
Context `{HashesOk} `{X25519} `{Ed25519} `{Aead} `{Kyber} `{ReedSolomonOk} `{IncKemOk} `{PostcardOk MessageHeader}.

(** The braid of a session is well-typed, whatever calls were made on it. *)
Lemma session_braid_ok ops s :
  state_ok (state (braid (spqr s))) → Forall op_typed ops →
  state_ok (state (braid (spqr (foldl session_call s ops)))).
Proof.
  intros Hs Ho. apply (session_calls_braid (λ b, state_ok (state b))); [..|done|done].
  - intros rng b Hb. pose proof (braid_call_ok (OpSend rng) b _ _ Hb I (surjective_pairing _)) as [Hc _].
    simpl in Hc. destruct (braid_send rng b) as [[]]; exact Hc.
  - intros m b Hm Hb. pose proof (braid_call_ok (OpReceive m) b _ _ Hb Hm (surjective_pairing _)) as [Hc _].
    simpl in Hc. destruct (braid_receive m b) as [[]]; exact Hc.
Qed.

Lemma decrypt_refused new_dh m a b s h :
  header_deserialize (header m) = Ok h → is_ok (state_receive (state (braid (spqr s))) (braid_msg h)) = false →
  is_ok (session_decrypt new_dh m a b s).1 = false.
Proof.
  intros Hh Hr. unfold session_decrypt. rewrite (m_bind_run _ _ s h s) by (unfold m_lift; by rewrite Hh).
  pose proof (ec_message_key_spqr new_dh h s) as Hq. unfold same_spqr in Hq.
  destruct (ec_message_key new_dh h s) as [[mk|err] s1] eqn:E; [|by rewrite (m_bind_err _ _ _ _ _ E)].
  rewrite (m_bind_run _ _ _ _ _ E). simpl in Hq. rewrite <-Hq in Hr.
  unfold ratchet_receive_key, m_zoom, mbind, m_bind. rewrite braid_receive_run.
  by destruct (state_receive _ _) as [[??]|].
Qed.

(** The braid has moved by the time anything else is checked. *)
Lemma decrypt_moves_braid new_dh m a b s h s2 :
  header_deserialize (header m) = Ok h → is_ok (ec_message_key new_dh h s).1 = true →
  state_receive (state (braid (spqr s))) (braid_msg h) = Ok (s2, None) →
  braid (spqr (session_decrypt new_dh m a b s).2) = mk_braid s2.
Proof.
  intros Hh Hec Hr. unfold session_decrypt. rewrite (m_bind_run _ _ s h s) by (unfold m_lift; by rewrite Hh).
  pose proof (ec_message_key_spqr new_dh h s) as Hq. unfold same_spqr in Hq.
  destruct (ec_message_key new_dh h s) as [[mk|err] s1] eqn:E; [|done].
  rewrite (m_bind_run _ _ _ _ _ E). simpl in Hq. rewrite <-Hq in Hr.
  assert (braid (ratchet_receive_key (braid_msg h) (pq_message_number h) (spqr s1)).2 = mk_braid s2) as Hb
    by (by rewrite ratchet_receive_key_braid, braid_receive_run, Hr).
  unfold m_zoom at 1, mbind, m_bind. destruct (ratchet_receive_key _ _ _) as [[pq|err] st2]; [|done].
  unfold m_lift. by destruct (decrypt _ _ _).
Qed.

(** C13. One forged codeword stops the post-quantum ratchet of a session and breaks its
    decryption for good.  The encapsulator is collecting [ek_vector]; a message whose
    header has a usable ratchet part and carries garbage for a systematic codeword is
    decrypted (whether or not the call fails, the AEAD tag is checked after the braid has
    kept the codeword).  If the header commits to one vector, then after any further
    calls, genuine or not, the braid is still in that epoch, and every message bringing
    a last missing codeword, at any new index, is refused. *)
Theorem forged_codeword_wedges_session hd ek e i d auth st ct1 enc dec s new_dh h ct a b ops :
  state (braid (spqr s)) = Ct1Sampled e auth hd st ct1 enc dec → state_ok (state (braid (spqr s))) →
  (∀ v, inc_validate_pk hd v = Ok () → v = ek) → length ek = pk2_len →
  braid_msg h = carrying e Ek (mk_chunk i d) → msg_ok (braid_msg h) → is_ok (ec_message_key new_dh h s).1 = true →
  0 ≤ i < Z.of_nat (data_shards dec) → received dec !! i = None → (S (size (received dec)) < data_shards dec)%nat →
  length d = CHUNK_BYTES → block i ek ≠ take (length (block i ek)) d →
  Forall op_typed ops →
  let forged := mk_ratchet_message (header_serialize h) ct in
  let s' := foldl session_call s (OpDecrypt new_dh forged a b :: ops) in
  state_epoch (state (braid (spqr s'))) = e
  ∧ (∃ dec', collecting hd e (state (braid (spqr s'))) = Some dec' ∧ received dec' !! i = Some d)
  ∧ ∀ new_dh' m h' a' b', header_deserialize (header m) = Ok h' → msg_ok (braid_msg h') →
      completes hd e (state (braid (spqr s'))) (braid_msg h') →
      is_ok (session_decrypt new_dh' m a' b' s').1 = false.
Proof.
  intros Hst Hok Hcommit Hlen Hb Hm Hec Hi Hnew Hsz Hd Hne Hops forged s'.
  destruct (wedged_enters hd ek e i d Hlen _ (braid_msg h) (mk_chunk i d) _ _ _ _ _ Hst Hok Hb eq_refl eq_refl Hm
    Hi Hnew Hsz Hd Hne) as (sw & Hr & Henter).
  assert (wedged hd ek e i d (state (braid (spqr s')))) as Hw.
  { change s' with (foldl session_call (session_call s (OpDecrypt new_dh forged a b)) ops).
    apply (session_calls_braid (λ b, wedged hd ek e i d (state b))); [..|done|].
    - intros rng br Hw. rewrite braid_send_run. destruct (state_send _ _) as [[[s1 m1] k1]|] eqn:E; [|done].
      exact (proj1 (wedged_send _ _ _ _ _ _ _ _ _ _ Hw E)).
    - intros m br Hmo Hw. rewrite braid_receive_run. destruct (state_receive (state br) m) as [[s1 k1]|] eqn:E; [|done].
      exact (proj1 (wedged_receive _ _ _ _ _ Hcommit Hlen _ _ _ _ Hw Hmo E)).
    - cbn [session_call]. by rewrite (decrypt_moves_braid new_dh forged a b s h sw (header_roundtrip h) Hec Hr). }
  split_and!; [by eapply wedged_epoch| |].
  - destruct Hw as (_ & dec' & Hc & _ & Hf & _). eauto.
  - intros new_dh' m h' a' b' Hh' Hm' Hc. eapply decrypt_refused; [exact Hh'|].
    exact (wedged_refuses _ _ _ _ _ Hcommit Hlen _ _ Hw Hm' Hc).
Qed.

End wedged_session.
