(* ===== verification/Replay.v ===== *)
(** * No message is read twice

    A session acts on its post-quantum ratchet only through [send_ratchet_key] and
    [receive_ratchet_key]: the calls on a session are, for that ratchet, a sequence of the
    calls of [SpqrKeys].  So the (epoch, counter) pairs of the messages a session decrypts
    are among those whose keys the ratchet hands out, and no pair comes twice. *)

From S2P Require Import Prelude Foundation Interfaces Padding Kdf Keys AeadRecord Erasure Kem.
From S2P Require Import BraidAuth Braid Spqr SpqrKeys Pqxdh Skipped Ratchet Session BraidWedge.

Section replay.
Context `{Hashes} `{X25519} `{Ed25519} `{Aead} `{Kyber} `{ReedSolomon} `{IncKem} `{Postcard MessageHeader}.

(** The epoch and counter of the post-quantum key of a message. *)
Definition pq_slot (h : MessageHeader) : Z * Z := (sat_sub (msg_epoch (braid_msg h)) 1, pq_message_number h).

(** The counter of a header fits its field. *)
Definition op_counted (op : SessionOp) : Prop :=
  match op with
  | OpDecrypt _ m _ _ => ∀ h, header_deserialize (header m) = Ok h → in_u32 (pq_message_number h)
  | _ => True
  end.

(** The slots of the messages that a call, or a sequence of calls, decrypts. *)
Definition session_read (op : SessionOp) (s : RatchetSession) : list (Z * Z) :=
  match op with
  | OpDecrypt new_dh m a b =>
      match header_deserialize (header m), (session_decrypt new_dh m a b s).1 with
      | Ok h, Ok _ => [pq_slot h]
      | _, _ => []
      end
  | _ => []
  end.

Fixpoint session_reads (ops : list SessionOp) (s : RatchetSession) : list (Z * Z) :=
  match ops with
  | [] => []
  | op :: ops => session_read op s ++ session_reads ops (session_call s op)
  end.

(** ** A session's calls on its ratchet *)

(** Once the ratchet has been called, encryption leaves it alone. *)
Lemma encrypt_raw_spqr rng nonce pt a b s :
  spqr (encrypt_raw rng nonce pt a b s).2 = (ratchet_send_key rng (spqr s)).2.
Proof.
  unfold encrypt_raw, m_zoom. unfold mbind at 1, m_bind at 1.
  destruct (ratchet_send_key rng (spqr s)) as [[[[bmsg m] mk]|e] st]; [|done]. simpl.
  unfold mbind, m_bind, m_get, m_lift, advance_sending. simpl. destruct (sending_chain s) as [c|]; [|done].
  destruct (chain_advance c) as [mk' c']. by case_match.
Qed.

Lemma encrypt_message_spqr rng nonce pt a b s :
  spqr (encrypt_message rng nonce pt a b s).2 = (ratchet_send_key rng (spqr s)).2.
Proof.
  rewrite <-(encrypt_raw_spqr rng nonce pt a b). unfold encrypt_message, mbind, m_bind, m_get.
  destruct (encrypt_raw rng nonce pt a b s) as [[m|e] s1]; [|done]. by destruct (pending_prekey s1) eqn:E; rewrite ?E.
Qed.

Lemma session_encrypt_spqr rng nonce pt a b s :
  spqr (session_encrypt rng nonce pt a b s).2
  = match pending_prekey s with Some _ => spqr s | None => (ratchet_send_key rng (spqr s)).2 end.
Proof.
  unfold session_encrypt, mbind, m_bind, m_get. destruct (pending_prekey s); [done|]. apply encrypt_raw_spqr.
Qed.

(** Decryption stops before the ratchet, or receives on it once; it succeeds only if the
    ratchet gave a key. *)
Lemma session_decrypt_spqr new_dh m a b s r s' :
  session_decrypt new_dh m a b s = (r, s') →
  is_ok r = false ∧ spqr s' = spqr s
  ∨ ∃ h k, header_deserialize (header m) = Ok h
      ∧ ratchet_receive_key (braid_msg h) (pq_message_number h) (spqr s) = (k, spqr s')
      ∧ (is_ok r = true → is_ok k = true).
Proof.
  intros Hd. unfold session_decrypt in Hd.
  destruct (header_deserialize (header m)) as [h|e] eqn:Eh; [|left; by injection Hd as <- <-].
  rewrite (m_bind_run _ _ s h s) in Hd by done. pose proof (ec_message_key_spqr new_dh h s) as Hq. unfold same_spqr in Hq.
  destruct (ec_message_key new_dh h s) as [[ec|e] s1] eqn:E; simpl in Hq.
  2:{ left. rewrite (m_bind_err _ _ _ _ _ E) in Hd. by injection Hd as <- <-. }
  right. rewrite (m_bind_run _ _ _ _ _ E) in Hd. rewrite <-Hq.
  destruct (ratchet_receive_key (braid_msg h) (pq_message_number h) (spqr s1)) as [k st] eqn:Ek.
  exists h, k. unfold m_zoom at 1, mbind, m_bind in Hd. rewrite Ek in Hd. destruct k as [mk|e]; [|by injection Hd as <- <-].
  unfold m_lift in Hd. destruct (decrypt _ _ _); by injection Hd as <- <-.
Qed.

(** A call on a session is at most one call on its ratchet, which hands out the slot of
    every message that was decrypted. *)
Lemma session_call_spqr op s :
  op_counted op →
  ∃ ops, (length ops ≤ 1)%nat ∧ Forall op_in_range ops
    ∧ (spqr_calls ops (spqr s)).2 = spqr (session_call s op)
    ∧ session_read op s `sublist_of` (spqr_calls ops (spqr s)).1.
Proof.
  intros Hc.
  assert (∀ rng, (spqr_calls [SpSend rng] (spqr s)).2 = (ratchet_send_key rng (spqr s)).2) as Hsend by done.
  assert (∀ rng nonce pt a b, ∃ ops, (length ops ≤ 1)%nat ∧ Forall op_in_range ops
    ∧ (spqr_calls ops (spqr s)).2 = spqr (session_encrypt rng nonce pt a b s).2) as Henc.
  { intros rng nonce pt a b. rewrite session_encrypt_spqr.
    destruct (pending_prekey s); [exists []|exists [SpSend rng]]; split_and!; (simpl; lia) || (by repeat constructor) || done. }
  destruct op as [rng nonce pt a b|rng nonce pt a b|rng nonce pt a b i|new_dh m a b]; cbn [session_call session_read].
  - destruct (Henc rng nonce pt a b) as (ops & ? & ? & ?). exists ops. split_and!; [done..|apply sublist_nil_l].
  - exists [SpSend rng]. split_and!; [simpl; lia|by repeat constructor| |apply sublist_nil_l].
    by rewrite Hsend, encrypt_message_spqr.
  - destruct (Henc rng nonce pt a b) as (ops & ? & ? & Hops). exists ops. split_and!; [done|done| |apply sublist_nil_l].
    rewrite Hops. unfold encrypt_prekey_message, mbind, m_bind. by destruct (session_encrypt _ _ _ _ _ s) as [[]].
  - destruct (session_decrypt new_dh m a b s) as [r s'] eqn:E. cbn [fst snd].
    destruct (session_decrypt_spqr _ _ _ _ _ _ _ E) as [[Hr Hs]|(h & k & Hh & Hk & Hok)].
    + exists []. split_and!; [simpl; lia|constructor|done|]. destruct r; [done|]. by case_match.
    + exists [SpReceive (braid_msg h) (pq_message_number h)]. simpl in Hc.
      split_and!; [simpl; lia|repeat constructor; simpl; by apply Hc| |]; simpl; rewrite Hk; [by destruct k|].
      rewrite Hh. destruct r; [|apply sublist_nil_l]. specialize (Hok eq_refl). by destruct k.
Qed.

Lemma spqr_calls_app ops1 ops2 st :
  spqr_calls (ops1 ++ ops2) st
  = ((spqr_calls ops1 st).1 ++ (spqr_calls ops2 (spqr_calls ops1 st).2).1,
     (spqr_calls ops2 (spqr_calls ops1 st).2).2).
Proof.
  revert st. induction ops1 as [|op ops1 IH]; intros st; simpl; [by destruct (spqr_calls ops2 st)|].
  destruct (spqr_call op st) as [u st1]. rewrite IH. destruct (spqr_calls ops1 st1) as [us st2]. simpl.
  by rewrite app_assoc.
Qed.

Lemma session_calls_spqr ops : ∀ s, Forall op_counted ops →
  ∃ ops', (length ops' ≤ length ops)%nat ∧ Forall op_in_range ops'
    ∧ (spqr_calls ops' (spqr s)).2 = spqr (foldl session_call s ops)
    ∧ session_reads ops s `sublist_of` (spqr_calls ops' (spqr s)).1.
Proof.
  induction ops as [|op ops IH]; intros s Hops; [exists []; split_and!; [simpl; lia|constructor|done|done]|].
  apply Forall_cons_1 in Hops as [Hop Hops].
  destruct (session_call_spqr op s Hop) as (o1 & Hl1 & Hr1 & Hs1 & Hu1).
  destruct (IH (session_call s op) Hops) as (o2 & Hl2 & Hr2 & Hs2 & Hu2). rewrite <-Hs1 in Hs2, Hu2.
  exists (o1 ++ o2). rewrite spqr_calls_app. cbn [foldl fst snd session_reads].
  split_and!; [rewrite length_app; simpl; lia|by apply Forall_app|done|by apply sublist_app].
Qed.

(** C4. A session never decrypts two messages of one post-quantum slot, and so no message
    twice: whatever is given to it (replays, forgeries, reordered messages, with any
    header), whatever fails, and however its own sends interleave. *)
Theorem session_decrypt_once dh ss peer spk ops s :
  initialize_alice dh ss peer = Ok s ∨ s = initialize_bob ss (spk, x25519_public spk) →
  Forall op_counted ops → Z.of_nat (length ops) < u32_max →
  NoDup (session_reads ops s).
Proof.
  intros Hs Hops Hlen. destruct (session_calls_spqr ops s Hops) as (ops' & Hl & Hr & _ & Hsub).
  eapply sublist_NoDup; [|exact Hsub].
  assert (∃ d, spqr s = spqr_init ss d) as [d ->].
  { destruct Hs as [Hs| ->]; [injection Hs as <-|]; by eexists. }
  destruct (spqr_calls ops' (spqr_init ss d)) as [us st'] eqn:E.
  eapply (spqr_calls_ok _ _ _ _ 0); [apply spqr_inv_init|done|done|lia|apply within_init|exact E].
Qed.

End replay.
