(* ===== verification/Ledger.v ===== *)
(** * What a session has used up

    Bounds on a session in terms of the calls that succeeded on it: after [k] of them
    its counters and its epoch are at most [k], its ratchet key is one that was drawn
    for it, and it has a key of its peer once it has read anything ([ledger]); the slots
    of the messages it has read stay spent.  A caller who counts its own calls needs no
    other knowledge of the session to stay within the widths of the counters. *)

From S2P Require Import Prelude Foundation Interfaces Padding Kdf Keys AeadRecord Erasure Kem.
From S2P Require Import BraidAuth Braid Spqr SpqrKeys Pqxdh Skipped Ratchet Session BraidWedge Replay.

Section ledger.
Context `{Hashes} `{X25519} `{Ed25519} `{Aead} `{Kyber} `{ReedSolomon} `{IncKem} `{Postcard MessageHeader}.

(** The number of the next message of the sending chain. *)
Definition next_number (s : RatchetSession) : Z :=
  match sending_chain s with Some c => message_number c | None => 0 end.

(** The classical half; [drawn] are the public ratchet keys drawn so far. *)
Record ec_ledger (k : Z) (drawn : list bytes) (s : RatchetSession) : Prop := {
  el_number : 0 ≤ next_number s ≤ k;
  el_public : dh_self_public s ∈ drawn;
  el_quiet : dh_remote s = None → skipped s = ∅ ∧ receiving_chain s = None;
}.

Record ledger (k : Z) (drawn : list bytes) (s : RatchetSession) : Prop := {
  le_ec : ec_ledger k drawn s;
  le_pq : within k (spqr s);
}.

(** The slot of a message that was read. *)
Definition was_read (s : RatchetSession) (m : RatchetMessage) : Prop :=
  ∃ h, header_deserialize (header m) = Ok h ∧ in_u32 (pq_message_number h)
    ∧ spent (spqr s) (sat_sub (msg_epoch (braid_msg h)) 1) (pq_message_number h).

Lemma ec_ledger_mono k k' drawn drawn' s :
  k ≤ k' → drawn ⊆ drawn' → ec_ledger k drawn s → ec_ledger k' drawn' s.
Proof. intros Hk Hd []. split; [lia|auto|done]. Qed.

Lemma within_mono k k' st : k ≤ k' → within k st → within k' st.
Proof. intros Hk [He Hc]. split; [lia|]. intros e m Hle Hm. specialize (Hc e m Hle Hm). lia. Qed.

Lemma ledger_mono k k' drawn drawn' s : k ≤ k' → drawn ⊆ drawn' → ledger k drawn s → ledger k' drawn' s.
Proof. intros Hk Hd [He Hp]. split; [by eapply ec_ledger_mono|by eapply within_mono]. Qed.

Lemma ledger_alice dh ss peer pre s :
  initialize_alice dh ss peer = Ok s → ledger 0 [x25519_public dh] (set_pending_prekey pre s).
Proof.
  intros [= <-]. split; [split; simpl|apply within_init]; [unfold next_number; simpl; lia|by left|done].
Qed.

Lemma ledger_bob ss spk : ledger 0 [x25519_public spk] (initialize_bob ss (spk, x25519_public spk)).
Proof. split; [split; simpl|apply within_init]; [unfold next_number; simpl; lia|by left|done]. Qed.

(** ** Sending *)

Lemma encrypt_message_inv rng nonce pt a b s out s' :
  encrypt_message rng nonce pt a b s = (Ok out, s') →
  ∃ chain st pp, sending_chain s = Some chain
    ∧ s' = set_pending_prekey pp (set_sending_chain (Some (chain_advance chain).2) (set_spqr st s)).
Proof.
  unfold encrypt_message, encrypt_raw. intros (rm & s1 & Hraw & Hout)%m_bind_Ok.
  apply m_bind_Ok in Hraw as ([[bm n] mk] & s2 & Hz & Hraw). apply m_bind_Ok in Hraw as (ec & s3 & Ha & Hraw).
  unfold m_zoom in Hz. destruct (ratchet_send_key rng (spqr s)) as [r st]. injection Hz as _ <-.
  unfold advance_sending in Ha. cbn [sending_chain set_spqr] in Ha. destruct (sending_chain s) as [c|]; [|done].
  exists c, st. destruct (chain_advance c) as [mk' c']. injection Ha as _ <-.
  unfold mbind, m_bind, m_get, m_lift in Hraw. destruct (encrypt _ _ _ _); [|done]. injection Hraw as _ <-.
  unfold mbind, m_bind, m_get in Hout. simpl in Hout.
  destruct (pending_prekey s) eqn:E; injection Hout as _ <-; exists None; (split; [done|]); [done|].
  destruct s; simpl in *; by subst.
Qed.

Lemma ec_ledger_send k drawn rng nonce pt a b s out s' :
  encrypt_message rng nonce pt a b s = (Ok out, s') → k < u32_max → ec_ledger k drawn s →
  ec_ledger (k + 1) drawn s' ∧ dh_remote s' = dh_remote s.
Proof.
  intros (chain & st & pp & Hc & ->)%encrypt_message_inv Hk [Hn Hp Hq]. split; [|done].
  split; [|done|done]. unfold next_number in *. rewrite Hc in Hn. simpl. rewrite add_u32_small; lia.
Qed.

Lemma ledger_send sk secrets k drawn rng nonce pt a b s out s' :
  encrypt_message rng nonce pt a b s = (Ok out, s') → spqr_inv sk secrets (spqr s) → 0 ≤ k < u32_max →
  ledger k drawn s →
  ledger (k + 1) drawn s' ∧ keeps_spent (spqr s) (spqr s') ∧ dh_remote s' = dh_remote s.
Proof.
  intros Henc Hinv Hk [He Hw]. destruct (ec_ledger_send k drawn _ _ _ _ _ _ _ _ Henc ltac:(lia) He) as [He' Hr].
  pose proof (encrypt_message_spqr rng nonce pt a b s) as Hs. rewrite Henc in Hs. simpl in Hs.
  destruct (spqr_call_ok sk secrets (SpSend rng) (spqr s) k _ _ Hinv I Hk Hw (surjective_pairing _))
    as (secrets' & _ & Hw' & Hkeep & _). simpl in Hw', Hkeep. rewrite <-Hs in Hw', Hkeep. by split_and!.
Qed.

(** ** Receiving *)

Definition same_remote (s s' : RatchetSession) : Prop := dh_remote s' = dh_remote s.
Lemma skip_receiving_remote until : m_rel same_remote (skip_receiving_messages until).
Proof. intros s. unfold skip_receiving_messages. by repeat case_match. Qed.
Lemma advance_receiving_remote : m_rel same_remote advance_receiving.
Proof. intros s. unfold advance_receiving. by repeat case_match. Qed.

Section ec.
Context (k : Z) (drawn : list bytes) (Hk : 0 ≤ k).

Definition keeps_ec (s s' : RatchetSession) : Prop :=
  ec_ledger k drawn s → ec_ledger k drawn s' ∧ (is_Some (dh_remote s) → is_Some (dh_remote s')).
#[local] Instance keeps_ec_refl : Reflexive keeps_ec.
Proof. intros s Hs. by split. Qed.
#[local] Instance keeps_ec_trans : Transitive keeps_ec.
Proof. intros s1 s2 s3 H12 H23 Hs. destruct (H12 Hs) as [Hs2 ?], (H23 Hs2). auto. Qed.

Lemma take_skipped_ec h : m_rel keeps_ec (take_skipped h).
Proof.
  intros s [Hn Hp Hq]. split; [|done]. split; [done|done|]. intros [Hs Hc]%Hq. split; [|done].
  simpl. by rewrite Hs, delete_empty.
Qed.

Lemma skip_receiving_ec until : m_rel keeps_ec (skip_receiving_messages until).
Proof.
  intros s Hs. unfold skip_receiving_messages. destruct (receiving_chain s) as [c|] eqn:E; [|by apply keeps_ec_refl].
  do 2 (case_bool_decide; [by apply keeps_ec_refl|]). destruct (skip_receiving_loop _ _ _ _ _) as [c' store].
  destruct Hs as [Hn Hp Hq]. split; [|done]. split; [done|done|]. intros [_ Hc]%Hq. congruence.
Qed.

Lemma advance_receiving_ec : m_rel keeps_ec advance_receiving.
Proof.
  intros s Hs. unfold advance_receiving. destruct (receiving_chain s) as [c|] eqn:E; [|by apply keeps_ec_refl].
  destruct (chain_advance c) as [mk c']. destruct Hs as [Hn Hp Hq]. split; [|done]. split; [done|done|].
  intros [_ Hc]%Hq. congruence.
Qed.

Lemma perform_step_ec new_dh h : x25519_public new_dh ∈ drawn → m_rel keeps_ec (perform_dh_ratchet_step new_dh h).
Proof. intros Hnew s _. split; [|by eexists]. split; [unfold next_number; simpl; lia|done|done]. Qed.

Lemma get_ec : m_rel keeps_ec (m_get (E := CryptoError)).
Proof. by intros s Hs. Qed.

#[local] Hint Resolve take_skipped_ec skip_receiving_ec advance_receiving_ec perform_step_ec get_ec : core.

Lemma ec_message_key_ec new_dh h : x25519_public new_dh ∈ drawn → m_rel keeps_ec (ec_message_key new_dh h).
Proof. intros Hnew. unfold ec_message_key. keeps. Qed.

(** A key is only found once the peer's ratchet key is known. *)
Lemma ec_message_key_remote new_dh h s mk s' :
  x25519_public new_dh ∈ drawn → ec_ledger k drawn s → ec_message_key new_dh h s = (Ok mk, s') → is_Some (dh_remote s').
Proof.
  intros Hnew Hs Hrun. pose proof (ec_message_key_ec new_dh h Hnew s Hs) as [_ Hsome]. rewrite Hrun in Hsome. simpl in Hsome.
  destruct (dh_remote s) as [r|] eqn:Er; [by apply Hsome|]. destruct (el_quiet _ _ _ Hs Er) as [Hsk Hc].
  unfold ec_message_key in Hrun. apply m_bind_Ok in Hrun as (found & s1 & Ht & Hrun).
  unfold take_skipped, try_remove_by_dh in Ht. rewrite Hsk in Ht. simpl in Ht. rewrite lookup_empty in Ht. injection Ht as <- <-.
  apply m_bind_Ok in Hrun as (s2 & s3 & Hg & Hrun). injection Hg as <- <-.
  unfold needs_ratchet in Hrun. simpl in Hrun. rewrite Er in Hrun.
  apply m_bind_Ok in Hrun as ([] & s4 & Hp & Hrun). apply m_bind_Ok in Hp as ([] & s5 & _ & Hp).
  injection Hp as <-. apply m_bind_Ok in Hrun as ([] & s6 & Hskip & Hadv).
  pose proof (skip_receiving_remote (h_message_number h) (perform_dh_ratchet_step new_dh h s5).2) as Hr1.
  pose proof (advance_receiving_remote s6) as Hr2. unfold same_remote in Hr1, Hr2. simpl in Hr1.
  rewrite Hskip in Hr1. rewrite Hadv in Hr2. simpl in Hr1, Hr2. rewrite Hr2, Hr1. eauto.
Qed.

End ec.

Lemma session_decrypt_ledger new_dh m a b s pt s' :
  session_decrypt new_dh m a b s = (Ok pt, s') →
  ∃ h mk s1, header_deserialize (header m) = Ok h ∧ ec_message_key new_dh h s = (Ok mk, s1)
    ∧ s' = set_spqr (spqr s') s1.
Proof.
  intros (h & s0 & Hh & (mk & s1 & Hec & (pq & s2 & Hz & Hd)%m_bind_Ok)%m_bind_Ok)%m_bind_Ok.
  injection Hh as Hh ->. exists h, mk, s1. split_and!; [done..|].
  unfold m_zoom in Hz. destruct (ratchet_receive_key _ _ _) as [r st]. injection Hz as _ <-.
  apply m_bind_Ok in Hd as (padded & s3 & Hl & Hd). unfold m_lift in Hl, Hd. injection Hl as _ <-. by injection Hd as _ <-.
Qed.

(** The effect of reading a message on the ledger; a message already read is not read. *)
Lemma ledger_receive sk secrets k drawn new_dh m a b s pt s' :
  session_decrypt new_dh m a b s = (Ok pt, s') → spqr_inv sk secrets (spqr s) → 0 ≤ k < u32_max →
  (∀ h, header_deserialize (header m) = Ok h → in_u32 (pq_message_number h)) → ledger k drawn s →
  ledger (k + 1) (x25519_public new_dh :: drawn) s' ∧ keeps_spent (spqr s) (spqr s')
  ∧ was_read s' m ∧ ¬ was_read s m ∧ is_Some (dh_remote s').
Proof.
  intros Hdec Hinv Hk Hn [He Hw].
  destruct (session_decrypt_ledger _ _ _ _ _ _ _ Hdec) as (h & mk & s1 & Hh & Hec & Hs').
  destruct (session_decrypt_spqr _ _ _ _ _ _ _ Hdec) as [[? _]|(h' & r & Hh' & Hr & Hok)]; [done|].
  rewrite Hh in Hh'. injection Hh' as <-. specialize (Hn h Hh).
  set (drawn' := x25519_public new_dh :: drawn).
  assert (ec_ledger k drawn' s) as Hed by (eapply ec_ledger_mono; [done|by apply list_subseteq_cons|done]).
  assert (x25519_public new_dh ∈ drawn') as Hnew by (by left).
  destruct (ec_message_key_ec k drawn' ltac:(lia) new_dh h Hnew s Hed) as [He1 _]. rewrite Hec in He1. simpl in He1.
  pose proof (ec_message_key_remote k drawn' ltac:(lia) new_dh h s mk s1 Hnew Hed Hec) as Hrem.
  destruct (spqr_call_ok sk secrets (SpReceive (braid_msg h) (pq_message_number h)) (spqr s) k _ _ Hinv Hn Hk Hw
    (surjective_pairing _)) as (secrets' & _ & Hw' & Hkeep & _ & Hu).
  cbn [spqr_call] in Hw', Hkeep, Hu. rewrite Hr in Hw', Hkeep, Hu. specialize (Hok eq_refl). destruct r as [key|]; [|done].
  cbn [fst snd] in Hw', Hkeep, Hu. destruct (Hu _ _ (list_elem_of_here _ _)) as [Hfresh Hspent].
  split_and!; [|done| | |].
  - split; [|done]. rewrite Hs'. destruct (ec_ledger_mono k (k + 1) drawn' drawn' s1 ltac:(lia) ltac:(done) He1). by split.
  - by exists h.
  - intros (h' & Hh' & _ & Hsp). rewrite Hh in Hh'. by injection Hh' as <-.
  - rewrite Hs'. exact Hrem.
Qed.

Lemma was_read_refused sk secrets k drawn new_dh m a b s :
  was_read s m → spqr_inv sk secrets (spqr s) → 0 ≤ k < u32_max → ledger k drawn s →
  is_ok (session_decrypt new_dh m a b s).1 = false.
Proof.
  intros Hread Hinv Hk Hl. destruct (session_decrypt new_dh m a b s) as [[pt|e] s'] eqn:E; [|done].
  destruct (ledger_receive sk secrets k drawn _ _ _ _ _ _ _ E Hinv Hk) as (_ & _ & _ & Hnot & _); [|done|by destruct Hnot].
  destruct Hread as (h & Hh & Hn & _). intros h'. rewrite Hh. by intros [= <-].
Qed.

Lemma was_read_mono s s' m : keeps_spent (spqr s) (spqr s') → was_read s m → was_read s' m.
Proof. intros Hk (h & ? & ? & ?). exists h. auto. Qed.

End ledger.
