(* ===== verification/Loops.v ===== *)
(** * The loops of [decrypt] terminate

    [RatchetSession::skip_receiving_messages] and [SpqrState::skip_message_keys] contain
    the only [while] loops that a message from the network drives.  The model runs them
    with the expected number of iterations as fuel; here the loops are the unbounded ones
    of the code ([while_loop]), and the fuelled functions compute their result. *)

From S2P Require Import Prelude Foundation Interfaces Kdf Keys Padding AeadRecord Erasure Kem BraidAuth Braid.
From S2P Require Import Spqr Pqxdh Skipped Ratchet Session.

Section loops.
Context `{HashesOk}.

(** ** The condition and the body of each loop *)

Definition ec_guard (until : Z) (st : ChainState * SkippedKeys) : bool :=
  bool_decide (message_number st.1 < until).
Definition ec_body (chain_dh : bytes) (st : ChainState * SkippedKeys) : ChainState * SkippedKeys :=
  let '(mk, chain) := chain_advance st.1 in
  (chain, skipped_insert (sub_u32 (message_number chain) 1) chain_dh mk st.2).

Definition pq_guard (until : Z) (st : list (Z * MessageKey) * SckaChain) : bool := bool_decide (n st.2 < until).
Definition pq_body (st : list (Z * MessageKey) * SckaChain) : list (Z * MessageKey) * SckaChain :=
  let '(out, chain) := scka_advance st.2 in (st.1 ++ [out], chain).

Lemma skip_receiving_loop_while dh until k : ∀ c store,
  in_u32 (message_number c) → in_u32 until → message_number c ≤ until →
  k = Z.to_nat (until - message_number c) →
  while_loop (ec_guard until) (ec_body dh) k (c, store) (skip_receiving_loop k until dh c store)
  ∧ message_number (skip_receiving_loop k until dh c store).1 = until.
Proof.
  unfold in_u32. induction k as [|k IH]; intros c store Hc Hu Hle Hk; cbn [skip_receiving_loop].
  - split; [|simpl; lia]. apply while_exit. unfold ec_guard. simpl. apply bool_decide_eq_false_2. lia.
  - rewrite bool_decide_eq_true_2 by lia. destruct (chain_advance c) as [mk c'] eqn:E.
    assert (message_number c' = message_number c + 1) as Hn.
    { unfold chain_advance in E. injection E as _ <-. simpl. apply add_u32_small. lia. }
    destruct (IH c' (skipped_insert (sub_u32 (message_number c') 1) dh mk store)) as [Hw He]; [lia..|].
    split; [|done]. apply while_iter.
    + unfold ec_guard. simpl. apply bool_decide_eq_true_2. lia.
    + unfold ec_body at 2. cbn [fst snd]. by rewrite E.
Qed.

Lemma skip_loop_while until k : ∀ c acc,
  in_u32 (n c) → in_u32 until → k = Z.to_nat (until - n c) →
  while_loop (pq_guard until) pq_body k (acc, c) (skip_loop k until c acc)
  ∧ n (skip_loop k until c acc).2 = Z.max (n c) until
  ∧ length (skip_loop k until c acc).1 = (length acc + k)%nat.
Proof.
  unfold in_u32. induction k as [|k IH]; intros c acc Hc Hu Hk; cbn [skip_loop].
  - split_and!; [|simpl; lia..]. apply while_exit. unfold pq_guard. simpl. apply bool_decide_eq_false_2. lia.
  - rewrite bool_decide_eq_true_2 by lia. destruct (scka_advance c) as [out c'] eqn:E.
    assert (n c' = n c + 1) as Hn.
    { unfold scka_advance in E. injection E as _ <-. simpl. apply add_u32_small. lia. }
    destruct (IH c' (acc ++ [out])) as (Hw & He & Hl); [lia..|].
    split_and!; [|lia|rewrite Hl, length_app; simpl; lia]. apply while_iter.
    + unfold pq_guard. simpl. apply bool_decide_eq_true_2. lia.
    + unfold pq_body at 2. cbn [fst snd]. by rewrite E.
Qed.

(** The guard of the SPQR loop, at the width of the counter: what passes it is at most
    [MAX_SKIP] ahead, also where the sum wraps. *)
Lemma skip_guard_bound c until :
  in_u32 c → in_u32 until → ¬ (add_u32 c MAX_SKIP < until) → until - c ≤ MAX_SKIP.
Proof.
  unfold in_u32, add_u32, MAX_SKIP, u32_max. intros Hc Hu Hg.
  destruct (decide (c + 2000 ≤ 4294967295)) as [Hs|Hs]; [rewrite Z.mod_small in Hg by lia; lia|].
  lia.
Qed.

Context `{X25519} `{Ed25519} `{Aead} `{Kyber} `{ReedSolomon} `{IncKem}.
Context `{Postcard MessageHeader}.

(** C17. Both skip loops terminate on every header, within [MAX_SKIP] iterations.  For the
    classical chain: unless the call is refused, or has nothing to do, the loop as
    written is left after exactly the gap's number of iterations with the chain at
    [until], and the session is the loop's result.  For the post-quantum chain of an
    epoch likewise, one stored key for each iteration. *)
Theorem skip_loops_terminate (s : RatchetSession) (q : SpqrState) (e until : Z) :
  session_wf s → in_u32 until → (∀ c, kdfchains q !! e ≫= recv = Some c → in_u32 (n c)) →
  (∀ c, receiving_chain s = Some c →
     let gap := until - message_number c in
     if bool_decide (0 ≤ gap ≤ MAX_SKIP) then
       ∃ c' store, while_loop (ec_guard until) (ec_body (default zero32 (dh_remote s))) (Z.to_nat gap)
                     (c, skipped s) (c', store)
         ∧ message_number c' = until
         ∧ skip_receiving_messages until s = (Ok (), set_receiving (Some c') store s)
     else skip_receiving_messages until s
          = (if bool_decide (gap < 0) then Ok () else Err (MaxSkipExceeded gap MAX_SKIP), s))
  ∧ (∀ c, kdfchains q !! e ≫= recv = Some c →
       (∃ gap, skip_message_keys e until q = (Err (MaxSkipExceeded gap MAX_SKIP), q))
       ∨ ∃ k keys c', while_loop (pq_guard until) pq_body k ([], c) (keys, c')
           ∧ Z.of_nat k ≤ MAX_SKIP ∧ length keys = k ∧ n c' = Z.max (n c) until
           ∧ (skip_message_keys e until q).1 = Ok ()
           ∧ kdfchains (skip_message_keys e until q).2 !! e ≫= recv = Some c').
Proof.
  intros Hs Hu Hq. split.
  - intros c Hc gap. destruct (sw_receiving _ Hs c Hc) as [[_ Hn] _]. unfold skip_receiving_messages. rewrite Hc.
    fold gap. case_bool_decide as Hg.
    + rewrite !bool_decide_eq_false_2 by lia.
      destruct (skip_receiving_loop_while (default zero32 (dh_remote s)) until (Z.to_nat gap) c (skipped s))
        as [Hw He]; [done..|lia|done|].
      destruct (skip_receiving_loop _ _ _ _ _) as [c' store]. by exists c', store.
    + destruct (decide (gap < 0)).
      * by rewrite !bool_decide_eq_true_2 by lia.
      * rewrite (bool_decide_eq_false_2 (until < _)), (bool_decide_eq_true_2 (MAX_SKIP < _)), bool_decide_eq_false_2 by lia.
        done.
  - intros c Hc. pose proof (Hq c Hc) as Hn. unfold skip_message_keys. rewrite Hc.
    case_bool_decide as Hg; [left; by eexists|right].
    destruct (skip_loop_while until (Z.to_nat (until - n c)) c []) as (Hw & He & Hl); [done..|].
    destruct (skip_loop _ _ _ _) as [keys c'].
    exists (Z.to_nat (until - n c)), keys, c'. simpl in *.
    pose proof (skip_guard_bound _ _ Hn Hu Hg). split_and!; [done|unfold MAX_SKIP in *; lia|done|done|by case_match|].
    destruct (kdfchains q !! e) as [cs|] eqn:Ee; [|done].
    assert (alter (set_recv (Some c')) e (kdfchains q) !! e ≫= recv = Some c') as Ha by (by rewrite lookup_alter_eq, Ee).
    by case_match.
Qed.

End loops.
