(* ===== verification/Stores.v ===== *)
(** * Stored records and the store traits

    Models [src/protocol/stores.rs]: the records a caller persists and the traits it
    implements, each as a class of operations with a class of the behaviour its
    documentation promises.  A [&self] method is a function of the store, a [&mut self]
    method a run of [M]; the futures have no counterpart.  The file [MemStore]
    has implementations that meet the contracts.  The last part is what a caller who
    persists sessions relies on: a session that is serialized and reloaded between calls
    behaves as the session in memory. *)

From S2P Require Import Prelude Foundation Interfaces Padding Kdf Keys AeadRecord Erasure Kem.
From S2P Require Import BraidAuth Braid Spqr Pqxdh Skipped Ratchet Session.

Module Stores.

Inductive Direction : Type := Sending | Receiving.

(** ** Records *)

Record PreKeyRecord : Type := mk_pre_key {
  pkr_id : PreKeyId;
  pkr_public_key : DhPublicKey;
  pkr_private_key : bytes;
}.

Record SignedPreKeyRecord : Type := mk_signed_pre_key {
  spr_id : SignedPreKeyId;
  spr_public_key : DhPublicKey;
  spr_private_key : bytes;
  spr_signature : bytes;
  spr_timestamp : Timestamp;
}.

Record KyberPreKeyRecord : Type := mk_kyber_pre_key {
  kpr_id : KyberPreKeyId;
  kpr_public_key : bytes;
  kpr_secret_key : bytes;
  kpr_signature : bytes;
  kpr_timestamp : Timestamp;
  is_last_resort : bool;
}.

(** The active ratchet state and the archived ones, newest first. *)
Record SessionRecord : Type := mk_session_record { sr_data : bytes; previous_states : list bytes }.
Record SenderKeyRecord : Type := mk_sender_key_record { skr_data : bytes }.
Record SesameUserRecord : Type := mk_sesame_user_record { sur_data : bytes }.

(** ** Traits *)

Section traits.
Context `{Ed25519} (S : Type).

Class IdentityKeyStore : Type := {
  get_identity_key_pair : S → result IdentityKeyPair;
  get_local_registration_id : S → result RegistrationId;
  save_identity : ProtocolAddress → IdentityPublicKey → M S CryptoError bool;
  is_trusted_identity : ProtocolAddress → IdentityPublicKey → Direction → S → result bool;
  get_identity : ProtocolAddress → S → result (option IdentityPublicKey);
}.

(** A saved key is read back, other addresses keep theirs, the answer says whether a
    different key was replaced, and an unknown identity is trusted. *)
Class IdentityKeyStoreOk `{IdentityKeyStore} : Prop := {
  save_identity_spec a k st changed st' :
    save_identity a k st = (Ok changed, st') →
    (∀ a', get_identity a' st' = if decide (a' = a) then Ok (Some k) else get_identity a' st)
    ∧ ∀ old, get_identity a st = Ok old → (changed = true ↔ ∃ k', old = Some k' ∧ identity_eqb k' k = false);
  unknown_trusted a k d st : get_identity a st = Ok None → is_trusted_identity a k d st = Ok true;
}.

Class PreKeyStore : Type := {
  get_pre_key : PreKeyId → S → result PreKeyRecord;
  save_pre_key : PreKeyId → PreKeyRecord → M S CryptoError ();
  remove_pre_key : PreKeyId → M S CryptoError ();
}.

Class PreKeyStoreOk `{PreKeyStore} : Prop := {
  save_pre_key_spec i r st st' i' :
    save_pre_key i r st = (Ok (), st') →
    get_pre_key i' st' = if bool_decide (i' = i) then Ok r else get_pre_key i' st;
  remove_pre_key_spec i st st' i' :
    remove_pre_key i st = (Ok (), st') →
    if bool_decide (i' = i) then is_ok (get_pre_key i' st') = false else get_pre_key i' st' = get_pre_key i' st;
}.

Class SignedPreKeyStore : Type := {
  get_signed_pre_key : SignedPreKeyId → S → result SignedPreKeyRecord;
  save_signed_pre_key : SignedPreKeyId → SignedPreKeyRecord → M S CryptoError ();
}.

Class SignedPreKeyStoreOk `{SignedPreKeyStore} : Prop := {
  save_signed_pre_key_spec i r st st' i' :
    save_signed_pre_key i r st = (Ok (), st') →
    get_signed_pre_key i' st' = if bool_decide (i' = i) then Ok r else get_signed_pre_key i' st;
}.

Class KyberPreKeyStore : Type := {
  get_kyber_pre_key : KyberPreKeyId → S → result KyberPreKeyRecord;
  save_kyber_pre_key : KyberPreKeyId → KyberPreKeyRecord → M S CryptoError ();
  mark_kyber_pre_key_used : KyberPreKeyId → M S CryptoError ();
}.

(** Marking a one-time key consumes it; marking a last-resort key does nothing. *)
Class KyberPreKeyStoreOk `{KyberPreKeyStore} : Prop := {
  save_kyber_pre_key_spec i r st st' i' :
    save_kyber_pre_key i r st = (Ok (), st') →
    get_kyber_pre_key i' st' = if bool_decide (i' = i) then Ok r else get_kyber_pre_key i' st;
  mark_kyber_used_spec i r st st' :
    get_kyber_pre_key i st = Ok r → mark_kyber_pre_key_used i st = (Ok (), st') →
    (∀ i', i' ≠ i → get_kyber_pre_key i' st' = get_kyber_pre_key i' st)
    ∧ if is_last_resort r then get_kyber_pre_key i st' = Ok r else is_ok (get_kyber_pre_key i st') = false;
}.

Class SessionStore : Type := {
  load_session : ProtocolAddress → S → result (option SessionRecord);
  store_session : ProtocolAddress → SessionRecord → M S CryptoError ();
}.

Class SessionStoreOk `{SessionStore} : Prop := {
  store_session_spec a r st st' a' :
    store_session a r st = (Ok (), st') →
    load_session a' st' = if decide (a' = a) then Ok (Some r) else load_session a' st;
}.

Class SenderKeyStore : Type := {
  store_sender_key : ProtocolAddress → bytes → SenderKeyRecord → M S CryptoError ();
  load_sender_key : ProtocolAddress → bytes → S → result (option SenderKeyRecord);
}.

Class SenderKeyStoreOk `{SenderKeyStore} : Prop := {
  store_sender_key_spec a d r st st' a' d' :
    store_sender_key a d r st = (Ok (), st') →
    load_sender_key a' d' st' = if decide (a' = a ∧ d' = d) then Ok (Some r) else load_sender_key a' d' st;
}.

Class SesameStore : Type := {
  load_user_record : bytes → S → result (option SesameUserRecord);
  store_user_record : bytes → SesameUserRecord → M S CryptoError ();
  remove_user_record : bytes → M S CryptoError ();
  list_users : S → result (list bytes);
}.

Class SesameStoreOk `{SesameStore} : Prop := {
  store_user_record_spec u r st st' u' :
    store_user_record u r st = (Ok (), st') →
    load_user_record u' st' = if decide (u' = u) then Ok (Some r) else load_user_record u' st;
  remove_user_record_spec u st st' u' :
    remove_user_record u st = (Ok (), st') →
    load_user_record u' st' = if decide (u' = u) then Ok None else load_user_record u' st;
  list_users_spec st us u :
    list_users st = Ok us → (u ∈ us ↔ ∃ r, load_user_record u st = Ok (Some r));
}.

End traits.

(** ** A session that is reloaded *)

Section client.
Context `{HashesOk} `{X25519} `{Ed25519} `{Aead} `{Kyber} `{ReedSolomon} `{IncKem}.
Context `{Postcard MessageHeader} `{PostcardOk SerializedState}.

(** What a call returns. *)
Inductive SessionOut : Type :=
| OutRatchet (m : RatchetMessage)
| OutAny (m : EncryptedOutput)
| OutPrekey (m : PreKeyRatchetMessage)
| OutPlaintext (pt : bytes).

Definition session_run (op : SessionOp) : M RatchetSession CryptoError SessionOut :=
  match op with
  | OpEncrypt rng nonce pt a b => m ← session_encrypt rng nonce pt a b; mret (OutRatchet m)
  | OpEncryptMessage rng nonce pt a b => m ← encrypt_message rng nonce pt a b; mret (OutAny m)
  | OpEncryptPrekey rng nonce pt a b i => m ← encrypt_prekey_message rng nonce pt a b i; mret (OutPrekey m)
  | OpDecrypt new_dh m a b => pt ← session_decrypt new_dh m a b; mret (OutPlaintext pt)
  end.

(** A computation that neither reads nor writes the runtime-only identifier. *)
Definition root_blind {A} (m : M RatchetSession CryptoError A) : Prop :=
  ∀ s, m (forget_root_id s) = ((m s).1, forget_root_id (m s).2).

Lemma blind_bind {A B} (m : M RatchetSession CryptoError A) (f : A → M RatchetSession CryptoError B) :
  root_blind m → (∀ a, root_blind (f a)) → root_blind (m ≫= f).
Proof.
  intros Hm Hf s. unfold mbind, m_bind. rewrite Hm. destruct (m s) as [[a|e] s1]; simpl; [apply Hf|done].
Qed.

Lemma blind_get {A} (f : RatchetSession → M RatchetSession CryptoError A) :
  (∀ s s', f (forget_root_id s) s' = f s s') → (∀ s, root_blind (f s)) → root_blind (m_get ≫= f).
Proof. intros Hf Hb s. change (f (forget_root_id s) (forget_root_id s) = ((f s s).1, forget_root_id (f s s).2)).
  rewrite Hf. apply Hb.
Qed.

Lemma blind_ret {A} (a : A) : root_blind (mret a).
Proof. done. Qed.
Lemma blind_lift {A} (r : result A) : root_blind (m_lift r).
Proof. done. Qed.
Lemma blind_throw {A} e : root_blind (m_throw e : M RatchetSession CryptoError A).
Proof. done. Qed.
Lemma blind_zoom {A} (m : M SpqrState CryptoError A) : root_blind (m_zoom spqr set_spqr m).
Proof. intros s. unfold m_zoom. simpl. by destruct (m (spqr s)). Qed.

Lemma blind_advance_sending : root_blind advance_sending.
Proof. intros s. unfold advance_sending. simpl. by destruct (sending_chain s) as [c|]. Qed.
Lemma blind_advance_receiving : root_blind advance_receiving.
Proof. intros s. unfold advance_receiving. simpl. by destruct (receiving_chain s) as [c|]. Qed.
Lemma blind_skip until : root_blind (skip_receiving_messages until).
Proof.
  intros s. unfold skip_receiving_messages. simpl. destruct (receiving_chain s) as [c|]; [|done].
  repeat (case_bool_decide; [done|]). by destruct (skip_receiving_loop _ _ _ _ _).
Qed.
Lemma blind_perform new_dh h : root_blind (perform_dh_ratchet_step new_dh h).
Proof. done. Qed.
Lemma blind_take h : root_blind (take_skipped h).
Proof. done. Qed.

(** Follow a computation through its binds and branches. *)
Ltac blind_leaf :=
  first [ exact (blind_ret _) | exact (blind_lift _) | exact (blind_throw _) | exact (blind_zoom _)
        | exact blind_advance_sending | exact blind_advance_receiving | exact (blind_skip _)
        | exact (blind_perform _ _) | exact (blind_take _) ].
Ltac blind :=
  repeat lazymatch goal with
    | |- root_blind (m_get ≫= _) => apply blind_get; [intros ? ?; reflexivity|intros ?]
    | |- root_blind (_ ≫= _) => apply blind_bind; [|intros ?]
    | |- root_blind (match ?x with _ => _ end) => destruct x
    | |- _ => blind_leaf
    end.

Lemma blind_ec_message_key new_dh h : root_blind (ec_message_key new_dh h).
Proof. unfold ec_message_key. blind. Qed.
Lemma blind_encrypt_raw rng nonce pt a b : root_blind (encrypt_raw rng nonce pt a b).
Proof. unfold encrypt_raw. blind. Qed.

Lemma blind_session_encrypt rng nonce pt a b : root_blind (session_encrypt rng nonce pt a b).
Proof. unfold session_encrypt. blind; apply blind_encrypt_raw. Qed.

Lemma blind_modify f : (∀ s, f (forget_root_id s) = forget_root_id (f s)) → root_blind (m_modify f).
Proof. intros Hf s. unfold m_modify. simpl. by rewrite Hf. Qed.

Lemma blind_encrypt_message rng nonce pt a b : root_blind (encrypt_message rng nonce pt a b).
Proof. unfold encrypt_message. blind; [apply blind_encrypt_raw|by apply blind_modify]. Qed.
Lemma blind_session_decrypt new_dh m a b : root_blind (session_decrypt new_dh m a b).
Proof. unfold session_decrypt. blind. apply blind_ec_message_key. Qed.

Lemma session_run_blind op : root_blind (session_run op).
Proof.
  destruct op; unfold session_run, encrypt_prekey_message; blind;
    first [apply blind_session_encrypt|apply blind_encrypt_message|apply blind_session_decrypt].
Qed.

Lemma session_run_state op s : (session_run op s).2 = session_call s op.
Proof.
  destruct op; unfold session_run, mbind, m_bind; simpl;
    match goal with |- context [match ?x with (_, _) => _ end] => by destruct x as [[]] end.
Qed.

(** Run calls one after the other, collecting what they return. *)
Fixpoint run_all {Op S} (run : Op → M S CryptoError SessionOut) (ops : list Op) (st : S)
    : list (result SessionOut) * S :=
  match ops with
  | [] => ([], st)
  | op :: ops =>
      let '(r, st1) := run op st in
      let '(rs, st2) := run_all run ops st1 in
      (r :: rs, st2)
  end.

(** Write the session out and go on with what is read back. *)
Definition reload : M RatchetSession CryptoError () := λ s,
  match (data ← session_serialize s; session_deserialize data) with
  | Ok s' => (Ok (), s')
  | Err e => (Err e, s)
  end.

(** A call on the session as it is, or on the session reloaded. *)
Definition reloaded_run (x : bool * SessionOp) : M RatchetSession CryptoError SessionOut :=
  _ ← (if x.1 then reload else mret ()); session_run x.2.

(** Equal but for the identifier that is not stored. *)
Definition same_stored (s s' : RatchetSession) : Prop := forget_root_id s = forget_root_id s'.

Lemma forget_root_id_twice s : forget_root_id (forget_root_id s) = forget_root_id s.
Proof. done. Qed.
Lemma forget_root_id_wf s : session_wf s → session_wf (forget_root_id s).
Proof. by intros []. Qed.

Lemma session_run_same op s s' :
  same_stored s s' → (session_run op s).1 = (session_run op s').1 ∧ same_stored (session_run op s).2 (session_run op s').2.
Proof.
  intros Hs. pose proof (session_run_blind op s) as H1'. pose proof (session_run_blind op s') as H2'.
  rewrite Hs, H2' in H1'. split; [exact (eq_sym (f_equal fst H1'))|exact (eq_sym (f_equal snd H1'))].
Qed.

Lemma reload_same s : session_wf s → ∃ s', reload s = (Ok (), s') ∧ same_stored s' s ∧ session_wf s'.
Proof.
  intros Hwf. destruct (session_reloads s Hwf) as (data & Hd & Hr). exists (forget_root_id s). unfold reload.
  rewrite Hd. cbn [mbind result_bind]. rewrite Hr. split_and!; [done|apply forget_root_id_twice|by apply forget_root_id_wf].
Qed.

Lemma reloaded_runs_same calls : ∀ s s',
  session_wf s → session_wf s' → same_stored s s' →
  (run_all reloaded_run calls s).1 = (run_all session_run calls.*2 s').1
  ∧ same_stored (run_all reloaded_run calls s).2 (run_all session_run calls.*2 s').2.
Proof.
  induction calls as [|[b op] calls IH]; intros s s' Hwf Hwf' Hs; [done|]. cbn [run_all fmap list_fmap].
  assert (∃ s0, reloaded_run (b, op) s = session_run op s0 ∧ same_stored s0 s' ∧ session_wf s0) as (s0 & -> & Hs0 & Hwf0).
  { unfold reloaded_run. destruct b; [|by exists s]. destruct (reload_same s Hwf) as (s0 & Hr & Hs0 & Hwf0). exists s0.
    split_and!; [exact (m_bind_run _ _ _ _ _ Hr)|by unfold same_stored in *; rewrite Hs0|done]. }
  destruct (session_run_same op s0 s' Hs0) as [Ho Hs1].
  pose proof (session_call_wf s0 op Hwf0) as Hwf1. rewrite <-session_run_state in Hwf1.
  pose proof (session_call_wf s' op Hwf') as Hwf2. rewrite <-session_run_state in Hwf2.
  change (snd (b, op)) with op.
  destruct (session_run op s0) as [r s1], (session_run op s') as [r' s1']. simpl in Ho, Hs1, Hwf1, Hwf2. subst r'.
  destruct (IH s1 s1' Hwf1 Hwf2 Hs1) as [Hos Hf].
  destruct (run_all reloaded_run calls s1), (run_all session_run calls.*2 s1'). simpl in *. by subst.
Qed.

(** C14. Persistence is transparent.  Whatever calls are made on a session, and whichever of
    them are made on a copy that was serialized and read back, every call returns what it
    returns on the session that stays in memory, errors included; the sessions at the end
    differ at most in the runtime identifier, which is not stored. *)
Theorem session_reload_transparent s calls :
  session_wf s →
  (run_all reloaded_run calls s).1 = (run_all session_run calls.*2 s).1
  ∧ same_stored (run_all reloaded_run calls s).2 (run_all session_run calls.*2 s).2.
Proof. intros Hwf. by apply reloaded_runs_same. Qed.

(** ** A session in a store *)

Context {S : Type} `{!SessionStore S}.

(** The store holds session [s] for [a], and no archived states. *)
Definition holds (a : ProtocolAddress) (s : RatchetSession) (st : S) : Prop :=
  ∃ record, load_session S a st = Ok (Some record) ∧ session_deserialize (sr_data record) = Ok (forget_root_id s)
    ∧ previous_states record = [].

End client.

End Stores.
