(* ===== verification/MemStore.v ===== *)
(** * Stores in memory

    For every trait of [Stores], a finite map that implements it and meets its contract:
    the contracts can be met, and the theorems stated against them apply. *)

From S2P Require Import Prelude Foundation Interfaces Keys Stores.

Module MemStore.
Import Stores.

#[export] Instance address_countable : Countable ProtocolAddress :=
  inj_countable' (λ a, (user_id a, device_id a : Z)) (λ p, mk_address p.1 p.2)
    (λ a, match a with mk_address _ _ => eq_refl end).

(** ** Keyed records that must be present *)

Section table.
Context {K V : Type} `{Countable K}.

Definition table_get (missing : string) (k : K) (t : gmap K V) : result V := from_option Ok (Err (NotFound missing)) (t !! k).
Definition table_put (k : K) (v : V) : M (gmap K V) CryptoError () := m_modify <[k := v]>.
Definition table_remove (k : K) : M (gmap K V) CryptoError () := m_modify (delete k).
Definition table_find (k : K) (t : gmap K V) : result (option V) := Ok (t !! k).

Lemma table_get_put missing k v t t' k' :
  table_put k v t = (Ok (), t') →
  table_get missing k' t' = if decide (k' = k) then Ok v else table_get missing k' t.
Proof. intros [= <-]. unfold table_get. case_decide; subst; [by rewrite lookup_insert_eq|by rewrite lookup_insert_ne]. Qed.

Lemma table_find_put k v t t' k' :
  table_put k v t = (Ok (), t') → table_find k' t' = if decide (k' = k) then Ok (Some v) else table_find k' t.
Proof. intros [= <-]. unfold table_find. case_decide; subst; [by rewrite lookup_insert_eq|by rewrite lookup_insert_ne]. Qed.

Lemma table_find_remove k t t' k' :
  table_remove k t = (Ok (), t') → table_find k' t' = if decide (k' = k) then Ok None else table_find k' t.
Proof. intros [= <-]. unfold table_find. case_decide; subst; [by rewrite lookup_delete_eq|by rewrite lookup_delete_ne]. Qed.

Lemma table_get_remove missing k t t' :
  table_remove k t = (Ok (), t') →
  is_ok (table_get missing k t') = false ∧ ∀ k', k' ≠ k → table_get missing k' t' = table_get missing k' t.
Proof.
  intros [= <-]. unfold table_get. rewrite lookup_delete_eq. split; [done|]. intros k' ?. by rewrite lookup_delete_ne.
Qed.

(** Remove a record unless it is to be kept. *)
Definition table_consume (keep : V → bool) (k : K) : M (gmap K V) CryptoError () :=
  t ← m_get; if default false (keep <$> t !! k) then mret () else table_remove k.

Lemma table_consume_spec missing keep k v t t' :
  table_get missing k t = Ok v → table_consume keep k t = (Ok (), t') →
  (∀ k', k' ≠ k → table_get missing k' t' = table_get missing k' t)
  ∧ if keep v then table_get missing k t' = Ok v else is_ok (table_get missing k t') = false.
Proof.
  intros Hg. assert (t !! k = Some v) as Hk.
  { revert Hg. unfold table_get. by destruct (t !! k); [intros [= ->]|]. }
  unfold table_consume, mbind, m_bind. simpl. rewrite Hk. simpl. destruct (keep v); [by intros [= <-]|].
  intros E. by destruct (table_get_remove missing k t t' E).
Qed.

End table.

(** ** The traits *)

Section instances.
Context `{Ed25519}.

Record MemIdentities : Type := mk_identities {
  own_key_pair : IdentityKeyPair;
  own_registration_id : RegistrationId;
  identities : gmap ProtocolAddress IdentityPublicKey;
}.

Definition changed_identity (old : option IdentityPublicKey) (k : IdentityPublicKey) : bool :=
  match old with Some k' => negb (identity_eqb k' k) | None => false end.

#[export] Instance mem_identity_store : IdentityKeyStore MemIdentities := {|
  get_identity_key_pair st := Ok (own_key_pair st);
  get_local_registration_id st := Ok (own_registration_id st);
  save_identity a k st :=
    (Ok (changed_identity (identities st !! a) k),
     mk_identities (own_key_pair st) (own_registration_id st) (<[a := k]> (identities st)));
  is_trusted_identity a k _ st := Ok (negb (changed_identity (identities st !! a) k));
  get_identity a st := table_find a (identities st);
|}.
#[export] Instance mem_identity_store_ok : IdentityKeyStoreOk MemIdentities.
Proof.
  split.
  - intros a k st changed st' [= <- <-]. split; [intros a'; by apply (table_find_put a k (identities st))|].
    intros old [= <-]. unfold changed_identity. destruct (identities st !! a) as [k'|]; [|by split; [|intros (? & ? & ?)]].
    rewrite negb_true_iff. split; [by eauto|by intros (? & [= <-] & ?)].
  - intros a k d st [= E]. simpl. by rewrite E.
Qed.

#[export] Instance mem_pre_key_store : PreKeyStore (gmap Z PreKeyRecord) := {|
  get_pre_key := table_get "pre key"; save_pre_key := table_put; remove_pre_key := table_remove;
|}.
#[export] Instance mem_pre_key_store_ok : PreKeyStoreOk (gmap Z PreKeyRecord).
Proof.
  split.
  - intros i r st st' i' E. rewrite <-decide_bool_decide. by apply table_get_put.
  - intros i st st' i' E. destruct (table_get_remove "pre key" i st st' E) as [Hn Ho].
    case_bool_decide; subst; [done|by apply Ho].
Qed.

#[export] Instance mem_signed_pre_key_store : SignedPreKeyStore (gmap Z SignedPreKeyRecord) := {|
  get_signed_pre_key := table_get "signed pre key"; save_signed_pre_key := table_put;
|}.
#[export] Instance mem_signed_pre_key_store_ok : SignedPreKeyStoreOk (gmap Z SignedPreKeyRecord).
Proof. split. intros i r st st' i' E. rewrite <-decide_bool_decide. by apply table_get_put. Qed.

#[export] Instance mem_kyber_pre_key_store : KyberPreKeyStore (gmap Z KyberPreKeyRecord) := {|
  get_kyber_pre_key := table_get "kyber pre key"; save_kyber_pre_key := table_put;
  mark_kyber_pre_key_used := table_consume is_last_resort;
|}.
#[export] Instance mem_kyber_pre_key_store_ok : KyberPreKeyStoreOk (gmap Z KyberPreKeyRecord).
Proof.
  split.
  - intros i r st st' i' E. rewrite <-decide_bool_decide. by apply table_get_put.
  - intros i r st st'. by apply table_consume_spec.
Qed.

#[export] Instance mem_session_store : SessionStore (gmap ProtocolAddress SessionRecord) := {|
  load_session := table_find; store_session := table_put;
|}.
#[export] Instance mem_session_store_ok : SessionStoreOk (gmap ProtocolAddress SessionRecord).
Proof. split. intros a r st st' a' E. by apply table_find_put. Qed.

#[export] Instance mem_sender_key_store : SenderKeyStore (gmap (ProtocolAddress * bytes) SenderKeyRecord) := {|
  load_sender_key a d := table_find (a, d); store_sender_key a d := table_put (a, d);
|}.
#[export] Instance mem_sender_key_store_ok : SenderKeyStoreOk (gmap (ProtocolAddress * bytes) SenderKeyRecord).
Proof.
  split. intros a d r st st' a' d' E. cbn. rewrite (table_find_put _ _ _ _ (a', d') E).
  repeat case_decide; naive_solver.
Qed.

#[export] Instance mem_sesame_store : SesameStore (gmap bytes SesameUserRecord) := {|
  load_user_record := table_find; store_user_record := table_put; remove_user_record := table_remove;
  list_users t := Ok (map_to_list t).*1;
|}.
#[export] Instance mem_sesame_store_ok : SesameStoreOk (gmap bytes SesameUserRecord).
Proof.
  split.
  - intros u r st st' u' E. by apply table_find_put.
  - intros u st st' u' E. by apply table_find_remove.
  - intros st us u [= <-]. rewrite list_elem_of_fmap. cbn. unfold table_find. split.
    + intros ([u' r] & -> & Hu%elem_of_map_to_list). exists r. simpl. by rewrite Hu.
    + intros [r [= Hr]]. exists (u, r). by rewrite elem_of_map_to_list.
Qed.

End instances.
End MemStore.
