(* ===== verification/EcChain.v ===== *)
(** * Receiving on a symmetric chain of the session

    The keys of a chain as a function of its first key, what [skip_receiving_messages]
    stores, and what [ec_message_key] answers for a message of the current chain: the
    key of its number for every message not received before, in any order; for a message
    received before, the next unused key of the chain, which moves the chain. *)

From S2P Require Import Prelude Foundation Interfaces Padding Kdf Keys AeadRecord Erasure Kem.
From S2P Require Import BraidAuth Braid Spqr Pqxdh Skipped Ratchet.

Section chain.
Context `{Hashes}.

(** The chain after [n] messages, and the key of message [i] (messages count from 0). *)
Definition ec_chain (ck0 : ChainKey) (n : Z) : ChainState :=
  Nat.iter (Z.to_nat n) (λ c, (chain_advance c).2) (chain_new ck0).
Definition ec_key (ck0 : ChainKey) (i : Z) : MessageKey := (chain_advance (ec_chain ck0 i)).1.

Lemma ec_chain_succ ck0 n : 0 ≤ n → ec_chain ck0 (n + 1) = (chain_advance (ec_chain ck0 n)).2.
Proof. intros. unfold ec_chain. by replace (Z.to_nat (n + 1)) with (S (Z.to_nat n)) by lia. Qed.

Lemma ec_chain_number ck0 n : 0 ≤ n ≤ u32_max → message_number (ec_chain ck0 n) = n.
Proof.
  intros [Hn Hm]. revert Hm. pattern n. apply natlike_ind; [done| |done].
  intros x Hx IH Hm. unfold Z.succ. rewrite ec_chain_succ by done. simpl.
  rewrite IH by lia. apply add_u32_small. lia.
Qed.

Lemma ec_chain_advance ck0 n :
  0 ≤ n → chain_advance (ec_chain ck0 n) = (ec_key ck0 n, ec_chain ck0 (n + 1)).
Proof. intros. rewrite ec_chain_succ by done. unfold ec_key. by destruct (chain_advance _). Qed.

(** The loop stops at [until] and files the keys it passes, while the store has room. *)
Lemma skip_receiving_loop_spec ck0 dh until n store :
  0 ≤ n ≤ until → until ≤ u32_max → Z.of_nat (size store) + (until - n) ≤ MAX_SKIP →
  ∃ store', skip_receiving_loop (Z.to_nat (until - n)) until dh (ec_chain ck0 n) store
            = (ec_chain ck0 until, store')
    ∧ (∀ i d, store' !! (i, d) = if bool_decide (d = dh ∧ n ≤ i < until)
                                 then Some (mk_skipped (ec_key ck0 i) dh) else store !! (i, d))
    ∧ Z.of_nat (size store') ≤ Z.of_nat (size store) + (until - n).
Proof.
  remember (Z.to_nat (until - n)) as fuel eqn:Hf. revert n store Hf.
  induction fuel as [|fuel IH]; intros n store Hf Hn Hu Hsz; cbn [skip_receiving_loop].
  - assert (n = until) as -> by lia. exists store. split_and!; [done| |lia].
    intros i d. by rewrite bool_decide_eq_false_2 by lia.
  - rewrite ec_chain_number, bool_decide_eq_true_2 by lia. rewrite ec_chain_advance by lia.
    cbn [snd]. rewrite ec_chain_number by lia. rewrite sub_u32_small by lia. replace (n + 1 - 1) with n by lia.
    unfold skipped_insert. rewrite bool_decide_eq_false_2 by lia.
    set (store1 := <[(n, dh) := _]> store).
    assert (Z.of_nat (size store1) ≤ Z.of_nat (size store) + 1) as Hsz1.
    { unfold store1. pose proof (map_size_insert (n, dh) (mk_skipped (ec_key ck0 n) dh) store) as E. rewrite E.
      case_match; simpl; lia. }
    destruct (IH (n + 1) store1) as (store' & -> & Hl & Hsz'); [lia..|].
    exists store'. split_and!; [done| |lia]. intros i d. rewrite Hl. unfold store1.
    case_bool_decide as Hi; [by rewrite bool_decide_eq_true_2 by (split; [tauto|lia])|].
    destruct (decide ((i, d) = (n, dh))) as [[= -> ->]|Hne].
    + by rewrite lookup_insert_eq, bool_decide_eq_true_2 by (split; [done|lia]).
    + rewrite lookup_insert_ne by done. rewrite bool_decide_eq_false_2; [done|].
      intros [-> ?]. destruct (decide (i = n)) as [->|]; [done|]. apply Hi. split; [done|lia].
Qed.

(** The chain after the loop does not depend on the room in the store. *)
Lemma skip_receiving_loop_chain ck0 dh until n store :
  0 ≤ n ≤ until → until ≤ u32_max →
  (skip_receiving_loop (Z.to_nat (until - n)) until dh (ec_chain ck0 n) store).1 = ec_chain ck0 until.
Proof.
  remember (Z.to_nat (until - n)) as fuel eqn:Hf. revert n store Hf.
  induction fuel as [|fuel IH]; intros n store Hf Hn Hu; cbn [skip_receiving_loop].
  - by assert (n = until) as -> by lia.
  - rewrite ec_chain_number, bool_decide_eq_true_2 by lia. rewrite ec_chain_advance by lia. apply IH; lia.
Qed.

End chain.

Section receive.
Context `{Hashes} `{X25519} `{Ed25519} `{Aead} `{Kyber} `{ReedSolomon} `{IncKem}.
Context `{Postcard MessageHeader}.

(** A session receiving on the chain that starts with [ck0], under the peer's key [dh],
    having passed [n] messages. *)
Record ec_ready (ck0 : ChainKey) (dh : bytes) (n : Z) (s : RatchetSession) : Prop := {
  er_remote : dh_remote s = Some dh;
  er_chain : receiving_chain s = Some (ec_chain ck0 n);
  er_number : 0 ≤ n < u32_max;
  er_store i k : skipped s !! (i, dh) = Some k → 0 ≤ i < n ∧ sk_message_key k = ec_key ck0 i;
}.

(** The messages of the chain whose key is still to be had. *)
Definition ec_pending (dh : bytes) (n : Z) (s : RatchetSession) (i : Z) : Prop :=
  is_Some (skipped s !! (i, dh)) ∨ n ≤ i.

Lemma take_skipped_run h s :
  take_skipped h s
  = (Ok (sk_message_key <$> skipped s !! (h_message_number h, dh_public_key h : bytes)),
     set_receiving (receiving_chain s) (delete (h_message_number h, dh_public_key h : bytes) (skipped s)) s).
Proof. done. Qed.

(** The part of [ec_message_key] after the skipped-key lookup, on the current chain. *)
Lemma ec_in_chain ck0 dh n s i :
  ec_ready ck0 dh n s → n ≤ i < u32_max - 1 → Z.of_nat (size (skipped s)) + (i - n) ≤ MAX_SKIP →
  ∃ s', (skip_receiving_messages i ≫= λ _, advance_receiving) s = (Ok (ec_key ck0 i), s')
    ∧ ec_ready ck0 dh (i + 1) s' ∧ spqr s' = spqr s
    ∧ Z.of_nat (size (skipped s')) ≤ Z.of_nat (size (skipped s)) + (i - n)
    ∧ (∀ j, j ≠ i → ec_pending dh n s j → ec_pending dh (i + 1) s' j).
Proof.
  intros [Hr Hc Hn Hst] Hi Hsz.
  destruct (skip_receiving_loop_spec ck0 dh i n (skipped s)) as (st' & Hloop & Hl & Hsz'); [lia..|].
  assert (skip_receiving_messages i s = (Ok (), set_receiving (Some (ec_chain ck0 i)) st' s)) as Hskip.
  { unfold skip_receiving_messages. rewrite Hc, Hr. cbn [default id from_option].
    rewrite ec_chain_number by lia. rewrite bool_decide_eq_false_2, bool_decide_eq_false_2 by lia.
    unfold from_option, id. by rewrite Hloop. }
  rewrite (m_bind_run _ _ _ _ _ Hskip). unfold advance_receiving. cbn [receiving_chain set_receiving].
  rewrite ec_chain_advance by lia. eexists. split; [done|]. split_and!; simpl; [|done|done|].
  - split; simpl; [done|done|lia|]. intros j k. rewrite Hl. case_bool_decide as Hj; [|].
    + intros [= <-]. split; [lia|done].
    + intros [??]%Hst. split; [lia|done].
  - intros j Hj. unfold ec_pending. simpl. rewrite Hl. case_bool_decide as Hk; [left; eauto|].
    intros [?|?]; [by left|right]. destruct (decide (j < i)); [destruct Hk; split; [done|lia]|lia].
Qed.

(** A message of the current chain that was not received before gets its key, at most
    [MAX_SKIP] ahead and while the store has room; the other pending messages stay so. *)
Lemma ec_message_key_ok ck0 dh n s new_dh h :
  let i := h_message_number h in
  ec_ready ck0 dh n s → dh_public_key h = dh → i < u32_max - 1 → ec_pending dh n s i →
  Z.of_nat (size (skipped s)) + Z.max 0 (i - n) ≤ MAX_SKIP →
  ∃ s', ec_message_key new_dh h s = (Ok (ec_key ck0 i), s')
    ∧ ec_ready ck0 dh (Z.max n (i + 1)) s' ∧ spqr s' = spqr s
    ∧ Z.of_nat (size (skipped s')) ≤ Z.of_nat (size (skipped s)) + Z.max 0 (i - n)
    ∧ (∀ j, j ≠ i → ec_pending dh n s j → ec_pending dh (Z.max n (i + 1)) s' j).
Proof.
  intros i Hrd Hdh Hi Hp Hsz. pose proof Hrd as [Hr Hc Hn Hst].
  unfold ec_message_key. rewrite (m_bind_run _ _ _ _ _ (take_skipped_run h s)). rewrite Hdh. fold i.
  set (s1 := set_receiving _ _ s).
  assert (Z.of_nat (size (skipped s1)) ≤ Z.of_nat (size (skipped s))) as Hsz1.
  { apply inj_le, skipped_delete_size. }
  assert (∀ j, j ≠ i → ec_pending dh n s j → ec_pending dh n s1 j) as Hpd.
  { intros j Hj. unfold ec_pending, s1. simpl. rewrite lookup_delete_ne; [done|congruence]. }
  assert (ec_ready ck0 dh n s1) as Hrd1.
  { split; simpl; [done|done|done|]. intros j k [_ Hk]%lookup_delete_Some. by apply Hst. }
  destruct (skipped s !! (i, dh)) as [k|] eqn:Ek.
  - destruct (Hst i k Ek) as [Hin Hkey]. cbn [fmap option_fmap option_map]. rewrite Hkey. exists s1.
    rewrite Z.max_l by lia. split_and!; [done|done|done|lia|done].
  - destruct Hp as [[? ?]|Hle]; [congruence|]. cbn [fmap option_fmap option_map].
    rewrite (m_bind_run m_get _ s1 s1 s1 eq_refl).
    assert (needs_ratchet h s1 = false) as ->.
    { unfold needs_ratchet. simpl. by rewrite Hr, Hdh, bool_decide_eq_true_2. }
    rewrite (m_bind_run (mret ()) _ s1 () s1 eq_refl). fold i.
    destruct (ec_in_chain ck0 dh n s1 i Hrd1) as (s' & Hrun & Hrd' & Hsp & Hsz' & Hpd'); [lia..|].
    exists s'. rewrite Z.max_r by lia. split_and!; [done|done|done|lia|auto].
Qed.

(** A message of the current chain that was already received and has no stored key is
    given the chain's next key, and the chain moves on. *)
Lemma ec_message_key_replay ck0 dh n s new_dh h :
  ec_ready ck0 dh n s → dh_public_key h = dh →
  h_message_number h < n → skipped s !! (h_message_number h, dh) = None →
  ec_message_key new_dh h s = (Ok (ec_key ck0 n), set_receiving (Some (ec_chain ck0 (n + 1))) (skipped s) s).
Proof.
  intros [Hr Hc Hn Hst] Hdh Hi Hno.
  unfold ec_message_key. rewrite (m_bind_run _ _ _ _ _ (take_skipped_run h s)), Hdh, Hno.
  rewrite delete_id by done. cbn [fmap option_fmap option_map].
  assert (set_receiving (receiving_chain s) (skipped s) s = s) as -> by (by destruct s).
  rewrite (m_bind_run m_get _ s s s eq_refl).
  assert (needs_ratchet h s = false) as -> by (unfold needs_ratchet; by rewrite Hr, Hdh, bool_decide_eq_true_2).
  rewrite (m_bind_run (mret ()) _ s () s eq_refl).
  assert (skip_receiving_messages (h_message_number h) s = (Ok (), s)) as Hs.
  { unfold skip_receiving_messages. rewrite Hc, ec_chain_number, bool_decide_eq_true_2 by lia. done. }
  rewrite (m_bind_run _ _ _ _ _ Hs). unfold advance_receiving. rewrite Hc, ec_chain_advance by lia. done.
Qed.

Context `{!PostcardOk MessageHeader}.

(** What a failed or successful [decrypt] leaves behind, apart from the SPQR state, is
    what [ec_message_key] leaves. *)
Lemma session_decrypt_ec new_dh h ct a b s :
  ∃ st, (session_decrypt new_dh (mk_ratchet_message (header_serialize h) ct) a b s).2
        = set_spqr st (ec_message_key new_dh h s).2.
Proof.
  unfold session_decrypt. cbn [header ciphertext].
  rewrite (m_bind_run (m_lift (header_deserialize (header_serialize h))) _ s h s) by (unfold m_lift; by rewrite header_roundtrip).
  destruct (ec_message_key new_dh h s) as [[k|e] s1] eqn:E.
  - rewrite (m_bind_run _ _ _ _ _ E). unfold m_zoom at 1, mbind, m_bind.
    destruct (ratchet_receive_key _ _ _) as [[pq|e] st]; simpl; exists st; [|done].
    destruct (decrypt _ _ _) as [pt|e]; done.
  - rewrite (m_bind_err _ _ _ _ _ E). exists (spqr s1). by destruct s1.
Qed.

(** C30. Delivering a message twice costs the receiver the next message of the chain.  The
    second delivery, whether or not it is refused, takes the key of message [n] from the
    chain; the genuine message [n], delivered next, is then given the key of [n + 1]. *)
Theorem replay_desynchronises ck0 dh n s new_dh new_dh' h h' ct a b :
  ec_ready ck0 dh n s → n < u32_max - 1 →
  dh_public_key h = dh → h_message_number h < n → skipped s !! (h_message_number h, dh) = None →
  dh_public_key h' = dh → h_message_number h' = n →
  let s' := (session_decrypt new_dh (mk_ratchet_message (header_serialize h) ct) a b s).2 in
  receiving_chain s' = Some (ec_chain ck0 (n + 1))
  ∧ (ec_message_key new_dh' h' s').1 = Ok (ec_key ck0 (n + 1)).
Proof.
  intros Hrd Hmax Hdh Hi Hno Hdh' Hn' s'.
  destruct (session_decrypt_ec new_dh h ct a b s) as [st Hs'].
  rewrite (ec_message_key_replay ck0 dh n) in Hs' by done. unfold s'. rewrite Hs'. split; [done|].
  destruct Hrd as [Hr Hc Hn Hst]. rewrite (ec_message_key_replay ck0 dh (n + 1)); [done| |done|lia|].
  - split; simpl; [done|done|lia|]. intros i k Hk. destruct (Hst i k Hk). split; [lia|done].
  - simpl. destruct (skipped s !! (h_message_number h', dh)) as [k|] eqn:E; [|done].
    destruct (Hst _ _ E). lia.
Qed.

(** Skipping at most [MAX_SKIP] succeeds and touches the receiving chain and the store only. *)
Lemma skip_receiving_ok until s :
  (∀ c, receiving_chain s = Some c → until - message_number c ≤ MAX_SKIP) →
  ∃ chain store, skip_receiving_messages until s = (Ok (), set_receiving chain store s).
Proof.
  intros Hgap. unfold skip_receiving_messages. destruct (receiving_chain s) as [c|] eqn:E.
  2:{ exists None, (skipped s). rewrite <-E. by destruct s. }
  specialize (Hgap c eq_refl). case_bool_decide.
  { exists (Some c), (skipped s). rewrite <-E. by destruct s. }
  rewrite bool_decide_eq_false_2 by lia. destruct (skip_receiving_loop _ _ _ _ _) as [c' store]. eauto.
Qed.

(** The state that [ec_message_key] leaves after a DH ratchet step on header [h]. *)
Definition ratcheted (new_dh : bytes) (h : MessageHeader) (s s' : RatchetSession) : Prop :=
  let remote := dh_public_key h in
  let first := kdf_rk (s_root_key s) (diffie_hellman (dh_self s) remote) in
  let second := kdf_rk (rk_root_key first) (diffie_hellman new_dh remote) in
  dh_remote s' = Some remote ∧ dh_self s' = new_dh ∧ s_root_key s' = rk_root_key second
  ∧ sending_chain s' = Some (chain_new (rk_chain_key second))
  ∧ receiving_chain s' = Some (ec_chain (rk_chain_key first) (h_message_number h + 1)).

Lemma ec_message_key_ratchets new_dh h s :
  skipped s !! (h_message_number h, dh_public_key h : bytes) = None → needs_ratchet h s = true →
  (∀ c, receiving_chain s = Some c → previous_chain_length h - message_number c ≤ MAX_SKIP) →
  0 ≤ h_message_number h ≤ MAX_SKIP →
  ∃ mk s', ec_message_key new_dh h s = (Ok mk, s') ∧ ratcheted new_dh h s s'.
Proof.
  intros Hno Hnr Hprev Hn. set (remote := dh_public_key h).
  set (first := kdf_rk (s_root_key s) (diffie_hellman (dh_self s) remote)).
  unfold ec_message_key. rewrite (m_bind_run _ _ _ _ _ (take_skipped_run h s)), Hno, delete_id by done.
  cbn [fmap option_fmap option_map].
  assert (set_receiving (receiving_chain s) (skipped s) s = s) as -> by (by destruct s).
  rewrite (m_bind_run m_get _ s s s eq_refl), Hnr.
  destruct (skip_receiving_ok (previous_chain_length h) s Hprev) as (chain & store & Hs0).
  set (s2 := (perform_dh_ratchet_step new_dh h (set_receiving chain store s)).2).
  assert ((skip_receiving_messages (previous_chain_length h) ≫= λ _, perform_dh_ratchet_step new_dh h) s = (Ok (), s2)) as Hstep
    by exact (m_bind_run _ (λ _, perform_dh_ratchet_step new_dh h) _ _ _ Hs0).
  rewrite (m_bind_run _ _ _ _ _ Hstep).
  pose proof (skip_receiving_loop_chain (rk_chain_key first) remote (h_message_number h) 0 store ltac:(lia)
    ltac:(unfold MAX_SKIP, u32_max in *; lia)) as Hloop. rewrite Z.sub_0_r in Hloop.
  destruct (skip_receiving_loop (Z.to_nat (h_message_number h)) (h_message_number h) remote
    (ec_chain (rk_chain_key first) 0) store) as [c' store'] eqn:El. simpl in Hloop. subst c'.
  assert (skip_receiving_messages (h_message_number h) s2
    = (Ok (), set_receiving (Some (ec_chain (rk_chain_key first) (h_message_number h))) store' s2)) as Hskip.
  { unfold skip_receiving_messages, s2. cbn -[skip_receiving_loop kdf_rk diffie_hellman chain_new MAX_SKIP].
    change (chain_new (rk_chain_key (kdf_rk (s_root_key s) (diffie_hellman (dh_self s) (dh_public_key h)))))
      with (ec_chain (rk_chain_key first) 0). rewrite ec_chain_number by (unfold u32_max; lia).
    rewrite bool_decide_eq_false_2, bool_decide_eq_false_2, Z.sub_0_r by lia. fold remote. by rewrite El. }
  rewrite (m_bind_run _ _ _ _ _ Hskip). unfold advance_receiving. cbn [receiving_chain set_receiving].
  rewrite ec_chain_advance by lia. eexists _, _. split; [done|]. by split_and!.
Qed.

(** C31. A header with a ratchet key that is not the peer's current one moves the session to
    that key before anything is authenticated.  The header has no stored key and its two
    gaps are at most [MAX_SKIP]; all of it can be chosen by whoever makes it.  Then,
    whatever the ciphertext and whether or not the call succeeds, the peer's key is the
    header's, the own ratchet key and the root key are new, and both chains are the new
    ones, the receiving chain moved past the message.  With a ciphertext too short for a
    nonce and a tag the call fails, and all of this is done. *)
Theorem forged_header_moves_ratchet new_dh h ct a b s :
  skipped s !! (h_message_number h, dh_public_key h : bytes) = None → needs_ratchet h s = true →
  (∀ c, receiving_chain s = Some c → previous_chain_length h - message_number c ≤ MAX_SKIP) →
  0 ≤ h_message_number h ≤ MAX_SKIP →
  let remote := dh_public_key h in
  let first := kdf_rk (s_root_key s) (diffie_hellman (dh_self s) remote) in
  let second := kdf_rk (rk_root_key first) (diffie_hellman new_dh remote) in
  let '(r, s') := session_decrypt new_dh (mk_ratchet_message (header_serialize h) ct) a b s in
  (dh_remote s' = Some remote ∧ dh_self s' = new_dh ∧ s_root_key s' = rk_root_key second
   ∧ sending_chain s' = Some (chain_new (rk_chain_key second))
   ∧ receiving_chain s' = Some (ec_chain (rk_chain_key first) (h_message_number h + 1)))
  ∧ ((length ct < NONCE_SIZE + 16)%nat → is_ok r = false).
Proof.
  intros Hno Hnr Hprev Hn remote first second.
  destruct (ec_message_key_ratchets new_dh h s Hno Hnr Hprev Hn) as (mk & s1 & Hrun & Hs1).
  destruct (session_decrypt_ec new_dh h ct a b s) as [st Hs']. rewrite Hrun in Hs'. cbn [snd] in Hs'.
  assert ((length ct < NONCE_SIZE + 16)%nat →
    is_ok (session_decrypt new_dh (mk_ratchet_message (header_serialize h) ct) a b s).1 = false) as Hshort.
  { intros Hl. unfold session_decrypt. cbn [header ciphertext].
    rewrite (m_bind_run (m_lift (header_deserialize (header_serialize h))) _ s h s) by (unfold m_lift; by rewrite header_roundtrip).
    rewrite (m_bind_run _ _ _ _ _ Hrun). unfold m_zoom at 1, mbind, m_bind.
    destruct (ratchet_receive_key _ _ _) as [[pq|e] st']; [|done]. simpl. by rewrite decrypt_short. }
  destruct (session_decrypt new_dh _ a b s) as [r s']. cbn [snd] in Hs'. subst s'. by split.
Qed.

End receive.
