(* ===== verification/EcRatchet.v ===== *)
(** * The Diffie-Hellman ratchet of two parties

    The ratchet keys of a conversation form one list: each new key is generated on
    receipt of the previous one, so the parties own them in turn and each key starts the
    sending chain of its owner ([linked]).  [recv_view] describes the receiving half of a
    session against the messages still in flight to it: which keys are stored, which are
    still ahead on the current chain.  The lemmas follow [ec_message_key] through its
    three cases (stored key, current chain, new ratchet key). *)

From S2P Require Import Prelude Foundation Interfaces Padding Kdf Keys AeadRecord Erasure Kem.
From S2P Require Import BraidAuth Braid Spqr Pqxdh Skipped Ratchet EcChain.

(** The store and chain index of a header. *)
Definition hkey (h : MessageHeader) : Z * bytes := (h_message_number h, dh_public_key h : bytes).

(** Every second element, from the first. *)
Fixpoint evens {A} (l : list A) : list A :=
  match l with
  | [] => []
  | [x] => [x]
  | x :: _ :: l => x :: evens l
  end.

Lemma evens_sub {A} (l : list A) x : x ∈ evens l → x ∈ l.
Proof.
  revert x. induction l as [|a|a b l IH] using list_ind_two; intros x; simpl; [done|done|].
  intros [->|?%IH]%elem_of_cons; [by left|by do 2 right].
Qed.

(** One ratchet key: its secret, the root key and chain key derived with it (the first
    key of a conversation starts no chain), and the length of its owner's previous
    chain. *)
Record RatchetStep : Type := mk_step {
  rs_priv : bytes;
  rs_root : RootKey;
  rs_ck : option ChainKey;
  rs_prev : Z;
}.

Section ratchet.
Context `{Hashes} `{X25519} `{Ed25519} `{Aead} `{Kyber} `{ReedSolomon} `{IncKem}.
Context `{Postcard MessageHeader}.

Definition rs_pub (x : RatchetStep) : bytes := x25519_public (rs_priv x).

(** Newest first, each step derived from the one before. *)
Fixpoint linked (l : list RatchetStep) : Prop :=
  match l with
  | x :: ((y :: _) as l) =>
      let out := kdf_rk (rs_root y) (diffie_hellman (rs_priv x) (rs_pub y)) in
      rs_root x = rk_root_key out ∧ rs_ck x = Some (rk_chain_key out) ∧ linked l
  | _ => True
  end.

(** A session sending on the chain of [x], with [n] messages sent. *)
Record sends (x : RatchetStep) (n : Z) (s : RatchetSession) : Prop := {
  sd_self : dh_self s = rs_priv x;
  sd_public : dh_self_public s = rs_pub x;
  sd_root : s_root_key s = rs_root x;
  sd_chain : sending_chain s = (λ ck, ec_chain ck n) <$> rs_ck x;
  sd_previous : previous_sending_chain_length s = rs_prev x;
  sd_range : 0 ≤ n ≤ u32_max;
  sd_none : rs_ck x = None → n = 0;
}.

(** A session that has seen the peer's keys [seen], newest first, has passed [cur] of the
    [total] messages of the newest chain, with the headers [F] in flight to it. *)
Record recv_view (seen : list RatchetStep) (total cur : Z) (F : list MessageHeader) (s : RatchetSession) : Prop := {
  rv_remote : dh_remote s = rs_pub <$> head seen;
  rv_chain : receiving_chain s = (λ ck, ec_chain ck cur) <$> (head seen ≫= rs_ck);
  rv_range : 0 ≤ cur ≤ total;
  rv_limit : total ≤ u32_max;
  rv_none : head seen ≫= rs_ck = None → total = 0;
  rv_store i d k : skipped s !! (i, d) = Some k →
    ∃ x ck, x ∈ seen ∧ rs_pub x = d ∧ rs_ck x = Some ck ∧ sk_message_key k = ec_key ck i
            ∧ (head seen = Some x → i < cur);
  rv_stored i d : is_Some (skipped s !! (i, d)) → (i, d) ∈ hkey <$> F;
  rv_flight h x : h ∈ F → x ∈ seen → rs_pub x = dh_public_key h →
    is_Some (skipped s !! hkey h) ∨ head seen = Some x ∧ cur ≤ h_message_number h < total;
  rv_gap x i : head seen = Some x → is_Some (rs_ck x) → cur ≤ i < total → (i, rs_pub x) ∈ hkey <$> F;
}.

(** Sessions that differ in the receiving half only. *)
Definition same_but_recv (s s' : RatchetSession) : Prop :=
  dh_self s' = dh_self s ∧ dh_self_public s' = dh_self_public s ∧ s_root_key s' = s_root_key s
  ∧ sending_chain s' = sending_chain s ∧ previous_sending_chain_length s' = previous_sending_chain_length s
  ∧ spqr s' = spqr s.

Lemma same_but_recv_sends x n s s' : same_but_recv s s' → sends x n s → sends x n s'.
Proof. intros (?&?&?&?&?&?) []. split; done || congruence. Qed.

(** Stored keys and keys to be skipped are all of messages in flight, so they fit the
    store when at most [MAX_SKIP] messages are. *)
Lemma recv_view_room seen total cur F s x ck until :
  recv_view seen total cur F s → head seen = Some x → rs_ck x = Some ck → cur ≤ until ≤ total →
  NoDup (rs_pub <$> seen) → Z.of_nat (size (skipped s)) + (until - cur) ≤ Z.of_nat (length F).
Proof.
  intros Hv Hx Hck Hu Hnd.
  assert (x ∈ seen) as Hxs by (destruct seen; simplify_eq/=; by left).
  set (gap := (λ i, (i, rs_pub x)) <$> seqZ cur (until - cur)).
  assert ((map_to_list (skipped s)).*1 ++ gap ⊆+ hkey <$> F) as Hsub.
  { apply NoDup_submseteq.
    - apply list.NoDup_app. split_and!; [apply NoDup_fst_map_to_list| |apply NoDup_fmap; [by intros ?? [=]|apply NoDup_seqZ]].
      intros [i d] ([[i' d'] k] & [= -> ->] & Hk)%list_elem_of_fmap (j & [= -> ->] & Hj)%list_elem_of_fmap.
      apply elem_of_map_to_list in Hk. apply elem_of_seqZ in Hj.
      destruct (rv_store _ _ _ _ _ Hv _ _ _ Hk) as (z & ck' & Hz & Hp & _ & _ & Hlt).
      assert (z = x) as -> by (by eapply (NoDup_fmap_inj_elem rs_pub seen)). specialize (Hlt Hx). lia.
    - intros [i d] [Hin|Hin]%elem_of_app.
      + apply list_elem_of_fmap in Hin as ([[i' d'] k] & [= -> ->] & Hk). apply elem_of_map_to_list in Hk.
        apply (rv_stored _ _ _ _ _ Hv). eauto.
      + apply list_elem_of_fmap in Hin as (j & [= -> ->] & Hj). apply elem_of_seqZ in Hj.
        apply (rv_gap _ _ _ _ _ Hv); [done|eauto|lia]. }
  apply submseteq_length in Hsub. rewrite length_app, !length_fmap, length_map_to_list in Hsub.
  unfold gap in Hsub. rewrite length_fmap, length_seqZ in Hsub. lia.
Qed.

Lemma skip_view seen total cur F s until :
  recv_view seen total cur F s → NoDup (rs_pub <$> seen) → Z.of_nat (length F) ≤ MAX_SKIP →
  cur ≤ until ≤ total →
  ∃ s', skip_receiving_messages until s = (Ok (), s') ∧ same_but_recv s s' ∧ recv_view seen total until F s'.
Proof.
  intros Hv Hnd Hlen Hu. pose proof Hv as [Hr Hc Hrg Hlim Hnone Hst Hsd Hfl Hgap].
  destruct (head seen ≫= rs_ck) as [ck|] eqn:Eck.
  2:{ exists s. specialize (Hnone eq_refl). replace until with cur by lia. split_and!; [|done|done].
      unfold skip_receiving_messages. by rewrite Hc. }
  apply bind_Some in Eck as (x & Hx & Hck).
  pose proof (recv_view_room _ _ _ _ _ _ _ until Hv Hx Hck Hu Hnd) as Hroom.
  destruct (skip_receiving_loop_spec ck (rs_pub x) until cur (skipped s)) as (store & Hloop & Hl & _); [lia..|].
  exists (set_receiving (Some (ec_chain ck until)) store s). split_and!; [|done|].
  - unfold skip_receiving_messages. rewrite Hc, Hr, Hx. cbn [fmap option_fmap option_map].
    rewrite ec_chain_number by lia. rewrite bool_decide_eq_false_2, bool_decide_eq_false_2 by lia.
    unfold default, id. by rewrite Hloop.
  - split; simpl; [done|by rewrite Hx, bind_Some_eq, Hck|lia|done|by rewrite Hx, bind_Some_eq, Hck|..].
    + intros i d k. rewrite Hl. case_bool_decide as Hi.
      * intros [= <-]. destruct Hi as [-> Hi]. exists x, ck. split_and!; [|done..|lia].
        destruct seen; simplify_eq/=; by left.
      * intros Hk. destruct (Hst i d k Hk) as (z & ck' & ? & ? & ? & ? & Hlt). exists z, ck'.
        split_and!; try done. intros Hz. specialize (Hlt Hz). lia.
    + intros i d. rewrite Hl. case_bool_decide as Hi; [|apply Hsd]. intros _. destruct Hi as [-> Hi].
      apply Hgap; [done|eauto|lia].
    + intros h z Hh Hz Hp. unfold hkey. rewrite Hl. case_bool_decide as Hi; [left; eauto|].
      destruct (Hfl h z Hh Hz Hp) as [?|[Hz' Hn]]; [by left|right]. split; [done|].
      rewrite Hx in Hz'. injection Hz' as <-. destruct (decide (h_message_number h < until)); [|lia].
      destruct Hi. split; [done|lia].
    + intros z i Hz Hs Hi. apply Hgap; [done|done|lia].
Qed.

(** A message of the current chain, not yet passed. *)
Lemma tail_view seen total cur F F' s x ck h :
  recv_view seen total cur F s → NoDup (rs_pub <$> seen) → Z.of_nat (length F) ≤ MAX_SKIP →
  F ≡ₚ h :: F' → NoDup (hkey <$> F) → head seen = Some x → rs_ck x = Some ck → rs_pub x = dh_public_key h →
  cur ≤ h_message_number h < total →
  ∃ s', (skip_receiving_messages (h_message_number h) ≫= λ _, advance_receiving) s
          = (Ok (ec_key ck (h_message_number h)), s')
    ∧ same_but_recv s s' ∧ recv_view seen total (h_message_number h + 1) F' s'.
Proof.
  intros Hv Hnd Hlen HF HndF Hx Hck Hp Hn.
  destruct (skip_view _ _ _ _ _ (h_message_number h) Hv Hnd Hlen) as (s1 & Hs1 & Hsame & Hv1); [lia|].
  rewrite (m_bind_run _ _ _ _ _ Hs1). destruct Hv1 as [Hr Hc Hrg Hlim Hnone Hst Hsd Hfl Hgap].
  unfold advance_receiving. rewrite Hc, Hx, bind_Some_eq, Hck. cbn [fmap option_fmap option_map].
  rewrite ec_chain_advance by lia. eexists. split_and!; [done|done|].
  rewrite HF in HndF. simpl in HndF. apply list.NoDup_cons in HndF as [Hnin HndF].
  assert (∀ k, k ∈ hkey <$> F → k ≠ hkey h → k ∈ hkey <$> F') as Hrest.
  { intros k Hk Hne. rewrite HF in Hk. simpl in Hk. by apply elem_of_cons in Hk as [?|?]. }
  split; simpl; [done|by rewrite Hx, bind_Some_eq, Hck|lia|done|done|..].
  - intros i d k Hk. destruct (Hst i d k Hk) as (z & ck' & ? & ? & ? & ? & Hlt). exists z, ck'.
    split_and!; try done. intros Hz. specialize (Hlt Hz). lia.
  - intros i d [k Hk]. apply Hrest; [apply Hsd; eauto|]. intros [= -> ->].
    destruct (Hst _ _ _ Hk) as (z & ck' & Hz & Hzp & _ & _ & Hlt).
    assert (z = x) as ->. { eapply (NoDup_fmap_inj_elem rs_pub seen); [done..| |congruence]. destruct seen; simplify_eq/=; by left. }
    specialize (Hlt Hx). lia.
  - intros h' z Hh' Hz Hzp. assert (h' ∈ F) as HhF by (rewrite HF; by right).
    destruct (Hfl h' z HhF Hz Hzp) as [?|[Hz' Hn']]; [by left|right]. split; [done|].
    assert (h_message_number h' ≠ h_message_number h); [|lia]. intros E. apply Hnin.
    rewrite Hx in Hz'. injection Hz' as <-.
    assert (hkey h = hkey h') as -> by (unfold hkey; congruence). by apply list_elem_of_fmap_2.
  - intros z i Hz Hs Hi. apply Hrest; [apply Hgap; [done|done|lia]|]. intros [= -> _]. lia.
Qed.

(** ** The three cases of [ec_message_key] *)

Lemma store_lookup_seen seen total cur F s h :
  recv_view seen total cur F s → is_Some (skipped s !! hkey h) →
  ∃ x ck, x ∈ seen ∧ rs_pub x = dh_public_key h ∧ rs_ck x = Some ck
    ∧ sk_message_key <$> skipped s !! hkey h = Some (ec_key ck (h_message_number h)).
Proof.
  intros Hv [k Hk]. destruct (rv_store _ _ _ _ _ Hv _ _ _ Hk) as (x & ck & ? & ? & ? & Hkey & _).
  exists x, ck. split_and!; try done. rewrite Hk. simpl. by rewrite Hkey.
Qed.

(** A message of a chain already seen. *)
Lemma deliver_seen seen total cur F F' s x h new_dh :
  recv_view seen total cur F s → NoDup (rs_pub <$> seen) → Z.of_nat (length F) ≤ MAX_SKIP →
  F ≡ₚ h :: F' → NoDup (hkey <$> F) → x ∈ seen → rs_pub x = dh_public_key h → is_Some (rs_ck x) →
  ∃ ck s' cur', rs_ck x = Some ck ∧ ec_message_key new_dh h s = (Ok (ec_key ck (h_message_number h)), s')
    ∧ same_but_recv s s' ∧ recv_view seen total cur' F' s'.
Proof.
  intros Hv Hnd Hlen HF HndF Hxs Hp [ck Hck].
  unfold ec_message_key. rewrite (m_bind_run _ _ _ _ _ (take_skipped_run h s)). fold (hkey h).
  destruct (decide (is_Some (skipped s !! hkey h))) as [Hs|Hs].
  - destruct (store_lookup_seen _ _ _ _ _ _ Hv Hs) as (z & ck' & Hz & Hzp & Hzc & ->).
    assert (z = x) as -> by (eapply (NoDup_fmap_inj_elem rs_pub seen); [done..|congruence]).
    rewrite Hck in Hzc. injection Hzc as <-. exists ck. eexists _, cur. split_and!; [done|done|done|].
    destruct Hv as [Hr Hc Hrg Hlim Hnone Hst Hsd Hfl Hgap].
    rewrite HF in HndF. simpl in HndF. apply list.NoDup_cons in HndF as [Hnin HndF].
    assert (∀ k, k ∈ hkey <$> F → k ≠ hkey h → k ∈ hkey <$> F') as Hrest.
    { intros k Hk Hne. rewrite HF in Hk. simpl in Hk. by apply elem_of_cons in Hk as [?|?]. }
    split; simpl; try done.
    + intros i d k [_ Hk]%lookup_delete_Some. by apply Hst.
    + intros i d [k [Hne Hk]%lookup_delete_Some]. apply Hrest; [apply Hsd; eauto|done].
    + intros h' z Hh' Hz' Hzp'. assert (h' ∈ F) as HhF by (rewrite HF; by right).
      destruct (Hfl h' z HhF Hz' Hzp') as [?|?]; [left|by right].
      rewrite lookup_delete_ne; [done|]. intros E. apply Hnin. rewrite E. by apply list_elem_of_fmap_2.
    + intros z i Hz' Hsz Hi. apply Hrest; [by apply Hgap|]. intros E.
      destruct Hs as [k Hk]. rewrite <-E in Hk.
      destruct (Hst _ _ _ Hk) as (w & ck' & Hw & Hwp & _ & _ & Hlt).
      assert (w = z) as ->. { eapply (NoDup_fmap_inj_elem rs_pub seen); [done..| |done]. destruct seen; simplify_eq/=; by left. }
      specialize (Hlt Hz'). lia.
  - assert (skipped s !! hkey h = None) as En by (destruct (skipped s !! hkey h); [destruct Hs; eauto|done]).
    assert (h ∈ F) as HhF by (rewrite HF; by left).
    destruct (rv_flight _ _ _ _ _ Hv h x HhF Hxs Hp) as [?|[Hx Hn]]; [done|].
    rewrite En, delete_id by done. cbn [fmap option_fmap option_map].
    assert (set_receiving (receiving_chain s) (skipped s) s = s) as -> by (by destruct s).
    rewrite (m_bind_run m_get _ s s s eq_refl).
    assert (needs_ratchet h s = false) as ->.
    { unfold needs_ratchet. rewrite (rv_remote _ _ _ _ _ Hv), Hx. simpl. by rewrite Hp, bool_decide_eq_true_2. }
    rewrite (m_bind_run (mret ()) _ s () s eq_refl).
    destruct (tail_view seen total cur F F' s x ck h) as (s' & Hrun & Hsame & Hv'); [done..|].
    exists ck, s', (h_message_number h + 1). done.
Qed.

Context `{!X25519Ok}.

(** The step a party takes when it generates [new_dh] on receipt of the key of [x]. *)
Definition next_step (new_dh : bytes) (x : RatchetStep) (prev : Z) : RatchetStep :=
  let out := kdf_rk (rs_root x) (diffie_hellman new_dh (rs_pub x)) in
  mk_step new_dh (rk_root_key out) (Some (rk_chain_key out)) prev.

Lemma ratchet_view seen total F s x y rest n nx new_dh h :
  recv_view seen total total F s → sends y n s → linked (x :: y :: rest) →
  rs_pub x = dh_public_key h → rs_pub x ∉ rs_pub <$> seen → 0 ≤ nx ≤ u32_max →
  (∀ h', h' ∈ F → rs_pub x = dh_public_key h' → 0 ≤ h_message_number h' < nx) →
  (∀ i, 0 ≤ i < nx → (i, rs_pub x) ∈ hkey <$> F) →
  ∃ s', perform_dh_ratchet_step new_dh h s = (Ok (), s') ∧ spqr s' = spqr s
    ∧ sends (next_step new_dh x n) 0 s' ∧ recv_view (x :: seen) nx 0 F s'
    ∧ linked (next_step new_dh x n :: x :: y :: rest).
Proof.
  intros [Hr Hc Hrg Hlim Hnone Hst Hsd Hfl Hgap] [Ds Dp Dr Dc Dv Dn D0] Hlink Hp Hnew Hnx Hin Hall.
  unfold perform_dh_ratchet_step. eexists. split; [done|]. split; [done|].
  destruct Hlink as (Hroot & Hck & Hlink').
  assert (kdf_rk (s_root_key s) (diffie_hellman (dh_self s) (dh_public_key h))
          = kdf_rk (rs_root y) (diffie_hellman (rs_priv x) (rs_pub y))) as ->.
  { rewrite Dr, Ds, <-Hp. unfold rs_pub at 1. by rewrite dh_comm. }
  rewrite <-Hroot, <-Hp.
  assert (match sending_chain s with Some c => message_number c | None => 0 end = n) as Hprev.
  { rewrite Dc. destruct (rs_ck y); simpl; [by rewrite ec_chain_number|by rewrite D0]. }
  split_and!.
  - split; simpl; [done|done|done|done|done|unfold u32_max; lia|done].
  - split; simpl; [done|by rewrite Hck|lia|lia|by rewrite Hck|..].
    + intros i d k Hk. destruct (Hst i d k Hk) as (z & ck & Hz & Hzp & ? & ? & _). exists z, ck.
      split_and!; [by right|done..|]. intros [= <-]. destruct Hnew. by apply list_elem_of_fmap_2.
    + done.
    + intros h' z Hh' [->|Hz]%elem_of_cons Hzp; [right; split; [done|]; by apply Hin|left].
      destruct (Hfl h' z Hh' Hz Hzp) as [?|[_ ?]]; [done|lia].
    + intros z i [= <-] _ Hi. by apply Hall.
  - split; [done|]. split; [done|]. by split.
Qed.

(** The first message received under a new ratchet key. *)
Lemma deliver_new seen total cur F F' s x y rest n nx new_dh h :
  recv_view seen total cur F s → NoDup (rs_pub <$> x :: seen) → Z.of_nat (length F) ≤ MAX_SKIP →
  F ≡ₚ h :: F' → NoDup (hkey <$> F) → sends y n s → linked (x :: y :: rest) →
  rs_pub x = dh_public_key h → previous_chain_length h = total → 0 ≤ nx ≤ u32_max →
  (∀ h', h' ∈ F → rs_pub x = dh_public_key h' → 0 ≤ h_message_number h' < nx) →
  (∀ i, 0 ≤ i < nx → (i, rs_pub x) ∈ hkey <$> F) →
  ∃ ck s', rs_ck x = Some ck ∧ ec_message_key new_dh h s = (Ok (ec_key ck (h_message_number h)), s')
    ∧ spqr s' = spqr s ∧ sends (next_step new_dh x n) 0 s'
    ∧ recv_view (x :: seen) nx (h_message_number h + 1) F' s'
    ∧ linked (next_step new_dh x n :: x :: y :: rest).
Proof.
  intros Hv Hnd Hlen HF HndF Hsend Hlink Hp Hprev Hnx Hin Hall.
  pose proof Hnd as [Hnew Hnd0]%list.NoDup_cons.
  assert (rs_ck x = Some (rk_chain_key (kdf_rk (rs_root y) (diffie_hellman (rs_priv x) (rs_pub y))))) as Hck
    by apply Hlink. set (ck := rk_chain_key _) in Hck.
  unfold ec_message_key. rewrite (m_bind_run _ _ _ _ _ (take_skipped_run h s)). fold (hkey h).
  assert (skipped s !! hkey h = None) as En.
  { destruct (skipped s !! hkey h) as [k|] eqn:E; [|done].
    destruct (store_lookup_seen _ _ _ _ _ h Hv ltac:(eauto)) as (z & _ & Hz & Hzp & _).
    destruct Hnew. rewrite Hp, <-Hzp. by apply list_elem_of_fmap_2. }
  rewrite En, delete_id by done. cbn [fmap option_fmap option_map].
  assert (set_receiving (receiving_chain s) (skipped s) s = s) as -> by (by destruct s).
  rewrite (m_bind_run m_get _ s s s eq_refl).
  assert (needs_ratchet h s = true) as ->.
  { unfold needs_ratchet. rewrite (rv_remote _ _ _ _ _ Hv). destruct seen as [|z seen]; simpl; [done|].
    rewrite bool_decide_eq_false_2; [done|]. intros E. apply Hnew. rewrite Hp, <-E. by left. }
  destruct (skip_view _ _ _ _ _ total Hv Hnd0 Hlen) as (s1 & Hs1 & Hsame & Hv1); [pose proof (rv_range _ _ _ _ _ Hv); lia|].
  destruct (ratchet_view _ _ _ s1 x y rest n nx new_dh h Hv1) as (s2 & Hs2 & Hsp & Hsend2 & Hv2 & Hlink2);
    [by eapply same_but_recv_sends|done..|].
  assert ((skip_receiving_messages (previous_chain_length h) ≫= λ _, perform_dh_ratchet_step new_dh h) s
          = (Ok (), s2)) as Hstep by (rewrite Hprev, (m_bind_run _ _ _ _ _ Hs1); exact Hs2).
  rewrite (m_bind_run _ _ _ _ _ Hstep).
  destruct (tail_view (x :: seen) nx 0 F F' s2 x ck h) as (s3 & Hs3 & Hsame3 & Hv3); [done..| |].
  { apply Hin; [|done]. rewrite HF. by left. }
  exists ck, s3. split_and!; [done|done| |by eapply same_but_recv_sends|done|done].
  destruct Hsame as (_ & _ & _ & _ & _ & E1), Hsame3 as (_ & _ & _ & _ & _ & E3). congruence.
Qed.

(** Sending on the current chain. *)
Lemma advance_sending_view x n s ck :
  sends x n s → rs_ck x = Some ck → n < u32_max →
  ∃ s', advance_sending s = (Ok (ec_key ck n, n), s') ∧ sends x (n + 1) s'
    ∧ receiving_chain s' = receiving_chain s ∧ dh_remote s' = dh_remote s ∧ skipped s' = skipped s
    ∧ spqr s' = spqr s ∧ pending_prekey s' = pending_prekey s.
Proof.
  intros [Ds Dp Dr Dc Dv Dn D0] Hck Hn. unfold advance_sending. rewrite Dc, Hck. cbn [fmap option_fmap option_map].
  rewrite ec_chain_advance by lia. rewrite ec_chain_number, sub_u32_small by lia.
  replace (n + 1 - 1) with n by lia. eexists. split; [done|]. split_and!; [|done..].
  split; simpl; [done..|by rewrite Hck|done|lia|by rewrite Hck].
Qed.

End ratchet.
