(* ===== verification/EcJoint.v ===== *)
(** * Two classical ratchets

    [ec_joint] ties the two sessions of a conversation together: one party has generated
    the newest ratchet key and its peer sends under the one before, and each party's
    receiving half fits the messages in flight to it ([recv_view]).  A send and the
    delivery of any message in flight preserve it, and the delivery is given the key the
    message was sent under. *)

From stdpp Require Import functions.
From S2P Require Import Prelude Foundation Interfaces Padding Kdf Keys AeadRecord Erasure Kem.
From S2P Require Import BraidAuth Braid Spqr Pqxdh Skipped Ratchet EcChain EcRatchet.

Lemma head_evens {A} (x : A) l : head (evens (x :: l)) = Some x.
Proof. by destruct l. Qed.

Section classical.
Context `{HashesOk} `{X25519Ok} `{Ed25519} `{Aead} `{Kyber} `{ReedSolomon} `{IncKem}.
Context `{Postcard MessageHeader}.

(** [own] has generated the newest key [x]; its peer sends under [y]. *)
Record ec_joint (own : bool) (x y : RatchetStep) (rest : list RatchetStep) (n : bool → Z)
    (F : bool → list MessageHeader) (se : bool → RatchetSession) : Prop := {
  ej_linked : linked (x :: y :: rest);
  ej_nodup : NoDup (rs_pub <$> x :: y :: rest);
  ej_own : sends x (n own) (se own);
  ej_peer : sends y (n (negb own)) (se (negb own));
  ej_recv_own : ∃ cur, recv_view (evens (y :: rest)) (n (negb own)) cur (F (negb own)) (se own);
  ej_recv_peer : ∃ cur, recv_view (evens rest) (rs_prev x) cur (F own) (se (negb own));
  ej_top h : h ∈ F own → rs_pub x = dh_public_key h →
    0 ≤ h_message_number h < n own ∧ previous_chain_length h = rs_prev x;
  ej_all i : 0 ≤ i < n own → (i, rs_pub x) ∈ hkey <$> F own;
  ej_chain_own h : h ∈ F own → ∃ z, z ∈ evens (x :: y :: rest) ∧ rs_pub z = dh_public_key h ∧ is_Some (rs_ck z);
  ej_chain_peer h : h ∈ F (negb own) → ∃ z, z ∈ evens (y :: rest) ∧ rs_pub z = dh_public_key h ∧ is_Some (rs_ck z);
  ej_keys p : NoDup (hkey <$> F p);
}.

Lemma evens_pubs (l : list RatchetStep) : NoDup (rs_pub <$> l) → NoDup (rs_pub <$> evens l).
Proof.
  induction l as [|a|a b l IH] using list_ind_two; [done..|].
  intros [Ha Hb]%list.NoDup_cons. simpl in Hb. apply list.NoDup_cons in Hb as [_ Hl]. simpl.
  apply list.NoDup_cons. split; [|by apply IH].
  intros (z & Hz & Hin%evens_sub)%list_elem_of_fmap. apply Ha. simpl. right. rewrite Hz.
  by apply list_elem_of_fmap_2.
Qed.

(** A new message of the newest seen chain, or of a chain not seen yet. *)
Lemma recv_view_new_current seen total cur F s x h :
  recv_view seen total cur F s → head seen = Some x → is_Some (rs_ck x) → total < u32_max →
  NoDup (rs_pub <$> seen) → hkey h = (total, rs_pub x) → recv_view seen (total + 1) cur (h :: F) s.
Proof.
  intros [Hr Hc Hrg Hlim Hnone Hst Hsd Hfl Hgap] Hx Hs Hlt Hnd Hh.
  assert (x ∈ seen) as Hxs by (destruct seen; simplify_eq/=; by left).
  split; try done; [lia|lia| | |..].
  - rewrite Hx, bind_Some_eq. destruct Hs as [ck Hck]. by rewrite Hck.
  - intros i d Hk. right. by apply Hsd.
  - intros h' z [->|Hh']%elem_of_cons Hz Hzp.
    + right. injection Hh as Hn Hp. split; [|lia]. rewrite Hx. f_equal.
      eapply (NoDup_fmap_inj_elem rs_pub seen); [done..|congruence].
    + destruct (Hfl h' z Hh' Hz Hzp) as [?|[? ?]]; [by left|right]. split; [done|lia].
  - intros z i Hz Hsz Hi. rewrite Hx in Hz. injection Hz as <-.
    destruct (decide (i = total)) as [->|]; [rewrite <-Hh; by left|right]. apply Hgap; [done|done|lia].
Qed.

Lemma recv_view_new_unseen seen total cur F s h :
  recv_view seen total cur F s → (dh_public_key h : bytes) ∉ rs_pub <$> seen →
  recv_view seen total cur (h :: F) s.
Proof.
  intros [Hr Hc Hrg Hlim Hnone Hst Hsd Hfl Hgap] Hn. split; try done.
  - intros i d Hk. right. by apply Hsd.
  - intros h' z [->|Hh']%elem_of_cons Hz Hzp; [|by apply Hfl].
    destruct Hn. rewrite <-Hzp. by apply list_elem_of_fmap_2.
  - intros z i Hz Hsz Hi. right. by apply Hgap.
Qed.

Lemma recv_view_ext seen total cur F s s' :
  recv_view seen total cur F s → dh_remote s' = dh_remote s → receiving_chain s' = receiving_chain s →
  skipped s' = skipped s → recv_view seen total cur F s'.
Proof. intros [] Ha Hb Hc. split; rewrite ?Ha, ?Hb, ?Hc; done. Qed.

Lemma sends_spqr x n s st : sends x n s → sends x n (set_spqr st s).
Proof. by intros []. Qed.
Lemma recv_view_spqr seen total cur F s st : recv_view seen total cur F s → recv_view seen total cur F (set_spqr st s).
Proof. intros. by eapply recv_view_ext. Qed.

(** Party [p] sends; what it owns when it may. *)
Lemma ec_joint_send own x y rest n F se p h s' :
  ec_joint own x y rest n F se → n p < u32_max → is_Some (sending_chain (se p)) →
  let z := if bool_decide (p = own) then x else y in
  dh_public_key h = rs_pub z → previous_chain_length h = rs_prev z → h_message_number h = n p →
  sends z (n p + 1) s' → receiving_chain s' = receiving_chain (se p) → dh_remote s' = dh_remote (se p) →
  skipped s' = skipped (se p) →
  ec_joint own x y rest (<[p := n p + 1]> n) (<[p := h :: F p]> F) (<[p := s']> se).
Proof.
  intros [Hl Hnd Ho Hp [c1 Hro] [c2 Hrp] Ht Ha Hco Hcp Hk] Hlt Hsc z Hz Hpv Hnum Hs' Er Ed Es.
  destruct (decide (p = own)) as [->|Hne].
  - unfold z in *. rewrite bool_decide_eq_true_2 in * by done.
    assert (negb own ≠ own) as Hno by (by destruct own).
    assert (hkey h = (n own, rs_pub x)) as Hkey by (unfold hkey; congruence).
    split; rewrite ?fn_lookup_insert, ?(fn_lookup_insert_ne _ own (negb own)) by done; try done.
    + exists c1. by eapply recv_view_ext.
    + exists c2. apply recv_view_new_unseen; [done|]. rewrite Hz.
      intros (w & Hw & Hin%evens_sub)%list_elem_of_fmap. simpl in Hnd. apply list.NoDup_cons in Hnd as [Hx _].
      apply Hx. rewrite Hw. right. by apply list_elem_of_fmap_2.
    + intros h' [->|Hh']%elem_of_cons Hp'; [destruct Ho; split; [lia|done]|].
      destruct (Ht h' Hh' Hp'). split; [lia|done].
    + intros i Hi. destruct (decide (i = n own)) as [->|]; [rewrite <-Hkey; by left|right]. apply Ha. lia.
    + intros h' [->|Hh']%elem_of_cons; [|by apply Hco]. exists x. split; [by left|]. split; [done|].
      destruct Hl as (_ & -> & _). eauto.
    + intros q. destruct (decide (q = own)) as [->|]; [|by rewrite fn_lookup_insert_ne].
      rewrite fn_lookup_insert. simpl. apply list.NoDup_cons. split; [|done]. rewrite Hkey.
      intros (w & Hw & Hin)%list_elem_of_fmap. injection Hw as Hw1 Hw2. destruct (Ht w Hin); [done|lia].
  - unfold z in *. rewrite bool_decide_eq_false_2 in * by done.
    assert (p = negb own) as -> by (by destruct p, own).
    assert (hkey h = (n (negb own), rs_pub y)) as Hkey by (unfold hkey; congruence).
    assert (is_Some (rs_ck y)) as Hck. { rewrite (sd_chain _ _ _ Hp) in Hsc. by destruct (rs_ck y); [|destruct Hsc]. }
    assert (NoDup (rs_pub <$> evens (y :: rest))) as Hnde
      by (apply evens_pubs; simpl in Hnd; by apply list.NoDup_cons in Hnd as [_ ?]).
    split; rewrite ?fn_lookup_insert, ?(fn_lookup_insert_ne _ (negb own) own) by (by destruct own); try done.
    + exists c1. eapply recv_view_new_current; [done|apply head_evens|done..].
    + exists c2. by eapply recv_view_ext.
    + intros h' [->|Hh']%elem_of_cons; [|by apply Hcp]. exists y. split_and!; [|done..].
      destruct rest; by left.
    + intros q. destruct (decide (q = negb own)) as [->|]; [|by rewrite fn_lookup_insert_ne].
      rewrite fn_lookup_insert. simpl. apply list.NoDup_cons. split; [|done]. rewrite Hkey.
      intros (w & Hw & Hin)%list_elem_of_fmap. injection Hw as Hw1 Hw2.
      destruct (rv_flight _ _ _ _ _ Hro w y Hin) as [[k Hk']|[_ ?]]; [destruct rest; by left|done| |lia].
      unfold hkey in Hk'. rewrite <-Hw1, <-Hw2 in Hk'.
      destruct (rv_store _ _ _ _ _ Hro _ _ _ Hk') as (u & ck & Hu & Hup & _ & _ & Hlt').
      assert (u = y) as ->. { eapply (NoDup_fmap_inj_elem rs_pub); [exact Hnde|done|destruct rest; by left|done]. }
      specialize (Hlt' (head_evens _ _)). pose proof (rv_range _ _ _ _ _ Hro). lia.
Qed.

(** Replacing the receiving half of one party, and taking a message out of flight. *)
Lemma ec_joint_deliver_seen own x y rest n F F' se p h s' z :
  ec_joint own x y rest n F se → F (negb p) ≡ₚ h :: F' → same_but_recv (se p) s' →
  z ∈ evens (if bool_decide (p = own) then y :: rest else rest) → rs_pub z = dh_public_key h →
  (∃ cur, recv_view (evens (if bool_decide (p = own) then y :: rest else rest))
            (if bool_decide (p = own) then n (negb own) else rs_prev x) cur F' s') →
  ec_joint own x y rest n (<[negb p := F']> F) (<[p := s']> se).
Proof.
  intros [Hl Hnd Ho Hp Hro Hrp Ht Ha Hco Hcp Hk] HF Hsame Hz Hzp [cur Hv].
  assert (∀ h', h' ∈ F' → h' ∈ F (negb p)) as Hsub by (intros h' Hh'; rewrite HF; by right).
  assert (∀ q, NoDup (hkey <$> <[negb p := F']> F q)) as Hk'.
  { intros q. destruct (decide (q = negb p)) as [->|]; [|by rewrite fn_lookup_insert_ne].
    rewrite fn_lookup_insert. specialize (Hk (negb p)). rewrite HF in Hk. by apply list.NoDup_cons in Hk as [_ ?]. }
  case_bool_decide as Hown.
  - subst p. split; rewrite ?fn_lookup_insert, ?(fn_lookup_insert_ne _ own (negb own)),
      ?(fn_lookup_insert_ne _ (negb own) own) by (by destruct own); try done.
    + by eapply same_but_recv_sends.
    + eauto.
    + intros h' Hh'. by apply Hcp, Hsub.
  - assert (p = negb own) as -> by (by destruct p, own). rewrite negb_involutive in *.
    split; rewrite ?fn_lookup_insert, ?(fn_lookup_insert_ne _ own (negb own)),
      ?(fn_lookup_insert_ne _ (negb own) own) by (by destruct own); try done.
    + by eapply same_but_recv_sends.
    + eauto.
    + intros h' Hh' Hp'. by apply Ht; [apply Hsub|].
    + intros i Hi. pose proof (Ha i Hi) as Hin. rewrite HF in Hin. apply elem_of_cons in Hin as [E|?]; [|done].
      injection E as _ E. simpl in Hnd. apply list.NoDup_cons in Hnd as [Hx _]. destruct Hx.
      rewrite E, <-Hzp. right. apply list_elem_of_fmap_2. by apply evens_sub.
    + intros h' Hh'. by apply Hco, Hsub.
Qed.

(** The newest key arrives: its receiver ratchets and owns the next one. *)
Lemma ec_joint_deliver_new own x y rest n F F' se h s' new_dh cur :
  ec_joint own x y rest n F se → F own ≡ₚ h :: F' →
  x25519_public new_dh ∉ rs_pub <$> x :: y :: rest →
  let z := next_step new_dh x (n (negb own)) in
  sends z 0 s' → recv_view (x :: evens rest) (n own) cur F' s' → linked (z :: x :: y :: rest) →
  ec_joint (negb own) z x (y :: rest) (<[negb own := 0]> n) (<[own := F']> F) (<[negb own := s']> se).
Proof.
  intros [Hl Hnd Ho Hp [c1 Hro] Hrp Ht Ha Hco Hcp Hk] HF Hfresh z Hs Hv Hlink.
  assert (∀ h', h' ∈ F' → h' ∈ F own) as Hsub by (intros h' Hh'; rewrite HF; by right).
  split; rewrite ?negb_involutive, ?fn_lookup_insert, ?(fn_lookup_insert_ne _ own (negb own)),
      ?(fn_lookup_insert_ne _ (negb own) own) by (by destruct own); try done.
  - rewrite fmap_cons. apply list.NoDup_cons. done.
  - exists cur. done.
  - eauto.
  - intros h' Hh' E. destruct (Hcp h' Hh') as (w & Hw%evens_sub & Hwp & _). destruct Hfresh.
    change (x25519_public new_dh) with (rs_pub z). rewrite E, <-Hwp. apply list_elem_of_fmap_2. by right.
  - intros i Hi. lia.
  - intros h' Hh'. destruct (Hcp h' Hh') as (w & Hw & ? & ?). exists w. split_and!; [|done..].
    change (evens (z :: x :: y :: rest)) with (z :: evens (y :: rest)). by right.
  - intros h' Hh'. by apply Hco, Hsub.
  - intros q. destruct (decide (q = own)) as [->|]; [|by rewrite fn_lookup_insert_ne].
    rewrite fn_lookup_insert. specialize (Hk own). rewrite HF in Hk. by apply list.NoDup_cons in Hk as [_ ?].
Qed.

(** Any message in flight is given its key, and the conversation goes on. *)
Lemma ec_joint_deliver own x y rest n F F' se p h new_dh :
  ec_joint own x y rest n F se → F (negb p) ≡ₚ h :: F' → Z.of_nat (length (F (negb p))) ≤ MAX_SKIP →
  x25519_public new_dh ∉ rs_pub <$> x :: y :: rest →
  ∃ z ck s' own' x' y' rest' n',
    z ∈ x :: y :: rest ∧ rs_pub z = dh_public_key h ∧ rs_ck z = Some ck
    ∧ ec_message_key new_dh h (se p) = (Ok (ec_key ck (h_message_number h)), s') ∧ spqr s' = spqr (se p)
    ∧ ec_joint own' x' y' rest' n' (<[negb p := F']> F) (<[p := s']> se)
    ∧ x :: y :: rest ⊆ x' :: y' :: rest'
    ∧ rs_pub <$> x' :: y' :: rest' ⊆ dh_self_public s' :: (rs_pub <$> x :: y :: rest).
Proof.
  intros Hj HF Hlen Hfresh. pose proof Hj as [Hl Hnd Ho Hp [c1 Hro] [c2 Hrp] Ht Ha Hco Hcp Hk].
  pose proof Hnd as [Hx Hnd1]%list.NoDup_cons. pose proof Hnd1 as [Hy Hnd2]%list.NoDup_cons.
  pose proof (Hk (negb p)) as Hkp.
  assert (h ∈ F (negb p)) as Hin by (rewrite HF; by left).
  destruct (decide (p = own)) as [->|Hne].
  - destruct (Hcp h Hin) as (z & Hz & Hzp & Hzs).
    destruct (deliver_seen _ _ _ _ F' _ z h new_dh Hro (evens_pubs (y :: rest) Hnd1) Hlen HF Hkp Hz Hzp Hzs)
      as (ck & s' & cur' & Hck & Hrun & Hsame & Hv).
    exists z, ck, s', own, x, y, rest, n. split_and!; [right; by apply evens_sub|done..|by apply Hsame| |done|].
    + eapply (ec_joint_deliver_seen _ _ _ _ _ _ _ _ _ _ _ z Hj HF Hsame); rewrite ?bool_decide_eq_true_2 by done; eauto.
    + apply list_subseteq_cons. done.
  - assert (p = negb own) as -> by (by destruct p, own). rewrite negb_involutive in *.
    destruct (Hco h Hin) as (z & Hz & Hzp & Hzs). change (z ∈ x :: evens rest) in Hz.
    apply elem_of_cons in Hz as [->|Hz].
    + destruct (deliver_new _ _ _ _ F' _ x y rest (n (negb own)) (n own) new_dh h Hrp) as
        (ck & s' & Hck & Hrun & Hsp & Hs & Hv & Hlink); try done.
      * simpl. apply list.NoDup_cons. split; [|by apply evens_pubs].
        intros (w & Hw & Hwin%evens_sub)%list_elem_of_fmap. apply Hx. rewrite Hw. right. by apply list_elem_of_fmap_2.
      * by apply Ht.
      * apply Ho.
      * intros h' Hh' E. by apply Ht.
      * eexists x, ck, s', (negb own), _, x, (y :: rest), _. split_and!; [by left|done|done|done|done| | |].
        -- by eapply ec_joint_deliver_new.
        -- by apply list_subseteq_cons.
        -- rewrite fmap_cons, (sd_public _ _ _ Hs). done.
    + destruct (deliver_seen _ _ _ _ F' _ z h new_dh Hrp (evens_pubs rest Hnd2) Hlen HF Hkp Hz Hzp Hzs)
        as (ck & s' & cur' & Hck & Hrun & Hsame & Hv).
      exists z, ck, s', own, x, y, rest, n. split_and!; [do 2 right; by apply evens_sub|done..|by apply Hsame| |done|].
      * pose proof (ec_joint_deliver_seen _ _ _ _ _ _ F' _ (negb own) h s' z Hj) as Hd. rewrite negb_involutive in Hd.
        apply Hd; rewrite ?bool_decide_eq_false_2 by (by destruct own); eauto.
      * apply list_subseteq_cons. done.
Qed.

Lemma ec_joint_ext own x y rest n F F' se se' :
  (∀ p, F p = F' p) → (∀ p, se p = se' p) → ec_joint own x y rest n F se → ec_joint own x y rest n F' se'.
Proof.
  intros HF Hs [Hl Hnd Ho Hp Hro Hrp Ht Ha Hco Hcp Hk]. split; try intros q; rewrite <-?HF, <-?Hs; auto.
Qed.

Lemma ec_joint_set_spqr own x y rest n F se p s st :
  ec_joint own x y rest n F (<[p := s]> se) → ec_joint own x y rest n F (<[p := set_spqr st s]> se).
Proof.
  intros [Hl Hnd Ho Hp [c1 Hro] [c2 Hrp] Ht Ha Hco Hcp Hk].
  assert (∀ z k q, sends z k (<[p := s]> se q) → sends z k (<[p := set_spqr st s]> se q)) as Hs.
  { intros z k q. destruct (decide (q = p)) as [->|]; [rewrite !fn_lookup_insert; apply sends_spqr|by rewrite !fn_lookup_insert_ne]. }
  assert (∀ l t k f q, recv_view l t k f (<[p := s]> se q) → recv_view l t k f (<[p := set_spqr st s]> se q)) as Hv.
  { intros l t k f q. destruct (decide (q = p)) as [->|]; [rewrite !fn_lookup_insert; apply recv_view_spqr|by rewrite !fn_lookup_insert_ne]. }
  split; eauto.
Qed.

(** The first two keys: the responder's pre-key and the initiator's first ratchet key. *)
Lemma ec_joint_init ss dh_a spk a pre :
  initialize_alice dh_a ss (x25519_public spk) = Ok a → x25519_public dh_a ≠ x25519_public spk →
  let y := mk_step spk ss None 0 in
  ec_joint true (next_step dh_a y 0) y [] (λ _, 0) (λ _, [])
    (λ p, if p then set_pending_prekey pre a else initialize_bob ss (spk, x25519_public spk)).
Proof.
  intros [= <-] Hne y. split; simpl; try done.
  - repeat constructor; [|by intros ?%elem_of_nil].
    unfold rs_pub. simpl. by intros ?%list_elem_of_singleton.
  - exists 0. split; simpl; try done.
    + by intros ? ? [].
    + by intros ? ? ?%elem_of_nil.
    + intros z i [= <-]. by intros [].
  - exists 0. split; simpl; try done.
    + by intros ? ? [].
    + by intros ? ? ?%elem_of_nil.
  - by intros h ?%elem_of_nil.
  - intros i Hi. lia.
  - by intros h ?%elem_of_nil.
  - by intros h ?%elem_of_nil.
  - constructor.
Qed.

End classical.
