(* ===== verification/FirstFlight.v ===== *)
(** * The first flight of a session

    The initiator processes a published bundle and sends any number of messages (up to
    the skip limit) before it hears from the responder.  The responder accepts the
    pre-key message and then the others in any order, with any of them lost, and reads
    exactly what was sent.  The post-quantum half rests on [SpqrAgreement] and
    [BraidProgress], the classical half on [EcChain]. *)

From stdpp Require Import functions.
From S2P Require Import Prelude Foundation Interfaces Padding Kdf Keys AeadRecord Erasure Kem.
From S2P Require Import BraidAuth Braid BraidAgreement BraidProgress Spqr SpqrKeys SpqrAgreement.
From S2P Require Import Pqxdh Skipped Ratchet EcChain.

(** ** The post-quantum half *)

(** The initiator's braid before it hears from the peer, and the responder's before it
    speaks. *)
Definition opening (s : State) : Prop :=
  match s with KeysUnsampled e _ | KeysSampled e _ _ _ _ => e = 1 | _ => False end.
Definition waiting (s : State) : Prop :=
  match s with NoHeaderReceived e _ _ | HeaderReceived e _ _ _ => e = 1 | _ => False end.

Section pq.
Context `{HashesOk} `{ReedSolomonOk} `{IncKemOk}.

Lemma opening_send s rng s' msg k :
  opening s → state_send s rng = Ok (s', msg, k) → opening s' ∧ k = None ∧ msg_epoch msg = 1.
Proof.
  intros Ho Hs. pose proof (state_send_spec _ _ _ _ _ Hs) as (_ & _ & Hm & _).
  destruct s; try done; simpl in Ho; subst; simpl in Hs; run_handler; by simplify_eq/=.
Qed.

Lemma waiting_receive s msg s' k :
  waiting s → state_receive s msg = Ok (s', k) → waiting s' ∧ k = None.
Proof.
  intros Hw Hr. destruct s; try done; simpl in Hw; subst; simpl in Hr;
    [unfold recv_no_header_received in Hr|]; run_handler; by simplify_eq/=.
Qed.

Lemma opening_epoch s : opening s → state_epoch s = 1.
Proof. by destruct s. Qed.
Lemma waiting_epoch s : waiting s → state_epoch s = 1.
Proof. by destruct s. Qed.

(** The initiator after [k] messages; [wire] is what it has sent. *)
Record talking (ss : bytes) (k : Z) (wire : list Message) (st : SpqrState) : Prop := {
  tk_sys : ∃ sys, pair_reachable ss sys ∧ rp_state sys true = st ∧ rp_wire sys true = wire
                  ∧ rp_state sys false = new_receiver ss;
  tk_inv : spqr_inv (braid_auth_seed ss) [] st;
  tk_dir : direction st = A2B;
  tk_open : opening (state (braid st));
  tk_count : send_count st 0 = Some k;
}.

(** The responder, with the initiator's messages on the wire. *)
Record listening (ss : bytes) (wire : list Message) (st : SpqrState) : Prop := {
  ls_sys : ∃ sys, pair_reachable ss sys ∧ rp_state sys false = st ∧ rp_wire sys true = wire;
  ls_inv : spqr_inv (braid_auth_seed ss) [] st;
  ls_dir : direction st = B2A;
  ls_wait : waiting (state (braid st));
  ls_bound : recv_bounded MAX_SKIP st;
}.

Lemma talking_init ss : talking ss 0 [] (new_sender ss).
Proof.
  split; [|apply (spqr_inv_init ss A2B)|done|done|done].
  exists (pair_init ss). split_and!; [apply rtc_refl|done..].
Qed.

Lemma receiver_pending ss i : 0 < i → pending (new_receiver ss) 0 i.
Proof. intros. right. exists 0. split; [done|lia]. Qed.

Lemma talking_listening ss k wire st : talking ss k wire st → listening ss wire (new_receiver ss).
Proof.
  intros [(sys & Hreach & _ & Hw & Hrecv) _ _ _ _].
  split; [by exists sys|apply (spqr_inv_init ss B2A)|done|done|].
  intros e cur (c & ch & Hc & Hr & <-)%recv_count_Some.
  unfold new_receiver, spqr_init in Hc. simpl in Hc. apply lookup_singleton_Some in Hc as [_ <-]. by injection Hr as <-.
Qed.

Context (Hmds : braid_recovers).

Lemma talking_send ss k wire st rng :
  talking ss k wire st → 0 ≤ k < u32_max →
  ∃ msg st', ratchet_send_key rng st = (Ok (msg, k + 1, pq_key (braid_auth_seed ss) [] A2B 0 (k + 1)), st')
    ∧ talking ss (k + 1) (msg :: wire) st' ∧ msg_epoch msg = 1.
Proof.
  intros [(sys & Hreach & Hst & Hw & Hrecv) Hinv Hd Ho Hc] Hk.
  destruct (pair_simulates ss sys Hreach) as (bsys & Hb & Hall).
  destruct (Hall true) as (Hp & _ & _). destruct (braid_total Hmds _ bsys true Hb) as [Hok _].
  specialize (Hok rng). rewrite Hp, Hst in Hok.
  pose proof (opening_epoch _ Ho) as He.
  pose proof (ratchet_send_key_ok _ [] st rng Hinv) as Hspec. rewrite He in Hspec.
  specialize (Hspec ltac:(unfold u64_max; lia) ltac:(intros m Hm; change (1 - 1) with 0 in Hm; rewrite Hc in Hm; simplify_eq; lia)).
  rewrite braid_send_run in Hok, Hspec.
  destruct (state_send (state (braid st)) rng) as [[[s1 msg] k1]|err] eqn:Es; [|done].
  destruct (opening_send _ _ _ _ _ Ho Es) as (Ho1 & -> & Hme).
  destruct Hspec as (m & st' & Hm & Hr & Hinv1 & Hb1 & Hd1 & _ & _ & Hc1).
  change (1 - 1) with 0 in *. rewrite Hc in Hm. injection Hm as <-. rewrite Hd in Hr. simpl in Hr, Hinv1.
  exists msg, st'. split_and!; [done| |done]. split; [|done|congruence|by rewrite Hb1|done].
  eexists. split_and!.
  - eapply rtc_r; [exact Hreach|]. apply (pair_send true rng sys); rewrite Hst; [rewrite He; unfold u64_max; lia| |exact Hr].
    rewrite He. intros m. change (1 - 1) with 0. rewrite Hc. intros [= <-]. lia.
  - simpl. by rewrite fn_lookup_insert.
  - simpl. by rewrite fn_lookup_insert, Hw.
  - simpl. by rewrite fn_lookup_insert_ne.
Qed.

Lemma listening_receive ss wire st msg i :
  listening ss wire st → msg ∈ wire → msg_epoch msg = 1 → 0 < i ≤ MAX_SKIP → pending st 0 i →
  ∃ st', ratchet_receive_key msg i st = (Ok (pq_key (braid_auth_seed ss) [] A2B 0 i), st')
    ∧ listening ss wire st' ∧ (∀ j, j ≠ i → pending st 0 j → pending st' 0 j).
Proof.
  intros [(sys & Hreach & Hst & Hw) Hinv Hd Hwt Hbd] Hin Hme Hi Hp.
  destruct (pair_simulates ss sys Hreach) as (bsys & Hb & Hall).
  destruct (Hall false) as (Hpf & _ & _), (Hall true) as (_ & Hs & _).
  destruct (braid_total Hmds _ bsys false Hb) as [_ Hok].
  specialize (Hok msg). simpl in Hok. rewrite Hs, Hw, Hpf, Hst in Hok. specialize (Hok Hin).
  pose proof (waiting_epoch _ Hwt) as He.
  assert (state_epoch (state (braid st)) < u64_max) as Hmax by (rewrite He; unfold u64_max; lia).
  assert (0 ≤ i ≤ u32_max) as Hu by (unfold MAX_SKIP, u32_max in *; lia).
  pose proof (ratchet_receive_key_ok _ [] st msg i Hinv Hmax Hu) as Hspec.
  rewrite braid_receive_run in Hok, Hspec.
  destruct (state_receive (state (braid st)) msg) as [[s1 k1]|err] eqn:Es; [|done].
  destruct (waiting_receive _ _ _ _ Hwt Es) as (Hwt1 & ->).
  cbn [sr_output_key receiving_epoch incorporate new_secrets option_list fmap list_fmap app mret m_ret snd] in Hspec.
  rewrite Hme in Hspec. change (sat_sub 1 1) with 0 in Hspec. set (st1 := set_braid _ st) in Hspec.
  rewrite (pending_answer _ _ st1 0 i) in Hspec.
  2:{ apply keys_ok_set_braid, Hinv. }
  2:{ exact Hp. }
  2:{ intros e cur Hcur. specialize (Hbd e cur Hcur). unfold MAX_SKIP, u32_max in *. lia. }
  2:{ intros cur Hcur. destruct (recv_count_epoch _ _ _ _ _ (si_keys _ _ _ Hinv) Hcur). lia. }
  destruct Hspec as (st' & Hr & Hinv1 & Hb1 & Hd1 & _ & _ & _ & Hrp & Hrb & _).
  assert (direction st1 = B2A) as Hd' by done. rewrite Hd' in Hr. simpl in Hr.
  exists st'. split_and!; [done| |].
  - split; [|done|congruence|by rewrite Hb1|by apply Hrb; [lia|]].
    eexists. split_and!.
    + eapply rtc_r; [exact Hreach|]. apply (pair_deliver false msg i sys); rewrite ?Hst; [done| |done|exact Hr].
      simpl. by rewrite Hw.
    + simpl. by rewrite fn_lookup_insert.
    + done.
  - intros j Hj Hpj. apply (Hrp 0 j); [congruence|done].
Qed.

End pq.

(** ** Sequences of calls *)

(** What the sender draws and says in one call. *)
Record Send : Type := mk_send { sd_rng : Rng; sd_nonce : bytes; sd_plaintext : bytes }.

#[export] Instance send_inhabited : Inhabited Send := populate (mk_send (λ _, []) [] []).
#[export] Instance ratchet_message_inhabited : Inhabited RatchetMessage := populate (mk_ratchet_message [] []).

Section flight.
Context `{HashesOk} `{X25519Ok} `{Ed25519Ok} `{AeadOk} `{KyberOk} `{ReedSolomonOk} `{IncKemOk}.
Context `{PostcardOk MessageHeader}.

Fixpoint send_all (sender recipient : IdentityPublicKey) (sends : list Send)
    : M RatchetSession CryptoError (list EncryptedOutput) :=
  match sends with
  | [] => mret []
  | x :: xs =>
      o ← encrypt_message (sd_rng x) (sd_nonce x) (sd_plaintext x) sender recipient;
      os ← send_all sender recipient xs;
      mret (o :: os)
  end.

(** Deliveries: the randomness of the receiver's call and the message. *)
Fixpoint receive_all (sender recipient : IdentityPublicKey) (ms : list (bytes * RatchetMessage))
    : M RatchetSession CryptoError (list bytes) :=
  match ms with
  | [] => mret []
  | (new_dh, m) :: ms =>
      p ← session_decrypt new_dh m sender recipient;
      ps ← receive_all sender recipient ms;
      mret (p :: ps)
  end.

Section run.
Context (Hmds : braid_recovers).
Context (ss dh_a spk : bytes) (a b : IdentityPublicKey).

(** The initiator's ratchet key and the first chain key of the session. *)
Definition flight_pub : bytes := x25519_public dh_a.
Definition flight_ck : ChainKey := rk_chain_key (kdf_rk ss (diffie_hellman dh_a (x25519_public spk))).
Definition flight_key (i : Z) : MessageKey :=
  kdf_hybrid (ec_key flight_ck i) (pq_key (braid_auth_seed ss) [] A2B 0 (i + 1)).

(** Message [i] of the flight, carrying a braid message of the wire. *)
Definition genuine (wire : list Message) (i : Z) (plaintext : bytes) (m : RatchetMessage) : Prop :=
  ∃ bmsg nonce, bmsg ∈ wire ∧ msg_epoch bmsg = 1 ∧ length nonce = NONCE_SIZE
    ∧ header m = header_serialize (mk_header flight_pub 0 i bmsg (i + 1))
    ∧ encrypt nonce (flight_key i) (pad plaintext) (build_ad a b (header m)) = Ok (ciphertext m).

Record sender_at (k : Z) (wire : list Message) (s : RatchetSession) : Prop := {
  sa_public : dh_self_public s = flight_pub;
  sa_chain : sending_chain s = Some (ec_chain flight_ck k);
  sa_previous : previous_sending_chain_length s = 0;
  sa_spqr : talking ss k wire (spqr s);
}.

Lemma genuine_mono wire wire' i pt m : wire ⊆ wire' → genuine wire i pt m → genuine wire' i pt m.
Proof. intros Hw (bmsg & nonce & Hin & Hrest). exists bmsg, nonce. split; [by apply Hw|done]. Qed.

Lemma encrypt_raw_flight k wire s x :
  sender_at k wire s → 0 ≤ k < MAX_SKIP → length (sd_nonce x) = NONCE_SIZE →
  ∃ m bmsg s', encrypt_raw (sd_rng x) (sd_nonce x) (sd_plaintext x) a b s = (Ok m, s')
    ∧ sender_at (k + 1) (bmsg :: wire) s' ∧ pending_prekey s' = pending_prekey s
    ∧ genuine (bmsg :: wire) k (sd_plaintext x) m.
Proof.
  intros [Hp Hc Hpr Ht] Hk Hn.
  destruct (talking_send Hmds ss k wire (spqr s) (sd_rng x) Ht) as (bmsg & st' & Hrun & Ht' & Hme);
    [unfold MAX_SKIP, u32_max in *; lia|].
  unfold encrypt_raw.
  rewrite (m_bind_run _ _ s (bmsg, k + 1, pq_key (braid_auth_seed ss) [] A2B 0 (k + 1)) (set_spqr st' s))
    by (unfold m_zoom; by rewrite Hrun).
  assert (advance_sending (set_spqr st' s)
    = (Ok (ec_key flight_ck k, k), set_sending_chain (Some (ec_chain flight_ck (k + 1))) (set_spqr st' s))) as Ha.
  { unfold advance_sending. cbn [sending_chain set_spqr]. rewrite Hc, ec_chain_advance by lia.
    rewrite ec_chain_number, sub_u32_small by (unfold MAX_SKIP, u32_max in *; lia).
    by replace (k + 1 - 1) with k by lia. }
  cbv beta iota. rewrite (m_bind_run _ _ _ _ _ Ha). set (s' := set_sending_chain _ _).
  rewrite (m_bind_run m_get _ s' s' s' eq_refl).
  assert (dh_self_public s' = flight_pub) as -> by done.
  assert (previous_sending_chain_length s' = 0) as -> by done. cbn [fst snd].
  set (hb := header_serialize _). fold (flight_key k).
  destruct (encrypt_decrypt (sd_nonce x) (flight_key k) (pad (sd_plaintext x)) (build_ad a b hb) Hn) as (ct & Henc & _).
  rewrite (m_bind_run _ _ s' ct s') by (unfold m_lift; by rewrite Henc).
  eexists _, bmsg, s'. split_and!; [done|by split|done|].
  exists bmsg, (sd_nonce x). split_and!; [by left|done|done|done|done].
Qed.

Lemma send_all_flight sends : ∀ k wire s,
  sender_at k wire s → pending_prekey s = None → 0 ≤ k → k + Z.of_nat (length sends) ≤ MAX_SKIP →
  Forall (λ x, length (sd_nonce x) = NONCE_SIZE) sends →
  ∃ ms wire' s', send_all a b sends s = (Ok (OutMessage <$> ms), s')
    ∧ length ms = length sends ∧ wire ⊆ wire' ∧ (∃ k', sender_at k' wire' s')
    ∧ ∀ i, (i < length sends)%nat → genuine wire' (k + Z.of_nat i) (sd_plaintext (sends !!! i)) (ms !!! i).
Proof.
  induction sends as [|x sends IH]; intros k wire s Hs Hpp Hk Hlen Hn; cbn [send_all].
  { exists [], wire, s. split_and!; [done|done|done|eauto|]. simpl. lia. }
  apply list.Forall_cons in Hn as [Hn1 Hn]. simpl in Hlen.
  destruct (encrypt_raw_flight k wire s x Hs) as (m & bmsg & s1 & Hrun & Hs1 & Hpp1 & Hg); [lia|done|].
  assert (encrypt_message (sd_rng x) (sd_nonce x) (sd_plaintext x) a b s = (Ok (OutMessage m), s1)) as Henc.
  { unfold encrypt_message. rewrite (m_bind_run _ _ _ _ _ Hrun), (m_bind_run m_get _ s1 s1 s1 eq_refl).
    by rewrite Hpp1, Hpp. }
  destruct (IH (k + 1) (bmsg :: wire) s1) as (ms & wire' & s' & Hall & Hl & Hw & Hat & Hms);
    [done|congruence|lia|lia|done|].
  exists (m :: ms), wire', s'. rewrite (m_bind_run _ _ _ _ _ Henc), (m_bind_run _ _ _ _ _ Hall).
  split_and!; [done|simpl; lia|by etrans; [apply list_subseteq_cons|]|done|].
  intros [|i] Hi; simpl in Hi.
  - rewrite Z.add_0_r. eapply genuine_mono; [exact Hw|done].
  - replace (k + Z.of_nat (S i)) with (k + 1 + Z.of_nat i) by lia. apply Hms. lia.
Qed.

(** ** The receiver *)

Record receiver_at (n : Z) (wire : list Message) (s : RatchetSession) : Prop := {
  ra_ec : ec_ready flight_ck flight_pub n s;
  ra_size : Z.of_nat (size (skipped s)) ≤ n;
  ra_bound : n ≤ MAX_SKIP;
  ra_spqr : listening ss wire (spqr s);
}.

Definition can_receive (n : Z) (s : RatchetSession) (i : Z) : Prop :=
  ec_pending flight_pub n s i ∧ pending (spqr s) 0 (i + 1).

(** With the classical key resolved, a genuine message is read. *)
Lemma decrypt_genuine (P : RatchetSession → Prop) wire s i pt m new_dh :
  genuine wire i pt m → 0 ≤ i < MAX_SKIP →
  (∀ h, dh_public_key h = flight_pub → h_message_number h = i →
        ∃ s1, ec_message_key new_dh h s = (Ok (ec_key flight_ck i), s1) ∧ spqr s1 = spqr s ∧ P s1) →
  listening ss wire (spqr s) → pending (spqr s) 0 (i + 1) →
  ∃ s1 st', session_decrypt new_dh m a b s = (Ok pt, set_spqr st' s1) ∧ P s1 ∧ listening ss wire st'
    ∧ (∀ j, j ≠ i → pending (spqr s) 0 (j + 1) → pending st' 0 (j + 1)).
Proof.
  intros (bmsg & nonce & Hin & Hme & Hnl & Hh & Henc) Hi Hec Hls Hp.
  set (h := mk_header flight_pub 0 i bmsg (i + 1)) in *.
  destruct (Hec h eq_refl eq_refl) as (s1 & Hrun & Hsp & HP).
  destruct (listening_receive Hmds ss wire (spqr s) bmsg (i + 1) Hls Hin Hme) as (st' & Hr & Hls' & Hp');
    [lia|done|].
  exists s1, st'. split_and!; [|done|done|intros j Hj; apply Hp'; lia].
  unfold session_decrypt.
  rewrite (m_bind_run _ _ s h s) by (unfold m_lift; by rewrite Hh, header_roundtrip).
  rewrite (m_bind_run _ _ _ _ _ Hrun).
  rewrite (m_bind_run _ _ s1 (pq_key (braid_auth_seed ss) [] A2B 0 (i + 1)) (set_spqr st' s1))
    by (unfold m_zoom; simpl; by rewrite Hsp, Hr).
  destruct (encrypt_decrypt nonce (flight_key i) (pad pt) (build_ad a b (header m)) Hnl) as (ct & Henc' & Hdec & _).
  rewrite Henc in Henc'. injection Henc' as <-. fold (flight_key i).
  rewrite (m_bind_run _ _ (set_spqr st' s1) (pad pt) (set_spqr st' s1)) by (unfold m_lift; by rewrite Hdec).
  unfold m_lift. by destruct (pad_unpad pt) as (-> & _).
Qed.

Lemma receive_one n wire s i pt m new_dh :
  receiver_at n wire s → genuine wire i pt m → 0 ≤ i < MAX_SKIP → can_receive n s i →
  ∃ n' s', session_decrypt new_dh m a b s = (Ok pt, s') ∧ receiver_at n' wire s'
    ∧ ∀ j, j ≠ i → can_receive n s j → can_receive n' s' j.
Proof.
  intros [Hec Hsz Hb Hls] Hg Hi [Hp Hpq]. pose proof (er_number _ _ _ _ Hec) as Hn.
  destruct (decrypt_genuine (λ s1, ec_ready flight_ck flight_pub (Z.max n (i + 1)) s1
    ∧ Z.of_nat (size (skipped s1)) ≤ Z.of_nat (size (skipped s)) + Z.max 0 (i - n)
    ∧ ∀ j, j ≠ i → ec_pending flight_pub n s j → ec_pending flight_pub (Z.max n (i + 1)) s1 j)
    wire s i pt m new_dh Hg Hi) as (s1 & st' & Hd & (Hec' & Hsz' & Hpend) & Hls' & Hpq'); [|done|done|].
  { intros h Hdh Hnum. pose proof (ec_message_key_ok flight_ck flight_pub n s new_dh h Hec Hdh) as Hok.
    rewrite Hnum in Hok. destruct Hok as (s1 & ? & ? & ? & ? & ?); [unfold MAX_SKIP, u32_max in *; lia|done|lia|].
    exists s1. by split_and!. }
  exists (Z.max n (i + 1)), (set_spqr st' s1). split_and!; [done| |].
  - split; simpl; [|lia|lia|done]. destruct Hec'. by split.
  - intros j Hj [Hpj Hqj]. split; [by apply Hpend|]. by apply Hpq'.
Qed.

(** The responder's first receipt performs the DH ratchet step onto the flight's chain. *)
Lemma receive_first wire i pt m new_dh :
  listening ss wire (new_receiver ss) → genuine wire i pt m → 0 ≤ i < MAX_SKIP →
  ∃ n s', session_decrypt new_dh m a b (initialize_bob ss (spk, x25519_public spk)) = (Ok pt, s')
    ∧ receiver_at n wire s' ∧ ∀ j, j ≠ i → 0 ≤ j → can_receive n s' j.
Proof.
  intros Hls Hg Hi. set (s := initialize_bob ss (spk, x25519_public spk)).
  destruct (decrypt_genuine (λ s1, ec_ready flight_ck flight_pub (i + 1) s1
    ∧ Z.of_nat (size (skipped s1)) ≤ i ∧ ∀ j, j ≠ i → 0 ≤ j → ec_pending flight_pub (i + 1) s1 j)
    wire s i pt m new_dh Hg Hi) as (s1 & st' & Hd & (Hec' & Hsz' & Hpend) & Hls' & Hpq');
    [|done|apply receiver_pending; lia|].
  { intros h Hdh Hnum. unfold ec_message_key. rewrite (m_bind_run _ _ _ _ _ (take_skipped_run h s)).
    change (skipped s) with (∅ : SkippedKeys). rewrite lookup_empty, delete_empty. cbn [fmap option_fmap option_map].
    set (s0 := set_receiving _ _ s). rewrite (m_bind_run m_get _ s0 s0 s0 eq_refl).
    set (s2 := (perform_dh_ratchet_step new_dh h s0).2).
    change (needs_ratchet h s0) with true. cbv iota. rewrite (m_bind_run _ _ s0 () s2) by done. rewrite Hnum.
    assert (ec_ready flight_ck flight_pub 0 s2) as Hrd.
    { split; [by rewrite <-Hdh| |unfold u32_max; lia|done]. unfold s2. simpl. unfold flight_ck.
      rewrite Hdh. unfold flight_pub. by rewrite (dh_comm spk). }
    assert (size (skipped s2) = O) as Hz by apply map_size_empty.
    destruct (ec_in_chain flight_ck flight_pub 0 s2 i Hrd) as (s3 & Hrun & Hec3 & Hsp3 & Hsz3 & Hp3);
      [unfold MAX_SKIP, u32_max in *; lia|lia|].
    exists s3. split_and!; [done|done|done|lia|].
    intros j Hj Hj0. apply Hp3; [done|by right]. }
  exists (i + 1), (set_spqr st' s1). split_and!; [done| |].
  - split; simpl; [|lia|lia|done]. destruct Hec'. by split.
  - intros j Hj Hj0. split; [by apply Hpend|]. apply Hpq'; [done|]. apply receiver_pending. lia.
Qed.

(** Any selection of distinct messages of the flight, in any order, is read. *)
Lemma receive_all_flight order : ∀ n wire s (pt : nat → bytes) (m : nat → RatchetMessage),
  receiver_at n wire s → NoDup order.*1 →
  (∀ i, i ∈ order.*1 → 0 ≤ Z.of_nat i + 1 < MAX_SKIP ∧ can_receive n s (Z.of_nat i + 1)
                       ∧ genuine wire (Z.of_nat i + 1) (pt i) (m i)) →
  ∃ s', receive_all a b ((λ x, (x.2, m x.1)) <$> order) s = (Ok ((λ x, pt x.1) <$> order), s').
Proof.
  induction order as [|[i new_dh] order IH]; intros n wire s pt m Hat Hnd Hall; cbn [receive_all fmap list_fmap].
  { by exists s. }
  apply list.NoDup_cons in Hnd as [Hni Hnd].
  destruct (Hall i) as (Hi & Hc & Hg); [by left|].
  destruct (receive_one n wire s _ _ _ new_dh Hat Hg Hi Hc) as (n' & s' & Hrun & Hat' & Hc').
  destruct (IH n' wire s' pt m Hat' Hnd) as (s'' & Hrest).
  { intros j Hj. destruct (Hall j) as (? & ? & ?); [by right|]. split_and!; [lia..| |done].
    apply Hc'; [|done]. intros E. assert (i = j) by lia. by subst. }
  exists s''. cbn [fst snd]. rewrite (m_bind_run _ _ _ _ _ Hrun).
  by rewrite (m_bind_run _ _ _ _ _ Hrest).
Qed.

End run.

Context `{!MontgomeryOk}.

(** C11. From the published bundle to the plaintexts: the initiator's messages are all
    produced, the first as a pre-key message; the responder accepts the pre-key message
    and then any of the others, each once and in any order, and reads what was sent. *)
Theorem first_flight_delivered (alice bob : IdentityKeyPair) (spk : bytes) (opk : option (PreKeyId * bytes))
    (kyber_seed eph r dh_a : bytes) reg dev sid kid lr (first : Send) (rest : list Send) :
  braid_recovers →
  Forall (λ x, length (sd_nonce x) = NONCE_SIZE) (first :: rest) →
  Z.of_nat (length (first :: rest)) ≤ MAX_SKIP →
  let bundle := published (mk_responder bob spk opk (dk_from_seed_bytes kyber_seed)) reg dev sid kid lr in
  ∃ out session pk ms session',
    process_prekey_bundle eph r alice bundle = Ok out
    ∧ initialize_alice_with_prekey dh_a (shared_secret out) (signed_pre_key_public bundle) (initial_message out)
      = Ok session
    ∧ send_all (public_key alice) (public_key bob) (first :: rest) session
      = (Ok (OutPreKeyMessage pk :: (OutMessage <$> ms)), session')
    ∧ ∀ new_dh, ∃ bob_session,
        decrypt_prekey_message new_dh pk bob spk (x25519_public spk) (snd <$> opk) kyber_seed
        = Ok (bob_session, sd_plaintext first)
        ∧ ∀ order : list (nat * bytes),
            NoDup order.*1 → (∀ i, i ∈ order.*1 → (i < length rest)%nat) →
            ∃ bob_session',
              receive_all (public_key alice) (public_key bob) ((λ x, (x.2, ms !!! x.1)) <$> order) bob_session
              = (Ok ((λ x, sd_plaintext (rest !!! x.1)) <$> order), bob_session').
Proof.
  intros Hmds [Hn1 Hn]%list.Forall_cons Hlen bundle.
  destruct (pqxdh_agrees (mk_responder bob spk opk (dk_from_seed_bytes kyber_seed)) alice eph r reg dev sid kid lr)
    as (out & Hout & Hresp & _ & Hid). fold bundle in Hout.
  set (ss := shared_secret out) in *. set (a := public_key alice). set (b := public_key bob).
  set (s0 := mk_session dh_a (x25519_public dh_a) (Some (x25519_public spk))
    (rk_root_key (kdf_rk ss (diffie_hellman dh_a (x25519_public spk))))
    (Some (chain_new (rk_chain_key (kdf_rk ss (diffie_hellman dh_a (x25519_public spk))))))
    None 0 skipped_new (Some (initial_message out)) (new_sender ss) (shared_secret_id ss)).
  assert (sender_at ss dh_a spk 0 [] s0) as Hs0 by (split; [done..|apply talking_init]).
  destruct (encrypt_raw_flight Hmds ss dh_a spk a b 0 [] s0 first Hs0) as (m & bmsg & s1 & Hrun & Hs1 & Hpp & Hg);
    [unfold MAX_SKIP; lia|done|].
  set (s2 := set_pending_prekey None s1).
  assert (sender_at ss dh_a spk 1 [bmsg] s2) as Hs2 by (destruct Hs1; by split).
  simpl in Hlen.
  destruct (send_all_flight Hmds ss dh_a spk a b rest 1 [bmsg] s2) as (ms & wire & s' & Hall & Hl & Hw & [k' Hat] & Hms);
    [done|done|lia|lia|done|].
  exists out, s0, (wrap_prekey (initial_message out) a m), ms, s'. split_and!; [done|done| |].
  - cbn [send_all]. rewrite (m_bind_run _ _ s0 (OutPreKeyMessage (wrap_prekey (initial_message out) a m)) s2).
    + by rewrite (m_bind_run _ _ _ _ _ Hall).
    + unfold encrypt_message. rewrite (m_bind_run _ _ _ _ _ Hrun), (m_bind_run m_get _ s1 s1 s1 eq_refl), Hpp. done.
  - intros new_dh. pose proof (talking_listening _ _ _ _ (sa_spqr _ _ _ _ _ _ Hat)) as Hls.
    destruct (receive_first Hmds ss dh_a spk a b wire 0 (sd_plaintext first) m new_dh Hls) as
      (n & bs & Hdec & Hbat & Hcan); [by eapply genuine_mono|unfold MAX_SKIP; lia|].
    exists bs. split.
    + unfold decrypt_prekey_message. cbn [pk_registration_id pk_ephemeral_dh_key pk_signed_pre_key_id pk_pre_key_id
        pk_kyber_pre_key_id pk_kyber_ciphertext pk_identity_key pk_message wrap_prekey].
      assert (mk_initial (im_registration_id (initial_message out)) (ephemeral_public_key (initial_message out))
        (im_signed_pre_key_id (initial_message out)) (one_time_pre_key_id (initial_message out))
        (im_kyber_pre_key_id (initial_message out)) (im_kyber_ciphertext (initial_message out)) a
        = initial_message out) as -> by (unfold a; rewrite <-Hid; by destruct (initial_message out)).
      cbn [rk_identity rk_spk rk_opk rk_kyber] in Hresp. rewrite Hresp. cbn [mbind result_bind].
      fold b. by rewrite Hdec.
    + intros order Hnd Hord.
      apply (receive_all_flight Hmds ss dh_a spk a b order n wire bs (λ i, sd_plaintext (rest !!! i)) (λ i, ms !!! i));
        [done|done|].
      intros i Hi. specialize (Hord i Hi). rewrite (Z.add_comm _ 1). split_and!; [lia|lia| |by apply Hms].
      apply Hcan; lia.
Qed.

End flight.
