(* ===== verification/Conversation.v ===== *)
(** * A conversation in both directions

    Two sessions of one handshake talk over a network that delays, reorders and loses
    messages (a lost message is one that stays in flight) but does not duplicate them:
    both parties send whenever they can, and any message in flight may be delivered
    next.  [EcJoint] ties the two classical ratchets together, [PqFlow] the two
    post-quantum ones.  Every message of a post-quantum epoch at most two behind the
    receiver's is read as it was written, whatever came before it. *)

From stdpp Require Import functions.
From S2P Require Import Prelude Foundation Interfaces Padding Kdf Keys AeadRecord Erasure Kem.
From S2P Require Import BraidAuth Braid BraidAgreement BraidProgress Spqr SpqrKeys SpqrRetention.
From S2P Require Import SpqrAgreement PqFlow Pqxdh Skipped Ratchet EcChain EcRatchet EcJoint.

Section conversation.
Context `{HashesOk} `{X25519Ok} `{Ed25519Ok} `{AeadOk} `{KyberOk} `{ReedSolomonOk} `{IncKemOk}.
Context `{PostcardOk MessageHeader}.

(** The sessions of the initiator ([true]) and the responder, the messages of each that
    have not arrived with what they say, and the ratchet keys used so far. *)
Record Conversation : Type := mk_conv {
  cv_session : bool → RatchetSession;
  cv_flight : bool → list (RatchetMessage * bytes);
  cv_publics : list bytes;
}.

(** The ratchet message of an output. *)
Definition out_message (o : EncryptedOutput) : RatchetMessage :=
  match o with OutMessage m => m | OutPreKeyMessage m => pk_message m end.

(** Room to send: fewer than [MAX_SKIP] messages on their way, counters in range. *)
Definition conv_room (c : Conversation) (p : bool) : Prop :=
  Z.of_nat (length (cv_flight c p)) < MAX_SKIP ∧ pq_room (spqr (cv_session c p))
  ∧ ∀ chain, sending_chain (cv_session c p) = Some chain → message_number chain < u32_max.

Section parties.
Context (id : bool → IdentityPublicKey).

Inductive conv_step : Conversation → Conversation → Prop :=
| conv_send p rng nonce pt out s' c :
    conv_room c p → length nonce = NONCE_SIZE →
    encrypt_message rng nonce pt (id p) (id (negb p)) (cv_session c p) = (Ok out, s') →
    conv_step c (mk_conv (<[p := s']> (cv_session c))
                         (<[p := (out_message out, pt) :: cv_flight c p]> (cv_flight c)) (cv_publics c))
| conv_deliver p m pt new_dh l1 l2 r s' c :
    cv_flight c (negb p) = l1 ++ (m, pt) :: l2 →
    sending (spqr (cv_session c p)) + 1 < u64_max → x25519_public new_dh ∉ cv_publics c →
    session_decrypt new_dh m (id (negb p)) (id p) (cv_session c p) = (r, s') →
    conv_step c (mk_conv (<[p := s']> (cv_session c)) (<[negb p := l1 ++ l2]> (cv_flight c))
                         (dh_self_public s' :: cv_publics c)).

(** The sessions of a handshake with secret [ss]: the initiator's key [dh_a], possibly
    with a pre-key message still to send, and the responder's pre-key [spk]. *)
Definition conv_start (ss dh_a spk : bytes) (pre : option PqxdhInitialMessage) (c : Conversation) : Prop :=
  ∃ a, initialize_alice dh_a ss (x25519_public spk) = Ok a
    ∧ c = mk_conv (λ p, if p then set_pending_prekey pre a else initialize_bob ss (spk, x25519_public spk))
                  (λ _, []) [x25519_public dh_a; x25519_public spk].

Definition conv_reachable (ss dh_a spk : bytes) (pre : option PqxdhInitialMessage) (c : Conversation) : Prop :=
  ∃ c0, conv_start ss dh_a spk pre c0 ∧ rtc conv_step c0 c.

(** ** The invariant *)

Definition msg_header (m : RatchetMessage) : MessageHeader :=
  default (mk_header [] 0 0 (idle 0) 0) (result_opt (header_deserialize (header m))).
Definition pq_index (h : MessageHeader) : Z * Z := (msg_epoch (braid_msg h) - 1, pq_message_number h).

(** The headers of the messages a party has in flight. *)
Definition headers (c : Conversation) (p : bool) : list MessageHeader := (λ x, msg_header x.1) <$> cv_flight c p.

(** A message of party [p] saying [pt]: its header, and the keys it was sent under. *)
Definition genuine_msg (steps : list RatchetStep) (sys : RatchetPair) (p : bool) (m : RatchetMessage) (pt : bytes) : Prop :=
  let h := msg_header m in
  ∃ z ck mk nonce, header m = header_serialize h ∧ length nonce = NONCE_SIZE
    ∧ z ∈ steps ∧ rs_pub z = dh_public_key h ∧ rs_ck z = Some ck
    ∧ braid_msg h ∈ rp_wire sys p ∧ 0 ≤ msg_epoch (braid_msg h) - 1
    ∧ mk_key_use (role p) (msg_epoch (braid_msg h) - 1) (pq_message_number h) mk ∈ rp_keys sys p
    ∧ encrypt nonce (kdf_hybrid (ec_key ck (h_message_number h)) mk) (pad pt)
        (build_ad (id p) (id (negb p)) (header m)) = Ok (ciphertext m).

Record conv_inv (ss : bytes) (c : Conversation) : Prop := {
  ci_inv : ∃ own x y rest n sys T,
    ec_joint own x y rest n (headers c) (cv_session c)
    ∧ pq_joint ss sys T (λ p, pq_index <$> headers c p)
    ∧ (∀ p, rp_state sys p = spqr (cv_session c p))
    ∧ (∀ p m pt, (m, pt) ∈ cv_flight c p → genuine_msg (x :: y :: rest) sys p m pt)
    ∧ rs_pub <$> x :: y :: rest ⊆ cv_publics c;
  ci_flight p : Z.of_nat (length (cv_flight c p)) ≤ MAX_SKIP;
}.

Lemma genuine_msg_mono steps steps' sys sys' p m pt :
  steps ⊆ steps' → rp_wire sys p ⊆ rp_wire sys' p → rp_keys sys p ⊆ rp_keys sys' p →
  genuine_msg steps sys p m pt → genuine_msg steps' sys' p m pt.
Proof.
  intros Hs Hw Hk (z & ck & mk & nonce & ? & ? & ? & ? & ? & ? & ? & ? & ?).
  exists z, ck, mk, nonce. split_and!; auto.
Qed.

Lemma pq_joint_ext ss sys T F F' :
  (∀ p, F p = F' p) → pq_joint ss sys T F → pq_joint ss sys T F'.
Proof. intros HF [Hr Ht Hf]. split; [done..|]. intros p. rewrite <-HF. apply Hf. Qed.

Lemma conv_inv_start ss dh_a spk pre c :
  conv_start ss dh_a spk pre c → x25519_public dh_a ≠ x25519_public spk → conv_inv ss c.
Proof.
  intros (a & Ha & ->) Hne. split; [|done].
  eexists true, _, _, [], _, (pair_init ss), _. split_and!.
  - eapply ec_joint_ext; [| |by apply ec_joint_init]; done.
  - apply pq_joint_init.
  - injection Ha as <-. by intros [].
  - by intros p m pt ?%elem_of_nil.
  - done.
Qed.

(** A send whose two halves succeed: the message, and the session up to the pending
    pre-key. *)
Lemma encrypt_message_run rng nonce pt sender recipient s bmsg m mk st' ec i s1 :
  ratchet_send_key rng (spqr s) = (Ok (bmsg, m, mk), st') → advance_sending (set_spqr st' s) = (Ok (ec, i), s1) →
  length nonce = NONCE_SIZE →
  let h := mk_header (dh_self_public s1) (previous_sending_chain_length s1) i bmsg m in
  ∃ ct out pp,
    encrypt nonce (kdf_hybrid ec mk) (pad pt) (build_ad sender recipient (header_serialize h)) = Ok ct
    ∧ encrypt_message rng nonce pt sender recipient s = (Ok out, set_pending_prekey pp s1)
    ∧ out_message out = mk_ratchet_message (header_serialize h) ct.
Proof.
  intros Hr Ha Hn h. destruct (encrypt_decrypt nonce (kdf_hybrid ec mk) (pad pt)
    (build_ad sender recipient (header_serialize h)) Hn) as (ct & Henc & _).
  set (rm := mk_ratchet_message (header_serialize h) ct).
  assert (encrypt_raw rng nonce pt sender recipient s = (Ok rm, s1)) as Hraw.
  { unfold encrypt_raw. rewrite (m_bind_run _ _ s (bmsg, m, mk) (set_spqr st' s)) by (unfold m_zoom; by rewrite Hr).
    cbv beta iota. rewrite (m_bind_run _ _ _ _ _ Ha), (m_bind_run m_get _ s1 s1 s1 eq_refl). cbn [fst snd]. fold h.
    by rewrite (m_bind_run _ _ s1 ct s1) by (unfold m_lift; by rewrite Henc). }
  exists ct. unfold encrypt_message. rewrite (m_bind_run _ _ _ _ _ Hraw), (m_bind_run m_get _ s1 s1 s1 eq_refl).
  destruct (pending_prekey s1) eqn:E; [by exists (OutPreKeyMessage (wrap_prekey p sender rm)), None|].
  exists (OutMessage rm), None. split_and!; [done| |done]. destruct s1; simpl in *; by subst.
Qed.

(** Reading a function updated at one party, at that party and at the other. *)
Ltac at_party q p :=
  destruct (decide (q = p)) as [->|]; [by rewrite !fn_lookup_insert|by rewrite !fn_lookup_insert_ne].

Lemma sent_subseteq {A} (l : bool → list A) (p : bool) (a : A) q : l q ⊆ (<[p := a :: l p]> l) q.
Proof.
  destruct (decide (q = p)) as [->|]; [rewrite fn_lookup_insert; by apply list_subseteq_cons|].
  by rewrite fn_lookup_insert_ne.
Qed.

Context (Hmds : braid_recovers).

(** A party whose sending chain is there sends, and the invariant goes on. *)
Lemma conv_send_ok ss c p rng nonce pt :
  conv_inv ss c → conv_room c p → length nonce = NONCE_SIZE → is_Some (sending_chain (cv_session c p)) →
  ∃ out s', encrypt_message rng nonce pt (id p) (id (negb p)) (cv_session c p) = (Ok out, s')
    ∧ conv_inv ss (mk_conv (<[p := s']> (cv_session c))
         (<[p := (out_message out, pt) :: cv_flight c p]> (cv_flight c)) (cv_publics c)).
Proof.
  intros [(own & x & y & rest & n & sys & T & He & Hq & Hsp & Hg & Hpub) Hfl] (Hlen & Hroom & Hnum) Hn Hsc.
  set (s := cv_session c p) in *.
  destruct (pq_joint_send Hmds ss sys T _ p rng Hq) as (bmsg & m & mk & st' & Hr & Hme & Hq');
    [by rewrite Hsp|]. rewrite Hsp in Hr. fold s in Hr.
  set (z := if bool_decide (p = own) then x else y).
  assert (sends z (n p) s) as Hz.
  { unfold z, s. case_bool_decide as E; [subst; apply He|]. assert (p = negb own) as -> by (by destruct p, own). apply He. }
  assert (z ∈ x :: y :: rest) as Hzin by (unfold z; case_bool_decide; [by left|by right; left]).
  destruct (rs_ck z) as [ck|] eqn:Hck; [|by rewrite (sd_chain _ _ _ Hz), Hck in Hsc; destruct Hsc].
  assert (n p < u32_max) as Hlt.
  { specialize (Hnum _ ltac:(rewrite (sd_chain _ _ _ Hz), Hck; done)).
    rewrite ec_chain_number in Hnum; [done|apply Hz]. }
  destruct (advance_sending_view z (n p) (set_spqr st' s) ck (sends_spqr _ _ _ _ Hz) Hck Hlt)
    as (s1 & Ha & Hz1 & Er & Ed & Es & Esp & Epp).
  set (h := mk_header (rs_pub z) (rs_prev z) (n p) bmsg m).
  destruct (encrypt_message_run rng nonce pt (id p) (id (negb p)) s bmsg m mk st' _ _ s1 Hr Ha Hn) as (ct & out & pp & Henc & Hout & Hom).
  rewrite (sd_public _ _ _ Hz1), (sd_previous _ _ _ Hz1) in Henc, Hom. fold h in Henc, Hom.
  set (rm := mk_ratchet_message (header_serialize h) ct) in Hom.
  assert (msg_header rm = h) as Hmh by (unfold msg_header, rm; simpl; by rewrite header_roundtrip).
  exists out, (set_pending_prekey pp s1). split; [done|]. rewrite Hom. split.
  2:{ intros q. simpl. destruct (decide (q = p)) as [->|]; [rewrite fn_lookup_insert; simpl; lia|].
      by rewrite fn_lookup_insert_ne. }
  set (c' := mk_conv _ _ _).
  assert (∀ q, headers c' q = (<[p := h :: headers c p]> (headers c)) q) as Hhd.
  { intros q. unfold headers, c'. simpl. destruct (decide (q = p)) as [->|]; [|by rewrite !fn_lookup_insert_ne].
    rewrite !fn_lookup_insert. simpl. by rewrite Hmh. }
  eexists own, x, y, rest, _, _, _. split_and!; [|eapply pq_joint_ext; [|exact Hq']| | |exact Hpub].
  - eapply ec_joint_ext; [| |eapply (ec_joint_send own x y rest n _ _ p h (set_pending_prekey pp s1) He)];
      [intros q; symmetry; apply Hhd|done|done|done|done|done|done|by destruct Hz1|done..].
  - intros q. rewrite Hhd. at_party q p.
  - intros q. simpl. at_party q p.
  - intros q m' pt' Hin. simpl in Hin.
    assert ((m', pt') ∈ cv_flight c q ∨ q = p ∧ m' = rm ∧ pt' = pt) as [Hin'|(-> & -> & ->)].
    { destruct (decide (q = p)) as [->|]; [|rewrite fn_lookup_insert_ne in Hin by done; by left].
      rewrite fn_lookup_insert in Hin. apply elem_of_cons in Hin as [[= -> ->]|?]; auto. }
    + eapply genuine_msg_mono; [done|apply sent_subseteq|apply sent_subseteq|by apply Hg].
    + unfold genuine_msg. rewrite Hmh. exists z, ck, mk, nonce. split_and!; simpl; try done.
      * rewrite fn_lookup_insert. by left.
      * rewrite fn_lookup_insert. by left.
Qed.

(** With the classical key resolved, the outcome of [decrypt] is that of the post-quantum
    half. *)
Lemma session_decrypt_genuine new_dh m sender recipient s h s1 st' ec_mk mk r nonce pt :
  header m = header_serialize h → ec_message_key new_dh h s = (Ok ec_mk, s1) →
  ratchet_receive_key (braid_msg h) (pq_message_number h) (spqr s1) = (r, st') →
  r = Ok mk ∨ is_ok r = false → length nonce = NONCE_SIZE →
  encrypt nonce (kdf_hybrid ec_mk mk) (pad pt) (build_ad sender recipient (header m)) = Ok (ciphertext m) →
  ∃ r', session_decrypt new_dh m sender recipient s = (r', set_spqr st' s1)
    ∧ (is_ok r = true → r' = Ok pt) ∧ (r' = Ok pt ∨ is_ok r' = false).
Proof.
  intros Hhm Hrun Hr Hkey Hnl Henc. unfold session_decrypt.
  rewrite (m_bind_run _ _ s h s) by (unfold m_lift; by rewrite Hhm, header_roundtrip).
  rewrite (m_bind_run _ _ _ _ _ Hrun). destruct Hkey as [->|Herr].
  - rewrite (m_bind_run _ _ s1 mk (set_spqr st' s1)) by (unfold m_zoom; by rewrite Hr).
    destruct (encrypt_decrypt nonce (kdf_hybrid ec_mk mk) (pad pt) (build_ad sender recipient (header m)) Hnl)
      as (ct & Henc' & Hd & _).
    rewrite Henc in Henc'. injection Henc' as <-.
    rewrite (m_bind_run _ _ _ (pad pt) (set_spqr st' s1)) by (unfold m_lift; by rewrite Hd).
    exists (Ok pt). split_and!; [|done|by left]. unfold m_lift. f_equal. apply pad_unpad.
  - destruct r as [|e]; [done|]. rewrite (m_bind_err _ _ s1 e (set_spqr st' s1)) by (unfold m_zoom; by rewrite Hr).
    exists (Err e). split_and!; [done|done|by right].
Qed.

(** A message is only produced on a sending chain. *)
Lemma encrypt_message_chain rng nonce pt sender recipient s out s' :
  encrypt_message rng nonce pt sender recipient s = (Ok out, s') → is_Some (sending_chain s).
Proof.
  unfold encrypt_message, encrypt_raw. intros (rm & s1 & Hraw & _)%m_bind_Ok.
  apply m_bind_Ok in Hraw as ([[bm n] mk] & s2 & Hz & Hraw). apply m_bind_Ok in Hraw as (ec & s3 & Ha & _).
  unfold m_zoom in Hz. destruct (ratchet_send_key rng (spqr s)) as [r st]. injection Hz as _ <-.
  unfold advance_sending in Ha. simpl in Ha. destruct (sending_chain s); [eauto|done].
Qed.

(** The key the receiver derives, if any, is the one the sender used. *)
Lemma received_key_agrees ss sys p rp msg m mk r :
  pair_reachable ss sys → rp_keys sys p = recv_use p msg m r ++ rp →
  mk_key_use (role (negb p)) (msg_epoch msg - 1) m mk ∈ rp_keys sys (negb p) → 0 ≤ msg_epoch msg - 1 →
  r = Ok mk ∨ is_ok r = false.
Proof.
  intros Hreach Hrp Huse He. destruct r as [mk'|]; [left|by right]. f_equal.
  eapply (pair_keys_agree ss sys p (negb p) (mk_key_use _ _ _ mk') (mk_key_use _ _ _ mk) Hreach).
  - rewrite Hrp. by left.
  - exact Huse.
  - simpl. by destruct p.
  - simpl. unfold sat_sub. lia.
  - done.
Qed.

(** The delivery of any message in flight: it is read, unless the receiver has erased its
    post-quantum epoch, and the invariant goes on either way. *)
Lemma conv_deliver_ok ss c p m pt l1 l2 new_dh :
  conv_inv ss c → cv_flight c (negb p) = l1 ++ (m, pt) :: l2 →
  sending (spqr (cv_session c p)) + 1 < u64_max → x25519_public new_dh ∉ cv_publics c →
  ∃ r s', session_decrypt new_dh m (id (negb p)) (id p) (cv_session c p) = (r, s')
    ∧ conv_inv ss (mk_conv (<[p := s']> (cv_session c)) (<[negb p := l1 ++ l2]> (cv_flight c))
                           (dh_self_public s' :: cv_publics c))
    ∧ (epoch (spqr (cv_session c p)) - 2 ≤ msg_epoch (braid_msg (msg_header m)) - 1 → r = Ok pt)
    ∧ (r = Ok pt ∨ is_ok r = false).
Proof.
  intros [(own & x & y & rest & n & sys & T & He & Hq & Hsp & Hg & Hpub) Hfl] Hflight Hmax Hfresh.
  set (s := cv_session c p) in *. set (h := msg_header m).
  assert ((m, pt) ∈ cv_flight c (negb p)) as Hin by (rewrite Hflight; apply elem_of_app; right; by left).
  destruct (Hg _ _ _ Hin) as (z & ck & mk & nonce & Hhm & Hnl & Hz & Hzp & Hzc & Hwire & He0 & Huse & Henc).
  fold h in Hhm, Hzp, Hwire, He0, Huse, Henc.
  set (F' := (λ x, msg_header x.1) <$> l1 ++ l2).
  assert (headers c (negb p) ≡ₚ h :: F') as HF.
  { unfold headers, F'. rewrite Hflight, !fmap_app, fmap_cons. simpl. by rewrite Permutation_middle. }
  assert (length (headers c (negb p)) = length (cv_flight c (negb p))) as Hlen by apply length_fmap.
  destruct (ec_joint_deliver own x y rest n (headers c) F' _ p h new_dh He HF) as
    (z' & ck' & s1 & own' & x' & y' & rest' & n' & Hz' & Hzp' & Hzc' & Hrun & Hsp1 & He' & Hsub & Hpubs);
    [rewrite Hlen; apply Hfl|by intros ?%Hpub|]. fold s in Hrun, Hsp1.
  assert (z' = z) as -> by (eapply (NoDup_fmap_inj_elem rs_pub); [apply (ej_nodup _ _ _ _ _ _ _ He)|done..|congruence]).
  rewrite Hzc in Hzc'. injection Hzc' as <-.
  destruct (pq_joint_deliver Hmds ss sys T _ (pq_index <$> F') p (braid_msg h) (pq_message_number h) Hq) as
    (r & st' & Hr & Hq' & Hok); [by rewrite Hsp|done| |rewrite length_fmap, Hlen; apply Hfl|].
  { cbv beta. rewrite HF. done. }
  rewrite Hsp in Hr, Hok. fold s in Hr, Hok.
  assert (r = Ok mk ∨ is_ok r = false) as Hkey.
  { eapply (received_key_agrees ss _ p _ _ _ mk r (pj_reach _ _ _ _ Hq')); [simpl; by rewrite fn_lookup_insert| |done].
    simpl. rewrite fn_lookup_insert_ne by (by destruct p). exact Huse. }
  rewrite negb_involutive in Henc.
  destruct (session_decrypt_genuine new_dh m _ _ s h s1 st' _ mk r nonce pt Hhm Hrun ltac:(by rewrite Hsp1) Hkey Hnl Henc)
    as (r' & Hdec & Hpt & Hor).
  exists r', (set_spqr st' s1). split_and!; [done| |intros Hep; by apply Hpt, Hok|done].
  set (c' := mk_conv _ _ _).
  assert (∀ q, headers c' q = (<[negb p := F']> (headers c)) q) as Hhd.
  { intros q. unfold headers, c'. simpl. at_party q (negb p). }
  assert (∀ q, cv_flight c' q ⊆ cv_flight c q ∧ length (cv_flight c' q) ≤ length (cv_flight c q))%nat as Hfl'.
  { intros q. simpl. destruct (decide (q = negb p)) as [->|]; [|by rewrite fn_lookup_insert_ne].
    rewrite fn_lookup_insert, Hflight, !length_app. simpl. split; [|lia]. intros k. rewrite !elem_of_app, elem_of_cons. tauto. }
  split; [|intros q; destruct (Hfl' q); specialize (Hfl q); lia].
  eexists own', x', y', rest', n', _, T. split_and!; [|eapply pq_joint_ext; [|exact Hq']| | |].
  - eapply ec_joint_ext; [intros q; symmetry; apply Hhd| |by apply (ec_joint_set_spqr _ _ _ _ _ _ (cv_session c) p s1 st')]. done.
  - intros q. rewrite Hhd. at_party q (negb p).
  - intros q. simpl. at_party q p.
  - intros q m' pt' Hin'. apply (genuine_msg_mono (x :: y :: rest) _ sys); [exact Hsub|done| |by apply Hg, (proj1 (Hfl' q))].
    simpl. destruct (decide (q = p)) as [->|]; [|by rewrite fn_lookup_insert_ne].
    rewrite fn_lookup_insert. intros u Hu. apply elem_of_app. by right.
  - etrans; [exact Hpubs|]. simpl. intros k [->|Hk]%elem_of_cons; [by left|right]. by apply Hpub.
Qed.

Lemma conv_reachable_inv ss dh_a spk pre c :
  x25519_public dh_a ≠ x25519_public spk → conv_reachable ss dh_a spk pre c → conv_inv ss c.
Proof.
  intros Hne (c0 & Hst & Hr). revert c Hr. apply (rtc_ind_r (conv_inv ss)); [by eapply conv_inv_start|].
  intros c c' _ Hstep Hc. destruct Hstep as [p rng nonce pt out s' c Hroom Hn Henc|p m pt new_dh l1 l2 r s' c Hf Hmax Hfr Hdec].
  - destruct (conv_send_ok ss c p rng nonce pt Hc Hroom Hn) as (out' & s1 & Henc' & Hc').
    { apply (encrypt_message_chain _ _ _ _ _ _ _ _ Henc). }
    rewrite Henc in Henc'. by injection Henc' as <- <-.
  - destruct (conv_deliver_ok ss c p m pt l1 l2 new_dh Hc Hf Hmax Hfr) as (r' & s1 & Hdec' & Hc' & _).
    rewrite Hdec in Hdec'. by injection Hdec' as <- <-.
Qed.

(** Full duplex delivery.  In every state a conversation reaches (both parties sending at
    will, messages delayed, reordered and lost, ratchet keys replaced along the way, at
    most [MAX_SKIP] messages in flight in each direction), any message in flight whose
    post-quantum epoch is at most two behind the receiver's is decrypted to exactly what
    its sender wrote. *)
Lemma conversation_delivered ss dh_a spk pre c p m pt new_dh h :
  x25519_public dh_a ≠ x25519_public spk → conv_reachable ss dh_a spk pre c →
  (m, pt) ∈ cv_flight c (negb p) → header_deserialize (header m) = Ok h →
  epoch (spqr (cv_session c p)) ≤ msg_epoch (braid_msg h) + 1 →
  sending (spqr (cv_session c p)) + 1 < u64_max → x25519_public new_dh ∉ cv_publics c →
  (session_decrypt new_dh m (id (negb p)) (id p) (cv_session c p)).1 = Ok pt.
Proof.
  intros Hne Hr%(conv_reachable_inv _ _ _ _ _ Hne) (l1 & l2 & Hf)%list_elem_of_split Hh Hep Hmax Hfr.
  destruct (conv_deliver_ok ss c p m pt l1 l2 new_dh Hr Hf Hmax Hfr) as (r & s' & -> & _ & Hok & _).
  apply Hok. unfold msg_header. rewrite Hh. simpl. lia.
Qed.

(** A party that knows a ratchet key of its peer has a sending chain. *)
Lemma conv_inv_chain ss c p : conv_inv ss c → is_Some (dh_remote (cv_session c p)) → is_Some (sending_chain (cv_session c p)).
Proof.
  intros [(own & x & y & rest & n & sys & T & He & _) _] Hrem. destruct (decide (p = own)) as [->|Hp].
  - rewrite (sd_chain _ _ _ (ej_own _ _ _ _ _ _ _ He)). destruct (ej_linked _ _ _ _ _ _ _ He) as (_ & -> & _). eauto.
  - assert (p = negb own) as -> by (by destruct p, own).
    rewrite (sd_chain _ _ _ (ej_peer _ _ _ _ _ _ _ He)). destruct (ej_recv_peer _ _ _ _ _ _ _ He) as [cur Hv].
    rewrite (rv_remote _ _ _ _ _ Hv) in Hrem. destruct rest as [|z rest]; [by destruct Hrem|].
    destruct (ej_linked _ _ _ _ _ _ _ He) as (_ & _ & _ & -> & _). eauto.
Qed.

(** A party that knows a ratchet key of its peer can always send: while there is room,
    encryption succeeds. *)
Theorem conversation_sendable ss dh_a spk pre c p rng nonce pt :
  x25519_public dh_a ≠ x25519_public spk → conv_reachable ss dh_a spk pre c →
  is_Some (dh_remote (cv_session c p)) → conv_room c p → length nonce = NONCE_SIZE →
  is_ok (encrypt_message rng nonce pt (id p) (id (negb p)) (cv_session c p)).1 = true.
Proof.
  intros Hne Hr%(conv_reachable_inv _ _ _ _ _ Hne) Hrem Hroom Hn.
  by destruct (conv_send_ok ss c p rng nonce pt Hr Hroom Hn (conv_inv_chain _ _ _ Hr Hrem)) as (out & s' & -> & _).
Qed.

End parties.

(** ** From the handshake on *)

Context `{!MontgomeryOk}.

Lemma decrypt_prekey_wrapped new_dh initial sender m our spk opk kyber_seed ss :
  im_identity_key initial = sender →
  process_initial_message our spk opk (dk_from_seed_bytes kyber_seed) initial = Ok ss →
  decrypt_prekey_message new_dh (wrap_prekey initial sender m) our spk (x25519_public spk) opk kyber_seed
  = match session_decrypt new_dh m sender (public_key our) (initialize_bob ss (spk, x25519_public spk)) with
    | (Ok pt, s) => Ok (s, pt)
    | (Err e, _) => Err e
    end.
Proof.
  intros <- Hss. unfold decrypt_prekey_message. cbn [pk_registration_id pk_ephemeral_dh_key pk_signed_pre_key_id
    pk_pre_key_id pk_kyber_pre_key_id pk_kyber_ciphertext pk_identity_key pk_message wrap_prekey].
  assert (mk_initial (im_registration_id initial) (ephemeral_public_key initial) (im_signed_pre_key_id initial)
    (one_time_pre_key_id initial) (im_kyber_pre_key_id initial) (im_kyber_ciphertext initial) (im_identity_key initial)
    = initial) as -> by (by destruct initial). rewrite Hss. done.
Qed.

(** C10. From the published bundle to any point of the conversation.  The initiator processes
    the bundle and the responder the initial message, both succeed, and the responder's
    pre-key path runs the session the two agree on.  In every state the two sessions then
    reach (both parties sending at will, messages delayed, reordered and lost, ratchet
    keys replaced along the way, at most [MAX_SKIP] messages in flight in each direction),
    any message in flight whose post-quantum epoch is at most two behind the receiver's is
    decrypted to exactly what its sender wrote. *)
Theorem handshake_conversation (alice bob : IdentityKeyPair) (spk : bytes) (opk : option (PreKeyId * bytes))
    (kyber_seed eph r dh_a : bytes) reg dev sid kid lr :
  braid_recovers → x25519_public dh_a ≠ x25519_public spk →
  let id (p : bool) := public_key (if p then alice else bob) in
  let bundle := published (mk_responder bob spk opk (dk_from_seed_bytes kyber_seed)) reg dev sid kid lr in
  ∃ out a ss,
    process_prekey_bundle eph r alice bundle = Ok out
    ∧ initialize_alice_with_prekey dh_a (shared_secret out) (signed_pre_key_public bundle) (initial_message out) = Ok a
    ∧ process_initial_message bob spk (snd <$> opk) (dk_from_seed_bytes kyber_seed) (initial_message out) = Ok ss
    ∧ (∀ new_dh m,
         decrypt_prekey_message new_dh (wrap_prekey (initial_message out) (id true) m) bob spk (x25519_public spk)
           (snd <$> opk) kyber_seed
         = match session_decrypt new_dh m (id true) (id false) (initialize_bob ss (spk, x25519_public spk)) with
           | (Ok pt, s) => Ok (s, pt)
           | (Err e, _) => Err e
           end)
    ∧ ∀ c p m pt new_dh h,
        rtc (conv_step id) (mk_conv (λ p, if p then a else initialize_bob ss (spk, x25519_public spk)) (λ _, [])
                              [x25519_public dh_a; x25519_public spk]) c →
        (m, pt) ∈ cv_flight c (negb p) → header_deserialize (header m) = Ok h →
        epoch (spqr (cv_session c p)) ≤ msg_epoch (braid_msg h) + 1 →
        sending (spqr (cv_session c p)) + 1 < u64_max → x25519_public new_dh ∉ cv_publics c →
        (session_decrypt new_dh m (id (negb p)) (id p) (cv_session c p)).1 = Ok pt.
Proof.
  intros Hmds Hne id bundle.
  destruct (pqxdh_agrees (mk_responder bob spk opk (dk_from_seed_bytes kyber_seed)) alice eph r reg dev sid kid lr)
    as (out & Hout & Hresp & _ & Hid). fold bundle in Hout.
  destruct (initialize_alice dh_a (shared_secret out) (x25519_public spk)) as [a|] eqn:Ha; [|done].
  exists out, (set_pending_prekey (Some (initial_message out)) a), (shared_secret out).
  split_and!; [exact Hout| |exact Hresp|intros; by apply decrypt_prekey_wrapped|].
  - unfold initialize_alice_with_prekey. change (signed_pre_key_public bundle) with (x25519_public spk). by rewrite Ha.
  - intros c p m pt new_dh h Hr Hin Hh He Hs Hf.
    apply (conversation_delivered id Hmds (shared_secret out) dh_a spk (Some (initial_message out)) c p m pt new_dh h);
      [done| |done..]. eexists. split; [|exact Hr]. by exists a.
Qed.

End conversation.
