(* ===== verification/Endpoint.v ===== *)
(** * Endpoints of a conversation

    What a party of a conversation needs of the place its session is kept ([Endpoint]):
    an endpoint stands for a session, and sends and receives as the session does, except
    that a call that fails leaves it as it was.  [EndpointOk] is that contract.  A session
    in memory that is copied before each call meets it, and so does a session in any
    lawful session store that does not fail, loaded before each call and stored only after
    a successful one, while the store has no archived states to fall back on;
    a party that keeps what a failed [decrypt] left behind does not ([EcChain],
    [BraidWedge], [BraidDeadlock] show what that costs). *)

From S2P Require Import Prelude Foundation Interfaces Padding Kdf Keys AeadRecord Erasure Kem.
From S2P Require Import BraidAuth Braid Spqr Pqxdh Skipped Ratchet Session Stores.

(** Run a method on a copy and keep the copy only if it succeeds. *)
Definition m_commit {S E A} (m : M S E A) : M S E A := λ s,
  match m s with
  | (Ok a, s') => (Ok a, s')
  | (Err e, _) => (Err e, s)
  end.

Section endpoint.
Context `{Hashes} `{X25519} `{Ed25519} `{Aead} `{Kyber} `{ReedSolomon} `{IncKem} `{Postcard MessageHeader}.

Class Endpoint (E : Type) : Type := {
  ep_view : E → RatchetSession → Prop;
  ep_send : Rng → bytes → bytes → IdentityPublicKey → IdentityPublicKey → M E CryptoError EncryptedOutput;
  ep_receive : bytes → RatchetMessage → IdentityPublicKey → IdentityPublicKey → M E CryptoError bytes;
}.

(** [op] on an endpoint does what the committed [m] does on its session. *)
Definition ep_implements `{Endpoint E} {A} (op : M E CryptoError A) (m : M RatchetSession CryptoError A) : Prop :=
  ∀ e s, ep_view e s → ∃ e', op e = ((m_commit m s).1, e') ∧ ep_view e' (m_commit m s).2.

Class EndpointOk (E : Type) `{!Endpoint E} : Prop := {
  ep_send_ok rng nonce pt a b : ep_implements (ep_send rng nonce pt a b) (encrypt_message rng nonce pt a b);
  ep_receive_ok new_dh m a b : ep_implements (ep_receive new_dh m a b) (session_decrypt new_dh m a b);
  ep_view_pq e s s' : ep_view e s → ep_view e s' → spqr s = spqr s';
}.

(** ** A session in memory *)

#[export] Instance memory_endpoint : Endpoint RatchetSession := {
  ep_view := eq;
  ep_send rng nonce pt a b := m_commit (encrypt_message rng nonce pt a b);
  ep_receive new_dh m a b := m_commit (session_decrypt new_dh m a b);
}.

#[export] Instance memory_endpoint_ok : EndpointOk RatchetSession.
Proof.
  split; [intros ?????? _ <-|intros ????? _ <-|by intros ??? <- <-]; (eexists; split; [apply surjective_pairing|done]).
Qed.

End endpoint.

(** ** A session in a store *)

Section stored.
Import Stores.
Context `{HashesOk} `{X25519} `{Ed25519} `{Aead} `{Kyber} `{ReedSolomon} `{IncKem}.
Context `{Postcard MessageHeader} `{PostcardOk SerializedState}.
Context {S : Type} `{!SessionStore S}.

(** The address of the peer and the store that holds the session with it. *)
Record StoredEnd : Type := mk_stored_end { se_address : ProtocolAddress; se_store : S }.

(** Load the session, run the method, store the session if the method succeeded. *)
Definition stored_call {A} (m : M RatchetSession CryptoError A) : M StoredEnd CryptoError A := λ e,
  match load_session S (se_address e) (se_store e) with
  | Ok (Some record) =>
      match session_deserialize (sr_data record) with
      | Ok s =>
          match m s with
          | (Ok x, s') =>
              match session_serialize s' with
              | Ok data =>
                  match store_session S (se_address e) (mk_session_record data (previous_states record)) (se_store e) with
                  | (Ok _, st) => (Ok x, mk_stored_end (se_address e) st)
                  | (Err err, st) => (Err err, mk_stored_end (se_address e) st)
                  end
              | Err err => (Err err, e)
              end
          | (Err err, _) => (Err err, e)
          end
      | Err err => (Err err, e)
      end
  | Ok None => (Err InvalidSessionState, e)
  | Err err => (Err err, e)
  end.

#[export] Instance stored_endpoint : Endpoint StoredEnd := {
  ep_view e s := session_wf s ∧ holds (se_address e) s (se_store e);
  ep_send rng nonce pt a b := stored_call (encrypt_message rng nonce pt a b);
  ep_receive new_dh m a b := stored_call (session_decrypt new_dh m a b);
}.

Context `{!SessionStoreOk S}.
Hypothesis store_total : ∀ a r st, is_ok (store_session S a r st).1 = true.

Lemma stored_call_implements {A} (m : M RatchetSession CryptoError A) :
  root_blind m → m_rel keeps_wf m → ep_implements (stored_call m) m.
Proof.
  intros Hb Hk [a st] s [Hwf (record & Hl & Hd & Hprev)]. simpl in Hl. unfold stored_call, m_commit. simpl. rewrite Hl, Hd, Hb.
  specialize (Hk s Hwf). destruct (m s) as [[x|err] s']; simpl in *; [|eexists; split; [done|split; [done|by exists record]]].
  destruct (session_reloads (forget_root_id s')) as (data & -> & Hr); [by apply forget_root_id_wf|].
  specialize (store_total a (mk_session_record data (previous_states record)) st).
  destruct (store_session S a _ st) as [[[]|] st'] eqn:Es; [|done].
  eexists. split; [done|]. split; [done|]. eexists.
  split_and!; [simpl; by rewrite (store_session_spec _ _ _ _ _ a Es), decide_True|done|done].
Qed.

Lemma stored_endpoint_ok : EndpointOk StoredEnd.
Proof.
  split.
  - intros. apply stored_call_implements; [apply blind_encrypt_message|apply encrypt_message_keeps].
  - intros. apply stored_call_implements; [apply blind_session_decrypt|apply session_decrypt_keeps].
  - intros [a st] s s' [_ (r & Hr & Hs & _)] [_ (r' & Hr' & Hs' & _)]. simpl in *.
    rewrite Hr in Hr'. injection Hr' as <-. rewrite Hs in Hs'. by injection Hs'.
Qed.

End stored.
