(* ===== verification/Delivery.v ===== *)
(** * Exactly-once delivery over a hostile network

    Two parties whose sessions are kept in endpoints ([Endpoint]) talk over a network that
    delays, reorders, loses and duplicates messages and injects messages of its own
    ([net_step]).  The only thing it cannot do is forge: what a party accepts, its peer
    sent.  Then everything a party reads was written by its peer, once and unaltered;
    what has been sent and not read can still be read; what has been read is refused
    ([delivered]).  The bounds are on what the parties can count themselves: messages
    sent and read, and ratchet keys drawn. *)

From stdpp Require Import functions.
From S2P Require Import Prelude Foundation Interfaces Padding Kdf Keys AeadRecord Erasure Kem.
From S2P Require Import BraidAuth Braid BraidAgreement BraidProgress Spqr SpqrKeys SpqrRetention SpqrAgreement PqFlow.
From S2P Require Import Pqxdh Skipped Ratchet Session EcChain EcRatchet EcJoint Replay Ledger Conversation Endpoint.

Section delivery.
Context `{HashesOk} `{X25519Ok} `{Ed25519Ok} `{AeadOk} `{KyberOk} `{ReedSolomonOk} `{IncKemOk}.
Context `{PostcardOk MessageHeader}.
Context {E : Type} `{!Endpoint E} `{!EndpointOk E}.

(** ** Endpoints and sessions *)

Lemma implements_Ok {A} (op : M E CryptoError A) m e s x e' :
  ep_implements op m → ep_view e s → op e = (Ok x, e') → ∃ s', m s = (Ok x, s') ∧ ep_view e' s'.
Proof.
  intros Hop Hv Hrun. destruct (Hop e s Hv) as (e1 & Hrun' & Hv'). rewrite Hrun in Hrun'. injection Hrun' as Hx ->.
  unfold m_commit in Hx, Hv'. destruct (m s) as [[y|err] s']; [|done]. injection Hx as ->. eauto.
Qed.

Lemma implements_Err {A} (op : M E CryptoError A) m e s x e' :
  ep_implements op m → ep_view e s → op e = (Err x, e') → (m s).1 = Err x ∧ ep_view e' s.
Proof.
  intros Hop Hv Hrun. destruct (Hop e s Hv) as (e1 & Hrun' & Hv'). rewrite Hrun in Hrun'. injection Hrun' as Hx ->.
  unfold m_commit in Hx, Hv'. destruct (m s) as [[y|err] s']; [done|]. by injection Hx as ->.
Qed.

Lemma implements_fst {A} (op : M E CryptoError A) m e s :
  ep_implements op m → ep_view e s → (op e).1 = (m s).1.
Proof.
  intros Hop Hv. destruct (Hop e s Hv) as (e1 & -> & _). unfold m_commit. by destruct (m s) as [[]].
Qed.

(** ** The network *)

(** The endpoints of the initiator ([true]) and the responder; what each has sent, and
    what each has read, with the plaintexts written and returned; the public ratchet
    keys drawn so far. *)
Record Network : Type := mk_net {
  nt_end : bool → E;
  nt_sent : bool → list (RatchetMessage * bytes);
  nt_read : bool → list (RatchetMessage * bytes);
  nt_drawn : list bytes;
}.

(** The calls that succeeded on a party's session. *)
Definition calls (n : Network) (p : bool) : Z := Z.of_nat (length (nt_sent n p) + length (nt_read n p)).

(** Fewer than [MAX_SKIP] messages sent and not read, and few enough calls. *)
Definition net_room (n : Network) (p : bool) : Prop :=
  Z.of_nat (length (nt_sent n p)) < Z.of_nat (length (nt_read n (negb p))) + MAX_SKIP ∧ calls n p < PQ_LIMIT.

Section parties.
Context (id : bool → IdentityPublicKey).

Inductive net_step : Network → Network → Prop :=
| net_send p rng nonce pt out e n :
    net_room n p → length nonce = NONCE_SIZE →
    ep_send rng nonce pt (id p) (id (negb p)) (nt_end n p) = (Ok out, e) →
    net_step n (mk_net (<[p := e]> (nt_end n)) (<[p := (out_message out, pt) :: nt_sent n p]> (nt_sent n))
                  (nt_read n) (nt_drawn n))
| net_receive p new_dh m r e n :
    calls n p < PQ_LIMIT → x25519_public new_dh ∉ nt_drawn n →
    ep_receive new_dh m (id (negb p)) (id p) (nt_end n p) = (r, e) →
    m ∈ (nt_sent n (negb p)).*1 ∨ is_ok r = false →
    net_step n (mk_net (<[p := e]> (nt_end n)) (nt_sent n)
                  (match r with Ok pt => <[p := (m, pt) :: nt_read n p]> (nt_read n) | Err _ => nt_read n end)
                  (x25519_public new_dh :: nt_drawn n)).

(** Both endpoints stand for the sessions of one handshake with secret [ss]. *)
Definition net_start (ss dh_a spk : bytes) (pre : option PqxdhInitialMessage) (n : Network) : Prop :=
  ∃ a, initialize_alice dh_a ss (x25519_public spk) = Ok a
    ∧ ep_view (nt_end n true) (set_pending_prekey pre a)
    ∧ ep_view (nt_end n false) (initialize_bob ss (spk, x25519_public spk))
    ∧ (∀ p, nt_sent n p = [] ∧ nt_read n p = []) ∧ nt_drawn n = [x25519_public dh_a; x25519_public spk].

(** ** The invariant *)

(** The network state stands for the conversation [c]. *)
Record net_inv (ss : bytes) (c : Conversation) (n : Network) : Prop := {
  ni_conv : conv_inv id ss c;
  ni_view p : ep_view (nt_end n p) (cv_session c p);
  ni_perm p : nt_sent n p ≡ₚ nt_read n (negb p) ++ cv_flight c p;
  ni_drawn : cv_publics c = nt_drawn n;
  ni_ledger p : ledger (calls n p) (nt_drawn n) (cv_session c p);
  ni_read p m pt : (m, pt) ∈ nt_read n p → was_read (cv_session c p) m;
  ni_remote p : p = true ∨ nt_read n p ≠ [] → is_Some (dh_remote (cv_session c p));
}.

Lemma conv_inv_publics ss c publics :
  conv_inv id ss c → cv_publics c ⊆ publics → conv_inv id ss (mk_conv (cv_session c) (cv_flight c) publics).
Proof.
  intros [(own & x & y & rest & k & sys & T & ? & ? & ? & ? & Hpub) Hfl] Hsub. split; [|done].
  exists own, x, y, rest, k, sys, T. split_and!; try done. simpl. by etrans.
Qed.

Lemma conv_party ss c p :
  conv_inv id ss c → ∃ secrets, spqr_inv (braid_auth_seed ss) secrets (spqr (cv_session c p)).
Proof.
  intros [(own & x & y & rest & k & sys & T & _ & Hq & Hsp & _) _].
  destruct (pair_party ss sys p (pj_reach _ _ _ _ Hq)) as (Hinv & _). by rewrite Hsp in Hinv.
Qed.

(** The counters of messages in flight fit their field. *)
Lemma conv_flight_counted ss c p m pt h :
  conv_inv id ss c → (m, pt) ∈ cv_flight c p → header_deserialize (header m) = Ok h → in_u32 (pq_message_number h).
Proof.
  intros [(own & x & y & rest & k & sys & T & _ & Hq & _) _] Hin Hh.
  assert (pq_index h ∈ pq_index <$> headers c p) as Hidx.
  { apply list_elem_of_fmap. exists h. split; [done|]. apply list_elem_of_fmap. exists (m, pt). split; [|done].
    unfold msg_header. simpl. by rewrite Hh. }
  destruct (pf_flight _ _ _ _ (pj_flow _ _ _ _ Hq p) _ _ Hidx) as (_ & Hm & _).
  pose proof (pf_range _ _ _ _ (pj_flow _ _ _ _ Hq p) (msg_epoch (braid_msg h) - 1)).
  unfold in_u32, PQ_LIMIT, MAX_SKIP, u32_max in *. lia.
Qed.

Lemma net_inv_start ss dh_a spk pre n :
  x25519_public dh_a ≠ x25519_public spk → net_start ss dh_a spk pre n → ∃ c, net_inv ss c n.
Proof.
  intros Hne (a & Ha & Hva & Hvb & Hnil & Hd).
  set (c := mk_conv (λ p, if p then set_pending_prekey pre a else initialize_bob ss (spk, x25519_public spk))
              (λ _, []) [x25519_public dh_a; x25519_public spk]).
  exists c. split.
  - eapply conv_inv_start; [by exists a|done].
  - by intros [].
  - intros p. destruct (Hnil p) as [-> _], (Hnil (negb p)) as [_ ->]. done.
  - done.
  - intros p. unfold calls. destruct (Hnil p) as [-> ->]. rewrite Hd. destruct p; simpl.
    + eapply ledger_mono; [done| |by apply (ledger_alice dh_a ss (x25519_public spk))].
      intros k [->|[]%elem_of_nil]%elem_of_cons. by left.
    + eapply ledger_mono; [done| |by apply ledger_bob].
      intros k [->|[]%elem_of_nil]%elem_of_cons. by right; left.
  - intros p m pt. destruct (Hnil p) as [_ ->]. by intros ?%elem_of_nil.
  - intros p [->|Hr]; [injection Ha as <-; by eexists|]. destruct (Hnil p) as [_ Hnr]. by rewrite Hnr in Hr.
Qed.

Lemma net_calls_range n p : calls n p < PQ_LIMIT → 0 ≤ calls n p < u32_max.
Proof. unfold calls, PQ_LIMIT, MAX_SKIP. lia. Qed.

Lemma net_sending ss c n p :
  net_inv ss c n → calls n p < PQ_LIMIT → sending (spqr (cv_session c p)) + 1 < u64_max.
Proof.
  intros Hn Hc. destruct (le_pq _ _ _ (ni_ledger _ _ _ Hn p)) as [He _].
  unfold sending, PQ_LIMIT, MAX_SKIP, u32_max, u64_max in *. lia.
Qed.

Lemma net_conv_room ss c n p : net_inv ss c n → net_room n p → conv_room c p.
Proof.
  intros Hn [Hfl Hc]. pose proof (ni_perm _ _ _ Hn p) as Hp%Permutation_length. rewrite length_app in Hp.
  destruct (ni_ledger _ _ _ Hn p) as [[Hnum _ _] [_ Hcnt]]. split_and!; [lia| |].
  - split; [by eapply net_sending|]. intros m Hm. specialize (Hcnt _ m (Z.le_refl _) Hm). lia.
  - intros chain Hch. unfold next_number in Hnum. rewrite Hch in Hnum. pose proof (net_calls_range n p Hc). lia.
Qed.

Context (Hmds : braid_recovers).

Lemma net_send_inv ss c n p rng nonce pt out e :
  net_inv ss c n → net_room n p → length nonce = NONCE_SIZE →
  ep_send rng nonce pt (id p) (id (negb p)) (nt_end n p) = (Ok out, e) →
  ∃ c', net_inv ss c' (mk_net (<[p := e]> (nt_end n)) (<[p := (out_message out, pt) :: nt_sent n p]> (nt_sent n))
                         (nt_read n) (nt_drawn n)).
Proof.
  intros Hn Hroom Hnonce Hsend.
  destruct (implements_Ok _ _ _ _ _ _ (ep_send_ok _ _ _ _ _) (ni_view _ _ _ Hn p) Hsend) as (s' & Henc & Hv).
  destruct (conv_send_ok id Hmds ss c p rng nonce pt (ni_conv _ _ _ Hn) (net_conv_room _ _ _ _ Hn Hroom) Hnonce)
    as (out' & s1 & Henc' & Hc'); [by eapply encrypt_message_chain|].
  rewrite Henc in Henc'. injection Henc' as <- <-. destruct (conv_party ss c p (ni_conv _ _ _ Hn)) as [secrets Hinv].
  destruct Hroom as [_ Hcalls]. pose proof (net_calls_range n p Hcalls) as Hrange.
  destruct (ledger_send _ secrets _ _ _ _ _ _ _ _ _ _ Henc Hinv Hrange (ni_ledger _ _ _ Hn p)) as (Hl & Hkeep & Hrem).
  eexists. split; [exact Hc'|..]; simpl.
  - intros q. destruct (decide (q = p)) as [->|]; [by rewrite !fn_lookup_insert|rewrite !fn_lookup_insert_ne by done; apply Hn].
  - intros q. destruct (decide (q = p)) as [->|]; [|rewrite !fn_lookup_insert_ne by done; apply Hn].
    rewrite !fn_lookup_insert, (ni_perm _ _ _ Hn p). by rewrite Permutation_middle.
  - apply Hn.
  - intros q. unfold calls. simpl. destruct (decide (q = p)) as [->|]; [|rewrite !fn_lookup_insert_ne by done; apply Hn].
    rewrite !fn_lookup_insert. eapply ledger_mono; [|done|exact Hl]. unfold calls. simpl. lia.
  - intros q m' pt' Hin. pose proof (ni_read _ _ _ Hn q m' pt' Hin) as Hr.
    destruct (decide (q = p)) as [->|]; [rewrite fn_lookup_insert; by eapply was_read_mono|by rewrite fn_lookup_insert_ne].
  - intros q Hq. pose proof (ni_remote _ _ _ Hn q Hq) as Hr.
    destruct (decide (q = p)) as [->|]; [rewrite fn_lookup_insert; by rewrite Hrem|by rewrite fn_lookup_insert_ne].
Qed.

(** A receipt that fails changes nothing but the keys drawn. *)
Lemma net_refused_inv ss c n p new_dh e :
  net_inv ss c n → ep_view e (cv_session c p) →
  ∃ c', net_inv ss c' (mk_net (<[p := e]> (nt_end n)) (nt_sent n) (nt_read n) (x25519_public new_dh :: nt_drawn n)).
Proof.
  intros Hn Hv. exists (mk_conv (cv_session c) (cv_flight c) (x25519_public new_dh :: nt_drawn n)). split; simpl.
  - apply conv_inv_publics; [apply Hn|]. rewrite (ni_drawn _ _ _ Hn). by apply list_subseteq_cons.
  - intros q. destruct (decide (q = p)) as [->|]; [by rewrite fn_lookup_insert|rewrite fn_lookup_insert_ne by done; apply Hn].
  - apply Hn.
  - done.
  - intros q. eapply ledger_mono; [| |apply Hn]; [done|by apply list_subseteq_cons].
  - apply Hn.
  - apply Hn.
Qed.

(** What a party reads was in flight, and is what its peer wrote. *)
Lemma net_read_flight ss c n p new_dh m pt e :
  net_inv ss c n → calls n p < PQ_LIMIT → x25519_public new_dh ∉ nt_drawn n → m ∈ (nt_sent n (negb p)).*1 →
  ep_receive new_dh m (id (negb p)) (id p) (nt_end n p) = (Ok pt, e) →
  ∃ l1 l2 s', cv_flight c (negb p) = l1 ++ (m, pt) :: l2
    ∧ session_decrypt new_dh m (id (negb p)) (id p) (cv_session c p) = (Ok pt, s') ∧ ep_view e s'
    ∧ conv_inv id ss (mk_conv (<[p := s']> (cv_session c)) (<[negb p := l1 ++ l2]> (cv_flight c))
                        (dh_self_public s' :: cv_publics c)).
Proof.
  intros Hn Hcalls Hfresh Hsent Hrcv.
  destruct (implements_Ok _ _ _ _ _ _ (ep_receive_ok _ _ _ _) (ni_view _ _ _ Hn p) Hrcv) as (s' & Hdec & Hv).
  destruct (conv_party ss c p (ni_conv _ _ _ Hn)) as [secrets Hinv].
  assert (∃ pt', (m, pt') ∈ cv_flight c (negb p)) as [pt' Hin].
  { rewrite (ni_perm _ _ _ Hn (negb p)), negb_involutive, fmap_app in Hsent.
    apply elem_of_app in Hsent as [([m' pt'] & -> & Hin)%list_elem_of_fmap|([m' pt'] & -> & Hin)%list_elem_of_fmap]; [|eauto].
    apply (ni_read _ _ _ Hn) in Hin.
    pose proof (was_read_refused _ secrets _ _ new_dh m' (id (negb p)) (id p) _ Hin Hinv (net_calls_range n p Hcalls)
      (ni_ledger _ _ _ Hn p)) as Hno. simpl in Hdec. by rewrite Hdec in Hno. }
  apply list_elem_of_split in Hin as (l1 & l2 & Hfl).
  destruct (conv_deliver_ok id Hmds ss c p m pt' l1 l2 new_dh (ni_conv _ _ _ Hn) Hfl (net_sending _ _ _ _ Hn Hcalls))
    as (r & s1 & Hdec' & Hc' & _ & Hor); [by rewrite (ni_drawn _ _ _ Hn)|].
  rewrite Hdec in Hdec'. injection Hdec' as <- <-. destruct Hor as [[= <-]|]; [|done]. by exists l1, l2, s'.
Qed.

Lemma net_receive_inv ss c n p new_dh m pt e :
  net_inv ss c n → calls n p < PQ_LIMIT → x25519_public new_dh ∉ nt_drawn n → m ∈ (nt_sent n (negb p)).*1 →
  ep_receive new_dh m (id (negb p)) (id p) (nt_end n p) = (Ok pt, e) →
  ∃ c', net_inv ss c' (mk_net (<[p := e]> (nt_end n)) (nt_sent n) (<[p := (m, pt) :: nt_read n p]> (nt_read n))
                         (x25519_public new_dh :: nt_drawn n)).
Proof.
  intros Hn Hcalls Hfresh Hsent Hrcv.
  destruct (net_read_flight ss c n p new_dh m pt e Hn Hcalls Hfresh Hsent Hrcv) as (l1 & l2 & s' & Hfl & Hdec & Hv & Hc').
  destruct (conv_party ss c p (ni_conv _ _ _ Hn)) as [secrets Hinv].
  destruct (ledger_receive _ secrets _ (nt_drawn n) _ _ _ _ _ _ _ Hdec Hinv (net_calls_range n p Hcalls)) as (Hl & Hkeep & Hread & _ & Hrem).
  { intros h Hh. eapply (conv_flight_counted ss c (negb p) m pt h); [apply Hn| |done]. rewrite Hfl. apply elem_of_app. right. by left. }
  { apply Hn. }
  eexists. split; [apply (conv_inv_publics _ _ (x25519_public new_dh :: nt_drawn n) Hc')|..]; simpl.
  - intros k [->|Hk]%elem_of_cons; [apply Hl|]. rewrite (ni_drawn _ _ _ Hn) in Hk. by right.
  - intros q. destruct (decide (q = p)) as [->|]; [by rewrite !fn_lookup_insert|rewrite !fn_lookup_insert_ne by done; apply Hn].
  - intros q. destruct (decide (q = negb p)) as [->|Hq].
    + rewrite negb_involutive, !fn_lookup_insert, (ni_perm _ _ _ Hn (negb p)), negb_involutive, Hfl. simpl.
      by rewrite <-!Permutation_middle.
    + rewrite !fn_lookup_insert_ne by (by destruct p, q). apply Hn.
  - done.
  - intros q. unfold calls. simpl. destruct (decide (q = p)) as [->|].
    + rewrite !fn_lookup_insert. eapply ledger_mono; [|done|exact Hl]. unfold calls. simpl. lia.
    + rewrite !fn_lookup_insert_ne by done. eapply ledger_mono; [| |apply Hn]; [done|by apply list_subseteq_cons].
  - intros q m' pt' Hin. destruct (decide (q = p)) as [->|]; [|rewrite fn_lookup_insert_ne in Hin by done;
      rewrite fn_lookup_insert_ne by done; by eapply Hn].
    rewrite fn_lookup_insert in Hin. rewrite fn_lookup_insert. apply elem_of_cons in Hin as [[= -> ->]|Hin]; [done|].
    eapply was_read_mono; [done|by eapply Hn].
  - intros q Hq. destruct (decide (q = p)) as [->|]; [by rewrite fn_lookup_insert|].
    rewrite fn_lookup_insert_ne in Hq by done. rewrite fn_lookup_insert_ne by done. by apply Hn.
Qed.

Lemma net_reachable_inv ss dh_a spk pre n0 n :
  x25519_public dh_a ≠ x25519_public spk → net_start ss dh_a spk pre n0 → rtc net_step n0 n → ∃ c, net_inv ss c n.
Proof.
  intros Hne Hst Hr. revert n Hr. apply (rtc_ind_r (λ n, ∃ c, net_inv ss c n)); [by eapply net_inv_start|].
  intros n n' _ Hstep [c Hc]. destruct Hstep as [p rng nonce pt out e n Hroom Hnonce Hs|p new_dh m [pt|err] e n Hcalls Hfr Hrcv Hsent].
  - by eapply net_send_inv.
  - destruct Hsent as [Hsent|]; [|done]. by eapply net_receive_inv.
  - eapply net_refused_inv; [done|].
    by destruct (implements_Err _ _ _ _ _ _ (ep_receive_ok _ _ _ _) (ni_view _ _ _ Hc p) Hrcv).
Qed.

(** ** What is promised *)

(** The post-quantum epoch of a message is at most two behind that of party [p]. *)
Definition in_window (n : Network) (p : bool) (m : RatchetMessage) : Prop :=
  ∃ s h, ep_view (nt_end n p) s ∧ header_deserialize (header m) = Ok h ∧ epoch (spqr s) ≤ msg_epoch (braid_msg h) + 1.

Lemma net_unread ss c n p m pt new_dh :
  net_inv ss c n → calls n p < PQ_LIMIT → x25519_public new_dh ∉ nt_drawn n →
  (m, pt) ∈ cv_flight c (negb p) → in_window n p m →
  (ep_receive new_dh m (id (negb p)) (id p) (nt_end n p)).1 = Ok pt.
Proof.
  intros Hn Hcalls Hfr (l1 & l2 & Hfl)%list_elem_of_split (s & h & Hv & Hh & Hep).
  rewrite (implements_fst _ _ _ _ (ep_receive_ok _ _ _ _) (ni_view _ _ _ Hn p)).
  destruct (conv_deliver_ok id Hmds ss c p m pt l1 l2 new_dh (ni_conv _ _ _ Hn) Hfl (net_sending _ _ _ _ Hn Hcalls))
    as (r & s1 & -> & _ & Hok & _); [by rewrite (ni_drawn _ _ _ Hn)|].
  apply Hok. unfold msg_header. rewrite Hh, <-(ep_view_pq _ _ _ Hv (ni_view _ _ _ Hn p)). simpl. lia.
Qed.

Lemma net_replay ss c n p m pt new_dh :
  net_inv ss c n → calls n p < PQ_LIMIT → (m, pt) ∈ nt_read n p →
  is_ok (ep_receive new_dh m (id (negb p)) (id p) (nt_end n p)).1 = false.
Proof.
  intros Hn Hcalls Hin. rewrite (implements_fst _ _ _ _ (ep_receive_ok _ _ _ _) (ni_view _ _ _ Hn p)).
  destruct (conv_party ss c p (ni_conv _ _ _ Hn)) as [secrets Hinv].
  eapply was_read_refused; [by eapply Hn|done|by apply net_calls_range|apply Hn].
Qed.

Lemma net_sendable ss c n p rng nonce pt :
  net_inv ss c n → net_room n p → p = true ∨ nt_read n p ≠ [] → length nonce = NONCE_SIZE →
  is_ok (ep_send rng nonce pt (id p) (id (negb p)) (nt_end n p)).1 = true.
Proof.
  intros Hn Hroom Hp Hnonce. rewrite (implements_fst _ _ _ _ (ep_send_ok _ _ _ _ _) (ni_view _ _ _ Hn p)).
  pose proof (conv_inv_chain id ss c p (ni_conv _ _ _ Hn) (ni_remote _ _ _ Hn p Hp)) as Hch.
  by destruct (conv_send_ok id Hmds ss c p rng nonce pt (ni_conv _ _ _ Hn) (net_conv_room _ _ _ _ Hn Hroom) Hnonce Hch)
    as (out & s' & -> & _).
Qed.

End parties.

Context `{!MontgomeryOk}.

(** C1. Exactly-once delivery, from the published bundle on, whatever the network does short
    of forging.  Both sides process the handshake and keep the session in an endpoint.
    In every state they reach, for either party: what it has read is what its peer wrote,
    each message at most once; every other message its peer sent, of a post-quantum
    epoch at most two behind, can be received now and gives what was written; every
    message it has read is refused; and once it has read anything (the initiator: from
    the start) it can send, while fewer than [MAX_SKIP] of its messages are unread, lost
    ones included ([net_room]). *)
Theorem exactly_once_delivery (alice bob : IdentityKeyPair) (spk : bytes) (opk : option (PreKeyId * bytes))
    (kyber_seed eph r dh_a : bytes) reg dev sid kid lr :
  braid_recovers → x25519_public dh_a ≠ x25519_public spk →
  let id (p : bool) := public_key (if p then alice else bob) in
  let bundle := published (mk_responder bob spk opk (dk_from_seed_bytes kyber_seed)) reg dev sid kid lr in
  ∃ out a ss,
    process_prekey_bundle eph r alice bundle = Ok out
    ∧ initialize_alice_with_prekey dh_a (shared_secret out) (signed_pre_key_public bundle) (initial_message out) = Ok a
    ∧ process_initial_message bob spk (snd <$> opk) (dk_from_seed_bytes kyber_seed) (initial_message out) = Ok ss
    ∧ ∀ ends n p,
        ep_view (ends true) a → ep_view (ends false) (initialize_bob ss (spk, x25519_public spk)) →
        rtc (net_step id) (mk_net ends (λ _, []) (λ _, []) [x25519_public dh_a; x25519_public spk]) n →
        ∃ unread, nt_sent n (negb p) ≡ₚ nt_read n p ++ unread
          ∧ (calls n p < PQ_LIMIT → ∀ new_dh, x25519_public new_dh ∉ nt_drawn n →
              (∀ m pt, (m, pt) ∈ unread → in_window n p m →
                 (ep_receive new_dh m (id (negb p)) (id p) (nt_end n p)).1 = Ok pt)
              ∧ ∀ m pt, (m, pt) ∈ nt_read n p →
                 is_ok (ep_receive new_dh m (id (negb p)) (id p) (nt_end n p)).1 = false)
          ∧ (net_room n p → p = true ∨ nt_read n p ≠ [] → ∀ rng nonce pt, length nonce = NONCE_SIZE →
              is_ok (ep_send rng nonce pt (id p) (id (negb p)) (nt_end n p)).1 = true).
Proof.
  intros Hmds Hne id bundle.
  destruct (pqxdh_agrees (mk_responder bob spk opk (dk_from_seed_bytes kyber_seed)) alice eph r reg dev sid kid lr)
    as (out & Hout & Hresp & _). fold bundle in Hout.
  destruct (initialize_alice dh_a (shared_secret out) (x25519_public spk)) as [a|] eqn:Ha; [|done].
  exists out, (set_pending_prekey (Some (initial_message out)) a), (shared_secret out).
  split_and!; [exact Hout| |exact Hresp|].
  { unfold initialize_alice_with_prekey. change (signed_pre_key_public bundle) with (x25519_public spk). by rewrite Ha. }
  intros ends n p Hva Hvb Hr.
  assert (net_start (shared_secret out) dh_a spk (Some (initial_message out))
            (mk_net ends (λ _, []) (λ _, []) [x25519_public dh_a; x25519_public spk])) as Hst by (exists a; by split_and!).
  destruct (net_reachable_inv id Hmds _ _ _ _ _ n Hne Hst Hr) as [c Hc].
  exists (cv_flight c (negb p)). split_and!.
  - rewrite (ni_perm _ _ _ _ Hc (negb p)). by rewrite negb_involutive.
  - intros Hcalls new_dh Hfr. split; intros m pt Hin; [intros Hw; by eapply net_unread|by eapply net_replay].
  - intros Hroom Hp rng nonce pt Hnonce. by eapply net_sendable.
Qed.

End delivery.
