(* ===== verification/SenderKey.v ===== *)
(** * Group messaging with sender keys

    Models [src/protocol/sender_key/mod.rs] and [distribution.rs]: the hash-ratcheted
    chain of a group member, its distribution, and group encryption and decryption with
    signatures or HMAC tags.  The chain seed, the signing seed and the AEAD nonce are
    arguments of the operations that draw them. *)

From S2P Require Import Prelude Foundation Interfaces Kdf Keys AeadRecord.

Inductive SenderKeyAuth : Type := Hmac | Signed.

#[export] Instance sender_key_auth_eq_dec : EqDecision SenderKeyAuth.
Proof. solve_decision. Defined.

Record SenderKeyState : Type := mk_sender_key {
  chain_key : bytes;
  iteration : Z;
  is_sender : bool;
  auth_mode : SenderKeyAuth;
  signing_public : option bytes;
  signing_private : option bytes;
  skipped_message_keys : list (Z * bytes);
}.

Definition default_auth_mode : SenderKeyAuth := Signed.

Record SenderKeyDistributionMessage : Type := mk_distribution {
  d_group_id : bytes;
  d_chain_key : bytes;
  d_iteration : Z;
  d_signing_key : option bytes;
}.

Inductive MessageAuth : Type :=
| TagHmac (mac : bytes)
| TagSignature (signature : bytes).

Record SenderKeyMessage : Type := mk_sender_key_message {
  group_id : bytes;
  m_iteration : Z;
  m_ciphertext : bytes;
  m_auth : MessageAuth;
}.

(** The limit on skipped keys and on the gap of one message. *)
Definition SKIP_LIMIT : Z := 2000.

Definition set_skipped (l : list (Z * bytes)) (s : SenderKeyState) : SenderKeyState :=
  mk_sender_key (chain_key s) (iteration s) (is_sender s) (auth_mode s) (signing_public s) (signing_private s) l.
Definition set_chain (ck : bytes) (it : Z) (s : SenderKeyState) : SenderKeyState :=
  mk_sender_key ck it (is_sender s) (auth_mode s) (signing_public s) (signing_private s) (skipped_message_keys s).

Definition from_distribution (msg : SenderKeyDistributionMessage) : SenderKeyState :=
  mk_sender_key (d_chain_key msg) (d_iteration msg) false
    (match d_signing_key msg with Some _ => Signed | None => Hmac end)
    (d_signing_key msg) None [].

(** [.iter().position(..)] and [.remove(pos)]. *)
Fixpoint take_key (it : Z) (l : list (Z * bytes)) : option (bytes * list (Z * bytes)) :=
  match l with
  | [] => None
  | (i, mk) :: l =>
      if bool_decide (i = it) then Some (mk, l)
      else match take_key it l with
           | Some (mk', l') => Some (mk', (i, mk) :: l')
           | None => None
           end
  end.

(** The loop pushing the skipped keys [keys], the first of iteration [it], while there is
    room. *)
Fixpoint push_skipped (it : Z) (keys : list bytes) (l : list (Z * bytes)) : list (Z * bytes) :=
  match keys with
  | [] => l
  | mk :: keys =>
      push_skipped (it + 1) keys
        (if bool_decide (Z.of_nat (length l) < SKIP_LIMIT) then l ++ [(it, mk)] else l)
  end.

Definition authenticated_data (group_id : bytes) (it : Z) (ct : bytes) : bytes :=
  group_id ++ be_bytes 4 it ++ ct.

Section sender_key.
Context `{Hashes} `{Ed25519} `{Aead}.

Definition hmac_derive (key : bytes) (b : byte) : bytes := hmac_sha256 key [b].
Definition hmac_authenticate (key data : bytes) : bytes := hmac_sha256 key data.

(** The loop of [derive_message_key]: the keys of [k] iterations and the chain key after. *)
Fixpoint derive_loop (k : nat) (ck : bytes) (skipped : list bytes) : list bytes * bytes :=
  match k with
  | O => (skipped, ck)
  | S k => derive_loop k (hmac_derive ck x02) (skipped ++ [hmac_derive ck x01])
  end.

Definition derive_message_key (s : SenderKeyState) (at_iteration : Z) : result (list bytes * bytes) :=
  if bool_decide (at_iteration < iteration s) then Err DuplicateMessage
  else
    let gap := at_iteration - iteration s in
    if bool_decide (SKIP_LIMIT < gap) then Err (MaxSkipExceeded gap SKIP_LIMIT)
    else
      let '(skipped, ck) := derive_loop (Z.to_nat gap) (chain_key s) [] in
      Ok (skipped, hmac_derive ck x01).

(** The chain key [k] steps ahead. *)
Definition chain_ahead (k : nat) (ck : bytes) : bytes := Nat.iter k (λ c, hmac_derive c x02) ck.

Definition hmac_auth_key (s : SenderKeyState) (it : Z) : result bytes :=
  if bool_decide (it = iteration s) then Ok (hmac_derive (chain_key s) x03)
  else if bool_decide (iteration s < it) then
    let gap := it - iteration s in
    if bool_decide (SKIP_LIMIT < gap) then Err (MaxSkipExceeded gap SKIP_LIMIT)
    else Ok (hmac_derive (chain_ahead (Z.to_nat gap) (chain_key s)) x03)
  else Err DuplicateMessage.

Definition verify_hmac (s : SenderKeyState) (it : Z) (auth_data mac : bytes) : result () :=
  auth_key ← hmac_auth_key s it;
  let expected := hmac_authenticate auth_key auth_data in
  if bool_decide (length mac = 32%nat) then
    if bool_decide (expected = mac) then Ok () else Err InvalidSignature
  else Err InvalidSignature.

Definition create_sender_key_distribution_message (chain_rng seed_rng group_id : bytes) (auth : SenderKeyAuth)
    : SenderKeyState * SenderKeyDistributionMessage :=
  let '(sk, pk) :=
    match auth with
    | Signed =>
        let keypair := identity_generate seed_rng in
        (Some (seed keypair), Some (as_bytes (public_key keypair)))
    | Hmac => (None, None)
    end in
  (mk_sender_key chain_rng 0 true auth pk sk [], mk_distribution group_id chain_rng 0 pk).

Definition distribution_message_for_existing (s : SenderKeyState) (group_id : bytes)
    : SenderKeyDistributionMessage :=
  mk_distribution group_id (chain_key s) (iteration s) (signing_public s).

Definition process_sender_key_distribution_message (sender : ProtocolAddress)
    (msg : SenderKeyDistributionMessage) : SenderKeyState := from_distribution msg.

Definition make_auth (s : SenderKeyState) (auth_data : bytes) : result MessageAuth :=
  match auth_mode s with
  | Signed =>
      sk ← ok_or (signing_private s) MissingSenderKey;
      Ok (TagSignature (identity_sign (identity_from_seed sk) auth_data))
  | Hmac =>
      let auth_key := hmac_derive (chain_key s) x03 in
      Ok (TagHmac (hmac_authenticate auth_key auth_data))
  end.

Definition group_encrypt (nonce gid plaintext : bytes) : M SenderKeyState CryptoError SenderKeyMessage := λ s,
  if negb (is_sender s) then (Err MissingSenderKey, s)
  else
    let mk := hmac_derive (chain_key s) x01 in
    match encrypt nonce mk plaintext gid with
    | Err e => (Err e, s)
    | Ok ct =>
        let it := iteration s in
        match make_auth s (authenticated_data gid it ct) with
        | Err e => (Err e, s)
        | Ok auth =>
            (Ok (mk_sender_key_message gid it ct auth),
             set_chain (hmac_derive (chain_key s) x02) (add_u32 it 1) s)
        end
    end.

(** The authentication at the head of [group_decrypt]. *)
Definition check_auth (s : SenderKeyState) (m : SenderKeyMessage) : result () :=
  let auth_data := authenticated_data (group_id m) (m_iteration m) (m_ciphertext m) in
  match auth_mode s, m_auth m with
  | Signed, TagSignature signature =>
      public ← ok_or (signing_public s) InvalidSignature;
      pk ← identity_public_from_bytes public;
      identity_verify pk auth_data signature
  | Hmac, TagHmac mac => verify_hmac s (m_iteration m) auth_data mac
  | _, _ => Err InvalidSignature
  end.

(** [for _ in state.iteration..=message.iteration { .. }]. *)
Fixpoint advance_chain (k : nat) (s : SenderKeyState) : SenderKeyState :=
  match k with
  | O => s
  | S k => advance_chain k (set_chain (hmac_derive (chain_key s) x02) (add_u32 (iteration s) 1) s)
  end.

Definition group_decrypt (m : SenderKeyMessage) : M SenderKeyState CryptoError bytes := λ s,
  match check_auth s m with
  | Err e => (Err e, s)
  | Ok _ =>
      match take_key (m_iteration m) (skipped_message_keys s) with
      | Some (mk, rest) => (decrypt mk (m_ciphertext m) (group_id m), set_skipped rest s)
      | None =>
          match derive_message_key s (m_iteration m) with
          | Err e => (Err e, s)
          | Ok (skipped, mk) =>
              match decrypt mk (m_ciphertext m) (group_id m) with
              | Err e => (Err e, s)
              | Ok plaintext =>
                  let s1 := set_skipped (push_skipped (iteration s) skipped (skipped_message_keys s)) s in
                  (Ok plaintext, advance_chain (Z.to_nat (m_iteration m - iteration s + 1)) s1)
              end
          end
      end
  end.

End sender_key.

(** ** The chain *)

Section chain.
Context `{Hashes}.

(** The message key of iteration [i] of the chain that starts at [ck0]. *)
Definition group_key (ck0 : bytes) (i : Z) : bytes := hmac_derive (chain_ahead (Z.to_nat i) ck0) x01.

Lemma chain_ahead_S k ck : chain_ahead (S k) ck = hmac_derive (chain_ahead k ck) x02.
Proof. done. Qed.

Lemma chain_ahead_shift k ck : chain_ahead k (hmac_derive ck x02) = chain_ahead (S k) ck.
Proof. induction k as [|k IH]; [done|]. by rewrite chain_ahead_S, IH. Qed.

Lemma chain_ahead_add j k ck : chain_ahead j (chain_ahead k ck) = chain_ahead (j + k) ck.
Proof. induction j as [|j IH]; [done|]. by rewrite chain_ahead_S, IH. Qed.

Lemma derive_loop_spec k : ∀ ck acc,
  derive_loop k ck acc
  = (acc ++ ((λ j, hmac_derive (chain_ahead j ck) x01) <$> seq 0 k), chain_ahead k ck).
Proof.
  induction k as [|k IH]; intros ck acc; simpl; [by rewrite app_nil_r|].
  rewrite IH, chain_ahead_shift, <-app_assoc. simpl. f_equal. f_equal. f_equal.
  rewrite <-fmap_S_seq, <-list_fmap_compose. apply list_fmap_ext. intros i x _. simpl.
  by rewrite chain_ahead_shift.
Qed.

Lemma advance_chain_spec k : ∀ s,
  0 ≤ iteration s → iteration s + Z.of_nat k ≤ u32_max →
  advance_chain k s = set_chain (chain_ahead k (chain_key s)) (iteration s + Z.of_nat k) s.
Proof.
  induction k as [|k IH]; intros s Hpos Hmax; simpl.
  - rewrite Z.add_0_r. by destruct s.
  - rewrite add_u32_small by lia. rewrite IH by (simpl; lia). simpl.
    rewrite chain_ahead_shift, chain_ahead_S. unfold set_chain. simpl. f_equal. lia.
Qed.

(** The keys of a successful derivation from a state on the chain. *)
Lemma derive_message_key_spec s ck0 i :
  0 ≤ iteration s → chain_key s = chain_ahead (Z.to_nat (iteration s)) ck0 →
  iteration s ≤ i ≤ iteration s + SKIP_LIMIT →
  derive_message_key s i = Ok (group_key ck0 <$> seqZ (iteration s) (i - iteration s), group_key ck0 i).
Proof.
  intros Hpos Hck Hi. unfold derive_message_key.
  rewrite !bool_decide_eq_false_2 by lia. rewrite derive_loop_spec, Hck. simpl.
  rewrite chain_ahead_add, <-Z2Nat.inj_add by lia. replace (i - iteration s + iteration s) with i by lia.
  f_equal. f_equal. unfold seqZ. rewrite <-list_fmap_compose. apply list_fmap_ext. intros j x _. simpl.
  unfold group_key. rewrite chain_ahead_add. do 2 f_equal. lia.
Qed.

End chain.

(** ** Lists of skipped keys *)

Lemma take_key_Some it l mk l' :
  take_key it l = Some (mk, l') → (it, mk) ∈ l ∧ l ≡ₚ (it, mk) :: l'.
Proof.
  revert l'. induction l as [|[i k] l IH]; intros l' Ht; simpl in Ht; [done|].
  case_bool_decide as Hi; [simplify_eq; split; [by left|done]|].
  destruct (take_key it l) as [[mk' l1]|]; [|done]. simplify_eq.
  destruct (IH l1 eq_refl) as [Hin Hp]. split; [by right|]. rewrite Hp. apply Permutation_swap.
Qed.

Lemma take_key_None it l : take_key it l = None ↔ it ∉ l.*1.
Proof.
  induction l as [|[i k] l IH]; simpl; [split; [by intros _ ?%elem_of_nil|done]|].
  rewrite not_elem_of_cons, <-IH. case_bool_decide as Hi; [by split; [|intros [? _]]|].
  destruct (take_key it l) as [[??]|]; split; try done; by intros [_ ?].
Qed.

(** The keys of [k] consecutive iterations are appended as far as there is room. *)
Lemma push_skipped_spec (f : Z → bytes) n : ∀ it l,
  push_skipped it (f <$> seqZ it (Z.of_nat n)) l
  = l ++ ((λ j, (j, f j)) <$> seqZ it (Z.min (Z.of_nat n) (SKIP_LIMIT - Z.of_nat (length l)))).
Proof.
  induction n as [|n IH]; intros it l.
  - rewrite (seqZ_nil it (Z.min _ _)) by lia. simpl. by rewrite app_nil_r.
  - rewrite (seqZ_cons it (Z.of_nat (S n))) by lia. rewrite fmap_cons. cbn [push_skipped].
    change (Z.succ it) with (it + 1). replace (Z.pred (Z.of_nat (S n))) with (Z.of_nat n) by lia. rewrite IH.
    case_bool_decide as Hl.
    + rewrite (seqZ_cons it) by lia. rewrite fmap_cons, length_app, <-app_assoc. simpl.
      do 4 f_equal. lia.
    + by rewrite !seqZ_nil by lia.
Qed.

Lemma push_skipped_bound keys : ∀ it l,
  Z.of_nat (length l) ≤ SKIP_LIMIT → Z.of_nat (length (push_skipped it keys l)) ≤ SKIP_LIMIT.
Proof.
  induction keys as [|mk keys IH]; intros it l Hl; simpl; [done|]. apply IH.
  case_bool_decide; [rewrite length_app; simpl; lia|done].
Qed.

Lemma take_key_length it l mk l' : take_key it l = Some (mk, l') → length l = S (length l').
Proof. intros [_ Hp]%take_key_Some. by rewrite Hp. Qed.

(** ** A receiver on a chain *)

Section delivery.
Context `{Hashes} `{Ed25519} `{Aead}.

(** The tag of a message verifies: under the signing key, or at its iteration of the
    chain [ck0]. *)
Definition authentic (mode : SenderKeyAuth) (pk : IdentityPublicKey) (ck0 : bytes) (m : SenderKeyMessage) : Prop :=
  let data := authenticated_data (group_id m) (m_iteration m) (m_ciphertext m) in
  match mode, m_auth m with
  | Signed, TagSignature signature => identity_verify pk data signature = Ok ()
  | Hmac, TagHmac mac =>
      mac = hmac_authenticate (hmac_derive (chain_ahead (Z.to_nat (m_iteration m)) ck0) x03) data
  | _, _ => False
  end.

(** A message of iteration [i] as the chain's owner makes it. *)
Record genuine (mode : SenderKeyAuth) (pk : IdentityPublicKey) (ck0 gid : bytes) (i : Z) (pt : bytes)
    (m : SenderKeyMessage) : Prop := {
  ge_iteration : m_iteration m = i;
  ge_group : group_id m = gid;
  ge_auth : authentic mode pk ck0 m;
  ge_decrypt : decrypt (group_key ck0 i) (m_ciphertext m) gid = Ok pt;
}.

(** A receiver that has moved to iteration [next] and keeps the keys of the iterations
    [waiting], which it has passed over and not decrypted. *)
Record receiver_ok (mode : SenderKeyAuth) (pk : IdentityPublicKey) (ck0 : bytes) (next : Z) (waiting : gset Z)
    (r : SenderKeyState) : Prop := {
  ro_mode : auth_mode r = mode;
  ro_public : mode = Signed → signing_public r = Some (as_bytes pk);
  ro_next : iteration r = next;
  ro_pos : 0 ≤ next;
  ro_chain : chain_key r = chain_ahead (Z.to_nat next) ck0;
  ro_nodup : NoDup (skipped_message_keys r).*1;
  ro_keys i mk : (i, mk) ∈ skipped_message_keys r → mk = group_key ck0 i;
  ro_dom : list_to_set (skipped_message_keys r).*1 = waiting;
  ro_behind i : i ∈ waiting → 0 ≤ i < next;
}.

(** The iterations from [next] up to [i] whose keys still fit. *)
Definition stored_range (next i : Z) (waiting : gset Z) : gset Z :=
  list_to_set (seqZ next (Z.min (i - next) (SKIP_LIMIT - Z.of_nat (size waiting)))).

Lemma receiver_stored mode pk ck0 next w r i :
  receiver_ok mode pk ck0 next w r → i ∈ (skipped_message_keys r).*1 ↔ i ∈ w.
Proof. intros Hr. by rewrite <-(ro_dom _ _ _ _ _ _ Hr), elem_of_list_to_set. Qed.

Lemma receiver_size mode pk ck0 next w r :
  receiver_ok mode pk ck0 next w r → length (skipped_message_keys r) = size w.
Proof.
  intros Hr. rewrite <-(ro_dom _ _ _ _ _ _ Hr), size_list_to_set by apply Hr. by rewrite length_fmap.
Qed.

(** A message whose key was kept: the key is used up. *)
Lemma decrypt_late mode pk ck0 gid next w r i pt m :
  receiver_ok mode pk ck0 next w r → genuine mode pk ck0 gid i pt m → check_auth r m = Ok () → i ∈ w →
  ∃ r', group_decrypt m r = (Ok pt, r') ∧ receiver_ok mode pk ck0 next (w ∖ {[i]}) r'.
Proof.
  intros Hr [Hit Hg _ Hdec] Hc Hi. unfold group_decrypt. rewrite Hc, Hit.
  destruct (take_key i (skipped_message_keys r)) as [[mk rest]|] eqn:Et.
  2:{ apply take_key_None in Et. destruct Et. by apply (receiver_stored _ _ _ _ _ _ _ Hr). }
  apply take_key_Some in Et as [Hin Hp].
  rewrite (ro_keys _ _ _ _ _ _ Hr _ _ Hin), Hg, Hdec. eexists. split; [done|].
  pose proof (ro_nodup _ _ _ _ _ _ Hr) as Hnd. rewrite Hp in Hnd. simpl in Hnd. apply list.NoDup_cons in Hnd as [Hni Hnd].
  pose proof (λ j, receiver_stored _ _ _ _ _ _ j Hr) as Hst.
  destruct Hr as [H1' H2' H3' H4' H5' H6' H7' H8' H9']. split; simpl; try done.
  - intros j mk' Hj. apply H7'. rewrite Hp. by right.
  - apply set_eq. intros j. rewrite elem_of_list_to_set, elem_of_difference, elem_of_singleton, <-Hst, Hp. simpl.
    rewrite elem_of_cons. split; [intros Hj; split; [by right|by intros ->]|by intros [[->|?] ?]].
  - intros j [? _]%elem_of_difference. by apply H9'.
Qed.

(** A message at or ahead of the chain: the keys passed over are kept while they fit. *)
Lemma decrypt_ahead mode pk ck0 gid next w r i pt m :
  receiver_ok mode pk ck0 next w r → genuine mode pk ck0 gid i pt m → check_auth r m = Ok () →
  next ≤ i ≤ next + SKIP_LIMIT → i < u32_max →
  ∃ r', group_decrypt m r = (Ok pt, r') ∧ receiver_ok mode pk ck0 (i + 1) (w ∪ stored_range next i w) r'.
Proof.
  intros Hr [Hit Hg _ Hdec] Hc Hi Hmax. pose proof (receiver_size _ _ _ _ _ _ Hr) as Hsz.
  unfold group_decrypt. rewrite Hc, Hit. rewrite (proj2 (take_key_None i _)).
  2:{ rewrite (receiver_stored _ _ _ _ _ _ _ Hr). intros ?%(ro_behind _ _ _ _ _ _ Hr). lia. }
  destruct Hr as [H1' H2' H3' H4' H5' H6' H7' H8' H9'].
  rewrite (derive_message_key_spec r ck0 i), H3' by (rewrite H3'; done || lia). rewrite Hg, Hdec.
  eexists. split; [done|]. pose proof (push_skipped_spec (group_key ck0) (Z.to_nat (i - next)) next (skipped_message_keys r)) as Hpush.
  rewrite Hsz, Z2Nat.id in Hpush by lia. rewrite Hpush.
  rewrite advance_chain_spec by (simpl; lia). simpl. rewrite H3'.
  set (k := Z.min (i - next) (SKIP_LIMIT - Z.of_nat (size w))).
  assert ((((λ j, (j, group_key ck0 j)) <$> seqZ next k) : list (Z * bytes)).*1 = seqZ next k) as Hnew
    by (rewrite <-list_fmap_compose; apply list_fmap_id).
  split; simpl; try done; [lia|lia|..].
  - rewrite H5', chain_ahead_add. f_equal. lia.
  - rewrite fmap_app, Hnew. apply list.NoDup_app. split_and!; [done| |apply NoDup_seqZ].
    intros j Hj ?%elem_of_seqZ. assert (j ∈ w) as ?%H9' by (rewrite <-H8'; by apply elem_of_list_to_set). lia.
  - intros j mk [Hj|Hj]%elem_of_app; [by apply H7'|]. by apply list_elem_of_fmap in Hj as (x & [= -> ->] & _).
  - by rewrite fmap_app, Hnew, list_to_set_app_L, H8'.
  - intros j [Hj|Hj]%elem_of_union; [apply H9' in Hj; lia|].
    unfold stored_range in Hj. fold k in Hj. apply elem_of_list_to_set, elem_of_seqZ in Hj. lia.
Qed.

(** A message behind the chain whose key is not kept is refused and changes nothing. *)
Lemma decrypt_behind mode pk ck0 next w r m :
  receiver_ok mode pk ck0 next w r → check_auth r m = Ok () → m_iteration m ∉ w → m_iteration m < next →
  group_decrypt m r = (Err DuplicateMessage, r).
Proof.
  intros Hr Hc Hw Hi. unfold group_decrypt. rewrite Hc.
  rewrite (proj2 (take_key_None _ _)) by (by rewrite (receiver_stored _ _ _ _ _ _ _ Hr)).
  unfold derive_message_key. by rewrite (ro_next _ _ _ _ _ _ Hr), bool_decide_eq_true_2.
Qed.

(** So is a message too far ahead. *)
Lemma decrypt_far mode pk ck0 next w r m :
  receiver_ok mode pk ck0 next w r → check_auth r m = Ok () → next + SKIP_LIMIT < m_iteration m →
  group_decrypt m r = (Err (MaxSkipExceeded (m_iteration m - next) SKIP_LIMIT), r).
Proof.
  intros Hr Hc Hi. assert (0 < SKIP_LIMIT) as Hlim by done. unfold group_decrypt. rewrite Hc.
  rewrite (proj2 (take_key_None _ _)).
  2:{ rewrite (receiver_stored _ _ _ _ _ _ _ Hr). intros ?%(ro_behind _ _ _ _ _ _ Hr). lia. }
  unfold derive_message_key. rewrite (ro_next _ _ _ _ _ _ Hr), bool_decide_eq_false_2, bool_decide_eq_true_2 by lia. done.
Qed.

(** What a signed receiver accepts. *)
Lemma check_auth_signed `{!Ed25519Ok} pk ck0 next w r m :
  receiver_ok Signed pk ck0 next w r → check_auth r m = Ok () ↔ authentic Signed pk ck0 m.
Proof.
  intros Hr. unfold check_auth, authentic. rewrite (ro_mode _ _ _ _ _ _ Hr), (ro_public _ _ _ _ _ _ Hr) by done.
  destruct (m_auth m) as [mac|sg]; [done|]. simpl. by rewrite identity_public_roundtrip.
Qed.

(** What an HMAC receiver accepts: at most [SKIP_LIMIT] ahead, the tags of the chain. *)
Lemma check_auth_hmac `{!HashesOk} pk ck0 next w r m :
  receiver_ok Hmac pk ck0 next w r → next ≤ m_iteration m ≤ next + SKIP_LIMIT →
  check_auth r m = Ok () ↔ authentic Hmac pk ck0 m.
Proof.
  intros [Hmode _ Hnext Hpos Hck _ _ _ _] Hi. unfold check_auth, authentic. rewrite Hmode.
  destruct (m_auth m) as [mac|sg]; [|done]. unfold verify_hmac.
  assert (hmac_auth_key r (m_iteration m) = Ok (hmac_derive (chain_ahead (Z.to_nat (m_iteration m)) ck0) x03)) as ->.
  { unfold hmac_auth_key. rewrite Hnext. case_bool_decide as Heq; [by rewrite Hck, Heq|].
    rewrite bool_decide_eq_true_2, bool_decide_eq_false_2 by lia.
    rewrite Hck, chain_ahead_add. do 3 f_equal. lia. }
  simpl. set (tag := hmac_authenticate _ _). assert (length tag = 32%nat) as Hlen by apply hmac_length.
  split; [by repeat case_bool_decide|]. intros ->. by rewrite !bool_decide_eq_true_2.
Qed.

(** Outside that window it refuses whatever the tag is. *)
Lemma check_auth_hmac_out pk ck0 next w r m mac :
  receiver_ok Hmac pk ck0 next w r → m_auth m = TagHmac mac →
  (m_iteration m < next → check_auth r m = Err DuplicateMessage)
  ∧ (next + SKIP_LIMIT < m_iteration m → check_auth r m = Err (MaxSkipExceeded (m_iteration m - next) SKIP_LIMIT)).
Proof.
  intros [Hmode _ Hnext _ _ _ _ _ _] Hm. assert (0 < SKIP_LIMIT) as Hlim by done.
  unfold check_auth, verify_hmac, hmac_auth_key. rewrite Hmode, Hm, Hnext.
  split; intros Hi; rewrite (bool_decide_eq_false_2 (_ = next)) by lia.
  - by rewrite (bool_decide_eq_false_2 (next < _)) by lia.
  - by rewrite (bool_decide_eq_true_2 (next < _)), (bool_decide_eq_true_2 (SKIP_LIMIT < _)) by lia.
Qed.

End delivery.

(** ** Any message at all *)

Section adversary.
Context `{Hashes} `{Ed25519} `{Aead}.

Lemma group_decrypt_check m s r s' :
  group_decrypt m s = (r, s') → is_ok (check_auth s m) = false → s' = s ∧ is_ok r = false.
Proof. unfold group_decrypt. destruct (check_auth s m); [done|]. by intros [= <- <-]. Qed.

(** C23. Nothing is decrypted, and the state does not change, unless the message carries the
    chain's own kind of authentication and it verifies: a signature under the chain's
    signing key on a signed chain, a tag under the chain key on an HMAC chain. *)
Theorem group_authenticated m s r s' :
  group_decrypt m s = (r, s') →
  match auth_mode s, m_auth m with
  | Signed, TagSignature signature =>
      (∃ public pk, signing_public s = Some public ∧ identity_public_from_bytes public = Ok pk
         ∧ identity_verify pk (authenticated_data (group_id m) (m_iteration m) (m_ciphertext m)) signature = Ok ())
      ∨ (s' = s ∧ is_ok r = false)
  | Hmac, TagHmac mac =>
      (∃ key, hmac_auth_key s (m_iteration m) = Ok key
         ∧ mac = hmac_authenticate key (authenticated_data (group_id m) (m_iteration m) (m_ciphertext m)))
      ∨ (s' = s ∧ is_ok r = false)
  | _, _ => s' = s ∧ r = Err InvalidSignature
  end.
Proof.
  intros Hd. destruct (check_auth s m) as [[]|e] eqn:Ec.
  - unfold check_auth in Ec. destruct (auth_mode s), (m_auth m) as [mac|sg]; try done; left.
    + unfold verify_hmac in Ec. apply result_bind_Ok in Ec as (key & Hk & Hc).
      exists key. split; [done|]. by repeat case_bool_decide.
    + apply result_bind_Ok in Ec as (public & Hp & Hc). apply ok_or_Ok in Hp.
      apply result_bind_Ok in Hc as (pk & Hpk & Hv). by exists public, pk.
  - destruct (group_decrypt_check _ _ _ _ Hd) as [-> Hr]; [by rewrite Ec|].
    unfold group_decrypt in Hd. rewrite Ec in Hd. injection Hd as <-.
    unfold check_auth in Ec. destruct (auth_mode s), (m_auth m); simplify_eq; auto.
Qed.

(** C24. The skipped-key list never exceeds its limit and the iteration never goes back
    (below the [u32] limit), whatever is received; an error leaves the chain where it
    was. *)
Theorem group_decrypt_bounds m s r s' :
  group_decrypt m s = (r, s') → 0 ≤ iteration s → m_iteration m < u32_max →
  Z.of_nat (length (skipped_message_keys s)) ≤ SKIP_LIMIT →
  Z.of_nat (length (skipped_message_keys s')) ≤ SKIP_LIMIT
  ∧ iteration s ≤ iteration s'
  ∧ (is_ok r = false → iteration s' = iteration s ∧ chain_key s' = chain_key s).
Proof.
  unfold group_decrypt. intros Hd Hpos Hmax Hlen.
  destruct (check_auth s m); [|injection Hd as <- <-; split_and!; [done|lia|done]].
  destruct (take_key _ _) as [[mk rest]|] eqn:Et.
  { injection Hd as <- <-. apply take_key_length in Et. simpl. split_and!; [lia|lia|done]. }
  destruct (derive_message_key s (m_iteration m)) as [[keys mk]|] eqn:Ek;
    [|injection Hd as <- <-; split_and!; [done|lia|done]].
  assert (iteration s ≤ m_iteration m) as Hle.
  { unfold derive_message_key in Ek. case_bool_decide; [done|lia]. }
  destruct (decrypt _ _ _); [|injection Hd as <- <-; split_and!; [done|lia|done]].
  injection Hd as <- <-. rewrite advance_chain_spec by (simpl; lia). simpl.
  split_and!; [by apply push_skipped_bound|lia|done].
Qed.

End adversary.
