(* ===== verification/GroupChannel.v ===== *)
(** * Group chains as channels

    What a group member gets out of a sender's chain, as an abstract channel without
    keys, ciphertexts or tags ([channel_step]) and a refinement: the channel knows the next
    iteration and the iterations passed over that it can still deliver, at most
    [SKIP_LIMIT] of them.  A signed chain delivers those late; an HMAC chain does not,
    although it keeps their keys.  Whatever else arrives is refused.  A chain of at most
    [SKIP_LIMIT] messages is the plain unordered channel that delivers each message once
    ([unordered_step]).  The last part is about messages that carry a genuine signature
    but are not the sender's: [authenticated_data] has no length prefix. *)

From S2P Require Import Prelude Foundation Interfaces Kdf Keys AeadRecord SenderKey.

(** ** Specification *)

(** What reaches a member: the sender's message of an iteration, or any other message. *)
Inductive GroupInput : Type :=
| FromSender (i : Z)
| Foreign (m : SenderKeyMessage).

Inductive Outcome : Type :=
| Delivered (pt : bytes)
| Duplicate
| TooFar (gap : Z)
| Refused.

(** The result of a call realises an outcome. *)
Definition agrees (o : Outcome) (r : result bytes) : Prop :=
  match o with
  | Delivered pt => r = Ok pt
  | Duplicate => r = Err DuplicateMessage
  | TooFar gap => r = Err (MaxSkipExceeded gap SKIP_LIMIT)
  | Refused => is_ok r = false
  end.

(** The next iteration, and the iterations behind it that are remembered. *)
Record Channel : Type := mk_channel { ch_next : Z; ch_waiting : gset Z }.
Definition channel_new : Channel := mk_channel 0 ∅.

(** Only signed chains deliver what they remember. *)
Definition delivers_late (mode : SenderKeyAuth) : bool := match mode with Signed => true | Hmac => false end.

(** A message of the sender: late and remembered; behind; too far ahead; or next, with the
    iterations passed over remembered as far as there is room. *)
Definition channel_step (mode : SenderKeyAuth) (pts : list bytes) (c : Channel) (x : GroupInput) : Outcome * Channel :=
  match x with
  | FromSender i =>
      match pts !! Z.to_nat i with
      | Some pt =>
          if delivers_late mode && bool_decide (i ∈ ch_waiting c) then
            (Delivered pt, mk_channel (ch_next c) (ch_waiting c ∖ {[i]}))
          else if bool_decide (i < ch_next c) then (Duplicate, c)
          else if bool_decide (ch_next c + SKIP_LIMIT < i) then (TooFar (i - ch_next c), c)
          else (Delivered pt, mk_channel (i + 1) (ch_waiting c ∪ stored_range (ch_next c) i (ch_waiting c)))
      | None => (Refused, c)
      end
  | Foreign _ => (Refused, c)
  end.

(** The unordered channel without a limit: the set of iterations delivered so far. *)
Definition unordered_step (pts : list bytes) (d : gset Z) (x : GroupInput) : Outcome * gset Z :=
  match x with
  | FromSender i =>
      match pts !! Z.to_nat i with
      | Some pt => if bool_decide (i ∈ d) then (Duplicate, d) else (Delivered pt, {[i]} ∪ d)
      | None => (Refused, d)
      end
  | Foreign _ => (Refused, d)
  end.

(** The outcomes of a run, and the state after it. *)
Fixpoint channel_run {S} (step : S → GroupInput → Outcome * S) (s : S) (xs : list GroupInput) : list Outcome * S :=
  match xs with
  | [] => ([], s)
  | x :: xs =>
      let '(o, s1) := step s x in
      let '(os, s2) := channel_run step s1 xs in
      (o :: os, s2)
  end.

(** *** Short chains *)

(** The remembered iterations are those not delivered. *)
Definition all_remembered (n : Z) (c : Channel) (d : gset Z) : Prop :=
  0 ≤ ch_next c ≤ n ∧ (∀ i, i ∈ ch_waiting c ↔ 0 ≤ i < ch_next c ∧ i ∉ d) ∧ ∀ i, i ∈ d → 0 ≤ i < ch_next c.

Lemma all_remembered_room n c d i :
  all_remembered n c d → n ≤ SKIP_LIMIT → ch_next c ≤ i < n →
  stored_range (ch_next c) i (ch_waiting c) = list_to_set (seqZ (ch_next c) (i - ch_next c)).
Proof.
  intros (Hn & Hw & _) Hlim Hi. assert (ch_waiting c ⊆ list_to_set (seqZ 0 (ch_next c))) as Hsub%subseteq_size.
  { intros j [Hj _]%Hw. apply elem_of_list_to_set, elem_of_seqZ. lia. }
  rewrite size_list_to_set, length_seqZ in Hsub by apply NoDup_seqZ.
  unfold stored_range. rewrite Z.min_l by lia. done.
Qed.

Lemma unordered_simulates pts c d x :
  let n := Z.of_nat (length pts) in
  n ≤ SKIP_LIMIT → match x with FromSender i => 0 ≤ i < n | Foreign _ => True end → all_remembered n c d →
  (channel_step Signed pts c x).1 = (unordered_step pts d x).1
  ∧ all_remembered n (channel_step Signed pts c x).2 (unordered_step pts d x).2.
Proof.
  intros n Hlim Hx Ha. destruct x as [i|m]; [|done]. pose proof Ha as (Hn & Hw & Hd). cbn [channel_step unordered_step delivers_late].
  destruct (lookup_lt_is_Some_2 pts (Z.to_nat i)) as [pt ->]; [lia|]. rewrite andb_true_l.
  case_bool_decide as Hin.
  - apply Hw in Hin as Hin'. rewrite (bool_decide_eq_false_2 (i ∈ d)) by tauto. split; [done|]. split_and!; simpl; [lia|lia|..].
    + intros j. rewrite elem_of_difference, Hw, not_elem_of_union, elem_of_singleton. tauto.
    + intros j [->%elem_of_singleton|?]%elem_of_union; [lia|by apply Hd].
  - destruct (decide (i < ch_next c)) as [Hi|Hi].
    + rewrite (bool_decide_eq_true_2 (i < _)) by done. rewrite (bool_decide_eq_true_2 (i ∈ d)); [done|].
      destruct (decide (i ∈ d)); [done|]. destruct Hin. apply Hw. split; [lia|done].
    + rewrite (bool_decide_eq_false_2 (i < _)), (bool_decide_eq_false_2 (_ < i)) by lia.
      rewrite (bool_decide_eq_false_2 (i ∈ d)) by (intros ?%Hd; lia). split; [done|].
      rewrite (all_remembered_room _ _ _ _ Ha Hlim) by lia. split_and!; simpl; [lia|lia|..].
      * intros j. rewrite elem_of_union, Hw, elem_of_list_to_set, elem_of_seqZ, not_elem_of_union, not_elem_of_singleton.
        split; [intros [[? ?]|?]; split_and!; try done; try lia; intros ?%Hd; lia|].
        intros (? & ? & ?). destruct (decide (j < ch_next c)); [left; split; [lia|done]|right; lia].
      * intros j [->%elem_of_singleton|Hj]%elem_of_union; [lia|]. apply Hd in Hj. lia.
Qed.

Lemma unordered_run pts xs : ∀ c d,
  Z.of_nat (length pts) ≤ SKIP_LIMIT →
  Forall (λ x, match x with FromSender i => 0 ≤ i < Z.of_nat (length pts) | Foreign _ => True end) xs →
  all_remembered (Z.of_nat (length pts)) c d →
  (channel_run (channel_step Signed pts) c xs).1 = (channel_run (unordered_step pts) d xs).1.
Proof.
  induction xs as [|x xs IH]; intros c d Hlim Hxs Ha; [done|]. apply Forall_cons_1 in Hxs as [Hx Hxs].
  destruct (unordered_simulates pts c d x Hlim Hx Ha) as [Ho Ha']. cbn [channel_run].
  destruct (channel_step Signed pts c x) as [o c'], (unordered_step pts d x) as [o' d']. simpl in Ho, Ha'. subst o'.
  specialize (IH c' d' Hlim Hxs Ha'). destruct (channel_run _ c' xs), (channel_run _ d' xs). simpl in *. by subst.
Qed.

(** ** Implementation *)

Section conversations.
Context `{Hashes} `{Ed25519} `{Aead}.

(** The sender encrypts a list of (nonce, plaintext). *)
Fixpoint group_send (gid : bytes) (pts : list (bytes * bytes)) (s : SenderKeyState)
    : list (result SenderKeyMessage) * SenderKeyState :=
  match pts with
  | [] => ([], s)
  | (nonce, pt) :: pts =>
      let '(r, s1) := group_encrypt nonce gid pt s in
      let '(rs, s2) := group_send gid pts s1 in
      (r :: rs, s2)
  end.

Fixpoint group_receive (ms : list SenderKeyMessage) (s : SenderKeyState) : list (result bytes) * SenderKeyState :=
  match ms with
  | [] => ([], s)
  | m :: ms =>
      let '(r, s1) := group_decrypt m s in
      let '(rs, s2) := group_receive ms s1 in
      (r :: rs, s2)
  end.

(** The message that an input puts on the wire, the sender having sent [sent]; a foreign
    message has no valid tag. *)
Definition on_wire (mode : SenderKeyAuth) (pk : IdentityPublicKey) (ck0 : bytes) (sent : list (result SenderKeyMessage))
    (x : GroupInput) (m : SenderKeyMessage) : Prop :=
  match x with
  | FromSender i => 0 ≤ i ∧ sent !! Z.to_nat i = Some (Ok m)
  | Foreign m' => m = m' ∧ ¬ authentic mode pk ck0 m
  end.

(** Step-wise simulation of a channel by [group_decrypt] gives equal outcomes and related
    states. *)
Lemma channel_simulates {S} (step : S → GroupInput → Outcome * S) (R : S → SenderKeyState → Prop)
    (wire : GroupInput → SenderKeyMessage → Prop) :
  (∀ st r x m, R st r → wire x m →
     agrees (step st x).1 (group_decrypt m r).1 ∧ R (step st x).2 (group_decrypt m r).2) →
  ∀ xs ms st r, R st r → Forall2 wire xs ms →
    Forall2 agrees (channel_run step st xs).1 (group_receive ms r).1
    ∧ R (channel_run step st xs).2 (group_receive ms r).2.
Proof.
  intros Hsim xs ms st r HR Hw. revert st r HR. induction Hw as [|x m xs ms Hx _ IH]; intros st r HR; [done|].
  destruct (Hsim st r x m HR Hx) as [Ho HR']. cbn [channel_run group_receive].
  destruct (step st x) as [o st'], (group_decrypt m r) as [res r'].
  destruct (IH st' r' HR') as [Hos HR2]. destruct (channel_run step st' xs), (group_receive ms r').
  split; [by constructor|done].
Qed.
Context `{!HashesOk} `{!Ed25519Ok} `{!AeadOk}.

(** A sender on the chain makes genuine messages, in either mode. *)
Lemma group_encrypt_genuine mode sd ck0 nonce gid pt s :
  is_sender s = true → auth_mode s = mode → (mode = Signed → signing_private s = Some sd) →
  0 ≤ iteration s < u32_max → chain_key s = chain_ahead (Z.to_nat (iteration s)) ck0 →
  length nonce = NONCE_SIZE →
  ∃ m, group_encrypt nonce gid pt s
       = (Ok m, set_chain (chain_ahead (Z.to_nat (iteration s + 1)) ck0) (iteration s + 1) s)
       ∧ genuine mode (public_key (mk_identity sd)) ck0 gid (iteration s) pt m.
Proof.
  intros Hs <- Hp Hi Hck Hn. unfold group_encrypt. rewrite Hs. cbn [negb].
  destruct (encrypt_decrypt nonce (hmac_derive (chain_key s) x01) pt gid Hn) as (c & Henc & Hdec & _).
  rewrite Henc, add_u32_small by lia.
  assert (∃ tag, make_auth s (authenticated_data gid (iteration s) c) = Ok tag
    ∧ authentic (auth_mode s) (public_key (mk_identity sd)) ck0 (mk_sender_key_message gid (iteration s) c tag))
    as (tag & -> & Htag).
  { unfold make_auth, authentic. destruct (auth_mode s) eqn:Em.
    - eexists. split; [done|]. simpl. by rewrite Hck.
    - rewrite (Hp eq_refl). eexists. split; [done|]. apply identity_sign_verify. }
  eexists. split.
  - do 2 f_equal. rewrite Hck. replace (Z.to_nat (iteration s + 1)) with (S (Z.to_nat (iteration s))) by lia. done.
  - split; simpl; [done..|]. unfold group_key. by rewrite <-Hck.
Qed.

Lemma group_send_genuine mode sd ck0 gid pts : ∀ s j m,
  is_sender s = true → auth_mode s = mode → (mode = Signed → signing_private s = Some sd) →
  0 ≤ iteration s → iteration s + Z.of_nat (length pts) ≤ u32_max →
  chain_key s = chain_ahead (Z.to_nat (iteration s)) ck0 →
  Forall (λ p, length p.1 = NONCE_SIZE) pts → (group_send gid pts s).1 !! j = Some (Ok m) →
  ∃ p, pts !! j = Some p ∧ genuine mode (public_key (mk_identity sd)) ck0 gid (iteration s + Z.of_nat j) p.2 m.
Proof.
  induction pts as [|[nonce pt] pts IH]; intros s j m Hs Ha Hp Hpos Hmax Hck Hn Hr; [by destruct j|].
  apply Forall_cons_1 in Hn as [Hn1 Hn]. cbn [length] in Hmax.
  destruct (group_encrypt_genuine mode sd ck0 nonce gid pt s) as (m0 & He & Hg); [done..|lia|done|done|].
  cbn [group_send] in Hr. rewrite He in Hr. destruct (group_send gid pts _) as [rs1 s1] eqn:E1.
  destruct j as [|j]; simpl in Hr; [injection Hr as <-; exists (nonce, pt); by rewrite Z.add_0_r|].
  destruct (IH (set_chain (chain_ahead (Z.to_nat (iteration s + 1)) ck0) (iteration s + 1) s) j m) as (p & Hpj & Hgj);
    [done..|simpl; lia|simpl; lia|done|done|by rewrite E1|].
  exists p. split; [done|]. cbn [iteration set_chain] in Hgj.
  by replace (iteration s + Z.of_nat (S j)) with (iteration s + 1 + Z.of_nat j) by lia.
Qed.

(** The messages of a chain from its creation. *)
Lemma sent_genuine mode chain_rng seed_rng gid pts i m :
  Forall (λ p, length p.1 = NONCE_SIZE) pts → Z.of_nat (length pts) ≤ u32_max → 0 ≤ i →
  (group_send gid pts (create_sender_key_distribution_message chain_rng seed_rng gid mode).1).1 !! Z.to_nat i
    = Some (Ok m) →
  ∃ pt, pts.*2 !! Z.to_nat i = Some pt ∧ i < Z.of_nat (length pts)
    ∧ genuine mode (public_key (mk_identity seed_rng)) chain_rng gid i pt m.
Proof.
  intros Hn Hl Hi Hs. eapply (group_send_genuine mode seed_rng chain_rng) in Hs as (p & Hp & Hg);
    [..|done]; try (by destruct mode).
  exists p.2. rewrite list_lookup_fmap, Hp. split; [done|]. apply lookup_lt_Some in Hp as Hlt. split; [lia|].
  by destruct mode; simpl in Hg; rewrite Z2Nat.id in Hg.
Qed.

(** ** Refinement *)

Lemma receiver_new mode seed_rng chain_rng gid :
  receiver_ok mode (public_key (mk_identity seed_rng)) chain_rng 0 ∅
    (from_distribution (create_sender_key_distribution_message chain_rng seed_rng gid mode).2).
Proof. destruct mode; (split; simpl; try done; [constructor|by intros ?? ?%elem_of_nil]). Qed.

(** A message that is not authentic for the chain changes nothing. *)
Lemma foreign_refused mode pk ck0 next w r m :
  receiver_ok mode pk ck0 next w r → ¬ authentic mode pk ck0 m → is_ok (check_auth r m) = false.
Proof.
  intros Hr Hna. destruct (check_auth r m) as [[]|] eqn:E; [|done]. destruct Hna. destruct mode.
  - destruct (m_auth m) as [mac|sg] eqn:Em.
    2:{ unfold check_auth in E. by rewrite (ro_mode _ _ _ _ _ _ Hr), Em in E. }
    destruct (check_auth_hmac_out _ _ _ _ _ _ _ Hr Em) as [Hlo Hhi].
    destruct (decide (m_iteration m < next)); [by rewrite Hlo in E|].
    destruct (decide (next + SKIP_LIMIT < m_iteration m)); [by rewrite Hhi in E|].
    by apply (check_auth_hmac _ _ _ _ _ _ Hr); [lia|].
  - by apply (check_auth_signed _ _ _ _ _ _ Hr).
Qed.

(** One genuine message, as the channel says. *)
Lemma genuine_step mode pk ck0 gid pts c r i pt m :
  receiver_ok mode pk ck0 (ch_next c) (ch_waiting c) r → genuine mode pk ck0 gid i pt m →
  pts !! Z.to_nat i = Some pt → i < u32_max →
  let '(o, c') := channel_step mode pts c (FromSender i) in
  agrees o (group_decrypt m r).1 ∧ receiver_ok mode pk ck0 (ch_next c') (ch_waiting c') (group_decrypt m r).2.
Proof.
  intros Hr Hg Hpt Hmax. pose proof Hg as [Hit _ Ha _]. cbn [channel_step]. rewrite Hpt.
  assert (check_auth r m = Ok () → i ∉ ch_waiting c ∨ mode = Hmac ∧ ch_next c ≤ i →
    let '(o, c') := if bool_decide (i < ch_next c) then (Duplicate, c)
       else if bool_decide (ch_next c + SKIP_LIMIT < i) then (TooFar (i - ch_next c), c)
       else (Delivered pt, mk_channel (i + 1) (ch_waiting c ∪ stored_range (ch_next c) i (ch_waiting c))) in
    agrees o (group_decrypt m r).1 ∧ receiver_ok mode pk ck0 (ch_next c') (ch_waiting c') (group_decrypt m r).2) as Hauth.
  { intros Hc Hw. case_bool_decide as Hlo.
    - rewrite (decrypt_behind _ _ _ _ _ _ _ Hr Hc) by (rewrite Hit; lia || (destruct Hw as [?|[_ ?]]; [done|lia])). done.
    - case_bool_decide as Hhi; [rewrite (decrypt_far _ _ _ _ _ _ _ Hr Hc), Hit by lia; done|].
      by destruct (decrypt_ahead _ _ _ _ _ _ _ _ _ _ Hr Hg Hc ltac:(lia) Hmax) as (r' & -> & Hr'). }
  destruct mode; cbn [delivers_late andb].
  - assert (∃ mac, m_auth m = TagHmac mac) as [mac Em].
    { unfold authentic in Ha. destruct (m_auth m); [eauto|done]. }
    destruct (check_auth_hmac_out _ _ _ _ _ _ _ Hr Em) as [Hlo Hhi]. rewrite Hit in Hlo, Hhi.
    destruct (decide (i < ch_next c)) as [Hi|Hi].
    { rewrite bool_decide_eq_true_2 by done. unfold group_decrypt. by rewrite Hlo. }
    destruct (decide (ch_next c + SKIP_LIMIT < i)) as [Hf|Hf].
    { rewrite bool_decide_eq_false_2, bool_decide_eq_true_2 by done. unfold group_decrypt. by rewrite Hhi. }
    apply Hauth; [apply (check_auth_hmac _ _ _ _ _ _ Hr); [lia|done]|right; split; [done|lia]].
  - assert (check_auth r m = Ok ()) as Hc by (by apply (check_auth_signed _ _ _ _ _ _ Hr)).
    destruct (decide (i ∈ ch_waiting c)) as [Hw|Hw];
      [rewrite bool_decide_eq_true_2 by done|rewrite bool_decide_eq_false_2 by done; by apply Hauth; [|left]].
    by destruct (decrypt_late _ _ _ _ _ _ _ _ _ _ Hr Hg Hc Hw) as (r' & -> & Hr').
Qed.

(** A member that processed the distribution message of a chain answers as the channel,
    and keeps the keys of the iterations the channel remembers. *)
Lemma group_refines mode chain_rng seed_rng gid addr pts xs ms :
  Forall (λ p, length p.1 = NONCE_SIZE) pts → Z.of_nat (length pts) ≤ u32_max →
  let '(s, dist) := create_sender_key_distribution_message chain_rng seed_rng gid mode in
  let pk := public_key (mk_identity seed_rng) in
  Forall2 (on_wire mode pk chain_rng (group_send gid pts s).1) xs ms →
  let c := channel_run (channel_step mode pts.*2) channel_new xs in
  let r := group_receive ms (process_sender_key_distribution_message addr dist) in
  Forall2 agrees c.1 r.1 ∧ receiver_ok mode pk chain_rng (ch_next c.2) (ch_waiting c.2) r.2.
Proof.
  intros Hn Hl. pose proof (λ i m, sent_genuine mode chain_rng seed_rng gid pts i m Hn Hl) as Hsent.
  pose proof (receiver_new mode seed_rng chain_rng gid) as Hnew.
  destruct (create_sender_key_distribution_message chain_rng seed_rng gid mode) as [s dist]. cbn [fst snd] in Hsent, Hnew.
  intros pk Hw c r.
  refine (channel_simulates _ (λ c, receiver_ok mode pk chain_rng (ch_next c) (ch_waiting c)) _ _ xs ms channel_new _ Hnew Hw).
  clear c r Hw Hnew. intros c r x m Hr Hx. destruct x as [i|m'].
  - destruct Hx as [Hi Hm]. destruct (Hsent i m Hi Hm) as (pt & Hpt & Hlt & Hg).
    pose proof (genuine_step _ _ _ _ pts.*2 c r i pt m Hr Hg Hpt ltac:(lia)) as Hstep. by destruct (channel_step _ _ _ _).
  - destruct Hx as [<- Hna]. destruct (group_decrypt m r) as [res r'] eqn:E.
    apply group_decrypt_check in E as [-> ?]; [done|]. by eapply foreign_refused.
Qed.

(** The inputs from the sender are within its chain. *)
Lemma on_wire_range mode pk ck0 gid pts s xs ms :
  Forall2 (on_wire mode pk ck0 (group_send gid pts s).1) xs ms →
  Forall (λ x, match x with FromSender i => 0 ≤ i < Z.of_nat (length pts) | Foreign _ => True end) xs.
Proof.
  assert (∀ pts s, length (group_send gid pts s).1 = length pts) as Hlen.
  { clear. induction pts as [|[nonce pt] pts IH]; intros s; [done|]. cbn [group_send].
    destruct (group_encrypt nonce gid pt s) as [res s1]. specialize (IH s1). destruct (group_send gid pts s1).
    simpl in *. by rewrite IH. }
  induction 1 as [|x m xs ms Hx _ IH]; constructor; [|done].
  destruct x as [i|m']; [|done]. destruct Hx as [Hi Hm%lookup_lt_Some]. rewrite Hlen in Hm. lia.
Qed.

(** C5. A signed chain refines a bounded unordered channel.  The sender creates a chain and
    encrypts (as often as its 32-bit counter allows); a member that processed the
    distribution message is given any sequence of inputs: the sender's messages in any
    order, with losses and replays, mixed with any messages not signed by the sender.
    Every call returns what the abstract channel says: the plaintext of a message at most
    [SKIP_LIMIT] ahead, or passed over and still remembered; a duplicate error for the
    others behind, which are those delivered before and those passed over while
    [SKIP_LIMIT] were already remembered; the gap for a message further ahead; a refusal
    for the rest.  On a chain of at most [SKIP_LIMIT] messages that is exactly-once
    delivery in any order. *)
Theorem group_refines_channel chain_rng seed_rng gid addr pts xs ms :
  Forall (λ p, length p.1 = NONCE_SIZE) pts → Z.of_nat (length pts) ≤ u32_max →
  let '(s, dist) := create_sender_key_distribution_message chain_rng seed_rng gid Signed in
  Forall2 (on_wire Signed (public_key (mk_identity seed_rng)) chain_rng (group_send gid pts s).1) xs ms →
  let '(outcomes, c) := channel_run (channel_step Signed pts.*2) channel_new xs in
  let '(results, r) := group_receive ms (process_sender_key_distribution_message addr dist) in
  Forall2 agrees outcomes results
  ∧ iteration r = ch_next c ∧ list_to_set (skipped_message_keys r).*1 = ch_waiting c
  ∧ (Z.of_nat (length pts) ≤ SKIP_LIMIT → outcomes = (channel_run (unordered_step pts.*2) ∅ xs).1).
Proof.
  intros Hn Hl. pose proof (group_refines Signed chain_rng seed_rng gid addr pts xs ms Hn Hl) as Href.
  destruct (create_sender_key_distribution_message chain_rng seed_rng gid Signed) as [s dist].
  intros Hw. destruct (Href Hw) as [Ha Hr]. apply on_wire_range in Hw.
  pose proof (unordered_run pts.*2 xs channel_new ∅) as Hu. rewrite length_fmap in Hu.
  destruct (channel_run (channel_step Signed pts.*2) channel_new xs) as [os c], (group_receive ms _) as [rs r].
  split_and!; [done|apply Hr|apply Hr|]. intros Hlim. apply Hu; [done|done|].
  split_and!; simpl; [lia|lia|..]; intros i; [|by intros ?%not_elem_of_empty].
  split; [by intros ?%not_elem_of_empty|lia].
Qed.

(** C32. An HMAC chain refines an ordered channel with losses.  A member that processed the
    distribution message of an HMAC chain is given any sequence of the sender's messages
    mixed with any messages whose tag is not the chain's: a message at or past the next
    iteration, at most [SKIP_LIMIT] ahead, is decrypted; one further ahead is refused
    with the gap, one behind as a duplicate, the rest is refused.  The keys of iterations
    passed over are stored, and the messages they are for are refused all the same. *)
Theorem hmac_refines_ordered_channel chain_rng seed_rng gid addr pts xs ms :
  Forall (λ p, length p.1 = NONCE_SIZE) pts → Z.of_nat (length pts) ≤ u32_max →
  let '(s, dist) := create_sender_key_distribution_message chain_rng seed_rng gid Hmac in
  let sent := (group_send gid pts s).1 in
  Forall2 (on_wire Hmac (public_key (mk_identity seed_rng)) chain_rng sent) xs ms →
  let '(outcomes, c) := channel_run (channel_step Hmac pts.*2) channel_new xs in
  let '(results, r) := group_receive ms (process_sender_key_distribution_message addr dist) in
  Forall2 agrees outcomes results
  ∧ iteration r = ch_next c ∧ list_to_set (skipped_message_keys r).*1 = ch_waiting c
  ∧ ∀ i m, i ∈ ch_waiting c → sent !! Z.to_nat i = Some (Ok m) → group_decrypt m r = (Err DuplicateMessage, r).
Proof.
  intros Hn Hl. pose proof (group_refines Hmac chain_rng seed_rng gid addr pts xs ms Hn Hl) as Href.
  pose proof (λ i m, sent_genuine Hmac chain_rng seed_rng gid pts i m Hn Hl) as Hsent.
  destruct (create_sender_key_distribution_message chain_rng seed_rng gid Hmac) as [s dist]. cbn [fst] in Hsent.
  intros sent Hw. destruct (Href Hw) as [Ha Hr].
  destruct (channel_run (channel_step Hmac pts.*2) channel_new xs) as [os c], (group_receive ms _) as [rs r].
  split_and!; [done|apply Hr|apply Hr|]. intros i m Hi Hm. cbn [snd] in Hr.
  destruct (ro_behind _ _ _ _ _ _ Hr i Hi) as [Hi0 Hlt]. destruct (Hsent i m Hi0 Hm) as (pt & _ & _ & Hg).
  pose proof (ge_auth _ _ _ _ _ _ _ Hg) as Hau. unfold authentic in Hau.
  destruct (m_auth m) as [mac|sg] eqn:Em; [|done].
  destruct (check_auth_hmac_out _ _ _ _ _ _ _ Hr Em) as [Hlo _]. rewrite (ge_iteration _ _ _ _ _ _ _ Hg) in Hlo.
  unfold group_decrypt. by rewrite (Hlo Hlt).
Qed.

End conversations.

(** ** Signatures that cover another message *)

Lemma be_bytes_snoc n z b : be_bytes (S n) (256 * z + Z_of_byte b) = be_bytes n z ++ [b].
Proof.
  pose proof (Z_of_byte_bound b). unfold be_bytes. cbn [le_bytes]. rewrite reverse_cons. f_equal.
  - do 2 f_equal. symmetry. apply Z.div_unique with (r := Z_of_byte b); lia.
  - f_equal. rewrite <-(byte_of_Z_of_byte b) at 2. unfold byte_of_Z.
    by rewrite (Z.add_comm (256 * z)), (Z.mul_comm 256), Z.mod_add by lia.
Qed.

Lemma le_bytes_high n : ∀ z, 0 ≤ z < 256 ^ Z.of_nat n → le_bytes (S n) z = le_bytes n z ++ [x00].
Proof.
  induction n as [|n IH]; intros z Hz.
  - simpl in Hz. by assert (z = 0) as -> by lia.
  - change (le_bytes (S (S n)) z) with (byte_of_Z z :: le_bytes (S n) (z / 256)). rewrite IH; [done|].
    rewrite Nat2Z.inj_succ, Z.pow_succ_r in Hz by lia.
    split; [apply Z.div_pos; lia|apply Z.div_lt_upper_bound; lia].
Qed.

Lemma be_bytes_high n z : 0 ≤ z < 256 ^ Z.of_nat n → be_bytes (S n) z = x00 :: be_bytes n z.
Proof. intros Hz. unfold be_bytes. by rewrite le_bytes_high, reverse_snoc. Qed.

(** Moving a zero byte into the identifier and a ciphertext byte into the counter. *)
Lemma authenticated_data_resplit gid it b ct :
  0 ≤ it < 256 ^ 3 →
  authenticated_data gid it (b :: ct) = authenticated_data (gid ++ [x00]) (256 * it + Z_of_byte b) ct.
Proof.
  intros Hit. unfold authenticated_data. rewrite (be_bytes_high 3), be_bytes_snoc by done.
  by rewrite <-!app_assoc.
Qed.

Section resplit.
Context `{Hashes} `{Ed25519} `{Aead} `{!Ed25519Ok}.

(** C35. The signature of a group message does not fix its group identifier and iteration:
    the same bytes read with one zero byte more in the identifier are a message of
    another iteration, and [group_decrypt] accepts its signature, looks no further at the
    identifier, and removes the stored key of that iteration before it decrypts.  So
    anyone who sees a genuine message [m] can make the member lose a late message [m2]
    that it could decrypt until then. *)
Theorem group_resplit_consumes_key pk ck0 gid next waiting r it pt m b ct i2 pt2 m2 :
  receiver_ok Signed pk ck0 next waiting r → genuine Signed pk ck0 gid it pt m → 0 ≤ it < 256 ^ 3 → m_ciphertext m = b :: ct →
  i2 = 256 * it + Z_of_byte b → i2 ∈ waiting → genuine Signed pk ck0 gid i2 pt2 m2 →
  let m' := mk_sender_key_message (gid ++ [x00]) i2 ct (m_auth m) in
  let r' := (group_decrypt m' r).2 in
  (group_decrypt m2 r).1 = Ok pt2
  ∧ check_auth r m' = Ok ()
  ∧ group_decrypt m2 r' = (Err DuplicateMessage, r').
Proof.
  intros Hr Hm Hit Hct Hi2 Hw Hm2 m' r'. pose proof (Z_of_byte_bound b) as Hb.
  assert (check_auth r m' = Ok ()) as Hc.
  { apply (check_auth_signed _ _ _ _ _ _ Hr). destruct Hm as [Hi Hg Ha _]. unfold authentic in *. simpl.
    rewrite Hi, Hg, Hct, authenticated_data_resplit, <-Hi2 in Ha by done. exact Ha. }
  assert (check_auth r m2 = Ok ()) as Hc2 by (apply (check_auth_signed _ _ _ _ _ _ Hr), Hm2).
  split_and!; [|done|].
  { by destruct (decrypt_late _ _ _ _ _ _ _ _ _ _ Hr Hm2 Hc2 Hw) as (r1 & -> & _). }
  destruct (take_key i2 (skipped_message_keys r)) as [[mk rest]|] eqn:Et.
  2:{ apply take_key_None in Et. destruct Et. by apply (receiver_stored _ _ _ _ _ _ _ Hr). }
  assert (r' = set_skipped rest r) as Hr' by (unfold r', group_decrypt; rewrite Hc; simpl; by rewrite Et).
  assert (i2 ∉ rest.*1) as Hnot.
  { apply take_key_Some in Et as [_ Hp]. pose proof (ro_nodup _ _ _ _ _ _ Hr) as Hnd. rewrite Hp in Hnd. simpl in Hnd.
    by apply list.NoDup_cons in Hnd as [? _]. }
  assert (check_auth r' m2 = Ok ()) as Hc2' by (rewrite Hr'; exact Hc2).
  unfold group_decrypt. rewrite Hc2', (ge_iteration _ _ _ _ _ _ _ Hm2). rewrite Hr'. cbn [skipped_message_keys set_skipped].
  rewrite (proj2 (take_key_None i2 rest) Hnot). unfold derive_message_key. cbn [iteration set_skipped].
  rewrite (ro_next _ _ _ _ _ _ Hr). destruct (ro_behind _ _ _ _ _ _ Hr i2 Hw). by rewrite bool_decide_eq_true_2 by lia.
Qed.

End resplit.
