(* ===== verification/Sesame.v ===== *)
(** * Sesame: multi-device sessions

    Models [src/protocol/sesame/]: the session entries and their states ([state.rs]), the
    staleness thresholds ([lifecycle.rs]), the per-device record with dual-init
    convergence and the per-user device table ([mod.rs]).  The device table is a finite
    map; the lists of added and removed devices come out in the arbitrary order of a
    hash set. *)

From S2P Require Import Prelude Foundation Interfaces Keys.

(** ** Lifecycle *)

Definition MAXLATENCY : Z := 2 * 60 * 60.
Definition MAXSEND : Z := 30 * 24 * 60 * 60.
Definition MAXRECV : Z := 60 * 24 * 60 * 60.

Definition is_stale_for_sending (created_at now : Timestamp) : bool :=
  bool_decide (MAXSEND < sat_sub now created_at).
Definition is_stale_for_receiving (last_used now : Timestamp) : bool :=
  bool_decide (MAXRECV < sat_sub now last_used).

(** A message sent on a session that was fresh for sending, and delivered within the
    assumed latency, reaches a session its peer has not yet deleted, also when the peer
    last used the session up to one latency before it was created. *)
Lemma fresh_message_decryptable created_at last_used sent received :
  0 ≤ created_at → 0 ≤ last_used →
  is_stale_for_sending created_at sent = false →
  received ≤ sent + MAXLATENCY → created_at - MAXLATENCY ≤ last_used →
  is_stale_for_receiving last_used received = false.
Proof.
  intros ?? Hs%bool_decide_eq_false Hr Hu. apply bool_decide_eq_false.
  unfold sat_sub, MAXSEND, MAXRECV, MAXLATENCY in *. lia.
Qed.

(** ** Session entries *)

Inductive SessionState : Type := Initiating | Regular.

#[export] Instance session_state_eq_dec : EqDecision SessionState.
Proof. solve_decision. Defined.

Record SessionEntry : Type := mk_session_entry {
  session_data : bytes;
  se_state : SessionState;
  created_at : Timestamp;
  last_used : Timestamp;
  convergence_priority : Z;
}.

Definition entry_new_with_priority (data : bytes) (st : SessionState) (now : Timestamp) (priority : Z) : SessionEntry :=
  mk_session_entry data st now now priority.
Definition entry_new (data : bytes) (st : SessionState) (now : Timestamp) : SessionEntry :=
  entry_new_with_priority data st now 0.
Definition touch (now : Timestamp) (e : SessionEntry) : SessionEntry :=
  mk_session_entry (session_data e) (se_state e) (created_at e) now (convergence_priority e).

(** The update of a session that decrypted a message. *)
Definition mark_used (data : bytes) (now : Timestamp) (e : SessionEntry) : SessionEntry :=
  mk_session_entry data (match se_state e with Initiating => Regular | st => st end)
    (created_at e) now (convergence_priority e).

(** ** Device records *)

Definition MAX_INACTIVE_SESSIONS : nat := 10.

Section sesame.
Context `{Ed25519}.

Record DeviceRecord : Type := mk_device {
  active_session : option SessionEntry;
  inactive_sessions : list SessionEntry;
  d_identity_key : option IdentityPublicKey;
}.

Definition device_new : DeviceRecord := mk_device None [] None.

Definition insert_session (session : SessionEntry) (d : DeviceRecord) : DeviceRecord :=
  let inactive := option_list (active_session d) ++ inactive_sessions d in
  mk_device (Some session)
    (if bool_decide (MAX_INACTIVE_SESSIONS < length inactive)%nat then take MAX_INACTIVE_SESSIONS inactive else inactive)
    (d_identity_key d).

(** The promotion rule: the inactive session at [idx] becomes active when there is no
    active session or its priority is strictly greater. *)
Definition promote (idx : nat) (entry : SessionEntry) (d : DeviceRecord) : DeviceRecord :=
  let active_priority := match active_session d with Some s => convergence_priority s | None => 0 end in
  if bool_decide (active_session d = None) || bool_decide (active_priority < convergence_priority entry) then
    mk_device (Some entry) (option_list (active_session d) ++ delete idx (inactive_sessions d)) (d_identity_key d)
  else d.

Definition record_decrypt_success (logical_index : nat) (updated_data : bytes) (now : Timestamp)
    (d : DeviceRecord) : option bytes * DeviceRecord :=
  let d' :=
    match logical_index with
    | O => mk_device (mark_used updated_data now <$> active_session d) (inactive_sessions d) (d_identity_key d)
    | S idx =>
        match inactive_sessions d !! idx with
        | Some entry =>
            let entry := mark_used updated_data now entry in
            promote idx entry (mk_device (active_session d) (<[idx := entry]> (inactive_sessions d)) (d_identity_key d))
        | None => d
        end
    end in
  (session_data <$> active_session d', d').

Definition prune_stale (now : Timestamp) (d : DeviceRecord) : DeviceRecord :=
  mk_device (active_session d)
    (filter (λ s, is_stale_for_receiving (last_used s) now = false) (inactive_sessions d)) (d_identity_key d).

Definition needs_reestablish (now : Timestamp) (d : DeviceRecord) : bool :=
  match active_session d with
  | None => true
  | Some s => is_stale_for_sending (created_at s) now
  end.

(** ** User records *)

(** [UserRecord.devices]: device records by device id. *)
#[local] Abbreviation UserRecord := (gmap string DeviceRecord).

Definition user_new : UserRecord := ∅.
Definition get_or_create_device (id : string) (u : UserRecord) : DeviceRecord * UserRecord :=
  match u !! id with
  | Some d => (d, u)
  | None => (device_new, <[id := device_new]> u)
  end.
Definition get_device (id : string) (u : UserRecord) : option DeviceRecord := u !! id.
Definition get_device_mut (id : string) (u : UserRecord) : option DeviceRecord := u !! id.
Definition remove_device (id : string) (u : UserRecord) : UserRecord := delete id u.
Definition device_ids (u : UserRecord) : list string := elements (dom u).

Record DeviceChanges : Type := mk_changes { added : list string; removed : list string }.

(** A device the server dropped is kept while its active session can still receive. *)
Definition keep_device (now : Timestamp) (d : DeviceRecord) : bool :=
  match active_session d with
  | Some active => negb (is_stale_for_receiving (last_used active) now)
  | None => false
  end.

Definition add_devices (ids : list string) (u : UserRecord) : UserRecord :=
  foldl (λ u id, <[id := device_new]> u) u ids.

(** The second loop: the devices removed and the table after. *)
Definition drop_devices (now : Timestamp) (ids : list string) (u : UserRecord) : list string * UserRecord :=
  foldl (λ acc id,
    match acc.2 !! id with
    | Some d => if keep_device now d then acc else (acc.1 ++ [id], delete id acc.2)
    | None => (acc.1 ++ [id], delete id acc.2)
    end) ([], u) ids.

Definition refresh_devices (server_device_ids : list string) (now : Timestamp) (u : UserRecord)
    : DeviceChanges * UserRecord :=
  let current : gset string := dom u in
  let server : gset string := list_to_set server_device_ids in
  let new_ids := elements (server ∖ current) in
  let '(gone, u') := drop_devices now (elements (current ∖ server)) (add_devices new_ids u) in
  (mk_changes new_ids gone, u').

(** ** The device record's invariant *)

Definition device_wf (d : DeviceRecord) : Prop := (length (inactive_sessions d) ≤ MAX_INACTIVE_SESSIONS)%nat.

(** All sessions, in the order of the logical index when there is an active one. *)
Definition sessions (d : DeviceRecord) : list SessionEntry := option_list (active_session d) ++ inactive_sessions d.
Definition priorities (d : DeviceRecord) : list Z := convergence_priority <$> sessions d.

Lemma insert_session_wf session d : device_wf (insert_session session d).
Proof.
  unfold device_wf, insert_session. simpl. case_bool_decide; [rewrite length_take|]; lia.
Qed.

Lemma prune_stale_wf now d : device_wf d → device_wf (prune_stale now d).
Proof. unfold device_wf. simpl. intros. etrans; [apply length_filter|done]. Qed.

Lemma promote_wf idx e d :
  device_wf d → inactive_sessions d !! idx = Some e → device_wf (promote idx e d).
Proof.
  intros Hwf Hi. unfold device_wf, promote in *. case_match; [|done]. simpl.
  rewrite length_app, length_delete by eauto. pose proof (lookup_lt_Some _ _ _ Hi).
  destruct (active_session d); simpl; lia.
Qed.

Lemma record_decrypt_success_wf idx data now d :
  device_wf d → device_wf (record_decrypt_success idx data now d).2.
Proof.
  intros Hwf. unfold record_decrypt_success. destruct idx as [|idx]; [done|].
  destruct (inactive_sessions d !! idx) as [e|] eqn:E; [|done]. simpl.
  apply promote_wf; simpl.
  - unfold device_wf. simpl. by rewrite length_insert.
  - apply list_lookup_insert_eq. by eapply lookup_lt_Some.
Qed.

(** ** Convergence *)

(** A decrypt on a held session moves the active priority up to its priority, and only
    reorders the sessions held. *)
Lemma record_decrypt_success_spec idx data now d a e :
  active_session d = Some a → sessions d !! idx = Some e →
  let d' := (record_decrypt_success idx data now d).2 in
  priorities d' ≡ₚ priorities d
  ∧ ∃ a', active_session d' = Some a'
      ∧ convergence_priority a' = Z.max (convergence_priority a) (convergence_priority e).
Proof.
  unfold sessions, priorities. intros Ha He. rewrite Ha in He. unfold record_decrypt_success.
  destruct idx as [|idx]; simpl in He.
  { simplify_eq. simpl. unfold sessions. rewrite Ha. simpl. split; [done|].
    eexists. split; [done|]. simpl. lia. }
  rewrite He. simpl. unfold promote. simpl. rewrite Ha. simpl.
  pose proof (lookup_lt_Some _ _ _ He) as Hlt.
  set (e' := mark_used data now e).
  assert (convergence_priority <$> <[idx := e']> (inactive_sessions d)
          = convergence_priority <$> inactive_sessions d) as Hins.
  { rewrite list_fmap_insert, list_insert_id; [done|]. by rewrite list_lookup_fmap, He. }
  case_bool_decide as Hp.
  - split; [|eexists; split; [done|simpl in *; lia]]. unfold sessions. rewrite Ha. simpl.
    fold (convergence_priority <$> delete idx (<[idx:=e']> (inactive_sessions d))).
    fold (convergence_priority <$> inactive_sessions d).
    assert (<[idx:=e']> (inactive_sessions d) ≡ₚ e' :: delete idx (<[idx:=e']> (inactive_sessions d))) as Hperm
      by (apply delete_Permutation; by apply list_lookup_insert_eq).
    rewrite <-Hins. rewrite Hperm at 2. simpl. apply Permutation_swap.
  - split; [|eexists; split; [done|simpl in *; lia]]. unfold sessions. simpl. rewrite Ha. simpl.
    fold (convergence_priority <$> <[idx:=e']> (inactive_sessions d)). by rewrite Hins.
Qed.

Lemma record_decrypt_success_none idx data now d :
  sessions d !! idx = None → active_session d ≠ None → (record_decrypt_success idx data now d).2 = d.
Proof.
  unfold sessions, record_decrypt_success. destruct (active_session d) as [a|] eqn:Ha; [|done].
  destruct idx as [|idx]; simpl; [done|]. by intros ->.
Qed.

(** A run of decrypts: the priorities of the sessions decrypted on, and the record after. *)
Fixpoint run_decrypts (calls : list (nat * bytes * Timestamp)) (d : DeviceRecord) : list Z * DeviceRecord :=
  match calls with
  | [] => ([], d)
  | (idx, data, now) :: calls =>
      let hit := convergence_priority <$> option_list (sessions d !! idx) in
      let '(hits, d') := run_decrypts calls (record_decrypt_success idx data now d).2 in
      (hit ++ hits, d')
  end.

Lemma run_decrypts_spec calls : ∀ d a hits d',
  active_session d = Some a → run_decrypts calls d = (hits, d') →
  priorities d' ≡ₚ priorities d
  ∧ ∃ a', active_session d' = Some a' ∧ convergence_priority a ≤ convergence_priority a'
      ∧ ∀ p, p ∈ hits → p ≤ convergence_priority a'.
Proof.
  induction calls as [|[[idx data] now] calls IH]; intros d a hits d' Ha Hr; cbn [run_decrypts] in Hr.
  { simplify_eq. split; [done|]. exists a. split_and!; [done|lia|by intros ? ?%elem_of_nil]. }
  destruct (run_decrypts calls _) as [hits1 d1] eqn:E1. simplify_eq.
  destruct (sessions d !! idx) as [e|] eqn:Ee.
  - destruct (record_decrypt_success_spec idx data now d a e Ha Ee) as (Hp & a1 & Ha1 & Hmax).
    destruct (IH _ _ _ _ Ha1 E1) as (Hp' & a' & Ha' & Hle & Hh). split; [by rewrite Hp'|].
    exists a'. split_and!; [done|lia|]. simpl. intros p [->|Hin]%elem_of_cons; [lia|by apply Hh].
  - rewrite record_decrypt_success_none in E1 by (done || congruence). simpl. by eapply IH.
Qed.

(** C12. Dual-init convergence: two peers whose highest session priority is [p], and which
    have each decrypted on a session of that priority (or already send on one), both
    send on a session of priority [p], whatever else they decrypted and in whatever
    order. *)
Theorem dual_init_convergence dA dB callsA callsB p :
  is_Some (active_session dA) → is_Some (active_session dB) →
  (∀ x, x ∈ priorities dA ++ priorities dB → x ≤ p) →
  p ∈ (run_decrypts callsA dA).1 → p ∈ (run_decrypts callsB dB).1 →
  convergence_priority <$> active_session (run_decrypts callsA dA).2 = Some p
  ∧ convergence_priority <$> active_session (run_decrypts callsB dB).2 = Some p.
Proof.
  assert (∀ d calls, is_Some (active_session d) → (∀ x, x ∈ priorities d → x ≤ p) →
    p ∈ (run_decrypts calls d).1 → convergence_priority <$> active_session (run_decrypts calls d).2 = Some p) as Hone.
  { intros d calls [a Ha] Hmax Hin. destruct (run_decrypts calls d) as [hits d'] eqn:E. simpl in *.
    destruct (run_decrypts_spec _ _ _ _ _ Ha E) as (Hp & a' & Ha' & _ & Hh). rewrite Ha'. simpl. f_equal.
    apply Z.le_antisymm; [|by apply Hh]. apply Hmax. rewrite <-Hp. unfold priorities, sessions. rewrite Ha'. by left. }
  intros HA HB Hmax HinA HinB. split; apply Hone; try done; intros x Hx; apply Hmax, elem_of_app; auto.
Qed.

(** The active session only ever moves to a strictly higher priority, and the record
    stays within its cap. *)
Theorem active_priority_monotone calls d a :
  active_session d = Some a → device_wf d →
  ∃ a', active_session (run_decrypts calls d).2 = Some a'
    ∧ convergence_priority a ≤ convergence_priority a' ∧ device_wf (run_decrypts calls d).2.
Proof.
  intros Ha Hwf. destruct (run_decrypts calls d) as [hits d'] eqn:E.
  destruct (run_decrypts_spec _ _ _ _ _ Ha E) as (_ & a' & Ha' & Hle & _). exists a'. split_and!; [done|done|]. cbn [snd].
  clear Ha Ha' Hle. revert d hits E Hwf. induction calls as [|[[idx data] now] calls IH]; intros d hits E Hwf; cbn [run_decrypts] in E.
  { by simplify_eq. }
  destruct (run_decrypts calls _) as [hits1 d1] eqn:E1. simplify_eq.
  eapply IH; [exact E1|]. by apply record_decrypt_success_wf.
Qed.

(** A new session is always the one sent on; the previous ones stay available for
    decryption, most recent first, up to the cap. *)
Theorem insert_session_spec session d :
  active_session (insert_session session d) = Some session
  ∧ inactive_sessions (insert_session session d) = take MAX_INACTIVE_SESSIONS (sessions d).
Proof.
  unfold insert_session, sessions. split; [done|]. simpl. case_bool_decide; [done|].
  rewrite take_ge; [done|]. rewrite length_app in *. lia.
Qed.

(** ** Refreshing the device list *)

Lemma add_devices_lookup ids (u : UserRecord) id :
  add_devices ids u !! id = if bool_decide (id ∈ ids) then Some device_new else u !! id.
Proof.
  revert u. induction ids as [|i ids IH]; intros u.
  - rewrite bool_decide_eq_false_2 by apply not_elem_of_nil. done.
  - change (add_devices (i :: ids) u) with (add_devices ids (<[i := device_new]> u)). rewrite IH. destruct (decide (id ∈ ids)) as [Hin|Hin].
    + rewrite !bool_decide_eq_true_2; [done|by right|done].
    + rewrite (bool_decide_eq_false_2 (id ∈ ids)) by done. destruct (decide (id = i)) as [->|Hne].
      * rewrite lookup_insert_eq, bool_decide_eq_true_2; [done|by left].
      * rewrite lookup_insert_ne, bool_decide_eq_false_2; [done| |done].
        rewrite elem_of_cons. tauto.
Qed.

(** Whether the second loop removes the device. *)
Definition dropped (now : Timestamp) (u : UserRecord) (id : string) : bool :=
  match u !! id with Some d => negb (keep_device now d) | None => true end.

Lemma drop_devices_spec now ids (u : UserRecord) :
  NoDup ids →
  (drop_devices now ids u).1 = filter (λ id, dropped now u id = true) ids
  ∧ ∀ id, (drop_devices now ids u).2 !! id
          = if bool_decide (id ∈ ids ∧ dropped now u id = true) then None else u !! id.
Proof.
  induction ids as [|i ids IH] using rev_ind; intros Hnd.
  { split; [done|]. intros id. rewrite bool_decide_eq_false_2; [done|]. by intros [?%elem_of_nil _]. }
  apply list.NoDup_app in Hnd as (Hnd & Hdisj & _).
  assert (i ∉ ids) as Hi by (intros Hin; apply (Hdisj i Hin); by left).
  destruct (IH Hnd) as [IH1 IH2]. unfold drop_devices in *. rewrite foldl_app. simpl.
  set (acc := foldl _ _ ids) in *.
  assert (acc.2 !! i = u !! i) as Hui by (rewrite IH2, bool_decide_eq_false_2; [done|tauto]).
  rewrite list.filter_app, list.filter_cons, list.filter_nil, Hui.
  assert (∀ id, bool_decide (id ∈ ids ++ [i] ∧ dropped now u id = true)
    = bool_decide (id ∈ ids ∧ dropped now u id = true) || (bool_decide (id = i) && dropped now u i)) as Hb.
  { intros id. apply eq_bool_prop_intro. rewrite orb_True, andb_True, !bool_decide_spec, elem_of_app,
      list_elem_of_singleton, Is_true_true.
    split; [intros [[?| ->] ?]; auto|intros [[? ?]|[-> ?]]; auto]. }
  assert (dropped now u i = match u !! i with Some d => negb (keep_device now d) | None => true end) as Hdr by done.
  destruct (u !! i) as [d|] eqn:Eu; [destruct (keep_device now d) eqn:Ek|]; simpl in Hdr.
  - rewrite decide_False by congruence. rewrite app_nil_r. split; [done|]. intros id.
    by rewrite Hb, Hdr, andb_false_r, orb_false_r.
  - rewrite decide_True by done. simpl. rewrite IH1. split; [done|]. intros id. rewrite Hb, Hdr, andb_true_r.
    destruct (decide (id = i)) as [->|Hne]; [by rewrite lookup_delete_eq, (bool_decide_eq_true_2 (i = i)), orb_true_r|].
    by rewrite lookup_delete_ne, (bool_decide_eq_false_2 (id = i)), orb_false_r.
  - rewrite decide_True by done. simpl. rewrite IH1. split; [done|]. intros id. rewrite Hb, Hdr, andb_true_r.
    destruct (decide (id = i)) as [->|Hne]; [by rewrite lookup_delete_eq, (bool_decide_eq_true_2 (i = i)), orb_true_r|].
    by rewrite lookup_delete_ne, (bool_decide_eq_false_2 (id = i)), orb_false_r.
Qed.

(** C29. After a refresh: every device the server lists is present, a known one with its
    record untouched and a new one empty; a device the server dropped is present exactly
    if its active session can still receive; the report lists the additions and the
    removals. *)
Theorem refresh_devices_spec server now (u : UserRecord) id :
  let '(changes, u') := refresh_devices server now u in
  u' !! id = (if bool_decide (id ∈ server) then Some (default device_new (u !! id))
              else match u !! id with
                   | Some d => if keep_device now d then Some d else None
                   | None => None
                   end)
  ∧ (id ∈ added changes ↔ id ∈ server ∧ u !! id = None)
  ∧ (id ∈ removed changes ↔ (id ∉ server) ∧ is_Some (u !! id) ∧ u' !! id = None).
Proof.
  unfold refresh_devices.
  set (new_ids := elements (list_to_set server ∖ dom u : gset string)).
  set (old := elements (dom u ∖ list_to_set server : gset string)).
  assert (id ∈ new_ids ↔ id ∈ server ∧ u !! id = None) as Hnew.
  { unfold new_ids. rewrite elem_of_elements, elem_of_difference, elem_of_list_to_set, not_elem_of_dom. done. }
  assert (id ∈ old ↔ (id ∉ server) ∧ is_Some (u !! id)) as Hold.
  { unfold old. rewrite elem_of_elements, elem_of_difference, elem_of_list_to_set, elem_of_dom. tauto. }
  pose proof (drop_devices_spec now old (add_devices new_ids u) (NoDup_elements _)) as [Hd1 Hd2].
  destruct (drop_devices _ _ _) as [gone u']. simpl in *. specialize (Hd2 id).
  assert (add_devices new_ids u !! id = if bool_decide (id ∈ server) then Some (default device_new (u !! id)) else u !! id) as Hadd.
  { rewrite add_devices_lookup. destruct (u !! id) as [d|] eqn:Eu; simpl in *.
    - rewrite (bool_decide_eq_false_2 (id ∈ new_ids)) by (rewrite Hnew; by intros [_ ?]). destruct (bool_decide (id ∈ server)); reflexivity.
    - by rewrite (bool_decide_ext _ _ Hnew), (bool_decide_ext _ (id ∈ server)) by tauto. }
  assert (u' !! id = (if bool_decide (id ∈ server) then Some (default device_new (u !! id))
              else match u !! id with Some d => if keep_device now d then Some d else None | None => None end)) as Hu'.
  { rewrite Hd2. unfold dropped. rewrite Hadd. destruct (decide (id ∈ server)) as [Hs|Hs].
    - rewrite !(bool_decide_eq_true_2 (id ∈ server)) by done. rewrite bool_decide_eq_false_2; [done|]. tauto.
    - rewrite !(bool_decide_eq_false_2 (id ∈ server)) by done. destruct (u !! id) as [d|] eqn:Eu.
      + destruct (keep_device now d); simpl.
        * rewrite bool_decide_eq_false_2; [reflexivity|]. by intros [_ ?].
        * rewrite bool_decide_eq_true_2; [reflexivity|]. split; [apply Hold; eauto|done].
      + by destruct (bool_decide (id ∈ old ∧ true = true)). }
  split_and!; [done|done|]. rewrite Hd1, list_elem_of_filter, Hold, Hu'. unfold dropped. rewrite Hadd.
  destruct (decide (id ∈ server)) as [Hs|Hs]; [tauto|].
  rewrite !(bool_decide_eq_false_2 (id ∈ server)) by done.
  destruct (u !! id) as [d|]; [|split; [by intros (_ & _ & [??])|by intros (_ & [??] & _)]].
  destruct (keep_device now d); simpl; split; intros (?&?&?); split_and!; done.
Qed.


End sesame.
