(* ===== verification/SealedSender.v ===== *)
(** * Sealed sender

    Models [src/protocol/sealed_sender/certificate.rs] (the server and sender
    certificates) and [mod.rs] (the two-layer envelope).  A server signing key is its
    seed; the ephemeral secret and the two AEAD nonces are arguments of [seal]. *)

From S2P Require Import Prelude Foundation Interfaces Kdf Keys AeadRecord.

Definition SEALED_SENDER_STATIC_INFO : bytes := bstr "HushwireSealedSender".
Definition SEALED_SENDER_MESSAGE_INFO : bytes := bstr "HushwireSealedSenderMessage".

Record ServerCertificate : Type := mk_server_cert {
  key_id : ServerKeyId;
  sc_public_key : SigningPublicKey;
  sc_signature : bytes;
}.

Record SealedSenderEnvelope : Type := mk_envelope {
  ephemeral_public : bytes;
  encrypted_static : bytes;
  cert_hash : bytes;
  encrypted_message : bytes;
}.

Section certificates.
Context `{Ed25519}.

Definition verify_ed25519 (key : VerifyingKey) (data signature : bytes) : result () :=
  if bool_decide (length signature = 64%nat) then
    if ed_verify key data signature then Ok ()
    else Err (InvalidCertificate "signature verification failed")
  else Err InvalidSignature.

Definition server_cert_data (id : ServerKeyId) (pk : SigningPublicKey) : bytes := be_bytes 4 id ++ pk.

Definition server_certificate_new (id : ServerKeyId) (signing_key : bytes) : ServerCertificate :=
  let pk := vk_to_bytes (verifying_key signing_key) in
  mk_server_cert id pk (ed_sign signing_key (server_cert_data id pk)).

Definition verify_self_signed (c : ServerCertificate) : result () :=
  vk ← ok_or (vk_from_bytes (sc_public_key c)) (InvalidCertificate "invalid server public key");
  verify_ed25519 vk (server_cert_data (key_id c) (sc_public_key c)) (sc_signature c).

Record SenderCertificate : Type := mk_sender_cert {
  sender_uuid : SenderUuid;
  sender_device_id : DeviceId;
  sc_identity_key : IdentityPublicKey;
  expiration : Timestamp;
  server_certificate : ServerCertificate;
  server_signature : bytes;
}.

Definition signable_data (uuid : SenderUuid) (dev : DeviceId) (ik : IdentityPublicKey) (exp : Timestamp) : bytes :=
  uuid ++ be_bytes 4 dev ++ as_bytes ik ++ be_bytes 8 exp.

Definition sender_certificate_new (uuid : SenderUuid) (dev : DeviceId) (ik : IdentityPublicKey) (exp : Timestamp)
    (server_signing_key : bytes) (sc : ServerCertificate) : SenderCertificate :=
  let cert_data := signable_data uuid dev ik exp in
  mk_sender_cert uuid dev ik exp sc (ed_sign server_signing_key cert_data).

Definition validate (c : SenderCertificate) (trust_root : VerifyingKey) (now : Timestamp) : result () :=
  if bool_decide (expiration c ≤ now) then Err ExpiredCertificate
  else
    _ ← verify_self_signed (server_certificate c);
    server_vk ← ok_or (vk_from_bytes (sc_public_key (server_certificate c))) (InvalidCertificate "invalid server key");
    if bool_decide (vk_to_bytes server_vk ≠ vk_to_bytes trust_root)
    then Err (InvalidCertificate "server certificate not signed by trust root")
    else
      let cert_data := signable_data (sender_uuid c) (sender_device_id c) (sc_identity_key c) (expiration c) in
      verify_ed25519 server_vk cert_data (server_signature c).

Record InnerMessage : Type := mk_inner { sender_certificate : SenderCertificate; content : bytes }.

Record UnsealedMessage : Type := mk_unsealed {
  u_sender_uuid : SenderUuid;
  u_sender_device_id : DeviceId;
  u_sender_identity : IdentityPublicKey;
  u_content : bytes;
}.

Context `{!Ed25519Ok}.

Lemma vk_to_bytes_inj v w : vk_to_bytes v = vk_to_bytes w → v = w.
Proof.
  intros E. pose proof (vk_from_to v) as Hv. rewrite E, vk_from_to in Hv. by injection Hv.
Qed.

Lemma verify_ed25519_Ok key data sg :
  verify_ed25519 key data sg = Ok () ↔ length sg = 64%nat ∧ ed_verify key data sg = true.
Proof.
  unfold verify_ed25519. case_bool_decide; [|split; [done|by intros [? _]]].
  destruct (ed_verify key data sg); split; try done; by intros [_ ?].
Qed.

Lemma verify_ed25519_sign k data : verify_ed25519 (verifying_key k) data (ed_sign k data) = Ok ().
Proof. apply verify_ed25519_Ok. split; [apply ed_sign_length|apply ed_verify_sign]. Qed.

Lemma self_signed_new id k : verify_self_signed (server_certificate_new id k) = Ok ().
Proof. unfold verify_self_signed, server_certificate_new. simpl. rewrite vk_from_to. apply verify_ed25519_sign. Qed.

(** A certificate validates exactly when it has not expired, its server certificate is a
    self-signed certificate of the trust root's key, and the trust root signed the
    sender fields. *)
Lemma validate_Ok c root now :
  validate c root now = Ok () ↔
  now < expiration c
  ∧ verify_self_signed (server_certificate c) = Ok ()
  ∧ vk_from_bytes (sc_public_key (server_certificate c)) = Some root
  ∧ length (server_signature c) = 64%nat
  ∧ ed_verify root (signable_data (sender_uuid c) (sender_device_id c) (sc_identity_key c) (expiration c))
      (server_signature c) = true.
Proof.
  unfold validate. case_bool_decide as He; [split; [done|lia]|]. split.
  - intros Hv. apply result_bind_Ok in Hv as ([] & Hs & Hv). apply result_bind_Ok in Hv as (vk & Hvk & Hv).
    apply ok_or_Ok in Hvk. case_bool_decide as Hr; [done|].
    assert (vk = root) as ->.
    { apply vk_to_bytes_inj. destruct (decide (vk_to_bytes vk = vk_to_bytes root)); [done|tauto]. }
    apply verify_ed25519_Ok in Hv as [??]. split_and!; [lia|done..].
  - intros (Hlt & Hs & Hvk & Hl & Hv). rewrite Hs, Hvk. simpl.
    rewrite bool_decide_eq_false_2 by tauto. by apply verify_ed25519_Ok.
Qed.

(** C38. What is signed determines the sender, the device, the identity and the expiry. *)
Theorem signable_data_injective u1 u2 d1 d2 i1 i2 e1 e2 :
  length u1 = 16%nat → length u2 = 16%nat → in_u32 d1 → in_u32 d2 → in_u64 e1 → in_u64 e2 →
  signable_data u1 d1 i1 e1 = signable_data u2 d2 i2 e2 → u1 = u2 ∧ d1 = d2 ∧ i1 = i2 ∧ e1 = e2.
Proof.
  unfold in_u32, in_u64, u32_max, u64_max. intros Hu1 Hu2 Hd1 Hd2 He1 He2 E. unfold signable_data in E.
  apply app_inj_1 in E as [-> E]; [|congruence].
  apply app_inj_1 in E as [Ed E]; [|by rewrite !length_be_bytes].
  apply app_inj_1 in E as [Ei Ee]; [|unfold as_bytes; by rewrite !vk_to_bytes_length].
  apply be_bytes_inj in Ed; [|change (256 ^ Z.of_nat 4) with 4294967296; lia..].
  apply be_bytes_inj in Ee; [|change (256 ^ Z.of_nat 8) with 18446744073709551616; lia..].
  split_and!; [done|done| |done]. apply identity_eqb_eq. unfold identity_eqb. by rewrite bool_decide_eq_true_2.
Qed.

End certificates.

(** ** Envelopes *)

Section sealed_sender.
Context `{Hashes} `{X25519} `{Ed25519} `{Aead}.
Context `{Postcard SealedSenderEnvelope} `{Postcard SenderCertificate} `{Postcard InnerMessage}.

Definition derive_layer1_keys (layer1_dh salt : bytes) : bytes * bytes :=
  let material := hkdf_sha256 layer1_dh (Some salt) SEALED_SENDER_STATIC_INFO 64 in
  (take 32 material, take 32 (drop 32 material)).

(** The layer-2 key: [HKDF(chain_key || DH(sender, recipient))]. *)
Definition derive_message_key (chain_key e_b salt : bytes) : bytes :=
  hkdf_sha256 (chain_key ++ e_b) (Some salt) SEALED_SENDER_MESSAGE_INFO 32.

Definition envelope_ad (eph_public enc_static hash : bytes) : bytes := eph_public ++ enc_static ++ hash.

Definition seal (eph_bytes nonce1 nonce2 : bytes) (sender_identity : IdentityKeyPair)
    (sender_cert : SenderCertificate) (content : bytes) (recipient_identity : IdentityPublicKey) : result bytes :=
  let recipient_x25519 := to_x25519 recipient_identity in
  let eph_public := x25519_public eph_bytes in
  let e_a := diffie_hellman eph_bytes recipient_x25519 in
  let salt := eph_public in
  let '(chain_key, static_cipher_key) := derive_layer1_keys e_a salt in
  enc_static ← encrypt nonce1 static_cipher_key (x25519_public_key sender_identity) eph_public;
  let e_b := diffie_hellman (x25519_private_key sender_identity) recipient_x25519 in
  let message_key := derive_message_key chain_key e_b salt in
  inner_bytes ← map_err Serialization (to_allocvec (mk_inner sender_cert content));
  cert_bytes ← map_err Serialization (to_allocvec sender_cert);
  let hash := sha256 cert_bytes in
  enc_message ← encrypt nonce2 message_key inner_bytes (envelope_ad eph_public enc_static hash);
  map_err Serialization (to_allocvec (mk_envelope eph_public enc_static hash enc_message)).

(** The checks on the decrypted inner message. *)
Definition accept_inner (inner : InnerMessage) (hash sender_x25519 : bytes) (trust_root : VerifyingKey)
    (now : Timestamp) : result UnsealedMessage :=
  let cert := sender_certificate inner in
  cert_bytes ← map_err Serialization (to_allocvec cert);
  if bool_decide (sha256 cert_bytes ≠ hash) then Err (InvalidCertificate "certificate hash mismatch")
  else
    _ ← validate cert trust_root now;
    if bool_decide (to_x25519 (sc_identity_key cert) ≠ sender_x25519)
    then Err (InvalidCertificate "sender static key does not match certificate identity")
    else Ok (mk_unsealed (sender_uuid cert) (sender_device_id cert) (sc_identity_key cert) (content inner)).

Definition unseal (envelope_bytes : bytes) (recipient_identity : IdentityKeyPair) (trust_root : VerifyingKey)
    (now : Timestamp) : result UnsealedMessage :=
  envelope ← (map_err Serialization (from_bytes envelope_bytes) : result SealedSenderEnvelope);
  let eph_public := ephemeral_public envelope in
  let our_x25519 := x25519_private_key recipient_identity in
  let e_a := diffie_hellman our_x25519 eph_public in
  let salt := eph_public in
  let '(chain_key, static_cipher_key) := derive_layer1_keys e_a salt in
  sender_x25519 ← decrypt static_cipher_key (encrypted_static envelope) eph_public;
  if bool_decide (length sender_x25519 ≠ 32%nat) then Err InvalidKey
  else
    let e_b := diffie_hellman our_x25519 sender_x25519 in
    let message_key := derive_message_key chain_key e_b salt in
    let ad := envelope_ad eph_public (encrypted_static envelope) (cert_hash envelope) in
    inner_bytes ← decrypt message_key (encrypted_message envelope) ad;
    inner ← (map_err Serialization (from_bytes inner_bytes) : result InnerMessage);
    accept_inner inner (cert_hash envelope) sender_x25519 trust_root now.

(** ** Properties *)

(** C26. Whatever the envelope, what [unseal] returns is taken from the inner message that
    the envelope's second layer opens to, and its sender from the certificate in it: a
    certificate with the hash the envelope names, signed by the trust root, not expired,
    whose identity key is the static key the first layer opens to. *)
Theorem unseal_authentic `{!Ed25519Ok} bs r root now out :
  unseal bs r root now = Ok out →
  ∃ env chain_key static_key inner_bytes inner cert_bytes,
    let cert := sender_certificate inner in
    let eph := ephemeral_public env in
    let sender_x25519 := to_x25519 (u_sender_identity out) in
    from_bytes bs = Ok env
    ∧ derive_layer1_keys (diffie_hellman (x25519_private_key r) eph) eph = (chain_key, static_key)
    ∧ decrypt static_key (encrypted_static env) eph = Ok sender_x25519
    ∧ decrypt (derive_message_key chain_key (diffie_hellman (x25519_private_key r) sender_x25519) eph)
        (encrypted_message env) (envelope_ad eph (encrypted_static env) (cert_hash env)) = Ok inner_bytes
    ∧ from_bytes inner_bytes = Ok inner ∧ content inner = u_content out
    ∧ to_allocvec cert = Ok cert_bytes ∧ sha256 cert_bytes = cert_hash env
    ∧ validate cert root now = Ok () ∧ now < expiration cert
    ∧ ed_verify root (signable_data (u_sender_uuid out) (u_sender_device_id out) (u_sender_identity out)
        (expiration cert)) (server_signature cert) = true.
Proof.
  unfold unseal. intros Hu. apply result_bind_Ok in Hu as (env & Henv & Hu).
  assert (from_bytes bs = Ok env) as Hb by (by destruct (from_bytes bs); simplify_eq/=).
  destruct (derive_layer1_keys _ _) as [chain_key static_key] eqn:El.
  apply result_bind_Ok in Hu as (sx & Hsx & Hu). case_bool_decide; [done|].
  apply result_bind_Ok in Hu as (ib & Hib & Hu). apply result_bind_Ok in Hu as (inner & Hinner & Hu).
  assert (from_bytes ib = Ok inner) as Hin by (by destruct (from_bytes ib); simplify_eq/=).
  unfold accept_inner in Hu. apply result_bind_Ok in Hu as (cb & Hcb & Hu).
  assert (to_allocvec (sender_certificate inner) = Ok cb) as Hcert by (by destruct (to_allocvec (sender_certificate inner)); simplify_eq/=).
  destruct (decide (sha256 cb = cert_hash env)) as [Hhash|Hh]; [|by rewrite bool_decide_eq_true_2 in Hu].
  rewrite bool_decide_eq_false_2 in Hu by tauto.
  apply result_bind_Ok in Hu as ([] & Hv & Hu).
  destruct (decide (to_x25519 (sc_identity_key (sender_certificate inner)) = sx)) as [<-|];
    [|by rewrite bool_decide_eq_true_2 in Hu].
  rewrite bool_decide_eq_false_2 in Hu by tauto. injection Hu as <-.
  pose proof (proj1 (validate_Ok _ _ _) Hv) as (Hlt & _ & _ & _ & Hsig).
  exists env, chain_key, static_key, ib, inner, cb. simpl. by split_and!.
Qed.

Context `{!HashesOk} `{!X25519Ok} `{!Ed25519Ok} `{!MontgomeryOk} `{!AeadOk}.
Context `{!PostcardOk SealedSenderEnvelope} `{!PostcardOk SenderCertificate} `{!PostcardOk InnerMessage}.

(** Both layers open; what is left is the validation of the certificate. *)
Lemma seal_opens eph n1 n2 sender recipient cert msg :
  length n1 = NONCE_SIZE → length n2 = NONCE_SIZE → sc_identity_key cert = public_key sender →
  ∃ bs, seal eph n1 n2 sender cert msg (public_key recipient) = Ok bs
    ∧ ∀ root now, unseal bs recipient root now
      = (_ ← validate cert root now;
         Ok (mk_unsealed (sender_uuid cert) (sender_device_id cert) (public_key sender) msg)).
Proof.
  intros Hn1 Hn2 Hid. unfold seal.
  assert (diffie_hellman (x25519_private_key recipient) (x25519_public eph)
          = diffie_hellman eph (to_x25519 (public_key recipient))) as Hea.
  { change (to_x25519 (public_key recipient)) with (x25519_public_key recipient).
    rewrite x25519_public_key_eq. apply dh_comm. }
  assert (diffie_hellman (x25519_private_key recipient) (x25519_public_key sender)
          = diffie_hellman (x25519_private_key sender) (to_x25519 (public_key recipient))) as Heb.
  { change (to_x25519 (public_key recipient)) with (x25519_public_key recipient).
    rewrite !x25519_public_key_eq. apply dh_comm. }
  destruct (derive_layer1_keys _ _) as [ck sk] eqn:El.
  destruct (encrypt_decrypt n1 sk (x25519_public_key sender) (x25519_public eph) Hn1) as (es & -> & Hes & _).
  destruct (postcard_roundtrip (mk_inner cert msg)) as (ib & -> & Hib).
  destruct (postcard_roundtrip cert) as (cb & Hcb & _). cbn [mbind result_bind map_err]. rewrite Hcb.
  cbn [mbind result_bind map_err].
  set (mk := derive_message_key ck _ _). set (ad := envelope_ad _ _ _).
  destruct (encrypt_decrypt n2 mk ib ad Hn2) as (em & -> & Hem & _). cbn [mbind result_bind].
  destruct (postcard_roundtrip (mk_envelope (x25519_public eph) es (sha256 cb) em)) as (bs & -> & Hbs).
  exists bs. split; [done|]. intros root now. unfold unseal. rewrite Hbs. cbn [mbind result_bind map_err].
  cbn [ephemeral_public encrypted_static cert_hash encrypted_message].
  rewrite Hea, El, Hes. cbn [mbind result_bind].
  rewrite bool_decide_eq_false_2 by (rewrite x25519_public_key_eq, x25519_public_length; lia).
  rewrite Heb. fold mk ad. rewrite Hem. cbn [mbind result_bind]. rewrite Hib. cbn [mbind result_bind map_err].
  unfold accept_inner. cbn [sender_certificate content]. rewrite Hcb. cbn [mbind result_bind map_err].
  rewrite bool_decide_eq_false_2 by tauto. destruct (validate cert root now); [|done]. cbn [mbind result_bind].
  rewrite bool_decide_eq_false_2; [by rewrite Hid|]. rewrite Hid. tauto.
Qed.

Lemma issued_validates id k uuid dev ik exp now :
  validate (sender_certificate_new uuid dev ik exp k (server_certificate_new id k)) (verifying_key k) now
  = if bool_decide (exp ≤ now) then Err ExpiredCertificate else Ok ().
Proof.
  case_bool_decide; [unfold validate; by rewrite bool_decide_eq_true_2|]. apply validate_Ok.
  split_and!; [simpl; lia|apply self_signed_new|apply vk_from_to|apply ed_sign_length|apply ed_verify_sign].
Qed.

(** C25. Sealing under a certificate the server issued, end to end: the recipient unseals the
    content and the sender's identity until the certificate expires, from then on gets
    the expiry error, and under any other trust root never accepts. *)
Theorem seal_unseal id k uuid dev exp eph n1 n2 sender recipient msg :
  length n1 = NONCE_SIZE → length n2 = NONCE_SIZE →
  let cert := sender_certificate_new uuid dev (public_key sender) exp k (server_certificate_new id k) in
  ∃ bs, seal eph n1 n2 sender cert msg (public_key recipient) = Ok bs
    ∧ (∀ now, unseal bs recipient (verifying_key k) now
         = if bool_decide (exp ≤ now) then Err ExpiredCertificate
           else Ok (mk_unsealed uuid dev (public_key sender) msg))
    ∧ ∀ root now, root ≠ verifying_key k → is_ok (unseal bs recipient root now) = false.
Proof.
  intros Hn1 Hn2 cert. destruct (seal_opens eph n1 n2 sender recipient cert msg Hn1 Hn2 eq_refl) as (bs & Hs & Hu).
  exists bs. split_and!; [done| |].
  - intros now. rewrite Hu. unfold cert. rewrite issued_validates. by case_bool_decide.
  - intros root now Hr. rewrite Hu. destruct (validate cert root now) as [[]|] eqn:Ev; [|done].
    apply validate_Ok in Ev as (_ & _ & Hvk & _). unfold cert in Hvk. simpl in Hvk. rewrite vk_from_to in Hvk. by simplify_eq.
Qed.

(** ** What the layer-2 Diffie-Hellman does not authenticate *)

(** An envelope made with the recipient's secret in place of the sender's: the second
    Diffie-Hellman is computed from the recipient's side, with the identity key that the
    certificate names. *)
Definition forge (eph_bytes nonce1 nonce2 : bytes) (recipient : IdentityKeyPair) (cert : SenderCertificate)
    (content : bytes) : result bytes :=
  let eph_public := x25519_public eph_bytes in
  let sender_x25519 := to_x25519 (sc_identity_key cert) in
  let '(chain_key, static_cipher_key) :=
    derive_layer1_keys (diffie_hellman eph_bytes (to_x25519 (public_key recipient))) eph_public in
  enc_static ← encrypt nonce1 static_cipher_key sender_x25519 eph_public;
  let message_key := derive_message_key chain_key (diffie_hellman (x25519_private_key recipient) sender_x25519) eph_public in
  inner_bytes ← map_err Serialization (to_allocvec (mk_inner cert content));
  cert_bytes ← map_err Serialization (to_allocvec cert);
  let hash := sha256 cert_bytes in
  enc_message ← encrypt nonce2 message_key inner_bytes (envelope_ad eph_public enc_static hash);
  map_err Serialization (to_allocvec (mk_envelope eph_public enc_static hash enc_message)).

(** C39. The holder of the recipient's secret key can forge: from a sender's certificate
    (which every message to the recipient carries) it makes, for any content, exactly the
    envelope the sender would have made, and the recipient accepts it as the sender's.
    The sender's secret is not used.  The documentation of [SealedSenderEnvelope] says
    that the second Diffie-Hellman prevents this. *)
Theorem recipient_key_forges eph n1 n2 sender recipient cert msg root now :
  length n1 = NONCE_SIZE → length n2 = NONCE_SIZE →
  sc_identity_key cert = public_key sender → validate cert root now = Ok () →
  ∃ bs, forge eph n1 n2 recipient cert msg = Ok bs
    ∧ seal eph n1 n2 sender cert msg (public_key recipient) = Ok bs
    ∧ unseal bs recipient root now
      = Ok (mk_unsealed (sender_uuid cert) (sender_device_id cert) (sc_identity_key cert) msg).
Proof.
  intros Hn1 Hn2 Hid Hval.
  assert (forge eph n1 n2 recipient cert msg = seal eph n1 n2 sender cert msg (public_key recipient)) as Hf.
  { unfold forge, seal. rewrite Hid. change (to_x25519 (public_key sender)) with (x25519_public_key sender).
    change (to_x25519 (public_key recipient)) with (x25519_public_key recipient). rewrite !x25519_public_key_eq.
    by rewrite (dh_comm (x25519_private_key recipient) (x25519_private_key sender)). }
  destruct (seal_opens eph n1 n2 sender recipient cert msg Hn1 Hn2 Hid) as (bs & Hs & Hu).
  exists bs. rewrite Hf, Hu, Hval, Hid. done.
Qed.

End sealed_sender.
