(* ===== verification/Recovery.v ===== *)
(** * Account recovery and storage keys

    Models [src/hushwire/recovery.rs] (recovery keys, key wrapping and identity backups)
    and [src/hushwire/storage_key.rs].  The BIP39 codec and Argon2 are interfaces. *)

From S2P Require Import Prelude Foundation Interfaces Kdf.

(** ** The libraries *)

(** [bip39]: the mnemonic of an entropy, and the entropy of a parsed mnemonic. *)
Class Bip39 : Type := {
  mnemonic_from_entropy : bytes → Result string string;
  mnemonic_to_entropy : string → Result string bytes;
}.

Class Bip39Ok `{Bip39} : Prop := {
  mnemonic_roundtrip e :
    length e = 32%nat → ∃ w, mnemonic_from_entropy e = Ok w ∧ mnemonic_to_entropy w = Ok e;
}.

(** [argon2]: parameter validation (memory, iterations, lanes, output length) and
    Argon2id version 0x13 (password, salt). *)
Class Argon2 : Type := {
  Argon2Params : Type;
  argon2_params : Z → Z → Z → nat → Result string Argon2Params;
  argon2id : Argon2Params → bytes → bytes → Result string bytes;
}.

(** ** Recovery keys *)

Definition RECOVERY_STORAGE_INFO : bytes := bstr "hushwire-recovery-storage-v1".
Definition RECOVERY_SERVER_INFO : bytes := bstr "hushwire-recovery-server-v1".
Definition WRAP_MAGIC : bytes := bstr "HWRK".
Definition BACKUP_MAGIC : bytes := bstr "HWIB".
Definition WRAP_VERSION : byte := x01.
Definition NONCE_LEN : nat := 12.
Definition STORAGE_KEY_LEN : nat := 32.
Definition WRAP_HEADER_SIZE : nat := length WRAP_MAGIC + 1 + NONCE_LEN.
Definition SALT_PREFIX : bytes := bstr "hushwire-storage-v1:".

Record RecoveryKey : Type := mk_recovery { recovery_bytes : bytes }.

Definition recovery_generate (rng : bytes) : RecoveryKey := mk_recovery rng.
Definition recovery_from_bytes (bs : bytes) : RecoveryKey := mk_recovery bs.
Definition recovery_as_bytes (k : RecoveryKey) : bytes := recovery_bytes k.

Definition build_aad (magic : bytes) : bytes := magic ++ [WRAP_VERSION].

Section recovery.
Context `{Hashes} `{Aead} `{Bip39} `{Argon2}.

Definition to_mnemonic (k : RecoveryKey) : result string :=
  map_err (λ e, StorageError ("BIP39 encode failed: " +:+ e)) (mnemonic_from_entropy (recovery_bytes k)).

Definition from_mnemonic (words : string) : result RecoveryKey :=
  entropy ← map_err (λ e, StorageError ("BIP39 decode failed: " +:+ e)) (mnemonic_to_entropy words);
  if bool_decide (length entropy ≠ 32%nat)
  then Err (StorageError ("Expected 32-byte entropy, got " +:+ pretty (Z.of_nat (length entropy)) +:+ " bytes"))
  else Ok (mk_recovery (take 32 entropy)).

Definition derive_hkdf_key (ikm salt info : bytes) : bytes := hkdf_expand (Some salt) ikm info 32.

Definition derive_wrapping_key (k : RecoveryKey) (username : bytes) : bytes :=
  derive_hkdf_key (recovery_bytes k) username RECOVERY_STORAGE_INFO.
Definition derive_server_verifier (k : RecoveryKey) (username : bytes) : bytes :=
  derive_hkdf_key (recovery_bytes k) username RECOVERY_SERVER_INFO.

Definition wrap_storage_key (nonce_bytes wrapping_key storage_key : bytes) : result bytes :=
  let aad := build_aad WRAP_MAGIC in
  ct ← ok_or (chacha_encrypt wrapping_key nonce_bytes storage_key aad)
             (EncryptionFailed ("Key wrapping failed: " +:+ aead_error));
  Ok (WRAP_MAGIC ++ [WRAP_VERSION] ++ nonce_bytes ++ ct).

Definition unwrap_storage_key (wrapping_key wrapped : bytes) : result bytes :=
  if bool_decide (length wrapped < WRAP_HEADER_SIZE)%nat then Err (DecryptionFailed "Wrapped key too short")
  else if bool_decide (take (length WRAP_MAGIC) wrapped ≠ WRAP_MAGIC)
  then Err (DecryptionFailed "Invalid wrapped key magic")
  else
    let version := nth (length WRAP_MAGIC) wrapped x00 in
    if bool_decide (version ≠ WRAP_VERSION)
    then Err (DecryptionFailed ("Unsupported wrap version: " +:+ pretty (Z_of_byte version)))
    else
      let nonce_start := (length WRAP_MAGIC + 1)%nat in
      let nonce := take NONCE_LEN (drop nonce_start wrapped) in
      let ct := drop (nonce_start + NONCE_LEN) wrapped in
      plaintext ← ok_or (chacha_decrypt wrapping_key nonce ct (build_aad WRAP_MAGIC))
                        (DecryptionFailed ("Key unwrapping failed: " +:+ aead_error));
      if bool_decide (length plaintext = STORAGE_KEY_LEN) then Ok plaintext
      else Err (DecryptionFailed ("Unwrapped key wrong size: expected " +:+ pretty (Z.of_nat STORAGE_KEY_LEN)
                  +:+ ", got " +:+ pretty (Z.of_nat (length plaintext)))).

Definition wrap_identity_backup (nonce_bytes wrapping_key identity_secret : bytes) : result bytes :=
  let aad := build_aad BACKUP_MAGIC in
  ct ← ok_or (chacha_encrypt wrapping_key nonce_bytes identity_secret aad)
             (EncryptionFailed ("Identity backup wrapping failed: " +:+ aead_error));
  Ok (BACKUP_MAGIC ++ [WRAP_VERSION] ++ nonce_bytes ++ ct).

Definition unwrap_identity_backup (wrapping_key wrapped : bytes) : result bytes :=
  let header_size := (length BACKUP_MAGIC + 1 + NONCE_LEN)%nat in
  if bool_decide (length wrapped < header_size)%nat then Err (DecryptionFailed "Identity backup too short")
  else if bool_decide (take (length BACKUP_MAGIC) wrapped ≠ BACKUP_MAGIC)
  then Err (DecryptionFailed "Invalid identity backup magic")
  else
    let version := nth (length BACKUP_MAGIC) wrapped x00 in
    if bool_decide (version ≠ WRAP_VERSION)
    then Err (DecryptionFailed ("Unsupported identity backup version: " +:+ pretty (Z_of_byte version)))
    else
      let nonce_start := (length BACKUP_MAGIC + 1)%nat in
      let nonce := take NONCE_LEN (drop nonce_start wrapped) in
      let ct := drop (nonce_start + NONCE_LEN) wrapped in
      ok_or (chacha_decrypt wrapping_key nonce ct (build_aad BACKUP_MAGIC))
            (DecryptionFailed ("Identity backup unwrapping failed: " +:+ aead_error)).

(** [derive_storage_key], with the parameters of a release build. *)
Definition derive_storage_key (username password : bytes) : result bytes :=
  params ← map_err (λ e, StorageError ("Argon2 param error: " +:+ e)) (argon2_params (64 * 1024) 3 1 32);
  let salt := SALT_PREFIX ++ username in
  map_err (λ e, StorageError ("Key derivation failed: " +:+ e)) (argon2id params password salt).

(** ** Properties *)

(** The blob layout shared by both formats: parsing inverts framing. *)
Lemma framed_parts magic nonce ct :
  length magic = 4%nat → length nonce = NONCE_LEN →
  let w := magic ++ [WRAP_VERSION] ++ nonce ++ ct in
  (WRAP_HEADER_SIZE ≤ length w)%nat ∧ take 4 w = magic ∧ nth 4 w x00 = WRAP_VERSION
  ∧ take NONCE_LEN (drop 5 w) = nonce ∧ drop (5 + NONCE_LEN) w = ct.
Proof.
  intros Hm Hn w. destruct magic as [|a [|b [|c [|d []]]]]; try done.
  unfold w, WRAP_HEADER_SIZE, NONCE_LEN in *. cbn [app]. split_and!; [|done|done| |].
  - simpl. rewrite length_app. lia.
  - simpl drop. by apply take_app_length'.
  - rewrite <-drop_drop. simpl drop. by apply drop_app_length'.
Qed.

Context `{!AeadOk}.

(** A storage key wrapped under a recovery key is recovered; the blob is 65 bytes, and it
    is not accepted as an identity backup. *)
Lemma storage_key_roundtrip nonce wk key :
  length nonce = NONCE_LEN → length key = STORAGE_KEY_LEN →
  ∃ w, wrap_storage_key nonce wk key = Ok w ∧ unwrap_storage_key wk w = Ok key
    ∧ length w = 65%nat
    ∧ ∀ wk', unwrap_identity_backup wk' w = Err (DecryptionFailed "Invalid identity backup magic").
Proof.
  intros Hn Hk. unfold wrap_storage_key.
  destruct (chacha_encrypt_ok wk nonce key (build_aad WRAP_MAGIC)) as [ct Hct]. rewrite Hct.
  cbn [mbind result_bind ok_or]. destruct (framed_parts WRAP_MAGIC nonce ct eq_refl Hn) as (Hl & Hm & Hv & Hno & Hc).
  eexists. split; [done|]. set (w := WRAP_MAGIC ++ _) in *. split_and!.
  - unfold unwrap_storage_key. rewrite bool_decide_eq_false_2 by lia.
    change (length WRAP_MAGIC) with 4%nat. rewrite Hm, (bool_decide_eq_false_2 (WRAP_MAGIC ≠ WRAP_MAGIC)) by tauto.
    rewrite Hv, (bool_decide_eq_false_2 (WRAP_VERSION ≠ WRAP_VERSION)) by tauto.
    change (4 + 1)%nat with 5%nat. rewrite Hno, Hc. rewrite (chacha_decrypt_encrypt _ _ _ _ _ Hct). simpl.
    by rewrite bool_decide_eq_true_2.
  - unfold w. rewrite !length_app, (chacha_length _ _ _ _ _ Hct), Hn, Hk. done.
  - intros wk'. unfold unwrap_identity_backup.
    rewrite bool_decide_eq_false_2 by (intros Hlt; by apply (Nat.lt_irrefl WRAP_HEADER_SIZE), (Nat.le_lt_trans _ (length w))).
    change (length BACKUP_MAGIC) with 4%nat. rewrite Hm. by rewrite bool_decide_eq_true_2.
Qed.

(** An identity backup of any length is recovered, and is not accepted as a wrapped
    storage key. *)
Lemma identity_backup_roundtrip nonce wk secret :
  length nonce = NONCE_LEN →
  ∃ w, wrap_identity_backup nonce wk secret = Ok w ∧ unwrap_identity_backup wk w = Ok secret
    ∧ ∀ wk', unwrap_storage_key wk' w = Err (DecryptionFailed "Invalid wrapped key magic").
Proof.
  intros Hn. unfold wrap_identity_backup.
  destruct (chacha_encrypt_ok wk nonce secret (build_aad BACKUP_MAGIC)) as [ct Hct]. rewrite Hct.
  cbn [mbind result_bind ok_or]. destruct (framed_parts BACKUP_MAGIC nonce ct eq_refl Hn) as (Hl & Hm & Hv & Hno & Hc).
  eexists. split; [done|]. set (w := BACKUP_MAGIC ++ _) in *. split.
  - unfold unwrap_identity_backup.
    rewrite bool_decide_eq_false_2 by (intros Hlt; by apply (Nat.lt_irrefl WRAP_HEADER_SIZE), (Nat.le_lt_trans _ (length w))).
    change (length BACKUP_MAGIC) with 4%nat. rewrite Hm, (bool_decide_eq_false_2 (BACKUP_MAGIC ≠ BACKUP_MAGIC)) by tauto.
    rewrite Hv, (bool_decide_eq_false_2 (WRAP_VERSION ≠ WRAP_VERSION)) by tauto.
    change (4 + 1)%nat with 5%nat. rewrite Hno, Hc. by rewrite (chacha_decrypt_encrypt _ _ _ _ _ Hct).
  - intros wk'. unfold unwrap_storage_key. rewrite bool_decide_eq_false_2 by lia.
    change (length WRAP_MAGIC) with 4%nat. rewrite Hm. by rewrite bool_decide_eq_true_2.
Qed.

(** A recovery key is recovered from its mnemonic, and a mnemonic of any other entropy
    length is refused. *)
Lemma mnemonic_recovers `{!Bip39Ok} k :
  length (recovery_bytes k) = 32%nat → ∃ w, to_mnemonic k = Ok w ∧ from_mnemonic w = Ok k.
Proof.
  intros Hl. destruct (mnemonic_roundtrip (recovery_bytes k) Hl) as (w & He & Hd). exists w.
  unfold to_mnemonic, from_mnemonic. rewrite He, Hd. split; [done|]. simpl.
  rewrite bool_decide_eq_false_2 by tauto. rewrite take_ge by lia. by destruct k.
Qed.

(** C37. Account recovery from the written-down words.  The storage key and the identity
    secret a client wrapped under its recovery key are both restored by the key read back
    from the mnemonic, under the same user name; and neither blob is accepted in the
    place of the other, whatever the key. *)
Theorem account_recovery `{!Bip39Ok} k username n1 n2 key secret :
  length (recovery_bytes k) = 32%nat → length n1 = NONCE_LEN → length n2 = NONCE_LEN →
  length key = STORAGE_KEY_LEN →
  ∃ words k' wrapped backup,
    to_mnemonic k = Ok words ∧ from_mnemonic words = Ok k'
    ∧ wrap_storage_key n1 (derive_wrapping_key k username) key = Ok wrapped
    ∧ wrap_identity_backup n2 (derive_wrapping_key k username) secret = Ok backup
    ∧ unwrap_storage_key (derive_wrapping_key k' username) wrapped = Ok key
    ∧ unwrap_identity_backup (derive_wrapping_key k' username) backup = Ok secret
    ∧ derive_server_verifier k' username = derive_server_verifier k username
    ∧ ∀ wk, unwrap_identity_backup wk wrapped = Err (DecryptionFailed "Invalid identity backup magic")
            ∧ unwrap_storage_key wk backup = Err (DecryptionFailed "Invalid wrapped key magic").
Proof.
  intros Hk Hn1 Hn2 Hl. destruct (mnemonic_recovers k Hk) as (words & Hw & Hr).
  destruct (storage_key_roundtrip n1 (derive_wrapping_key k username) key Hn1 Hl) as (wrapped & ? & ? & _ & ?).
  destruct (identity_backup_roundtrip n2 (derive_wrapping_key k username) secret Hn2) as (backup & ? & ? & ?).
  exists words, k, wrapped, backup. split_and!; auto.
Qed.

Lemma from_mnemonic_wf w k : from_mnemonic w = Ok k → length (recovery_bytes k) = 32%nat.
Proof.
  unfold from_mnemonic. intros Hm. apply result_bind_Ok in Hm as (e & _ & Hm).
  case_bool_decide as Hl; [done|]. injection Hm as <-. simpl. rewrite length_take. lia.
Qed.

End recovery.
