(* ===== verification/Envelope.v ===== *)
(** * Envelope verification, trust roots and organization signing keys

    Models [src/hushwire/envelope.rs], [src/hushwire/trust_root.rs] and
    [src/hushwire/org/signing.rs].  The current time and the sender-signature callback
    are arguments. *)

From S2P Require Import Prelude Foundation Interfaces Kdf.

Record EnvelopeVerificationInput : Type := mk_verification_input {
  cert_signing_bytes : bytes;
  cert_server_signature : bytes;
  cert_expires_at_epoch_secs : Z;
  cert_user_id : bytes;
  envelope_sender_id : bytes;
  envelope_signing_bytes : bytes;
  sender_identity_key : bytes;
  sender_signature : bytes;
}.

(** ** Trust roots *)

(** The trait [TrustRoot]. *)
Class TrustRoot (T : Type) : Type := { trust_root_key_bytes : T → bytes }.

Record MockTrustRoot : Type := mk_mock_root { mock_bytes : bytes }.
Definition mock_root_new (bs : bytes) : MockTrustRoot := mk_mock_root bs.
Definition mock_root_zeroed : MockTrustRoot := mk_mock_root zero32.

#[export] Instance mock_trust_root : TrustRoot MockTrustRoot := {| trust_root_key_bytes := mock_bytes |}.

(** [impl Serialize] / [impl Deserialize]: the 32 key bytes. *)
Definition mock_root_wire (r : MockTrustRoot) : bytes := mock_bytes r.
Definition mock_root_unwire (bs : bytes) : option MockTrustRoot :=
  if bool_decide (length bs = 32%nat) then Some (mock_root_new bs) else None.

Section envelope.
Context `{Ed25519}.

Record Ed25519TrustRoot : Type := mk_trust_root { root_verifying_key : VerifyingKey }.
Definition trust_root_new (vk : VerifyingKey) : Ed25519TrustRoot := mk_trust_root vk.
(** [None] is the library's signature error. *)
Definition trust_root_from_bytes (bs : bytes) : option Ed25519TrustRoot := mk_trust_root <$> vk_from_bytes bs.

#[export] Instance ed25519_trust_root : TrustRoot Ed25519TrustRoot :=
  {| trust_root_key_bytes r := vk_to_bytes (root_verifying_key r) |}.

Definition trust_root_wire (r : Ed25519TrustRoot) : bytes := vk_to_bytes (root_verifying_key r).
Definition trust_root_unwire (bs : bytes) : option Ed25519TrustRoot :=
  if bool_decide (length bs = 32%nat) then trust_root_from_bytes bs else None.

(** ** Organization signing keys *)

Record SigningKeypair : Type := mk_signing_keypair { private_key : bytes; sk_public_key : bytes }.

Definition generate_signing_keypair (key_bytes : bytes) : SigningKeypair :=
  mk_signing_keypair key_bytes (vk_to_bytes (verifying_key key_bytes)).

(** ** Verification *)

Definition verify_envelope (now : Z) (input : EnvelopeVerificationInput) (server_verifying_key : VerifyingKey)
    (verify_sender_sig : bytes → bytes → bytes → bool) (check_expiry : bool) : result () :=
  if bool_decide (length (cert_server_signature input) ≠ 64%nat) then Err InvalidSignature
  else if negb (ed_verify server_verifying_key (cert_signing_bytes input) (cert_server_signature input))
  then Err (InvalidCertificate "invalid server signature")
  else if check_expiry && bool_decide (cert_expires_at_epoch_secs input ≤ now) then Err ExpiredCertificate
  else if bool_decide (cert_user_id input ≠ envelope_sender_id input)
  then Err (InvalidCertificate "certificate user_id does not match sender_id")
  else if negb (verify_sender_sig (sender_identity_key input) (envelope_signing_bytes input) (sender_signature input))
  then Err InvalidSignature
  else Ok ().

(** C34. An envelope is accepted exactly when the whole chain of trust holds: the server
    signed the certificate, it has not expired (if that is checked), it names the
    envelope's sender, and the sender signed the envelope. *)
Theorem verify_envelope_exact now input svk vss check :
  verify_envelope now input svk vss check = Ok () ↔
  length (cert_server_signature input) = 64%nat
  ∧ ed_verify svk (cert_signing_bytes input) (cert_server_signature input) = true
  ∧ (check = true → now < cert_expires_at_epoch_secs input)
  ∧ cert_user_id input = envelope_sender_id input
  ∧ vss (sender_identity_key input) (envelope_signing_bytes input) (sender_signature input) = true.
Proof.
  unfold verify_envelope. case_bool_decide as Hl; [split; [done|]; by intros [? _]|].
  assert (length (cert_server_signature input) = 64%nat) as Hl'
    by (destruct (decide (length (cert_server_signature input) = 64%nat)); [done|tauto]).
  destruct (ed_verify _ _ _); simpl; [|split; [done|]; by intros (_ & ? & _)].
  case_bool_decide as He; destruct check; simpl; try (split; [done|]; intros (_ & _ & Hc & _); specialize (Hc eq_refl); lia).
  all: case_bool_decide as Hu; [split; [done|]; by intros (_ & _ & _ & ? & _)|].
  all: assert (cert_user_id input = envelope_sender_id input) as Hu'
    by (destruct (decide (cert_user_id input = envelope_sender_id input)); [done|tauto]).
  all: destruct (vss _ _ _); simpl; [|split; [done|]; by intros (_ & _ & _ & _ & ?)].
  all: split; [intros _; split_and!; done || (intros; lia)|done].
Qed.

Context `{!Ed25519Ok}.

(** A stored trust root is read back, and only 32-byte valid keys are accepted. *)
Theorem trust_root_roundtrip (r : Ed25519TrustRoot) bs :
  trust_root_unwire (trust_root_wire r) = Some r
  ∧ (is_Some (trust_root_unwire bs) → length bs = 32%nat ∧ is_Some (vk_from_bytes bs)).
Proof.
  unfold trust_root_unwire, trust_root_wire, trust_root_from_bytes. split.
  - rewrite bool_decide_eq_true_2 by apply vk_to_bytes_length. rewrite vk_from_to. by destruct r.
  - case_bool_decide; [|by intros [??]]. intros [x Hx]. apply fmap_Some in Hx as (vk & -> & _). eauto.
Qed.

Lemma signing_keypair_signs kb data :
  vk_from_bytes (sk_public_key (generate_signing_keypair kb)) = Some (verifying_key kb)
  ∧ ed_verify (verifying_key kb) data (ed_sign (private_key (generate_signing_keypair kb)) data) = true.
Proof. split; [apply vk_from_to|apply ed_verify_sign]. Qed.

End envelope.
