(* ===== verification/Provisioning.v ===== *)
(** * Device provisioning

    Models [src/hushwire/provisioning.rs]: the encrypted transfer of the identity key to
    a new device, the commitment and the verification numbers.  The ephemeral secrets
    and nonces are arguments. *)

From S2P Require Import Prelude Foundation Interfaces Kdf.

Definition PROVISIONING_INFO : bytes := bstr "Hushwire-Device-Provisioning-v1".
Definition PUBLIC_KEY_LEN : nat := 32.
Definition NONCE_LEN : nat := 12.
Definition MIN_PAYLOAD_LEN : nat := PUBLIC_KEY_LEN + NONCE_LEN + 16.
Definition PROVISIONING_VERIFICATION_LABEL_V1 : bytes := bstr "hushwire-provisioning-v1".
Definition PROVISIONING_VERIFICATION_LABEL_V2 : bytes := bstr "hushwire-provisioning-v2".
Definition PROVISIONING_COMMITMENT_LABEL : bytes := bstr "hushwire-provisioning-commitment-v1".
Definition PROVISIONING_VERIFICATION_ITERATIONS : nat := Z.to_nat 5200.

(** The decimal digit of [d] in 0..9, as a character. *)
Definition digit (d : Z) : byte := byte_of_Z (48 + d).

(** [format!("{:05}", value)] for [value < 100_000]. *)
Definition format05 (v : Z) : bytes :=
  [digit (v / 10000 mod 10); digit (v / 1000 mod 10); digit (v / 100 mod 10); digit (v / 10 mod 10); digit (v mod 10)].

(** The loop over the six groups; the text is its ASCII bytes. *)
Definition group_digits (digest : bytes) (group : nat) : bytes :=
  format05 (be_Z (take 4 (drop (group * 4) digest)) mod 100000).
Definition push_group (digest : bytes) (digits : bytes) (group : nat) : bytes :=
  (if bool_decide (0 < group)%nat then digits ++ [x20] else digits) ++ group_digits digest group.
Definition render_digest (digest : bytes) : bytes := foldl (push_group digest) [] (seq 0 6).

Definition validate_key (key_bytes : bytes) : result () :=
  if bool_decide (length key_bytes ≠ PUBLIC_KEY_LEN) then Err InvalidKey
  else if forallb (λ b, bool_decide (b = x00)) key_bytes then Err InvalidKey
  else Ok ().

Section provisioning.
Context `{Hashes} `{X25519} `{Aead}.

Definition generate_provisioning_keypair (secret_rng : bytes) : bytes * bytes :=
  (secret_rng, x25519_public secret_rng).

Definition derive_provisioning_key (shared_secret : bytes) : bytes :=
  hkdf_expand (Some zero32) shared_secret PROVISIONING_INFO 32.

Definition encrypt_provisioning_payload (nonce_bytes primary_secret new_device_public identity_private_key : bytes)
    : result bytes :=
  let shared_secret := diffie_hellman primary_secret new_device_public in
  if bool_decide (shared_secret = zero32) then Err InvalidKey
  else
    let key := derive_provisioning_key shared_secret in
    ct ← ok_or (chacha_encrypt key nonce_bytes identity_private_key []) (EncryptionFailed aead_error);
    Ok (x25519_public primary_secret ++ nonce_bytes ++ ct).

Definition decrypt_provisioning_payload (new_device_secret encrypted_payload : bytes) : result bytes :=
  if bool_decide (length encrypted_payload < MIN_PAYLOAD_LEN)%nat
  then Err (DecryptionFailed "provisioning payload too short")
  else
    let primary_pub_bytes := take PUBLIC_KEY_LEN encrypted_payload in
    let nonce_bytes := take NONCE_LEN (drop PUBLIC_KEY_LEN encrypted_payload) in
    let ct := drop (PUBLIC_KEY_LEN + NONCE_LEN) encrypted_payload in
    let shared_secret := diffie_hellman new_device_secret primary_pub_bytes in
    if bool_decide (shared_secret = zero32) then Err InvalidKey
    else
      let key := derive_provisioning_key shared_secret in
      ok_or (chacha_decrypt key nonce_bytes ct []) (DecryptionFailed aead_error).

Definition compute_provisioning_commitment (primary_ephemeral : bytes) : bytes :=
  sha256 (PROVISIONING_COMMITMENT_LABEL ++ primary_ephemeral).
Definition verify_provisioning_commitment (commitment primary_ephemeral : bytes) : bool :=
  bool_decide (commitment = compute_provisioning_commitment primary_ephemeral).

(** The digest after [k] further rounds. *)
Definition rounds (label input : bytes) (k : nat) (digest : bytes) : bytes :=
  Nat.iter k (λ d, sha256 (label ++ d ++ input)) digest.

Definition iterated_verification (label input : bytes) : bytes :=
  let digest := sha256 (label ++ input) in
  render_digest (rounds label input (PROVISIONING_VERIFICATION_ITERATIONS - 1) digest).

Definition compute_provisioning_verification_number (ephemeral_public_key : bytes) : result bytes :=
  _ ← validate_key ephemeral_public_key;
  Ok (iterated_verification PROVISIONING_VERIFICATION_LABEL_V1 ephemeral_public_key).

Definition compute_two_key_verification_number (new_device_ephemeral primary_ephemeral : bytes) : result bytes :=
  _ ← validate_key new_device_ephemeral;
  _ ← validate_key primary_ephemeral;
  Ok (iterated_verification PROVISIONING_VERIFICATION_LABEL_V2 (new_device_ephemeral ++ primary_ephemeral)).

(** ** Properties *)

Context `{!HashesOk} `{!X25519Ok} `{!AeadOk}.

(** C36. The new device recovers exactly the identity key the primary encrypted for it, unless
    the Diffie-Hellman output is all zero; and each side refuses every public key, from
    whomever, with which its own output is all zero. *)
Theorem provisioning_roundtrip nonce p s key :
  length nonce = NONCE_LEN →
  (diffie_hellman p (x25519_public s) ≠ zero32 →
     ∃ payload, encrypt_provisioning_payload nonce p (x25519_public s) key = Ok payload
       ∧ decrypt_provisioning_payload s payload = Ok key)
  ∧ (∀ peer, diffie_hellman p peer = zero32 → encrypt_provisioning_payload nonce p peer key = Err InvalidKey)
  ∧ ∀ peer rest, length peer = PUBLIC_KEY_LEN → (NONCE_LEN + 16 ≤ length rest)%nat → diffie_hellman s peer = zero32 →
      decrypt_provisioning_payload s (peer ++ rest) = Err InvalidKey.
Proof.
  intros Hn. split_and!.
  - intros Hz. unfold encrypt_provisioning_payload. rewrite bool_decide_eq_false_2 by done.
    destruct (chacha_encrypt_ok (derive_provisioning_key (diffie_hellman p (x25519_public s))) nonce key []) as [ct Hct].
    rewrite Hct. eexists. split; [done|].
    unfold decrypt_provisioning_payload, MIN_PAYLOAD_LEN, PUBLIC_KEY_LEN.
    rewrite bool_decide_eq_false_2
      by (rewrite !length_app, x25519_public_length, Hn, (chacha_length _ _ _ _ _ Hct); lia).
    rewrite take_app_length' by (by rewrite x25519_public_length).
    rewrite <-drop_drop, drop_app_length' by (by rewrite x25519_public_length).
    rewrite take_app_length', drop_app_length' by done. rewrite dh_comm.
    rewrite bool_decide_eq_false_2 by done. by rewrite (chacha_decrypt_encrypt _ _ _ _ _ Hct).
  - intros peer Hz. unfold encrypt_provisioning_payload. by rewrite bool_decide_eq_true_2.
  - intros peer rest Hl Hr Hz. unfold decrypt_provisioning_payload, MIN_PAYLOAD_LEN.
    rewrite bool_decide_eq_false_2 by (rewrite length_app, Hl; lia).
    by rewrite take_app_length', bool_decide_eq_true_2 by done.
Qed.

(** A payload too short for a key, a nonce and a tag is refused. *)
Lemma short_payload_refused s p :
  (length p < MIN_PAYLOAD_LEN)%nat → decrypt_provisioning_payload s p = Err (DecryptionFailed "provisioning payload too short").
Proof. intros. unfold decrypt_provisioning_payload. by rewrite bool_decide_eq_true_2. Qed.

Lemma validate_key_Ok k : validate_key k = Ok () ↔ length k = PUBLIC_KEY_LEN ∧ ∃ b, b ∈ k ∧ b ≠ x00.
Proof.
  unfold validate_key. case_bool_decide as Hl; [split; [done|]; intros [? _]; tauto|].
  destruct (forallb _ k) eqn:Ef.
  - split; [done|]. intros [_ (b & Hb & Hne)]. rewrite forallb_forall in Ef.
    apply list_elem_of_In in Hb. specialize (Ef b Hb). by apply bool_decide_eq_true in Ef.
  - split; [|done]. intros _. split; [destruct (decide (length k = PUBLIC_KEY_LEN)); [done|tauto]|].
    clear Hl. induction k as [|b k IH]; simpl in Ef; [done|]. apply andb_false_iff in Ef as [Eb|Ef].
    + exists b. split; [by left|]. by apply bool_decide_eq_false in Eb.
    + destruct (IH Ef) as (b' & ? & ?). exists b'. split; [by right|done].
Qed.

End provisioning.

(** ** The rendered number *)

Definition is_digit (b : byte) : bool := bool_decide (48 ≤ Z_of_byte b ≤ 57).

Lemma digit_is_digit d : 0 ≤ d < 10 → is_digit (digit d) = true.
Proof.
  intros Hd. unfold is_digit, digit. rewrite Z_of_byte_of_Z, Z.mod_small by lia.
  apply bool_decide_eq_true. lia.
Qed.

Lemma format05_digits v : forallb is_digit (format05 v) = true ∧ length (format05 v) = 5%nat.
Proof.
  split; [|done]. unfold format05. cbn [forallb]. rewrite !digit_is_digit; [done|apply Z.mod_pos_bound; lia..].
Qed.

(** The digits are those of the value: [format05] is injective below [100_000]. *)
Lemma format05_inj v w : 0 ≤ v < 100000 → 0 ≤ w < 100000 → format05 v = format05 w → v = w.
Proof.
  intros Hv Hw E. unfold format05 in E. injection E as E4 E3 E2 E1 E0.
  assert (∀ x y, 0 ≤ x < 10 → 0 ≤ y < 10 → digit x = digit y → x = y) as Hd.
  { intros x y Hx Hy Exy. assert (Z_of_byte (digit x) = Z_of_byte (digit y)) as Ez by congruence.
    unfold digit in Ez. rewrite !Z_of_byte_of_Z, !Z.mod_small in Ez by lia. lia. }
  apply Hd in E4, E3, E2, E1, E0; try (apply Z.mod_pos_bound; lia).
  Z.to_euclidean_division_equations. lia.
Qed.

(** The number is six groups of five digits separated by spaces: 35 characters. *)
Theorem verification_number_format `{Hashes} new_eph primary_eph number :
  compute_two_key_verification_number new_eph primary_eph = Ok number →
  ∃ g0 g1 g2 g3 g4 g5,
    number = g0 ++ [x20] ++ g1 ++ [x20] ++ g2 ++ [x20] ++ g3 ++ [x20] ++ g4 ++ [x20] ++ g5
    ∧ Forall (λ g, length g = 5%nat ∧ forallb is_digit g = true) [g0; g1; g2; g3; g4; g5]
    ∧ length number = 35%nat.
Proof.
  unfold compute_two_key_verification_number. intros Hc.
  apply result_bind_Ok in Hc as ([] & _ & Hc). apply result_bind_Ok in Hc as ([] & _ & Hc). injection Hc as <-.
  unfold iterated_verification. set (d := rounds _ _ _ _).
  exists (group_digits d 0), (group_digits d 1), (group_digits d 2), (group_digits d 3), (group_digits d 4),
    (group_digits d 5).
  assert (∀ g, length (group_digits d g) = 5%nat ∧ forallb is_digit (group_digits d g) = true) as Hg
    by (intros g; destruct (format05_digits (be_Z (take 4 (drop (g * 4) d)) mod 100000)); by split).
  split_and!; [|repeat constructor; apply Hg|].
  - unfold render_digest. cbn [seq foldl]. unfold push_group. simpl bool_decide. cbn [app].
    by rewrite <-!app_assoc.
  - unfold render_digest. cbn [seq foldl]. unfold push_group. simpl bool_decide.
    rewrite !length_app. by rewrite !(λ g, proj1 (Hg g)).
Qed.

(** The commitment binds the key it was made for, up to a collision of the hash. *)
Theorem commitment_binding `{Hashes} k1 k2 :
  verify_provisioning_commitment (compute_provisioning_commitment k1) k1 = true
  ∧ (verify_provisioning_commitment (compute_provisioning_commitment k1) k2 = true → k1 ≠ k2 →
     ∃ x y, x ≠ y ∧ sha256 x = sha256 y).
Proof.
  unfold verify_provisioning_commitment, compute_provisioning_commitment. split; [by apply bool_decide_eq_true|].
  intros E%bool_decide_eq_true Hne. eexists _, _. split; [|exact E].
  by intros ?%app_inv_head.
Qed.
