(* ===== verification/OrgMetadata.v ===== *)
(** * Organization metadata

    Models [src/hushwire/org/metadata.rs]: the metadata cipher, the per-recipient key
    envelope (version 1), the invite-escrow envelope (version 2) and the invite
    derivations.  Keys, ephemeral secrets and nonces drawn by the source are arguments. *)

From S2P Require Import Prelude Foundation Interfaces Kdf.

Definition NONCE_SIZE : nat := 12.
Definition METADATA_KEY_ENVELOPE_V1 : byte := x01.
Definition METADATA_KEY_ENVELOPE_V2 : byte := x02.
Definition METADATA_KEY_ENVELOPE_INFO : bytes := bstr "Hushwire-Metadata-Key-v1".
Definition INVITE_TOKEN_INFO : bytes := bstr "hushwire-invite-token-v1".
Definition INVITE_ESCROW_INFO : bytes := bstr "hushwire-invite-escrow-v1".

Record MetadataKeyEnvelope : Type := mk_key_envelope {
  mk_ephemeral_public_key : bytes;
  mk_nonce : bytes;
  mk_ciphertext : bytes;
}.

Record SymmetricMetadataKeyEnvelope : Type := mk_sym_envelope { sym_nonce : bytes; sym_ciphertext : bytes }.

(** [{version:02x}]. *)
Definition hex_digit (d : Z) : string :=
  String (Ascii.ascii_of_N (Z.to_N (if bool_decide (d < 10) then 48 + d else 87 + d))) EmptyString.
Definition hex02 (b : byte) : string := hex_digit (Z_of_byte b / 16) +:+ hex_digit (Z_of_byte b mod 16).

Definition generate_metadata_key (rng : bytes) : bytes := rng.
Definition generate_invite_secret (rng : bytes) : bytes := rng.

(** [plaintext.try_into()] to a 32-byte key. *)
Definition key_of (plaintext : bytes) : result bytes :=
  if bool_decide (length plaintext = 32%nat) then Ok plaintext
  else Err (DecryptionFailed "decrypted key wrong length").

Section metadata.
Context `{Hashes} `{X25519} `{Aead}.
Context `{Postcard MetadataKeyEnvelope} `{Postcard SymmetricMetadataKeyEnvelope}.

(** The module's own [hkdf_sha256]. *)
Definition metadata_hkdf (ikm info : bytes) : bytes := hkdf_expand (Some zero32) ikm info 32.

Definition derive_metadata_envelope_key (shared_secret : bytes) : bytes :=
  metadata_hkdf shared_secret METADATA_KEY_ENVELOPE_INFO.
Definition derive_invite_token (secret : bytes) : bytes := metadata_hkdf secret INVITE_TOKEN_INFO.
Definition derive_invite_escrow_key (secret : bytes) : bytes := metadata_hkdf secret INVITE_ESCROW_INFO.

Definition encrypt_metadata_key (secret_rng nonce_bytes metadata_key recipient_public : bytes) : result bytes :=
  let shared_secret := diffie_hellman secret_rng recipient_public in
  if bool_decide (shared_secret = zero32) then Err InvalidKey
  else
    let enc_key := derive_metadata_envelope_key shared_secret in
    ct ← ok_or (chacha_encrypt enc_key nonce_bytes metadata_key []) (EncryptionFailed "metadata key encryption failed");
    body ← map_err EncryptionFailed (to_allocvec (mk_key_envelope (x25519_public secret_rng) nonce_bytes ct));
    Ok (METADATA_KEY_ENVELOPE_V1 :: body).

Definition open_key_envelope (envelope : MetadataKeyEnvelope) (our_private : bytes) : result bytes :=
  if bool_decide (length (mk_ephemeral_public_key envelope) ≠ 32%nat)
  then Err (DecryptionFailed "invalid ephemeral key length")
  else
    let shared_secret := diffie_hellman our_private (mk_ephemeral_public_key envelope) in
    if bool_decide (shared_secret = zero32) then Err InvalidKey
    else
      let enc_key := derive_metadata_envelope_key shared_secret in
      if bool_decide (length (mk_nonce envelope) ≠ NONCE_SIZE)
      then Err (DecryptionFailed "invalid nonce length")
      else
        plaintext ← ok_or (chacha_decrypt enc_key (mk_nonce envelope) (mk_ciphertext envelope) [])
                          (DecryptionFailed "metadata key decryption failed");
        key_of plaintext.

Definition decrypt_metadata_key (envelope_bytes our_private : bytes) : result bytes :=
  match envelope_bytes with
  | [] => Err (DecryptionFailed "empty metadata key envelope")
  | version :: body =>
      if bool_decide (version ≠ METADATA_KEY_ENVELOPE_V1)
      then Err (DecryptionFailed ("unsupported metadata key envelope version: " +:+ pretty (Z_of_byte version)))
      else
        envelope ← map_err DecryptionFailed (from_bytes body);
        open_key_envelope envelope our_private
  end.

Definition encrypt_metadata_key_symmetric (nonce_bytes metadata_key escrow_key aad : bytes) : result bytes :=
  ct ← ok_or (chacha_encrypt escrow_key nonce_bytes metadata_key aad)
             (EncryptionFailed "symmetric metadata key encryption failed");
  body ← map_err EncryptionFailed (to_allocvec (mk_sym_envelope nonce_bytes ct));
  Ok (METADATA_KEY_ENVELOPE_V2 :: body).

Definition open_sym_envelope (envelope : SymmetricMetadataKeyEnvelope) (escrow_key aad : bytes) : result bytes :=
  if bool_decide (length (sym_nonce envelope) ≠ NONCE_SIZE) then Err (DecryptionFailed "invalid nonce length")
  else
    plaintext ← ok_or (chacha_decrypt escrow_key (sym_nonce envelope) (sym_ciphertext envelope) aad)
                      (DecryptionFailed "symmetric metadata key decryption failed");
    key_of plaintext.

Definition decrypt_metadata_key_symmetric (envelope_bytes escrow_key aad : bytes) : result bytes :=
  match envelope_bytes with
  | [] => Err (DecryptionFailed "empty symmetric metadata key envelope")
  | version :: body =>
      if bool_decide (version ≠ METADATA_KEY_ENVELOPE_V2)
      then Err (DecryptionFailed ("expected symmetric envelope version 0x02, got 0x" +:+ hex02 version))
      else
        envelope ← map_err DecryptionFailed (from_bytes body);
        open_sym_envelope envelope escrow_key aad
  end.

Definition encrypt_metadata (nonce_bytes key plaintext aad : bytes) : result bytes :=
  ct ← ok_or (chacha_encrypt key nonce_bytes plaintext aad) (EncryptionFailed "metadata encryption failed");
  Ok (nonce_bytes ++ ct).

Definition decrypt_metadata (key encrypted aad : bytes) : result bytes :=
  if bool_decide (length encrypted < NONCE_SIZE)%nat then Err (DecryptionFailed "metadata ciphertext too short")
  else ok_or (chacha_decrypt key (take NONCE_SIZE encrypted) (drop NONCE_SIZE encrypted) aad)
             (DecryptionFailed "metadata decryption failed").

(** ** Properties *)

Context `{!HashesOk} `{!X25519Ok} `{!AeadOk}.
Context `{!PostcardOk MetadataKeyEnvelope} `{!PostcardOk SymmetricMetadataKeyEnvelope}.

Lemma metadata_roundtrip nonce key pt aad :
  length nonce = NONCE_SIZE → ∃ c, encrypt_metadata nonce key pt aad = Ok c ∧ decrypt_metadata key c aad = Ok pt.
Proof.
  intros Hn. unfold encrypt_metadata. destruct (chacha_encrypt_ok key nonce pt aad) as [ct Hct]. rewrite Hct.
  eexists. split; [done|]. unfold decrypt_metadata.
  rewrite bool_decide_eq_false_2 by (rewrite length_app; lia).
  rewrite take_app_length', drop_app_length' by done. by rewrite (chacha_decrypt_encrypt _ _ _ _ _ Hct).
Qed.

Lemma key_envelope_roundtrip eph nonce key sk :
  length nonce = NONCE_SIZE → length key = 32%nat → diffie_hellman eph (x25519_public sk) ≠ zero32 →
  ∃ e, encrypt_metadata_key eph nonce key (x25519_public sk) = Ok e ∧ decrypt_metadata_key e sk = Ok key.
Proof.
  intros Hn Hk Hz. unfold encrypt_metadata_key. rewrite bool_decide_eq_false_2 by done.
  destruct (chacha_encrypt_ok (derive_metadata_envelope_key (diffie_hellman eph (x25519_public sk))) nonce key [])
    as [ct Hct]. rewrite Hct. cbn [mbind result_bind ok_or].
  destruct (postcard_roundtrip (mk_key_envelope (x25519_public eph) nonce ct)) as (body & -> & Hb).
  eexists. split; [done|]. unfold decrypt_metadata_key. rewrite bool_decide_eq_false_2 by tauto.
  rewrite Hb. cbn [mbind result_bind map_err]. unfold open_key_envelope. simpl mk_ephemeral_public_key.
  rewrite bool_decide_eq_false_2 by (rewrite x25519_public_length; tauto). rewrite dh_comm.
  rewrite bool_decide_eq_false_2 by done. simpl mk_nonce.
  rewrite bool_decide_eq_false_2 by (rewrite Hn; tauto). simpl mk_ciphertext.
  rewrite (chacha_decrypt_encrypt _ _ _ _ _ Hct). simpl. unfold key_of. by rewrite bool_decide_eq_true_2.
Qed.

Lemma escrow_roundtrip nonce key ek aad :
  length nonce = NONCE_SIZE → length key = 32%nat →
  ∃ e, encrypt_metadata_key_symmetric nonce key ek aad = Ok e
       ∧ decrypt_metadata_key_symmetric e ek aad = Ok key.
Proof.
  intros Hn Hk. unfold encrypt_metadata_key_symmetric.
  destruct (chacha_encrypt_ok ek nonce key aad) as [ct Hct]. rewrite Hct. cbn [mbind result_bind ok_or].
  destruct (postcard_roundtrip (mk_sym_envelope nonce ct)) as (body & -> & Hb).
  eexists. split; [done|]. unfold decrypt_metadata_key_symmetric. rewrite bool_decide_eq_false_2 by tauto.
  rewrite Hb. cbn [mbind result_bind map_err]. unfold open_sym_envelope. simpl sym_nonce.
  rewrite bool_decide_eq_false_2 by (rewrite Hn; tauto). simpl sym_ciphertext.
  rewrite (chacha_decrypt_encrypt _ _ _ _ _ Hct). simpl. unfold key_of. by rewrite bool_decide_eq_true_2.
Qed.

(** C33. Admission of a member, end to end: the key wrapped for the member's public key, and
    the key escrowed under an invite secret, are unwrapped to the organization's key,
    and a name encrypted for the organization is read with it. *)
Theorem member_reads_metadata eph n1 n2 n3 key sk invite org name :
  length n1 = NONCE_SIZE → length n2 = NONCE_SIZE → length n3 = NONCE_SIZE → length key = 32%nat →
  diffie_hellman eph (x25519_public sk) ≠ zero32 →
  ∃ wrapped escrowed name_ct,
    encrypt_metadata_key eph n1 key (x25519_public sk) = Ok wrapped
    ∧ encrypt_metadata_key_symmetric n2 key (derive_invite_escrow_key invite) org = Ok escrowed
    ∧ encrypt_metadata n3 key name org = Ok name_ct
    ∧ (k ← decrypt_metadata_key wrapped sk; decrypt_metadata k name_ct org) = Ok name
    ∧ (k ← decrypt_metadata_key_symmetric escrowed (derive_invite_escrow_key invite) org;
       decrypt_metadata k name_ct org) = Ok name.
Proof.
  intros Hn1 Hn2 Hn3 Hk Hz.
  destruct (key_envelope_roundtrip eph n1 key sk Hn1 Hk Hz) as (w & Hw & Hdw).
  destruct (escrow_roundtrip n2 key (derive_invite_escrow_key invite) org Hn2 Hk) as (e & He & Hde).
  destruct (metadata_roundtrip n3 key name org Hn3) as (c & Hc & Hdc).
  exists w, e, c. rewrite Hdw, Hde. simpl. by rewrite Hdc.
Qed.

(** The two envelope formats are never confused: what one encrypts the other refuses,
    whatever keys it is given. *)
Lemma envelope_versions_disjoint eph nonce key pk ek aad e sk ek' aad' :
  (encrypt_metadata_key eph nonce key pk = Ok e → is_ok (decrypt_metadata_key_symmetric e ek' aad') = false)
  ∧ (encrypt_metadata_key_symmetric nonce key ek aad = Ok e → is_ok (decrypt_metadata_key e sk) = false).
Proof.
  split.
  - unfold encrypt_metadata_key. case_bool_decide; [done|]. intros He.
    apply result_bind_Ok in He as (ct & _ & He). apply result_bind_Ok in He as (body & _ & He).
    by injection He as <-.
  - unfold encrypt_metadata_key_symmetric. intros He.
    apply result_bind_Ok in He as (ct & _ & He). apply result_bind_Ok in He as (body & _ & He).
    by injection He as <-.
Qed.

End metadata.
