(* ===== verification/Toy.v ===== *)
(** * Concrete instances of the library interfaces

    One executable instance per interface, with the proof that it satisfies the
    documented behaviour: a polynomial digest for the hash functions, multiplication
    modulo [2^256] for X25519, keyed digests for signatures and AEAD tags, a repetition
    code for the erasure codec, digest-based key encapsulation, and a codec through
    [Countable].  They have no cryptographic strength; they show that the laws hold
    together, and let the theorems be evaluated on concrete inputs. *)

From S2P Require Import Prelude Foundation Interfaces Padding Kdf Keys AeadRecord Erasure Kem.
From S2P Require Import BraidAuth Braid BraidProgress Spqr Pqxdh Skipped Ratchet SealedSender.
From S2P Require Import Recovery OrgMetadata.

(** ** Digests *)

Definition digest (bs : bytes) : Z :=
  foldl (λ a x, (a * 31 + Z_of_byte x + 7) mod 18446744073709551616) 1 bs.

#[export] Instance toy_hashes : Hashes := {|
  hmac_sha256 k m := be_bytes 32 (digest (k ++ m));
  hkdf_expand salt ikm info n := be_bytes n (digest (default [] salt ++ ikm ++ info));
  sha256 m := be_bytes 32 (digest m);
  sha512 m := be_bytes 64 (digest m);
|}.

#[export] Instance toy_hashes_ok : HashesOk.
Proof. split; intros; apply length_be_bytes. Qed.

(** ** Diffie-Hellman *)

Lemma le_Z_le_bytes_mod n z : le_Z (le_bytes n z) = z mod 256 ^ Z.of_nat n.
Proof.
  revert z. induction n as [|n IH]; intros z; simpl; [by rewrite Z.mod_1_r|].
  rewrite IH, Z_of_byte_of_Z, Nat2Z.inj_succ, Z.pow_succ_r by lia.
  by rewrite Z.rem_mul_r by lia.
Qed.

Lemma be_Z_be_bytes_mod n z : be_Z (be_bytes n z) = z mod 256 ^ Z.of_nat n.
Proof. unfold be_Z, be_bytes. rewrite reverse_involutive. apply le_Z_le_bytes_mod. Qed.

Lemma be_bytes_mod n z w : z mod 256 ^ Z.of_nat n = w mod 256 ^ Z.of_nat n → be_bytes n z = be_bytes n w.
Proof.
  intros E. rewrite <-!be_Z_be_bytes_mod in E.
  rewrite <-(be_bytes_be_Z (be_bytes n z)), <-(be_bytes_be_Z (be_bytes n w)), E. by rewrite !length_be_bytes.
Qed.

#[export] Instance toy_x25519 : X25519 := {|
  x25519_public a := be_bytes 32 (9 * be_Z a);
  diffie_hellman a p := be_bytes 32 (be_Z a * be_Z p);
|}.

#[export] Instance toy_x25519_ok : X25519Ok.
Proof.
  split; intros; [|exact (length_be_bytes 32 _)..]. unfold diffie_hellman, x25519_public, toy_x25519.
  apply be_bytes_mod.
  rewrite !be_Z_be_bytes_mod, !Z.mul_mod_idemp_r by lia. f_equal. lia.
Qed.

(** ** Signatures *)

Definition ToyKey : Type := dsig (λ l : bytes, length l = 32%nat).
Definition toy_key (l : bytes) (H : length l = 32%nat) : ToyKey := dexist l H.

Definition toy_vk (s : bytes) : ToyKey :=
  toy_key (x25519_public (clamp (take 32 (sha512 s)))) (length_be_bytes 32 _).
Definition toy_tag (n : nat) (key m : bytes) : bytes := be_bytes n (digest (key ++ m)).

#[export] Instance toy_ed25519 : Ed25519 := {|
  VerifyingKey := ToyKey;
  vk_from_bytes bs :=
    match decide (length bs = 32%nat) with left H => Some (toy_key bs H) | right _ => None end;
  vk_to_bytes k := proj1_sig k;
  verifying_key := toy_vk;
  ed_sign s m := toy_tag 64 (proj1_sig (toy_vk s)) m;
  ed_verify k m s := bool_decide (s = toy_tag 64 (proj1_sig k) m);
  ed_to_montgomery k := proj1_sig k;
|}.

#[export] Instance toy_ed25519_ok : Ed25519Ok.
Proof.
  split; cbn [vk_from_bytes vk_to_bytes ed_verify verifying_key ed_sign toy_ed25519].
  - intros vk. destruct (decide _) as [Hl|Hl]; [|by destruct Hl; apply (proj2_dsig vk)].
    f_equal. by apply dsig_eq.
  - intros vk. apply (proj2_dsig vk).
  - intros. exact (length_be_bytes 64 _).
  - intros. by apply bool_decide_eq_true_2.
Qed.

#[export] Instance toy_montgomery_ok : MontgomeryOk.
Proof. by split. Qed.

(** ** AEAD: the plaintext and a 16-byte keyed tag *)

Definition toy_seal (k n m a : bytes) : option bytes := Some (m ++ toy_tag 16 (k ++ n ++ a) m).
Definition toy_open (k n c a : bytes) : option bytes :=
  let m := take (length c - 16) c in
  if bool_decide (drop (length c - 16) c = toy_tag 16 (k ++ n ++ a) m) then Some m else None.

Lemma toy_seal_length k n m a c : toy_seal k n m a = Some c → length c = (length m + 16)%nat.
Proof. unfold toy_seal, toy_tag. intros [= <-]. by rewrite length_app, length_be_bytes. Qed.

Lemma toy_open_seal k n m a c : toy_seal k n m a = Some c → toy_open k n c a = Some m.
Proof.
  intros Hc. pose proof (toy_seal_length _ _ _ _ _ Hc) as Hl. injection Hc as <-. unfold toy_open.
  rewrite Hl, Nat.add_sub, take_app_length, drop_app_length. by rewrite bool_decide_eq_true_2.
Qed.

#[export] Instance toy_aead : Aead := {|
  xchacha_encrypt := toy_seal;
  xchacha_decrypt := toy_open;
  chacha_encrypt := toy_seal;
  chacha_decrypt := toy_open;
  aead_error := "aead::Error";
|}.

#[export] Instance toy_aead_ok : AeadOk.
Proof. split; simpl; eauto using toy_seal_length, toy_open_seal; intros; by eexists. Qed.

(** ** Key encapsulation *)

#[export] Instance toy_kyber : Kyber := {|
  DecapsulationKey := bytes;
  EncapsulationKey := ToyKey;
  kyber_ek_len := 32;
  kyber_ct_len := 32;
  kyber_ek_new bs :=
    match decide (length bs = 32%nat) with left H => Some (toy_key bs H) | right _ => None end;
  kyber_ek_to_bytes k := proj1_sig k;
  kyber_from_seed s := s;
  kyber_to_seed s := Some s;
  kyber_ek s := toy_key (sha256 s) (length_be_bytes 32 _);
  kyber_encapsulate ek r := (sha256 r, sha256 (proj1_sig ek ++ sha256 r));
  kyber_decapsulate dk ct := sha256 (sha256 dk ++ ct);
|}.

#[export] Instance toy_kyber_ok : KyberOk.
Proof.
  split; cbn [kyber_ek_new kyber_ek_to_bytes kyber_ek_len toy_kyber].
  - intros ek. apply (proj2_dsig ek).
  - intros ek. destruct (decide _) as [Hl|Hl]; [|by destruct Hl; apply (proj2_dsig ek)]. f_equal. by apply dsig_eq.
  - done.
  - intros. exact (length_be_bytes 32 _).
  - done.
Qed.

(** The incremental KEM, with an empty header and an empty second ciphertext part. *)
#[export] Instance toy_inc_kem : IncKem := {|
  inc_pk1_len := 0;
  inc_pk2_len := 32;
  inc_ct1_len := 32;
  inc_ct2_len := 0;
  inc_key_pair_len := 32;
  inc_encaps_state_len := 32;
  inc_seed_len := 64;
  inc_from_seed := sha256;
  inc_pk1 _ := [];
  inc_pk2 := sha256;
  inc_validate_pk _ _ := Ok ();
  inc_encapsulate1 _ r := Ok (sha256 r, sha256 r, sha256 (sha256 r));
  inc_encapsulate2 _ _ := [];
  inc_decapsulate _ ct1 _ := Ok (sha256 ct1);
|}.

#[export] Instance toy_inc_kem_ok : IncKemOk.
Proof.
  split; try done; try (intros; exact (length_be_bytes 32 _)).
  - intros pk1 r ct1 st ss [= <- <- <-]. split_and!; exact (length_be_bytes 32 _).
  - by intros s r ct1 st ss [= <- <- <-].
Qed.

(** ** The erasure codec: repetition of a single shard *)

#[export] Instance toy_rs : ReedSolomon := {|
  rs_encode k r os := Ok (replicate r (default [] (head os)));
  rs_decode k r present recovery :=
    if bool_decide (k = 1%nat) then
      Ok (match map_to_list recovery with (_, d) :: _ => {[0 := d]} | [] => ∅ end)
    else Err "unsupported shard count";
|}.

Lemma toy_recovery_shard r (o : bytes) (recovery : gmap Z bytes) i d rest :
  recovery ⊆ map_seqZ 0 (replicate r o) → map_to_list recovery = (i, d) :: rest → d = o.
Proof.
  intros Hs Hl. assert (recovery !! i = Some d) as Hi
    by (apply elem_of_map_to_list; rewrite Hl; by left).
  eapply lookup_weaken in Hi; [|exact Hs]. apply lookup_map_seqZ_Some in Hi as [_ Hi].
  by apply lookup_replicate in Hi as [-> _].
Qed.

#[export] Instance toy_rs_ok : ReedSolomonOk.
Proof.
  split; simpl.
  - intros k r os Hk _ _ _ Hl Hwf. eexists. split; [done|]. split; [apply length_replicate|].
    apply Forall_replicate. destruct os as [|o os]; [simpl in Hl; lia|]. by apply Forall_cons_1 in Hwf as [? _].
  - intros k r os rec present recovery restored Hl [= <-] _ Hrec. case_bool_decide as Hk; [|done].
    intros [= <-] i d. destruct (map_to_list recovery) as [|[j x] rest] eqn:El; [by rewrite lookup_empty|].
    intros [<- <-]%lookup_singleton_Some.
    destruct os as [|o [|]]; simplify_eq/=.
    rewrite (toy_recovery_shard _ _ _ _ _ _ Hrec El). by rewrite lookup_insert_eq.
  - intros k r present recovery restored _ Hrec. case_bool_decide; [|done]. intros [= <-] i d.
    destruct (map_to_list recovery) as [|[j x] rest] eqn:El; [by rewrite lookup_empty|].
    intros [<- <-]%lookup_singleton_Some. apply (Hrec j). apply elem_of_map_to_list. rewrite El. by left.
Qed.

Lemma toy_recovers r : rs_recovers 1 r.
Proof.
  intros os rec present recovery Hl _ [= <-] Hp Hr Hsz. simpl. eexists. split; [done|].
  intros i Hi Hno. assert (i = 0) as -> by lia.
  assert (present = ∅) as ->.
  { apply map_empty. intros j. destruct (decide (j = 0)) as [->|Hj]; [done|].
    destruct (present !! j) as [d|] eqn:E; [|done]. exfalso.
    eapply lookup_weaken in E; [|exact Hp]. apply lookup_map_seqZ_Some in E as [Hj0 E].
    apply lookup_lt_Some in E. lia. }
  rewrite map_size_empty in Hsz. destruct (map_to_list recovery) as [|[j x] rest] eqn:El.
  - rewrite <-length_map_to_list, El in Hsz. simpl in Hsz. lia.
  - rewrite lookup_singleton_eq. eauto.
Qed.

Lemma toy_braid_recovers : braid_recovers.
Proof. unfold braid_recovers, recovers_size. simpl. split_and!; apply toy_recovers. Qed.

(** ** Recovery phrases *)

Fixpoint hex_of (bs : bytes) : string :=
  match bs with [] => "" | b :: bs => String (Ascii.ascii_of_byte b) (hex_of bs) end.
Fixpoint of_hex (s : string) : bytes :=
  match s with EmptyString => [] | String a s => Ascii.byte_of_ascii a :: of_hex s end.

Lemma of_hex_of bs : of_hex (hex_of bs) = bs.
Proof. induction bs as [|b bs IH]; simpl; [done|]. by rewrite IH, Ascii.byte_of_ascii_of_byte. Qed.

#[export] Instance toy_bip39 : Bip39 := {|
  mnemonic_from_entropy e := Ok (hex_of e);
  mnemonic_to_entropy s := Ok (of_hex s);
|}.

#[export] Instance toy_bip39_ok : Bip39Ok.
Proof. split. intros e _. exists (hex_of e). simpl. by rewrite of_hex_of. Qed.
