(* ===== verification/ToyCodec.v ===== *)
(** * A concrete codec for every stored type

    A value is flattened to a tuple of byte strings, integers and maps, which [Countable]
    numbers; the number is written bit by bit.  Each instance is the flattening and its
    inverse. *)

From S2P Require Import Prelude Foundation Interfaces Kdf Keys Erasure Kem BraidAuth Braid Spqr.
From S2P Require Import Pqxdh Skipped Ratchet SealedSender OrgMetadata Toy.

Fixpoint pos_bytes (p : positive) : bytes :=
  match p with
  | xH => []
  | xO p => x00 :: pos_bytes p
  | xI p => x01 :: pos_bytes p
  end.
Fixpoint bytes_pos (bs : bytes) : positive :=
  match bs with
  | [] => xH
  | x00 :: bs => xO (bytes_pos bs)
  | _ :: bs => xI (bytes_pos bs)
  end.

Lemma bytes_pos_bytes p : bytes_pos (pos_bytes p) = p.
Proof. induction p; simpl; congruence. Qed.

Definition coded {T A : Type} `{Countable A} (flat : T → A) (unflat : A → T) : Postcard T := {|
  to_allocvec x := Ok (pos_bytes (encode (flat x)));
  from_bytes bs := match decode (bytes_pos bs) with Some a => Ok (unflat a) | None => Err "decode" end;
|}.

Lemma coded_ok {T A} `{Countable A} (flat : T → A) (unflat : A → T) :
  (∀ x, unflat (flat x) = x) → @PostcardOk T (coded flat unflat).
Proof.
  intros Hf. split. intros x. eexists. split; [done|]. simpl. by rewrite bytes_pos_bytes, decode_encode, Hf.
Qed.

Lemma fmap_inverse {A B} (f : A → B) (g : B → A) (m : gmap Z A) :
  (∀ x, g (f x) = x) → g <$> (f <$> m) = m.
Proof. intros Hf. apply map_eq. intros i. rewrite !lookup_fmap. destruct (m !! i); simpl; congruence. Qed.

Lemma option_inverse {A B} (f : A → B) (g : B → A) (o : option A) :
  (∀ x, g (f x) = x) → g <$> (f <$> o) = o.
Proof. intros Hf. destruct o; simpl; congruence. Qed.

Lemma list_inverse {A B} (f : A → B) (g : B → A) (l : list A) :
  (∀ x, g (f x) = x) → g <$> (f <$> l) = l.
Proof. intros Hf. induction l as [|x l IH]; [done|]. rewrite !fmap_cons, Hf. by f_equal. Qed.

(** ** Braid messages and states *)

Definition type_num (t : MsgType) : nat :=
  match t with Idle => 0 | Hdr => 1 | Ek => 2 | EkCt1Ack => 3 | Ct1 => 4 | Ct2 => 5 end.
Definition num_type (n : nat) : MsgType :=
  match n with 0 => Idle | 1 => Hdr | 2 => Ek | 3 => EkCt1Ack | 4 => Ct1 | _ => Ct2 end%nat.

Definition flat_chunk (c : Chunk) : Z * bytes := (chunk_index c, chunk_data c).
Definition unflat_chunk (x : Z * bytes) : Chunk := mk_chunk x.1 x.2.
Lemma unflat_flat_chunk c : unflat_chunk (flat_chunk c) = c.
Proof. by destruct c. Qed.

Definition flat_message (m : Message) : Z * nat * option (Z * bytes) :=
  (msg_epoch m, type_num (mtype m), flat_chunk <$> msg_chunk m).
Definition unflat_message (x : Z * nat * option (Z * bytes)) : Message :=
  mk_message x.1.1 (num_type x.1.2) (unflat_chunk <$> x.2).
Lemma unflat_flat_message m : unflat_message (flat_message m) = m.
Proof.
  destruct m as [e t c]. unfold unflat_message, flat_message. simpl.
  rewrite (option_inverse _ _ _ unflat_flat_chunk). by destruct t.
Qed.

#[export] Instance toy_header_codec : Postcard MessageHeader :=
  coded (λ h, (dh_public_key h : bytes, previous_chain_length h, h_message_number h, flat_message (braid_msg h),
               pq_message_number h))
        (λ x, mk_header x.1.1.1.1 x.1.1.1.2 x.1.1.2 (unflat_message x.1.2) x.2).
#[export] Instance toy_header_codec_ok : PostcardOk MessageHeader.
Proof. apply coded_ok. intros []. simpl. by rewrite unflat_flat_message. Qed.

Definition FlatDecoder : Type := nat * nat * nat * gmap Z bytes.
Definition flat_encoder (e : Encoder) : list bytes * Z := (shards e, cursor e).
Definition unflat_encoder (x : list bytes * Z) : Encoder := mk_encoder x.1 x.2.
Definition flat_decoder (d : Decoder) : FlatDecoder :=
  (dec_len d, data_shards d, recovery_shards d, received d).
Definition unflat_decoder (x : FlatDecoder) : Decoder := mk_decoder x.1.1.1 x.1.1.2 x.1.2 x.2.

(** A braid state: its tag, its epoch, the authenticator's keys and its byte strings,
    the encoder and the decoder it has. *)
Definition FlatState : Type :=
  nat * Z * list bytes * option (list bytes * Z) * option FlatDecoder.

Definition flat_with (tag : nat) (e : Z) (a : Authenticator) (bs : list bytes)
    (enc : option Encoder) (dec : option Decoder) : FlatState :=
  (tag, e, root_key a :: mac_key a :: bs, flat_encoder <$> enc, flat_decoder <$> dec).

Definition flat_state (s : State) : FlatState :=
  match s with
  | KeysUnsampled e a => flat_with 0 e a [] None None
  | KeysSampled e a dk ek enc => flat_with 1 e a [dk; ek] (Some enc) None
  | HeaderSent e a dk dec enc => flat_with 2 e a [dk] (Some enc) (Some dec)
  | Ct1Received e a dk ct1 enc => flat_with 3 e a [dk; ct1] (Some enc) None
  | EkSentCt1Received e a dk ct1 dec => flat_with 4 e a [dk; ct1] None (Some dec)
  | NoHeaderReceived e a dec => flat_with 5 e a [] None (Some dec)
  | HeaderReceived e a h dec => flat_with 6 e a [h] None (Some dec)
  | Ct1Sampled e a h st ct1 enc dec => flat_with 7 e a [h; st; ct1] (Some enc) (Some dec)
  | EkReceivedCt1Sampled e a st ct1 ek enc => flat_with 8 e a [st; ct1; ek] (Some enc) None
  | Ct1Acknowledged e a st h ct1 dec => flat_with 9 e a [st; h; ct1] None (Some dec)
  | Ct2Sampled e a enc => flat_with 10 e a [] (Some enc) None
  | Poisoned => flat_with 11 0 (mk_auth [] []) [] None None
  end.

Definition unflat_state (x : FlatState) : State :=
  let '(tag, e, bs, enc, dec) := x in
  let a := mk_auth (nth 0 bs []) (nth 1 bs []) in
  let b i := nth (2 + i) bs [] in
  let enc := unflat_encoder (default ([], 0) enc) in
  let dec := unflat_decoder (default (0, 0, 0, ∅)%nat dec) in
  match tag with
  | 0 => KeysUnsampled e a
  | 1 => KeysSampled e a (b 0) (b 1) enc
  | 2 => HeaderSent e a (b 0) dec enc
  | 3 => Ct1Received e a (b 0) (b 1) enc
  | 4 => EkSentCt1Received e a (b 0) (b 1) dec
  | 5 => NoHeaderReceived e a dec
  | 6 => HeaderReceived e a (b 0) dec
  | 7 => Ct1Sampled e a (b 0) (b 1) (b 2) enc dec
  | 8 => EkReceivedCt1Sampled e a (b 0) (b 1) (b 2) enc
  | 9 => Ct1Acknowledged e a (b 0) (b 1) (b 2) dec
  | 10 => Ct2Sampled e a enc
  | _ => Poisoned
  end%nat.

Lemma unflat_flat_state s : unflat_state (flat_state s) = s.
Proof. by destruct s; repeat match goal with x : Authenticator |- _ => destruct x | x : Encoder |- _ => destruct x
  | x : Decoder |- _ => destruct x end. Qed.

(** ** SPQR states *)

Definition flat_scka (c : SckaChain) : bytes * Z := (ck c, n c).
Definition unflat_scka (x : bytes * Z) : SckaChain := mk_scka_chain x.1 x.2.
Lemma unflat_flat_scka c : unflat_scka (flat_scka c) = c.
Proof. by destruct c. Qed.

Definition flat_chains (c : EpochChains) : option (bytes * Z) * option (bytes * Z) :=
  (flat_scka <$> send c, flat_scka <$> recv c).
Definition unflat_chains (x : option (bytes * Z) * option (bytes * Z)) : EpochChains :=
  mk_epoch_chains (unflat_scka <$> x.1) (unflat_scka <$> x.2).
Lemma unflat_flat_chains c : unflat_chains (flat_chains c) = c.
Proof.
  destruct c. unfold unflat_chains, flat_chains. simpl. by rewrite !(option_inverse _ _ _ unflat_flat_scka).
Qed.

Definition FlatSpqr : Type :=
  FlatState * bytes * Z * gmap Z (option (bytes * Z) * option (bytes * Z)) * gmap Z (gmap Z bytes) * bool.
Definition flat_spqr (s : SpqrState) : FlatSpqr :=
  (flat_state (state (braid s)), rk s, epoch s, flat_chains <$> kdfchains s, mkskipped s,
   match direction s with A2B => true | B2A => false end).
Definition unflat_spqr (x : FlatSpqr) : SpqrState :=
  mk_spqr (mk_braid (unflat_state x.1.1.1.1.1)) x.1.1.1.1.2 x.1.1.1.2 (unflat_chains <$> x.1.1.2) x.1.2
    (if x.2 then A2B else B2A).
Lemma unflat_flat_spqr s : unflat_spqr (flat_spqr s) = s.
Proof.
  destruct s as [[b] k e c m d]. unfold unflat_spqr, flat_spqr. simpl.
  rewrite unflat_flat_state, (fmap_inverse _ _ _ unflat_flat_chains). by destruct d.
Qed.

(** ** Sessions *)

Definition flat_chain (c : ChainState) : bytes * Z := (chain_key c, message_number c).
Definition unflat_chain (x : bytes * Z) : ChainState := mk_chain x.1 x.2.
Lemma unflat_flat_chain c : unflat_chain (flat_chain c) = c.
Proof. by destruct c. Qed.

Definition flat_entry (e : SkippedKeyEntry) : Z * bytes * bytes := (e_message_number e, e_message_key e, e_dh e).
Definition unflat_entry (x : Z * bytes * bytes) : SkippedKeyEntry := mk_entry x.1.1 x.1.2 x.2.
Lemma unflat_flat_entry c : unflat_entry (flat_entry c) = c.
Proof. by destruct c. Qed.

#[export] Instance toy_key_countable : Countable ToyKey := _.

Definition FlatInitial : Type := Z * bytes * Z * option Z * Z * bytes * ToyKey.
Definition flat_initial (i : PqxdhInitialMessage) : FlatInitial :=
  (im_registration_id i, ephemeral_public_key i, im_signed_pre_key_id i, one_time_pre_key_id i,
   im_kyber_pre_key_id i, im_kyber_ciphertext i, identity_vk (im_identity_key i)).
Definition unflat_initial (x : FlatInitial) : PqxdhInitialMessage :=
  mk_initial x.1.1.1.1.1.1 x.1.1.1.1.1.2 x.1.1.1.1.2 x.1.1.1.2 x.1.1.2 x.1.2 (mk_identity_public x.2).
Lemma unflat_flat_initial i : unflat_initial (flat_initial i) = i.
Proof. by destruct i as [? ? ? ? ? ? []]. Qed.

Definition FlatSession : Type :=
  (Z * bytes * bytes * option bytes * bytes) * (option (bytes * Z) * option (bytes * Z) * Z)
  * list (Z * bytes * bytes) * option FlatInitial * FlatSpqr.
Definition flat_session (s : SerializedState) : FlatSession :=
  ((session_version s, ser_dh_self_bytes s, ser_dh_self_public s, ser_dh_remote s, ser_root_key s),
   (flat_chain <$> ser_sending_chain s, flat_chain <$> ser_receiving_chain s, ser_previous_sending_chain_length s),
   flat_entry <$> ser_skipped s, flat_initial <$> ser_pending_prekey s, flat_spqr (ser_spqr s)).
Definition unflat_session (x : FlatSession) : SerializedState :=
  let '((v, d, dp, dr, rt), (sc, rc, pl), sk, pp, sp) := x in
  mk_serialized v d dp dr rt (unflat_chain <$> sc) (unflat_chain <$> rc) pl (unflat_entry <$> sk)
    (unflat_initial <$> pp) (unflat_spqr sp).

#[export] Instance toy_session_codec : Postcard SerializedState := coded flat_session unflat_session.
#[export] Instance toy_session_codec_ok : PostcardOk SerializedState.
Proof.
  apply coded_ok. intros []. unfold unflat_session, flat_session. simpl.
  by rewrite !(option_inverse _ _ _ unflat_flat_chain), (list_inverse _ _ _ unflat_flat_entry),
    (option_inverse _ _ _ unflat_flat_initial), unflat_flat_spqr.
Qed.

(** ** Sealed sender and organisation records *)

#[export] Instance toy_sealed_codec : Postcard SealedSenderEnvelope :=
  coded (λ e, (ephemeral_public e, encrypted_static e, cert_hash e, encrypted_message e))
        (λ x, mk_envelope x.1.1.1 x.1.1.2 x.1.2 x.2).
#[export] Instance toy_sealed_codec_ok : PostcardOk SealedSenderEnvelope.
Proof. apply coded_ok. by intros []. Qed.

Definition FlatCert : Type := bytes * Z * ToyKey * Z * (Z * bytes * bytes) * bytes.
Definition flat_cert (c : SenderCertificate) : FlatCert :=
  (sender_uuid c, sender_device_id c, identity_vk (sc_identity_key c), expiration c,
   (key_id (server_certificate c), sc_public_key (server_certificate c), sc_signature (server_certificate c)),
   server_signature c).
Definition unflat_cert (x : FlatCert) : SenderCertificate :=
  mk_sender_cert x.1.1.1.1.1 x.1.1.1.1.2 (mk_identity_public x.1.1.1.2) x.1.1.2
    (mk_server_cert x.1.2.1.1 x.1.2.1.2 x.1.2.2) x.2.
Lemma unflat_flat_cert c : unflat_cert (flat_cert c) = c.
Proof. by destruct c as [? ? [] ? [] ?]. Qed.

#[export] Instance toy_cert_codec : Postcard SenderCertificate := coded flat_cert unflat_cert.
#[export] Instance toy_cert_codec_ok : PostcardOk SenderCertificate.
Proof. apply coded_ok. apply unflat_flat_cert. Qed.

#[export] Instance toy_inner_codec : Postcard InnerMessage :=
  coded (λ m, (flat_cert (sender_certificate m), content m)) (λ x, mk_inner (unflat_cert x.1) x.2).
#[export] Instance toy_inner_codec_ok : PostcardOk InnerMessage.
Proof. apply coded_ok. intros []. simpl. by rewrite unflat_flat_cert. Qed.

#[export] Instance toy_key_envelope_codec : Postcard MetadataKeyEnvelope :=
  coded (λ e, (mk_ephemeral_public_key e, mk_nonce e, mk_ciphertext e)) (λ x, mk_key_envelope x.1.1 x.1.2 x.2).
#[export] Instance toy_key_envelope_codec_ok : PostcardOk MetadataKeyEnvelope.
Proof. apply coded_ok. by intros []. Qed.

#[export] Instance toy_sym_envelope_codec : Postcard SymmetricMetadataKeyEnvelope :=
  coded (λ e, (sym_nonce e, sym_ciphertext e)) (λ x, mk_sym_envelope x.1 x.2).
#[export] Instance toy_sym_envelope_codec_ok : PostcardOk SymmetricMetadataKeyEnvelope.
Proof. apply coded_ok. by intros []. Qed.
