(* ===== verification/Witnesses.v ===== *)
(** * The theorems at concrete inputs

    Each lemma applies one theorem of the development to concrete values, with the
    interfaces instantiated as in [Toy] and [ToyCodec], and discharges its hypotheses by
    evaluation. *)

From stdpp Require Import functions.
From S2P Require Import Prelude Foundation Interfaces Padding Kdf Keys AeadRecord Erasure Kem.
From S2P Require Import BraidAuth Braid BraidAgreement BraidProgress BraidLiveness Spqr SpqrKeys SpqrAgreement.
From S2P Require Import Pqxdh Skipped Ratchet Session EcChain FirstFlight SenderKey Sesame.
From S2P Require Import SealedSender Recovery Envelope Provisioning OrgMetadata Toy ToyCodec.

(** Byte strings, randomness and identities. *)
Definition fill (n : nat) (b : byte) : bytes := replicate n b.
Definition toy_rng : Rng := λ n, fill n x2a.
Definition toy_alice : IdentityKeyPair := mk_identity (fill 32 x0a).
Definition toy_bob : IdentityKeyPair := mk_identity (fill 32 x0b).
Definition toy_secret : bytes := fill 32 x53.

(** ** Foundations *)

Definition toy_record : bytes := default [] (result_opt (serialize (mk_sym_envelope [x01] [x02]))).

Lemma record_codec_witness :
  (∃ bs, serialize (mk_sym_envelope [x03] [x04]) = Ok bs ∧ deserialize bs = Ok (mk_sym_envelope [x03] [x04]))
  ∧ ∃ body, toy_record = MAGIC ++ [CURRENT_VERSION] ++ body ∧ from_bytes body = Ok (mk_sym_envelope [x01] [x02]).
Proof.
  destruct (record_codec (mk_sym_envelope [x03] [x04]) toy_record (mk_sym_envelope [x01] [x02])) as [(bs & Hs & Hd & _) Hr].
  split; [by exists bs|]. apply Hr. by vm_compute.
Defined.

Lemma padding_correct_witness :
  unpad (pad (bstr "hello")) = Ok (bstr "hello")
  ∧ length (pad (bstr "hello")) = length (pad (bstr "good morning")).
Proof.
  destruct (padding_correct (bstr "hello") (bstr "good morning") []) as (Hu & _ & _ & _ & Hl).
  split; [done|]. by apply Hl.
Defined.

Lemma x25519_private_key_clamped_witness :
  ∃ b0 mid b31, x25519_private_key toy_alice = b0 :: mid ++ [b31] ∧ length mid = 30%nat
    ∧ Z_of_byte b0 mod 8 = 0 ∧ 64 ≤ Z_of_byte b31 < 128.
Proof. apply x25519_private_key_clamped. Defined.

(** ** The braid *)

Lemma erasure_any_codewords_witness :
  ∃ e d, encoder_new (bstr "header") = Ok e
    ∧ add_chunks (decoder_new 6) (nth_chunk e <$> [4; 4]%nat) = Ok d ∧ message d = Ok (Some (bstr "header")).
Proof.
  eexists.
  destruct (erasure_any_codewords (bstr "header") (mk_encoder (replicate 9 (resize 32 x00 (bstr "header"))) 0) [4; 4]%nat)
    as (d & Ha & Hm); [by vm_compute|by vm_compute|apply toy_recovers|].
  exists d. split; [by vm_compute|]. split; [exact Ha|]. rewrite Hm. by vm_compute.
Defined.

Lemma mac_input_injective_witness : mac_input HDR_LABEL 1 [] ≠ mac_input CT_LABEL 1 [].
Proof.
  intros E. apply mac_input_injective in E as (E & _);
    [by vm_compute in E|left|right; left|unfold in_u64, u64_max; lia..].
Defined.

Definition toy_ops : list BraidOp := [OpSend toy_rng; OpReceive (idle 1); OpSend toy_rng].

Lemma braid_secrets_consecutive_witness :
  let '(ks, b') := braid_calls toy_ops (init_sender toy_secret) in
  live (state b') ∧ es_epoch <$> ks = seqZ 1 (emitted_upto (state b')).
Proof. apply (braid_secrets_consecutive toy_secret true toy_ops). by vm_compute. Defined.

Lemma stale_message_ignored_witness :
  braid_receive (idle 0) (init_receiver toy_secret)
  = (Ok (mk_scka_receive 0 None), init_receiver toy_secret).
Proof. apply (stale_message_ignored (idle 0)); by vm_compute. Defined.

(** The sender's first message, and the receiver after it. *)
Definition toy_braid_sent := braid_send toy_rng (init_sender toy_secret).
Definition toy_braid_msg : Message :=
  match toy_braid_sent.1 with Ok out => ss_msg out | Err _ => idle 0 end.


Definition holds_header (s : State) : bool := match s with HeaderReceived _ _ _ _ => true | _ => false end.
Lemma holds_header_inv s : holds_header s = true → ∃ e auth header dec, s = HeaderReceived e auth header dec.
Proof. destruct s; try done. eauto. Qed.

Lemma braid_authenticated_witness :
  ∃ e auth header dec,
    state (braid_calls [OpReceive toy_braid_msg] (init_receiver toy_secret)).2 = HeaderReceived e auth header dec
    ∧ vouched [toy_braid_msg] e Hdr (pk1_len + MAC_SIZE) (header ++ mac_hdr auth e header).
Proof.
  destruct (holds_header_inv (state (braid_calls [OpReceive toy_braid_msg] (init_receiver toy_secret)).2))
    as (e & auth & header & dec & Hs); [vm_compute; reflexivity|].
  exists e, auth, header, dec. split; [exact Hs|].
  exact (proj1 (braid_authenticated toy_secret false [OpReceive toy_braid_msg]) e auth header dec Hs).
Defined.

(** A codeword of the wrong length is refused and leaves the receiver as it was. *)
Lemma braid_transactional_witness :
  let bad := carrying 1 Hdr (mk_chunk 0 []) in
  is_ok (braid_receive bad (init_receiver toy_secret)).1 = false
  ∧ (braid_receive bad (init_receiver toy_secret)).2 = init_receiver toy_secret.
Proof.
  intros bad. split; [by vm_compute|].
  destruct (braid_transactional (init_receiver toy_secret) toy_rng bad) as (_ & Hr & _).
  destruct (braid_receive bad (init_receiver toy_secret)) as [[out|e] b'] eqn:E; [|exact (Hr e b' eq_refl)].
  assert (is_ok (braid_receive bad (init_receiver toy_secret)).1 = false) as Hf by (by vm_compute).
  rewrite E in Hf. discriminate Hf.
Defined.

(** ** Runs of two parties *)

(** A schedule: party [p] sends, or receives the [i]-th latest message of its peer. *)
Inductive Act : Type := Snd (p : bool) | Dlv (p : bool) (i : nat).

Definition sys_exec (sys : System) (a : Act) : option System :=
  match a with
  | Snd p =>
      match braid_send toy_rng (party sys p) with
      | (Ok out, b') => if bool_decide (state_epoch (state (party sys p)) < u64_max) then Some
          (mk_system (<[p := b']> (party sys)) (<[p := ss_msg out :: sent sys p]> (sent sys))
             (<[p := option_list (ss_output_key out) ++ emitted sys p]> (emitted sys))) else None
      | _ => None
      end
  | Dlv p i =>
      msg ← sent sys (negb p) !! i;
      match braid_receive msg (party sys p) with
      | (Ok out, b') => if bool_decide (state_epoch (state (party sys p)) < u64_max) then Some
          (mk_system (<[p := b']> (party sys)) (sent sys)
             (<[p := option_list (sr_output_key out) ++ emitted sys p]> (emitted sys))) else None
      | _ => None
      end
  end.

Lemma sys_exec_step sys a sys' : sys_exec sys a = Some sys' → sys_step sys sys'.
Proof.
  destruct a as [p|p i]; cbn [sys_exec].
  - destruct (braid_send _ _) as [[out|] b'] eqn:E; [|done]. case_bool_decide; [|done]. intros [= <-].
    by apply (step_send p toy_rng).
  - intros (msg & Hm & Hr)%bind_Some. destruct (braid_receive _ _) as [[out|] b'] eqn:E; [|done].
    case_bool_decide; [|done]. injection Hr as <-. apply (step_deliver p msg); [done| |done].
    by eapply list_elem_of_lookup_2.
Qed.

Fixpoint sys_run (sched : list Act) (sys : System) : option System :=
  match sched with [] => Some sys | a :: sched => sys_exec sys a ≫= sys_run sched end.

Lemma sys_run_steps sched : ∀ sys sys', sys_run sched sys = Some sys' → rtc sys_step sys sys'.
Proof.
  induction sched as [|a sched IH]; intros sys sys'; cbn [sys_run]; [by intros [= <-]|].
  intros (s1 & H1 & Hr)%bind_Some. eapply rtc_l; [by eapply sys_exec_step|by apply IH].
Qed.

(** One full epoch of key agreement. *)
Definition epoch_schedule : list Act :=
  [Snd true; Dlv false 0; Snd false; Dlv true 0; Snd false; Dlv true 0; Snd true; Dlv false 0;
   Snd false; Dlv true 0; Snd false; Dlv true 0].

Definition toy_sys : System := default (sys_init toy_secret) (sys_run epoch_schedule (sys_init toy_secret)).

Lemma toy_sys_reachable : sys_reachable toy_secret toy_sys.
Proof.
  apply (sys_run_steps epoch_schedule). unfold toy_sys.
  assert (is_Some (sys_run epoch_schedule (sys_init toy_secret))) as [sys ->]; [|done].
  apply not_eq_None_Some. by vm_compute.
Qed.

(** Two lists whose first elements have the views [x] and [y]. *)
Lemma heads_view {A B} (f : A → B) (l1 l2 : list A) x y :
  (f <$> head l1, f <$> head l2) = (Some x, Some y) →
  ∃ a b, a ∈ l1 ∧ b ∈ l2 ∧ f a = x ∧ f b = y.
Proof.
  destruct l1 as [|a l1], l2 as [|b l2]; simpl; try done. intros [= <- <-].
  exists a, b. repeat split; by left.
Qed.

(** Both parties emitted the secret of the first epoch. *)
Lemma toy_sys_emits :
  ∃ a b, a ∈ emitted toy_sys true ∧ b ∈ emitted toy_sys false ∧ es_epoch a = 1 ∧ es_epoch b = 1.
Proof. apply heads_view. vm_compute. reflexivity. Qed.

Lemma braid_agreement_witness :
  ∃ a b, a ∈ emitted toy_sys true ∧ b ∈ emitted toy_sys false ∧ es_epoch a = 1
    ∧ es_secret a = es_secret b.
Proof.
  destruct toy_sys_emits as (a & b & Ha & Hb & Ea & Eb). exists a, b.
  split; [exact Ha|]. split; [exact Hb|]. split; [exact Ea|].
  apply (braid_agreement toy_secret toy_sys true false); [exact toy_sys_reachable|exact Ha|exact Hb|].
  by rewrite Ea, Eb.
Defined.

Lemma braid_never_fails_witness :
  is_ok (braid_send toy_rng (party toy_sys true)).1 = true
  ∧ ∀ msg, msg ∈ sent toy_sys true → is_ok (braid_receive msg (party toy_sys false)).1 = true.
Proof.
  destruct (braid_never_fails toy_braid_recovers toy_secret toy_sys true toy_sys_reachable) as [Hs _].
  destruct (braid_never_fails toy_braid_recovers toy_secret toy_sys false toy_sys_reachable) as [_ Hr].
  split; [exact (Hs toy_rng)|exact Hr].
Defined.

Lemma braid_reaches_next_epoch_witness :
  let sys' := run_rounds (λ _ _, toy_rng) (21 * patience) toy_sys in
  sys_reachable toy_secret sys' ∧ 2 < state_epoch (at_party sys' true).
Proof.
  assert (bool_decide (state_epoch (at_party toy_sys true) = 2) = true) as He%bool_decide_eq_true_1 by (vm_compute; reflexivity).
  destruct (braid_reaches_next_epoch toy_braid_recovers toy_secret toy_sys (λ _ _, toy_rng) toy_sys_reachable) as [Hr Hup].
  - assert (forallb (λ p, state_epoch (at_party toy_sys p) + Z.of_nat (21 * patience + 2) <? u64_max) [true; false] = true)
      as Hall by (vm_compute; reflexivity).
    pose proof (proj1 (forallb_forall _ _) Hall) as Hp. intros []; apply Z.ltb_lt, Hp; [by left|by right; left].
  - split; [exact Hr|]. rewrite <-He. exact (Hup true true).
Defined.
