(* ===== verification/SessionWitnesses.v ===== *)
(** * The session, group and application theorems at concrete inputs

    Continues [Witnesses] with the ratchets, the session, groups, Sesame, sealed sender
    and the application layer. *)

From stdpp Require Import functions.
From S2P Require Import Prelude Foundation Interfaces Padding Kdf Keys AeadRecord Erasure Kem.
From S2P Require Import BraidAuth Braid BraidAgreement BraidProgress Spqr SpqrKeys SpqrAgreement.
From S2P Require Import Pqxdh Skipped Ratchet Session EcChain FirstFlight SenderKey Sesame.
From S2P Require Import SealedSender Recovery Envelope Provisioning OrgMetadata Toy ToyCodec.
From S2P Require Import Witnesses.

(** ** The post-quantum ratchet *)

Definition send_guard (st : SpqrState) : bool :=
  bool_decide (state_epoch (state (braid st)) < u64_max)
  && match send_count st (state_epoch (state (braid st)) - 1) with
     | Some m => bool_decide (m < u32_max)
     | None => true
     end.

Definition pair_exec (sys : RatchetPair) (a : Act) : option RatchetPair :=
  match a with
  | Snd p =>
      if send_guard (rp_state sys p) then
        let '(r, st') := ratchet_send_key toy_rng (rp_state sys p) in
        Some (mk_pair (<[p := st']> (rp_state sys)) (<[p := sent_msg r ++ rp_wire sys p]> (rp_wire sys))
               (<[p := sent_use p r ++ rp_keys sys p]> (rp_keys sys)))
      else None
  | Dlv p i =>
      msg ← rp_wire sys (negb p) !! i;
      if bool_decide (state_epoch (state (braid (rp_state sys p))) < u64_max) then
        let '(r, st') := ratchet_receive_key msg 1 (rp_state sys p) in
        Some (mk_pair (<[p := st']> (rp_state sys)) (rp_wire sys)
               (<[p := recv_use p msg 1 r ++ rp_keys sys p]> (rp_keys sys)))
      else None
  end.

Lemma pair_exec_step sys a sys' : pair_exec sys a = Some sys' → pair_step sys sys'.
Proof.
  destruct a as [p|p i]; cbn [pair_exec].
  - destruct (send_guard (rp_state sys p)) eqn:Hg; [|done]. apply andb_true_iff in Hg as [He Hm].
    destruct (ratchet_send_key _ _) as [r st'] eqn:E. intros [= <-].
    apply (pair_send p toy_rng); [by apply bool_decide_eq_true in He| |done].
    intros m Hc. rewrite Hc in Hm. by apply bool_decide_eq_true in Hm.
  - intros (msg & Hm & Hr)%bind_Some. case_bool_decide; [|done].
    destruct (ratchet_receive_key _ _ _) as [r st'] eqn:E. injection Hr as <-.
    apply (pair_deliver p msg 1); [done|by eapply list_elem_of_lookup_2|unfold in_u32, u32_max; lia|done].
Qed.

Fixpoint pair_run (sched : list Act) (sys : RatchetPair) : option RatchetPair :=
  match sched with [] => Some sys | a :: sched => pair_exec sys a ≫= pair_run sched end.

Lemma pair_run_steps sched : ∀ sys sys', pair_run sched sys = Some sys' → rtc pair_step sys sys'.
Proof.
  induction sched as [|a sched IH]; intros sys sys'; cbn [pair_run]; [by intros [= <-]|].
  intros (s1 & H1 & Hr)%bind_Some. eapply rtc_l; [by eapply pair_exec_step|by apply IH].
Qed.

(** An epoch of key agreement, then a message under the keys of that epoch. *)
Definition toy_pair_schedule : list Act := epoch_schedule ++ [Snd true; Dlv false 0].
Definition toy_pair : RatchetPair := default (pair_init toy_secret) (pair_run toy_pair_schedule (pair_init toy_secret)).

Lemma toy_pair_reachable : pair_reachable toy_secret toy_pair.
Proof.
  apply (pair_run_steps toy_pair_schedule). unfold toy_pair.
  assert (is_Some (pair_run toy_pair_schedule (pair_init toy_secret))) as [sys ->]; [|done].
  apply not_eq_None_Some. by vm_compute.
Qed.

Definition use_index (u : KeyUse) : Direction * Z * Z := (ku_flow u, ku_epoch u, ku_counter u).

(** Both parties handed out the first key of the first epoch in one direction. *)
Lemma toy_pair_uses :
  ∃ a b, a ∈ rp_keys toy_pair true ∧ b ∈ rp_keys toy_pair false
    ∧ use_index a = (A2B, 1, 1) ∧ use_index b = (A2B, 1, 1).
Proof. apply heads_view. vm_compute. reflexivity. Qed.

Lemma spqr_agreement_witness :
  ∃ a b, a ∈ rp_keys toy_pair true ∧ b ∈ rp_keys toy_pair false ∧ use_index a = (A2B, 1, 1)
    ∧ ku_key a = ku_key b.
Proof.
  destruct toy_pair_uses as (a & b & Ha & Hb & Ea & Eb). exists a, b.
  split; [exact Ha|]. split; [exact Hb|]. split; [exact Ea|].
  injection Ea as ???. injection Eb as ???.
  apply (spqr_agreement toy_secret toy_pair true false);
    [exact toy_pair_reachable|exact Ha|exact Hb|congruence..].
Defined.

Lemma spqr_receive_once_witness :
  NoDup (spqr_calls [SpReceive toy_braid_msg 2; SpReceive toy_braid_msg 1; SpReceive toy_braid_msg 2]
           (spqr_init toy_secret B2A)).1.
Proof.
  apply (spqr_receive_once toy_secret B2A); [|by vm_compute].
  repeat constructor; simpl; unfold u32_max; lia.
Defined.

(** ** Key agreement *)

Definition toy_responder : ResponderKeys :=
  mk_responder toy_bob (fill 32 x11) (Some (7, fill 32 x12)) (dk_from_seed_bytes (fill 64 x13)).
Definition toy_bundle : PreKeyBundle := published toy_responder 1 1 2 3 false.

Lemma pqxdh_agreement_witness :
  ∃ out, process_prekey_bundle (fill 32 x21) (fill 32 x22) toy_alice toy_bundle = Ok out
    ∧ process_initial_message toy_bob (fill 32 x11) (Some (fill 32 x12)) (dk_from_seed_bytes (fill 64 x13))
        (initial_message out) = Ok (shared_secret out)
    ∧ wf_key (shared_secret out) ∧ im_identity_key (initial_message out) = public_key toy_alice.
Proof. exact (pqxdh_agreement toy_responder toy_alice (fill 32 x21) (fill 32 x22) 1 1 2 3 false). Defined.

Lemma bundle_authenticated_witness :
  identity_verify (b_identity_key toy_bundle) (signed_pre_key_public toy_bundle) (signed_pre_key_signature toy_bundle) = Ok ()
  ∧ is_ok (process_prekey_bundle (fill 32 x21) (fill 32 x22) toy_alice (with_one_time None toy_bundle)) = true.
Proof.
  assert (is_ok (process_prekey_bundle (fill 32 x21) (fill 32 x22) toy_alice toy_bundle) = true) as Hok by (vm_compute; reflexivity).
  destruct (bundle_authenticated (fill 32 x21) (fill 32 x22) toy_alice toy_bundle) as (Hiff & Hany & _).
  split; [exact (proj1 (proj1 Hiff Hok))|]. rewrite Hany. exact Hok.
Defined.

(** ** Sessions *)

Definition toy_bob_session : RatchetSession := initialize_bob toy_secret (fill 32 x11, x25519_public (fill 32 x11)).
Definition toy_forged : RatchetMessage :=
  mk_ratchet_message (header_serialize (mk_header (fill 32 x66) 0 0 (idle 1) 1)) [].

Lemma session_invariant_witness :
  session_wf (foldl session_call toy_bob_session
    [OpDecrypt (fill 32 x31) toy_forged (public_key toy_alice) (public_key toy_bob);
     OpEncrypt toy_rng (fill 24 x01) [] (public_key toy_bob) (public_key toy_alice)]).
Proof. apply (session_invariant [] toy_secret [] (fill 32 x11)). by vm_compute. Defined.

Lemma session_stored_roundtrip_witness :
  ∃ bs, session_serialize toy_bob_session = Ok bs
    ∧ session_deserialize bs = Ok (forget_root_id toy_bob_session).
Proof.
  destruct (session_stored_roundtrip toy_bob_session) as [Hrt _]; [|exact Hrt].
  apply initialize_bob_wf. by vm_compute.
Defined.

(** The responder after two messages of the initiator's first chain. *)
Definition toy_ck : bytes := fill 32 x44.
Definition toy_peer : bytes := fill 32 x55.
Definition toy_receiving : RatchetSession :=
  mk_session (fill 32 x11) (x25519_public (fill 32 x11)) (Some toy_peer) (fill 32 x12) None
    (Some (ec_chain toy_ck 2)) 0 ∅ None (new_receiver toy_secret) 0.

Lemma toy_receiving_ready : ec_ready toy_ck toy_peer 2 toy_receiving.
Proof. by split; [done|done|unfold u32_max; lia|]. Qed.

Lemma replay_desynchronises_witness :
  let replayed := mk_ratchet_message (header_serialize (mk_header toy_peer 0 1 (idle 1) 2)) [] in
  let s' := (session_decrypt (fill 32 x31) replayed (public_key toy_alice) (public_key toy_bob) toy_receiving).2 in
  receiving_chain s' = Some (ec_chain toy_ck 3)
  ∧ (ec_message_key (fill 32 x32) (mk_header toy_peer 0 2 (idle 1) 3) s').1 = Ok (ec_key toy_ck 3).
Proof.
  apply (replay_desynchronises toy_ck toy_peer 2 toy_receiving (fill 32 x31) (fill 32 x32)
    (mk_header toy_peer 0 1 (idle 1) 2) (mk_header toy_peer 0 2 (idle 1) 3) []);
    [exact toy_receiving_ready|by vm_compute|done|by vm_compute|done|done|done].
Defined.

Lemma forged_header_moves_ratchet_witness :
  let '(r, s') := session_decrypt (fill 32 x31) toy_forged (public_key toy_alice) (public_key toy_bob) toy_receiving in
  dh_remote s' = Some (fill 32 x66) ∧ is_ok r = false.
Proof.
  pose proof (forged_header_moves_ratchet (fill 32 x31) (mk_header (fill 32 x66) 0 0 (idle 1) 1) []
    (public_key toy_alice) (public_key toy_bob) toy_receiving) as Hw.
  fold toy_forged in Hw. destruct (session_decrypt _ _ _ _ _) as [r s'].
  destruct Hw as [(Hr & _) Hf]; [done|by vm_compute|by intros c [= <-]|unfold MAX_SKIP; simpl; lia|].
  split; [exact Hr|]. apply Hf. unfold AeadRecord.NONCE_SIZE. simpl. lia.
Defined.

Definition toy_first : Send := mk_send toy_rng (fill 24 x01) (bstr "hello").
Definition toy_rest : list Send := [mk_send toy_rng (fill 24 x02) (bstr "are"); mk_send toy_rng (fill 24 x03) (bstr "you there")].

Lemma first_flight_delivered_witness :
  ∃ pk (ms : list RatchetMessage) bob_session bob_session',
    decrypt_prekey_message (fill 32 x31) pk toy_bob (fill 32 x11) (x25519_public (fill 32 x11))
      (Some (fill 32 x12)) (fill 64 x13) = Ok (bob_session, bstr "hello")
    ∧ receive_all (public_key toy_alice) (public_key toy_bob) [(fill 32 x32, ms !!! 1%nat); (fill 32 x33, ms !!! 0%nat)]
        bob_session = (Ok [bstr "you there"; bstr "are"], bob_session').
Proof.
  destruct (first_flight_delivered toy_alice toy_bob (fill 32 x11) (Some (7, fill 32 x12)) (fill 64 x13)
    (fill 32 x21) (fill 32 x22) (fill 32 x23) 1 1 2 3 false toy_first toy_rest toy_braid_recovers)
    as (out & session & pk & ms & session' & _ & _ & _ & Hrecv); [by repeat constructor|by vm_compute|].
  destruct (Hrecv (fill 32 x31)) as (bs & Hd & Hany).
  destruct (Hany [(1, fill 32 x32); (0, fill 32 x33)]%nat) as (bs' & Hall).
  - apply NoDup_ListNoDup. by repeat constructor; simpl; intros Hin; repeat destruct Hin as [Hin|Hin].
  - simpl. intros i Hi. repeat (apply elem_of_cons in Hi as [->|Hi]; [lia|]). by apply elem_of_nil in Hi.
  - exists pk, ms, bs, bs'. split; [exact Hd|exact Hall].
Defined.
