(* ===== verification/GroupWitnesses.v ===== *)
(** * The group theorems at concrete inputs *)

From S2P Require Import Prelude Foundation Interfaces Kdf Keys AeadRecord SenderKey GroupChannel.
From S2P Require Import Toy ToyCodec Witnesses.

Definition toy_gid : bytes := fill 16 x77.
Definition toy_pts : list (bytes * bytes) :=
  [(fill 24 x01, bstr "one"); (fill 24 x02, bstr "two"); (fill 24 x03, bstr "three")].
Definition toy_address : ProtocolAddress := mk_address toy_gid 1.
Definition toy_chain (mode : SenderKeyAuth) : SenderKeyState * SenderKeyDistributionMessage :=
  create_sender_key_distribution_message (fill 32 x31) (fill 32 x32) toy_gid mode.
Definition toy_group_sent (mode : SenderKeyAuth) : list (result SenderKeyMessage) :=
  (group_send toy_gid toy_pts (toy_chain mode).1).1.
Definition toy_group_message (mode : SenderKeyAuth) (i : nat) : SenderKeyMessage :=
  default (mk_sender_key_message [] 0 [] (TagHmac [])) (toy_group_sent mode !! i ≫= result_opt).
Definition toy_group_receiver : SenderKeyState := process_sender_key_distribution_message toy_address (toy_chain Signed).2.
Definition toy_group_key : IdentityPublicKey := public_key (mk_identity (fill 32 x32)).

(** Late, replayed and forged messages. *)
Definition toy_group_forged : SenderKeyMessage := mk_sender_key_message toy_gid 0 [] (TagSignature (fill 64 x00)).
Definition toy_inputs : list GroupInput := [FromSender 1; FromSender 0; FromSender 1; Foreign toy_group_forged].
Definition toy_wire (mode : SenderKeyAuth) : list SenderKeyMessage :=
  [toy_group_message mode 1; toy_group_message mode 0; toy_group_message mode 1; toy_group_forged].

Lemma toy_nonces : Forall (λ p, length p.1 = NONCE_SIZE) toy_pts.
Proof. by repeat constructor. Qed.

Lemma toy_sent mode i : (i < 3)%nat → toy_group_sent mode !! i = Some (Ok (toy_group_message mode i)).
Proof. intros Hi. destruct mode; (destruct i as [|[|[|]]]; [vm_compute; reflexivity..|lia]). Qed.

Lemma toy_forged_unauthentic mode : ¬ authentic mode toy_group_key (fill 32 x31) toy_group_forged.
Proof.
  destruct mode; [by intros []|]. intros Ha. unfold authentic in Ha. cbn [m_auth toy_group_forged] in Ha.
  assert (is_ok (identity_verify toy_group_key (authenticated_data toy_gid 0 []) (fill 64 x00)) = false) as Hf
    by (vm_compute; reflexivity).
  unfold toy_group_forged in Ha. cbn [group_id m_iteration m_ciphertext] in Ha. rewrite Ha in Hf. discriminate Hf.
Qed.

Lemma toy_on_wire mode :
  Forall2 (on_wire mode toy_group_key (fill 32 x31) (toy_group_sent mode)) toy_inputs (toy_wire mode).
Proof.
  unfold toy_inputs, toy_wire. repeat constructor; try (apply (toy_sent mode); lia); try lia.
  apply toy_forged_unauthentic.
Qed.

Definition toy_hmac_receiver : SenderKeyState := process_sender_key_distribution_message toy_address (toy_chain Hmac).2.

Lemma toy_channel :
  channel_run (channel_step Signed toy_pts.*2) channel_new toy_inputs
  = ([Delivered (bstr "two"); Delivered (bstr "one"); Duplicate; Refused], mk_channel 2 ∅)
  ∧ channel_run (channel_step Hmac toy_pts.*2) channel_new toy_inputs
    = ([Delivered (bstr "two"); Duplicate; Duplicate; Refused], mk_channel 2 {[0]}).
Proof. split; vm_compute; reflexivity. Qed.

Lemma group_refines_channel_witness :
  let '(results, r) := group_receive (toy_wire Signed) toy_group_receiver in
  Forall2 agrees [Delivered (bstr "two"); Delivered (bstr "one"); Duplicate; Refused] results ∧ iteration r = 2.
Proof.
  assert (let '(outcomes, c) := channel_run (channel_step Signed toy_pts.*2) channel_new toy_inputs in
          let '(results, r) := group_receive (toy_wire Signed) toy_group_receiver in
          Forall2 agrees outcomes results ∧ iteration r = ch_next c
          ∧ list_to_set (skipped_message_keys r).*1 = ch_waiting c
          ∧ (Z.of_nat (length toy_pts) ≤ SKIP_LIMIT →
             outcomes = (channel_run (unordered_step toy_pts.*2) ∅ toy_inputs).1)) as Hw.
  { exact (group_refines_channel (fill 32 x31) (fill 32 x32) toy_gid toy_address toy_pts toy_inputs (toy_wire Signed)
      toy_nonces ltac:(by vm_compute) (toy_on_wire Signed)). }
  rewrite (proj1 toy_channel) in Hw. destruct (group_receive (toy_wire Signed) toy_group_receiver) as [rs r].
  destruct Hw as (Ha & Hi & _). split; [exact Ha|exact Hi].
Defined.

Lemma hmac_refines_ordered_channel_witness :
  let '(results, r) := group_receive (toy_wire Hmac) toy_hmac_receiver in
  Forall2 agrees [Delivered (bstr "two"); Duplicate; Duplicate; Refused] results
  ∧ list_to_set (skipped_message_keys r).*1 = ({[0]} : gset Z)
  ∧ group_decrypt (toy_group_message Hmac 0) r = (Err DuplicateMessage, r).
Proof.
  assert (let '(outcomes, c) := channel_run (channel_step Hmac toy_pts.*2) channel_new toy_inputs in
          let '(results, r) := group_receive (toy_wire Hmac) toy_hmac_receiver in
          Forall2 agrees outcomes results ∧ iteration r = ch_next c
          ∧ list_to_set (skipped_message_keys r).*1 = ch_waiting c
          ∧ ∀ i m, i ∈ ch_waiting c → toy_group_sent Hmac !! Z.to_nat i = Some (Ok m) →
              group_decrypt m r = (Err DuplicateMessage, r)) as Hw.
  { exact (hmac_refines_ordered_channel (fill 32 x31) (fill 32 x32) toy_gid toy_address toy_pts toy_inputs (toy_wire Hmac)
      toy_nonces ltac:(by vm_compute) (toy_on_wire Hmac)). }
  rewrite (proj2 toy_channel) in Hw. destruct (group_receive (toy_wire Hmac) toy_hmac_receiver) as [rs r].
  destruct Hw as (Ha & _ & Hs & Hlate). split; [exact Ha|]. split; [exact Hs|].
  apply (Hlate 0); [exact (proj2 (elem_of_singleton 0 0) eq_refl)|]. exact (toy_sent Hmac 0 ltac:(lia)).
Defined.

(** The receiver has the third message; the first is read again as one of iteration 1. *)
Definition toy_gap_receiver : SenderKeyState := (group_decrypt (toy_group_message Signed 2) toy_group_receiver).2.

Lemma toy_genuine i : (i < 3)%nat →
  ∃ pt, genuine Signed toy_group_key (fill 32 x31) toy_gid (Z.of_nat i) pt (toy_group_message Signed i).
Proof.
  intros Hi. destruct (sent_genuine Signed (fill 32 x31) (fill 32 x32) toy_gid toy_pts (Z.of_nat i) (toy_group_message Signed i))
    as (pt & _ & _ & Hg); [exact toy_nonces|by vm_compute|lia|rewrite Nat2Z.id; exact (toy_sent Signed i Hi)|].
  exists pt. exact Hg.
Qed.

Lemma toy_gap_ok : ∃ waiting, receiver_ok Signed toy_group_key (fill 32 x31) 3 waiting toy_gap_receiver ∧ 1 ∈ waiting.
Proof.
  destruct (toy_genuine 2 ltac:(lia)) as [pt Hg]. unfold toy_gap_receiver.
  pose proof (receiver_new Signed (fill 32 x32) (fill 32 x31) toy_gid) as Hnew.
  destruct (decrypt_ahead _ _ _ _ _ _ toy_group_receiver _ _ _ Hnew Hg) as (r' & -> & Hr);
    [vm_compute; reflexivity|split; by vm_compute|reflexivity|].
  eexists. split; [exact Hr|]. apply elem_of_union_r, elem_of_list_to_set, elem_of_seqZ. vm_compute. split; congruence.
Qed.

Lemma group_resplit_consumes_key_witness :
  let m' := mk_sender_key_message (toy_gid ++ [x00]) 1 (tail (m_ciphertext (toy_group_message Signed 0)))
              (m_auth (toy_group_message Signed 0)) in
  let r' := (group_decrypt m' toy_gap_receiver).2 in
  is_ok (group_decrypt (toy_group_message Signed 1) toy_gap_receiver).1 = true
  ∧ group_decrypt (toy_group_message Signed 1) r' = (Err DuplicateMessage, r').
Proof.
  destruct (toy_genuine 0 ltac:(lia)) as [pt Hg]. destruct (toy_genuine 1 ltac:(lia)) as [pt2 Hg2].
  destruct toy_gap_ok as (waiting & Hr & Hw).
  destruct (group_resplit_consumes_key toy_group_key (fill 32 x31) toy_gid 3 waiting toy_gap_receiver 0 pt
    (toy_group_message Signed 0) x01 (tail (m_ciphertext (toy_group_message Signed 0))) 1 pt2 (toy_group_message Signed 1))
    as (Hok & _ & Hdup).
  - exact Hr.
  - exact Hg.
  - lia.
  - vm_compute. reflexivity.
  - reflexivity.
  - exact Hw.
  - exact Hg2.
  - split; [rewrite Hok; reflexivity|exact Hdup].
Defined.

(** ** Any message *)

Lemma group_authenticated_witness :
  group_decrypt (mk_sender_key_message toy_gid 0 [] (TagHmac [])) toy_group_receiver
  = (Err InvalidSignature, toy_group_receiver).
Proof.
  destruct (group_decrypt (mk_sender_key_message toy_gid 0 [] (TagHmac [])) toy_group_receiver) as [r s'] eqn:E.
  destruct (group_authenticated _ _ _ _ E) as [-> ->]. done.
Defined.

Lemma group_decrypt_bounds_witness :
  let m := mk_sender_key_message toy_gid 5 [] (TagSignature (fill 64 x00)) in
  let '(r, s') := group_decrypt m toy_group_receiver in
  Z.of_nat (length (skipped_message_keys s')) ≤ SKIP_LIMIT ∧ iteration toy_group_receiver ≤ iteration s'.
Proof.
  intros m. destruct (group_decrypt m toy_group_receiver) as [r s'] eqn:E.
  destruct (group_decrypt_bounds m toy_group_receiver r s' E) as (Hl & Hi & _);
    [by vm_compute..|]. split; [exact Hl|exact Hi].
Defined.
