(* ===== verification/AppWitnesses.v ===== *)
(** * The Sesame, sealed-sender and application theorems at concrete inputs *)

From S2P Require Import Prelude Foundation Interfaces Padding Kdf Keys AeadRecord.
From S2P Require Import Sesame SealedSender Recovery Envelope Provisioning OrgMetadata Toy.
From S2P Require Import ToyCodec Witnesses.

(** ** Sesame *)

Lemma fresh_message_decryptable_witness : is_stale_for_receiving 1000 2600000 = false.
Proof. apply (fresh_message_decryptable 1000 1000 2593000 2600000); by vm_compute. Defined.

Definition toy_entry (p : Z) : SessionEntry := entry_new_with_priority [] Initiating 100 p.
Definition toy_device (active inactive : Z) : DeviceRecord :=
  mk_device (Some (toy_entry active)) [toy_entry inactive] None.

Lemma dual_init_convergence_witness :
  convergence_priority <$> active_session (run_decrypts [(1%nat, [], 200)] (toy_device 3 9)).2 = Some 9
  ∧ convergence_priority <$> active_session (run_decrypts [(0%nat, [], 200); (1%nat, [], 201)] (toy_device 9 3)).2 = Some 9.
Proof.
  apply (dual_init_convergence (toy_device 3 9) (toy_device 9 3) [(1%nat, [], 200)] [(0%nat, [], 200); (1%nat, [], 201)] 9);
    [eauto|eauto| |by left|by left].
  change (priorities (toy_device 3 9) ++ priorities (toy_device 9 3)) with [3; 9; 9; 3].
  intros x Hx. repeat (apply elem_of_cons in Hx as [->|Hx]; [lia|]). by apply elem_of_nil in Hx.
Defined.

Lemma active_priority_monotone_witness :
  ∃ a', active_session (run_decrypts [(1%nat, [], 200)] (toy_device 3 9)).2 = Some a' ∧ 3 ≤ convergence_priority a'.
Proof.
  destruct (active_priority_monotone [(1%nat, [], 200)] (toy_device 3 9) (toy_entry 3)) as (a' & Ha & Hle & _);
    [done|unfold device_wf, MAX_INACTIVE_SESSIONS; simpl; lia|by exists a'].
Defined.

(** ** Sealed sender *)

Definition toy_server : bytes := fill 32 x51.
Definition toy_cert : SenderCertificate :=
  sender_certificate_new (fill 16 x61) 1 (public_key toy_alice) 2000 toy_server (server_certificate_new 1 toy_server).

Lemma seal_unseal_witness :
  ∃ bs, seal (fill 32 x71) (fill 24 x01) (fill 24 x02) toy_alice toy_cert (bstr "hi") (public_key toy_bob) = Ok bs
    ∧ unseal bs toy_bob (verifying_key toy_server) 1000
      = Ok (mk_unsealed (fill 16 x61) 1 (public_key toy_alice) (bstr "hi"))
    ∧ unseal bs toy_bob (verifying_key toy_server) 2000 = Err ExpiredCertificate.
Proof.
  destruct (seal_unseal 1 toy_server (fill 16 x61) 1 2000 (fill 32 x71) (fill 24 x01) (fill 24 x02) toy_alice toy_bob
    (bstr "hi")) as (bs & Hs & Hu & _); [reflexivity|reflexivity|].
  exists bs. split; [exact Hs|]. split; [exact (Hu 1000)|exact (Hu 2000)].
Defined.

Lemma toy_cert_valid : validate toy_cert (verifying_key toy_server) 1000 = Ok ().
Proof. exact (issued_validates 1 toy_server (fill 16 x61) 1 (public_key toy_alice) 2000 1000). Qed.

Lemma recipient_key_forges_witness :
  ∃ bs, forge (fill 32 x71) (fill 24 x01) (fill 24 x02) toy_bob toy_cert (bstr "never sent") = Ok bs
    ∧ unseal bs toy_bob (verifying_key toy_server) 1000
      = Ok (mk_unsealed (fill 16 x61) 1 (public_key toy_alice) (bstr "never sent")).
Proof.
  destruct (recipient_key_forges (fill 32 x71) (fill 24 x01) (fill 24 x02) toy_alice toy_bob toy_cert
    (bstr "never sent") (verifying_key toy_server) 1000) as (bs & Hf & _ & Hu);
    [reflexivity|reflexivity|reflexivity|exact toy_cert_valid|].
  exists bs. split; [exact Hf|exact Hu].
Defined.

Lemma unseal_authentic_witness :
  ∃ bs cert, unseal bs toy_bob (verifying_key toy_server) 1000
             = Ok (mk_unsealed (fill 16 x61) 1 (public_key toy_alice) (bstr "hi"))
    ∧ validate cert (verifying_key toy_server) 1000 = Ok () ∧ 1000 < expiration cert.
Proof.
  destruct (seal_opens (fill 32 x71) (fill 24 x01) (fill 24 x02) toy_alice toy_bob toy_cert (bstr "hi"))
    as (bs & _ & Hu); [reflexivity..|]. specialize (Hu (verifying_key toy_server) 1000). rewrite toy_cert_valid in Hu.
  destruct (unseal_authentic _ _ _ _ _ Hu) as (env & ck & sk & ib & inner & cb & _ & _ & _ & _ & _ & _ & _ & _ & Hv & Hn & _).
  exists bs, (sender_certificate inner). split; [exact Hu|]. split; [exact Hv|exact Hn].
Defined.

Lemma signable_data_injective_witness :
  signable_data (fill 16 x61) 1 (public_key toy_alice) 2000 ≠ signable_data (fill 16 x61) 2 (public_key toy_alice) 2000.
Proof.
  intros E. apply signable_data_injective in E as (_ & E & _); [done|done|done|..]; unfold in_u32, in_u64, u32_max, u64_max; lia.
Defined.

(** ** Recovery, provisioning and organisation metadata *)

Lemma account_recovery_witness :
  ∃ words k' wrapped, to_mnemonic (mk_recovery (fill 32 x02)) = Ok words ∧ from_mnemonic words = Ok k'
    ∧ wrap_storage_key (fill 12 x01) (derive_wrapping_key (mk_recovery (fill 32 x02)) (bstr "alice")) (fill 32 x03) = Ok wrapped
    ∧ unwrap_storage_key (derive_wrapping_key k' (bstr "alice")) wrapped = Ok (fill 32 x03).
Proof.
  destruct (account_recovery (mk_recovery (fill 32 x02)) (bstr "alice") (fill 12 x01) (fill 12 x04) (fill 32 x03)
    (bstr "identity")) as (words & k' & wrapped & backup & Hw & Hf & Hs & _ & Hu & _); [done..|].
  exists words, k', wrapped. split; [exact Hw|]. split; [exact Hf|]. split; [exact Hs|exact Hu].
Defined.

Lemma toy_dh_nonzero : diffie_hellman (fill 32 x02) (x25519_public (fill 32 x03)) ≠ zero32.
Proof. apply (proj1 (bool_decide_eq_false _)). vm_compute. reflexivity. Qed.

Lemma provisioning_roundtrip_witness :
  ∃ payload, encrypt_provisioning_payload (fill 12 x01) (fill 32 x02) (x25519_public (fill 32 x03)) (bstr "key") = Ok payload
    ∧ decrypt_provisioning_payload (fill 32 x03) payload = Ok (bstr "key").
Proof.
  exact (proj1 (provisioning_roundtrip (fill 12 x01) (fill 32 x02) (fill 32 x03) (bstr "key") eq_refl) toy_dh_nonzero).
Defined.

Lemma member_reads_metadata_witness :
  ∃ wrapped name_ct,
    encrypt_metadata_key (fill 32 x02) (fill 12 x01) (fill 32 x04) (x25519_public (fill 32 x03)) = Ok wrapped
    ∧ encrypt_metadata (fill 12 x03) (fill 32 x04) (bstr "team") (bstr "org") = Ok name_ct
    ∧ (k ← decrypt_metadata_key wrapped (fill 32 x03); decrypt_metadata k name_ct (bstr "org")) = Ok (bstr "team").
Proof.
  destruct (member_reads_metadata (fill 32 x02) (fill 12 x01) (fill 12 x02) (fill 12 x03) (fill 32 x04) (fill 32 x03)
    (bstr "invite") (bstr "org") (bstr "team")) as (w & e & c & Hw & _ & Hc & Hr & _); [done|done|done|done| |].
  - exact toy_dh_nonzero.
  - exists w, c. split; [exact Hw|]. split; [exact Hc|exact Hr].
Defined.

Definition toy_escrow : bytes :=
  default [] (result_opt (encrypt_metadata_key_symmetric (fill 12 x01) (fill 32 x04) (fill 32 x05) (bstr "org"))).

Lemma envelope_versions_disjoint_witness : is_ok (decrypt_metadata_key toy_escrow (fill 32 x03)) = false.
Proof.
  destruct (envelope_versions_disjoint [] (fill 12 x01) (fill 32 x04) [] (fill 32 x05) (bstr "org") toy_escrow
    (fill 32 x03) [] []) as [_ Hs].
  apply Hs. by vm_compute.
Defined.
