(* ===== verification/ConversationWitnesses.v ===== *)
(** * Conversations, stores and loops at concrete inputs

    Continues [Witnesses]: an executable schedule of a conversation, and the theorems of
    [BraidTypes], [SpqrRetention], [Loops], [Stores] and [Conversation] applied to
    concrete values. *)

From stdpp Require Import functions.
From S2P Require Import Prelude Foundation Interfaces Padding Kdf Keys AeadRecord Erasure Kem.
From S2P Require Import BraidAuth Braid BraidTypes BraidAgreement BraidProgress Spqr SpqrKeys SpqrRetention.
From S2P Require Import SpqrAgreement PqFlow Pqxdh Skipped Ratchet Session Loops Stores MemStore.
From S2P Require Import EcChain EcRatchet EcJoint Conversation Toy ToyCodec Witnesses SessionWitnesses.

(** ** A conversation as a schedule *)

Inductive ConvAct : Type :=
| Say (p : bool) (nonce : bytes) (pt : bytes)
| Hear (p : bool) (i : nat) (new_dh : bytes).

Definition toy_id (p : bool) : IdentityPublicKey := public_key (if p then toy_alice else toy_bob).

Definition conv_roomb (c : Conversation) (p : bool) : bool :=
  bool_decide (Z.of_nat (length (cv_flight c p)) < MAX_SKIP)
  && bool_decide (sending (spqr (cv_session c p)) + 1 < u64_max)
  && match send_count (spqr (cv_session c p)) (sending (spqr (cv_session c p))) with
     | Some m => bool_decide (m < PQ_LIMIT) | None => true end
  && match sending_chain (cv_session c p) with
     | Some chain => bool_decide (message_number chain < u32_max) | None => true end.

Definition conv_exec (c : Conversation) (a : ConvAct) : option Conversation :=
  match a with
  | Say p nonce pt =>
      if conv_roomb c p && bool_decide (length nonce = NONCE_SIZE) then
        match encrypt_message toy_rng nonce pt (toy_id p) (toy_id (negb p)) (cv_session c p) with
        | (Ok out, s') =>
            Some (mk_conv (<[p := s']> (cv_session c))
                    (<[p := (out_message out, pt) :: cv_flight c p]> (cv_flight c)) (cv_publics c))
        | _ => None
        end
      else None
  | Hear p i new_dh =>
      x ← cv_flight c (negb p) !! i;
      if bool_decide (sending (spqr (cv_session c p)) + 1 < u64_max)
         && bool_decide (x25519_public new_dh ∉ cv_publics c) then
        let '(r, s') := session_decrypt new_dh x.1 (toy_id (negb p)) (toy_id p) (cv_session c p) in
        Some (mk_conv (<[p := s']> (cv_session c))
                (<[negb p := take i (cv_flight c (negb p)) ++ drop (S i) (cv_flight c (negb p))]> (cv_flight c))
                (dh_self_public s' :: cv_publics c))
      else None
  end.

Lemma conv_roomb_ok c p : conv_roomb c p = true → conv_room c p.
Proof.
  unfold conv_roomb. rewrite !andb_true_iff. intros (((Hl%bool_decide_eq_true & He%bool_decide_eq_true) & Hc) & Hm).
  split_and!; [done|split; [done|]|].
  - intros m E. rewrite E in Hc. by apply bool_decide_eq_true in Hc.
  - intros ch E. rewrite E in Hm. by apply bool_decide_eq_true in Hm.
Qed.

Lemma conv_exec_step c a c' : conv_exec c a = Some c' → conv_step toy_id c c'.
Proof.
  destruct a as [p nonce pt|p i new_dh]; cbn [conv_exec].
  - case_match eqn:Hg; [|done]. apply andb_true_iff in Hg as [Hr%conv_roomb_ok Hn%bool_decide_eq_true].
    destruct (encrypt_message _ _ _ _ _ _) as [[out|] s'] eqn:E; [|done]. intros [= <-].
    by apply (conv_send toy_id p toy_rng nonce pt out s' c).
  - intros ([m pt] & Hx & Hc)%bind_Some. case_match eqn:Hg; [|done].
    apply andb_true_iff in Hg as [Hs%bool_decide_eq_true Hf%bool_decide_eq_true].
    destruct (session_decrypt _ _ _ _ _) as [r s'] eqn:E. injection Hc as <-.
    apply (conv_deliver toy_id p m pt new_dh _ _ r s' c); [|done..]. by apply take_drop_middle in Hx.
Qed.

Fixpoint conv_run (sched : list ConvAct) (c : Conversation) : option Conversation :=
  match sched with [] => Some c | a :: sched => conv_exec c a ≫= conv_run sched end.

Lemma conv_run_steps sched : ∀ c c', conv_run sched c = Some c' → rtc (conv_step toy_id) c c'.
Proof.
  induction sched as [|a sched IH]; intros c c'; cbn [conv_run]; [by intros [= <-]|].
  intros (c1 & H1 & Hr)%bind_Some. eapply rtc_l; [by eapply conv_exec_step|by apply IH].
Qed.

(** The handshake of [toy_alice] with the bundle of [toy_bob]. *)
Definition toy_dh_a : bytes := fill 32 x23.
Definition toy_spk : bytes := fill 32 x11.
Definition toy_handshake : option (RatchetSession * bytes) :=
  out ← result_opt (process_prekey_bundle (fill 32 x21) (fill 32 x22) toy_alice toy_bundle);
  a ← result_opt (initialize_alice_with_prekey toy_dh_a (shared_secret out) (signed_pre_key_public toy_bundle) (initial_message out));
  ss ← result_opt (process_initial_message toy_bob toy_spk (Some (fill 32 x12)) (dk_from_seed_bytes (fill 64 x13)) (initial_message out));
  Some (a, ss).
Definition toy_sessions : RatchetSession * bytes := default (toy_bob_session, []) toy_handshake.

Lemma toy_sessions_eq out a ss :
  process_prekey_bundle (fill 32 x21) (fill 32 x22) toy_alice toy_bundle = Ok out →
  initialize_alice_with_prekey toy_dh_a (shared_secret out) (signed_pre_key_public toy_bundle) (initial_message out) = Ok a →
  process_initial_message toy_bob toy_spk (Some (fill 32 x12)) (dk_from_seed_bytes (fill 64 x13)) (initial_message out) = Ok ss →
  toy_sessions = (a, ss).
Proof.
  intros Hout Ha Hss. unfold toy_sessions, toy_handshake.
  rewrite Hout. cbn [result_opt mbind option_bind]. rewrite Ha. cbn [result_opt mbind option_bind]. rewrite Hss. reflexivity.
Qed.

Definition conv_of (a : RatchetSession) (ss : bytes) : Conversation :=
  mk_conv (λ p, if p then a else initialize_bob ss (toy_spk, x25519_public toy_spk)) (λ _, [])
    [x25519_public toy_dh_a; x25519_public toy_spk].
Definition toy_conv0 : Conversation := conv_of toy_sessions.1 toy_sessions.2.

(** The initiator speaks twice; the second message arrives first, and is answered. *)
Definition toy_talk : list ConvAct :=
  [Say true (fill 24 x01) (bstr "one"); Say true (fill 24 x02) (bstr "two"); Hear false 0 (fill 32 x31);
   Say false (fill 24 x03) (bstr "yes")].
Definition toy_conv : Conversation := default toy_conv0 (conv_run toy_talk toy_conv0).

Lemma toy_conv_steps : rtc (conv_step toy_id) toy_conv0 toy_conv.
Proof.
  apply (conv_run_steps toy_talk). unfold toy_conv.
  assert (bool_decide (is_Some (conv_run toy_talk toy_conv0)) = true) as [c ->]%bool_decide_eq_true; [|done].
  vm_compute. reflexivity.
Qed.

(** The first message in flight to [p], with the conditions of its delivery. *)
Definition deliverable (c : Conversation) (p : bool) (new_dh pt : bytes) : bool :=
  match cv_flight c (negb p) with
  | (m, pt') :: _ =>
      match header_deserialize (header m) with
      | Ok h => bool_decide (pt' = pt) && bool_decide (epoch (spqr (cv_session c p)) ≤ msg_epoch (braid_msg h) + 1)
          && bool_decide (sending (spqr (cv_session c p)) + 1 < u64_max) && bool_decide (x25519_public new_dh ∉ cv_publics c)
      | Err _ => false
      end
  | [] => false
  end.

Lemma deliverable_inv c p new_dh pt :
  deliverable c p new_dh pt = true →
  ∃ m h, (m, pt) ∈ cv_flight c (negb p) ∧ header_deserialize (header m) = Ok h
    ∧ epoch (spqr (cv_session c p)) ≤ msg_epoch (braid_msg h) + 1
    ∧ sending (spqr (cv_session c p)) + 1 < u64_max ∧ x25519_public new_dh ∉ cv_publics c.
Proof.
  unfold deliverable. destruct (cv_flight c (negb p)) as [|[m pt'] l]; [done|].
  destruct (header_deserialize (header m)) as [h|] eqn:E; [|done]. rewrite !andb_true_iff, !bool_decide_eq_true.
  intros (((-> & He) & Hs) & Hf). exists m, h. split_and!; [left|done..].
Qed.

(** The late first message and the answer are both in flight and both can be read. *)
Lemma toy_deliverable :
  deliverable toy_conv false (fill 32 x32) (bstr "one") = true ∧ deliverable toy_conv true (fill 32 x33) (bstr "yes") = true.
Proof. split; vm_compute; reflexivity. Qed.

Lemma handshake_conversation_witness :
  ∃ m, (m, bstr "one") ∈ cv_flight toy_conv true
    ∧ (session_decrypt (fill 32 x32) m (toy_id true) (toy_id false) (cv_session toy_conv false)).1 = Ok (bstr "one").
Proof.
  destruct (handshake_conversation toy_alice toy_bob toy_spk (Some (7, fill 32 x12)) (fill 64 x13)
    (fill 32 x21) (fill 32 x22) toy_dh_a 1 1 2 3 false toy_braid_recovers) as (out & a & ss & Hout & Ha & Hss & _ & Hall);
    [by vm_compute|].
  pose proof (toy_sessions_eq out a ss Hout Ha Hss) as Hs.
  pose proof toy_conv_steps as Hsteps. unfold toy_conv0 in Hsteps. rewrite Hs in Hsteps.
  destruct (deliverable_inv _ _ _ _ (proj1 toy_deliverable)) as (m & h & Hin & Hh & He & Hn & Hf).
  exists m. split; [exact Hin|]. exact (Hall toy_conv false m _ _ h Hsteps Hin Hh He Hn Hf).
Defined.

(** The sessions agree on a secret, so the conversation is reachable in the sense of
    [conv_reachable]. *)
Lemma toy_conv_start : conv_start toy_sessions.2 toy_dh_a toy_spk (pending_prekey toy_sessions.1) toy_conv0.
Proof.
  destruct (pqxdh_agrees toy_responder toy_alice (fill 32 x21) (fill 32 x22) 1 1 2 3 false) as (out & Hout & Hss & _).
  destruct (initialize_alice toy_dh_a (shared_secret out) (x25519_public toy_spk)) as [a|] eqn:Ha; [|discriminate Ha].
  assert (toy_sessions = (set_pending_prekey (Some (initial_message out)) a, shared_secret out)) as Hs.
  { apply (toy_sessions_eq out); [exact Hout| |exact Hss].
    unfold initialize_alice_with_prekey. change (signed_pre_key_public toy_bundle) with (x25519_public toy_spk).
    rewrite Ha. reflexivity. }
  exists a. unfold toy_conv0. rewrite Hs. split; [exact Ha|]. reflexivity.
Qed.

Lemma conversation_sendable_witness :
  is_ok (encrypt_message toy_rng (fill 24 x04) (bstr "again") (toy_id false) (toy_id true) (cv_session toy_conv false)).1 = true.
Proof.
  apply (conversation_sendable toy_id toy_braid_recovers toy_sessions.2 toy_dh_a toy_spk (pending_prekey toy_sessions.1) toy_conv false);
    [by vm_compute| | | |done].
  - exists toy_conv0. split; [exact toy_conv_start|exact toy_conv_steps].
  - apply (bool_decide_unpack _). vm_compute. exact I.
  - apply conv_roomb_ok. vm_compute. reflexivity.
Defined.

(** ** One party *)

Lemma braid_well_typed_witness :
  state_ok (state (braid_calls toy_ops (init_sender toy_secret)).2)
  ∧ sent_ok (ss_msg (default (mk_scka_send (idle 0) 0 None)
      (result_opt (braid_send toy_rng (braid_calls toy_ops (init_sender toy_secret)).2).1))).
Proof.
  pose proof (braid_well_typed toy_secret true toy_ops) as Hw.
  assert (Forall op_ok toy_ops) as Hops.
  { repeat constructor; simpl; try done; unfold in_u64, u64_max; simpl; lia. }
  specialize (Hw Hops). destruct (braid_calls toy_ops _) as [ks b] eqn:E. simpl.
  destruct Hw as (Hs & _ & Hsend & _). split; [exact Hs|]. specialize (Hsend toy_rng).
  assert (is_ok (braid_send toy_rng (braid_calls toy_ops (init_sender toy_secret)).2).1 = true) as Hok
    by (vm_compute; reflexivity).
  rewrite E in Hok. cbn [snd] in Hok. destruct (braid_send toy_rng b).1 as [out|e]; [exact Hsend|discriminate Hok].
Defined.

(** The calls of party [q] in a schedule of two ratchets. *)
Fixpoint ops_of (q : bool) (sched : list Act) (sys : RatchetPair) : list SpqrOp :=
  match sched with
  | [] => []
  | a :: sched =>
      match a with
      | Snd p => if bool_decide (p = q) then [SpSend toy_rng] else []
      | Dlv p i => if bool_decide (p = q) then (λ m, SpReceive m 1) <$> option_list (rp_wire sys (negb p) !! i) else []
      end ++ match pair_exec sys a with Some sys' => ops_of q sched sys' | None => [] end
  end.

Lemma ops_of_in_range q sched : ∀ sys, Forall op_in_range (ops_of q sched sys).
Proof.
  induction sched as [|a sched IH]; intros sys; [constructor|]. cbn [ops_of]. apply Forall_app. split.
  - destruct a as [p|p i]; case_bool_decide; try constructor; [done|constructor|].
    destruct (rp_wire sys (negb p) !! i); simpl; constructor; [unfold op_in_range, in_u32, u32_max; lia|constructor].
  - destruct (pair_exec sys a); [apply IH|constructor].
Qed.

(** Four epochs, the roles changing from each to the next. *)
Definition other_role (a : Act) : Act := match a with Snd p => Snd (negb p) | Dlv p i => Dlv (negb p) i end.
Definition two_epochs : list Act :=
  epoch_schedule ++ [Snd true; Dlv false 0] ++ (other_role <$> epoch_schedule) ++ [Snd false; Dlv true 0].
Definition toy_spqr_ops : list SpqrOp := ops_of false (two_epochs ++ two_epochs) (pair_init toy_secret).

(** In epoch 4 the receiver still has the chain of epoch 1. *)
Lemma stale_epochs_retained_witness :
  let st := (spqr_calls toy_spqr_ops (spqr_init toy_secret B2A)).2 in
  epoch st = 4 ∧ ∃ c ch, kdfchains st !! 1 = Some c ∧ recv c = Some ch.
Proof.
  assert (epoch (spqr_calls toy_spqr_ops (spqr_init toy_secret B2A)).2 = 4) as He by (vm_compute; reflexivity).
  destruct (stale_epochs_retained toy_secret B2A toy_spqr_ops) as [Hret _].
  - apply ops_of_in_range.
  - vm_compute. reflexivity.
  - rewrite He in Hret. split; [exact He|]. apply Hret; [lia|left; reflexivity].
Defined.

(** The session of [toy_receiving] asked to skip three messages. *)
Lemma toy_receiving_wf : session_wf toy_receiving.
Proof.
  split; try done.
  - intros c [= <-]. split; [|by eexists]. split; [by vm_compute|unfold in_u32, u32_max; by vm_compute].
Qed.

Lemma skip_loops_terminate_witness :
  ∃ c' store, while_loop (ec_guard 5) (ec_body toy_peer) 3 (ec_chain toy_ck 2, ∅) (c', store)
    ∧ message_number c' = 5
    ∧ skip_receiving_messages 5 toy_receiving = (Ok (), set_receiving (Some c') store toy_receiving).
Proof.
  destruct (skip_loops_terminate toy_receiving (new_receiver toy_secret) 0 5) as [Hec _].
  - exact toy_receiving_wf.
  - unfold in_u32, u32_max. lia.
  - intros c Hc. vm_compute in Hc. injection Hc as <-. unfold in_u32, u32_max. simpl. lia.
  - exact (Hec (ec_chain toy_ck 2) eq_refl).
Defined.

(** ** A session that is reloaded *)

Definition toy_address : ProtocolAddress := mk_address (fill 16 x01) 1.
Definition toy_calls : list (bool * SessionOp) :=
  [(true, OpDecrypt (fill 32 x31) toy_forged (public_key toy_alice) (public_key toy_bob));
   (false, OpEncrypt toy_rng (fill 24 x01) [] (public_key toy_bob) (public_key toy_alice));
   (true, OpEncrypt toy_rng (fill 24 x02) [x01] (public_key toy_bob) (public_key toy_alice))].

Lemma session_reload_transparent_witness :
  (Stores.run_all Stores.reloaded_run toy_calls toy_bob_session).1
  = (Stores.run_all Stores.session_run toy_calls.*2 toy_bob_session).1.
Proof.
  assert (session_wf toy_bob_session) as Hwf by (apply initialize_bob_wf; by vm_compute).
  exact (proj1 (Stores.session_reload_transparent toy_bob_session toy_calls Hwf)).
Defined.
