(* ===== verification/DeliveryWitnesses.v ===== *)
(** * Exactly-once delivery at concrete inputs

    An executable schedule of a network with losses, duplicates and junk between the
    sessions of [ConversationWitnesses], in memory; and the same handshake with both
    sessions in finite maps. *)

From stdpp Require Import functions.
From S2P Require Import Prelude Foundation Interfaces Padding Kdf Keys AeadRecord Erasure Kem.
From S2P Require Import BraidAuth Braid BraidAgreement BraidProgress Spqr SpqrKeys SpqrAgreement PqFlow Pqxdh Skipped.
From S2P Require Import Ratchet Session Stores MemStore EcChain EcRatchet EcJoint Replay Ledger Conversation Endpoint Delivery.
From S2P Require Import Toy ToyCodec Witnesses SessionWitnesses ConversationWitnesses.

#[local] Instance ratchet_message_eq_dec : EqDecision RatchetMessage.
Proof. solve_decision. Defined.

(** ** A network as a schedule *)

(** Send; receive the [i]-th message the peer ever sent; receive junk. *)
Inductive NetAct : Type :=
| NetSay (p : bool) (nonce pt : bytes)
| NetHear (p : bool) (i : nat) (new_dh : bytes)
| NetJunk (p : bool) (m : RatchetMessage) (new_dh : bytes).

Definition net_take (p : bool) (m : RatchetMessage) (new_dh : bytes) (n : Network (E := RatchetSession)) : option Network :=
  if bool_decide (calls n p < PQ_LIMIT) && bool_decide (x25519_public new_dh ∉ nt_drawn n) then
    let '(r, e) := ep_receive new_dh m (toy_id (negb p)) (toy_id p) (nt_end n p) in
    if bool_decide (m ∈ (nt_sent n (negb p)).*1) || negb (is_ok r) then
      Some (mk_net (<[p := e]> (nt_end n)) (nt_sent n)
              (match r with Ok pt => <[p := (m, pt) :: nt_read n p]> (nt_read n) | Err _ => nt_read n end)
              (x25519_public new_dh :: nt_drawn n))
    else None
  else None.

Definition net_exec (n : Network (E := RatchetSession)) (a : NetAct) : option Network :=
  match a with
  | NetSay p nonce pt =>
      if bool_decide (net_room n p) && bool_decide (length nonce = NONCE_SIZE) then
        match ep_send toy_rng nonce pt (toy_id p) (toy_id (negb p)) (nt_end n p) with
        | (Ok out, e) =>
            Some (mk_net (<[p := e]> (nt_end n)) (<[p := (out_message out, pt) :: nt_sent n p]> (nt_sent n))
                    (nt_read n) (nt_drawn n))
        | _ => None
        end
      else None
  | NetHear p i new_dh => x ← nt_sent n (negb p) !! i; net_take p x.1 new_dh n
  | NetJunk p m new_dh => net_take p m new_dh n
  end.

Lemma net_take_step p m new_dh n n' : net_take p m new_dh n = Some n' → net_step toy_id n n'.
Proof.
  unfold net_take. case_match eqn:Hg; [|done]. apply andb_true_iff in Hg as [Hc%bool_decide_eq_true Hf%bool_decide_eq_true].
  destruct (ep_receive _ _ _ _ _) as [r e] eqn:E. case_match eqn:Hs; [|done]. intros Hn. apply (inj Some) in Hn as <-.
  apply (net_receive toy_id p new_dh m r e n); [done..|].
  apply orb_true_iff in Hs as [Hs%bool_decide_eq_true|Hs%negb_true_iff]; auto.
Qed.

Lemma net_exec_step n a n' : net_exec n a = Some n' → net_step toy_id n n'.
Proof.
  destruct a as [p nonce pt|p i new_dh|p m new_dh]; cbn [net_exec].
  - case_match eqn:Hg; [|done]. apply andb_true_iff in Hg as [Hr%bool_decide_eq_true Hn%bool_decide_eq_true].
    destruct (ep_send _ _ _ _ _ _) as [[out|] e] eqn:E; [|done]. intros [= <-].
    by apply (net_send toy_id p toy_rng nonce pt out e n).
  - intros (x & _ & Ht)%bind_Some. by eapply net_take_step.
  - apply net_take_step.
Qed.

Fixpoint net_run (sched : list NetAct) (n : Network) : option Network :=
  match sched with [] => Some n | a :: sched => net_exec n a ≫= net_run sched end.

Lemma net_run_steps sched : ∀ n n', net_run sched n = Some n' → rtc (net_step toy_id) n n'.
Proof.
  induction sched as [|a sched IH]; intros n n'; cbn [net_run]; [by intros [= <-]|].
  intros (n1 & Hn1 & Hr)%bind_Some. eapply rtc_l; [by eapply net_exec_step|by apply IH].
Qed.

Definition toy_ends (p : bool) : RatchetSession :=
  if p then toy_sessions.1 else initialize_bob toy_sessions.2 (toy_spk, x25519_public toy_spk).
Definition toy_net0 : Network :=
  mk_net toy_ends (λ _, []) (λ _, []) [x25519_public toy_dh_a; x25519_public toy_spk].

(** Two messages; the second arrives twice, then junk, then an answer. *)
Definition toy_mail : list NetAct :=
  [NetSay true (fill 24 x01) (bstr "one"); NetSay true (fill 24 x02) (bstr "two"); NetHear false 0 (fill 32 x31);
   NetHear false 0 (fill 32 x32); NetJunk false (mk_ratchet_message (fill 4 x00) []) (fill 32 x33);
   NetSay false (fill 24 x03) (bstr "yes")].
Definition toy_net_run : option Network := net_run toy_mail toy_net0.
Definition toy_net : Network := default toy_net0 toy_net_run.

(** The messages to [p] that it has not read. *)
Definition unread_of (n : Network (E := RatchetSession)) (p : bool) : list (RatchetMessage * bytes) :=
  filter (λ x, x ∉ nt_read n p) (nt_sent n (negb p)).

Lemma unread_of_in n p l x : nt_sent n (negb p) ≡ₚ nt_read n p ++ l → x ∈ unread_of n p → x ∈ l.
Proof.
  intros Hp [Hr Hx]%list_elem_of_filter. rewrite Hp in Hx. by apply elem_of_app in Hx as [?|?].
Qed.

Definition toy_none : RatchetMessage := mk_ratchet_message [] [].
Definition toy_late : RatchetMessage := (hd (toy_none, []) (unread_of toy_net false)).1.
Definition toy_twice : RatchetMessage := (hd (toy_none, []) (nt_read toy_net false)).1.

Definition in_windowb (n : Network) (p : bool) (m : RatchetMessage) : bool :=
  match header_deserialize (header m) with
  | Ok h => bool_decide (epoch (spqr (nt_end n p)) ≤ msg_epoch (braid_msg h) + 1)
  | Err _ => false
  end.
Lemma in_windowb_ok n p m : in_windowb n p m = true → in_window n p m.
Proof.
  unfold in_windowb. destruct (header_deserialize (header m)) as [h|] eqn:Hh; [|done].
  intros He%bool_decide_eq_true. by exists (nt_end n p), h.
Qed.

Definition heads (l : list (RatchetMessage * bytes)) (pt : bytes) : bool :=
  match l with x :: _ => bool_decide (x.2 = pt) | [] => false end.
Lemma heads_in l pt d : heads l pt = true → ((hd d l).1, pt) ∈ l.
Proof. destruct l as [|[m pt'] l]; [done|]. intros Hpt%bool_decide_eq_true. simpl in Hpt. subst. by left. Qed.

Definition counted (m : RatchetMessage) : bool :=
  match header_deserialize (header m) with
  | Ok h => bool_decide (in_u32 (pq_message_number h))
  | Err _ => true
  end.
Lemma counted_ok new_dh m a b : counted m = true → op_counted (OpDecrypt new_dh m a b).
Proof. unfold counted. intros Hc h Hh. rewrite Hh in Hc. by apply bool_decide_eq_true in Hc. Qed.

(** The responder's session is given the second message twice and then the first. *)
Definition toy_replays : list SessionOp :=
  [OpDecrypt (fill 32 x31) toy_twice (toy_id true) (toy_id false);
   OpDecrypt (fill 32 x32) toy_twice (toy_id true) (toy_id false);
   OpDecrypt (fill 32 x33) toy_late (toy_id true) (toy_id false)].

(** What the run shows, evaluated once. *)
Definition toy_mail_facts : list bool :=
  [bool_decide (is_Some toy_net_run);
   heads (unread_of toy_net false) (bstr "one");
   heads (nt_read toy_net false) (bstr "two");
   calls toy_net false <? PQ_LIMIT;
   bool_decide (x25519_public (fill 32 x34) ∉ nt_drawn toy_net);
   in_windowb toy_net false toy_late;
   counted toy_late;
   counted toy_twice;
   negb (bool_decide (session_reads toy_replays (toy_ends false) = []))].

Lemma toy_mail_evaluated : forallb id toy_mail_facts = true.
Proof. vm_compute. reflexivity. Qed.

Lemma toy_mail_fact i b : toy_mail_facts !! i = Some b → b = true.
Proof.
  intros Hb%list_elem_of_lookup_2%list_elem_of_In. exact (proj1 (forallb_forall _ _) toy_mail_evaluated b Hb).
Qed.

Lemma toy_net_steps : rtc (net_step toy_id) toy_net0 toy_net.
Proof.
  apply (net_run_steps toy_mail). fold toy_net_run. unfold toy_net.
  assert (bool_decide (is_Some toy_net_run) = true) as [n ->]%bool_decide_eq_true; [exact (toy_mail_fact 0 _ eq_refl)|done].
Qed.

(** ** The sessions in stores *)

Import MemStore.MemStore.

Definition toy_end (s : RatchetSession) : StoredEnd (S := gmap ProtocolAddress Stores.SessionRecord) :=
  mk_stored_end toy_address
    {[toy_address := Stores.mk_session_record (default [] (result_opt (session_serialize s))) []]}.

Lemma mem_stored_endpoint_ok : EndpointOk (StoredEnd (S := gmap ProtocolAddress Stores.SessionRecord)).
Proof. apply stored_endpoint_ok. reflexivity. Qed.

Lemma toy_end_view s : session_wf s → ep_view (toy_end s) s.
Proof.
  intros Hwf. split; [exact Hwf|]. eexists. split; [exact (f_equal Ok (lookup_singleton_eq _ _))|].
  destruct (session_reloads s Hwf) as (bs & Hbs & Hd). cbn [Stores.sr_data]. rewrite Hbs. split; [exact Hd|reflexivity].
Qed.

Lemma alice_with_prekey_wf dh ss peer initial a :
  initialize_alice_with_prekey dh ss peer initial = Ok a → session_wf a.
Proof.
  intros (s & Hs%initialize_alice_wf & Ha)%result_bind_Ok. injection Ha as <-. by destruct Hs; split.
Qed.

Lemma exactly_once_delivery_witness :
  ((ep_receive (fill 32 x34) toy_late (toy_id true) (toy_id false) (nt_end toy_net false)).1 = Ok (bstr "one")
   ∧ is_ok (ep_receive (fill 32 x34) toy_twice (toy_id true) (toy_id false) (nt_end toy_net false)).1 = false)
  ∧ is_ok (ep_send toy_rng (fill 24 x01) (bstr "one") (toy_id true) (toy_id false) (toy_end toy_sessions.1)).1 = true.
Proof.
  split.
  { destruct (exactly_once_delivery (E := RatchetSession) toy_alice toy_bob toy_spk (Some (7, fill 32 x12)) (fill 64 x13)
      (fill 32 x21) (fill 32 x22) toy_dh_a 1 1 2 3 false toy_braid_recovers) as (out & a & ss & Hout & Ha & Hss & Hall);
      [by vm_compute|].
    pose proof (toy_sessions_eq out a ss Hout Ha Hss) as Hs.
    destruct (Hall toy_ends toy_net false) as (unread & Hperm & Hrcv & _);
      [unfold toy_ends; rewrite Hs; reflexivity|unfold toy_ends; rewrite Hs; reflexivity|exact toy_net_steps|].
    destruct (Hrcv (proj1 (Z.ltb_lt _ _) (toy_mail_fact 3 _ eq_refl)) (fill 32 x34)) as [Hlate Htwice];
      [exact (bool_decide_eq_true_1 _ (toy_mail_fact 4 _ eq_refl))|].
    split; [|exact (Htwice _ _ (heads_in _ _ _ (toy_mail_fact 2 _ eq_refl)))].
    apply Hlate; [exact (unread_of_in _ _ _ _ Hperm (heads_in _ _ _ (toy_mail_fact 1 _ eq_refl)))|].
    exact (in_windowb_ok _ _ _ (toy_mail_fact 5 _ eq_refl)). }
  destruct (exactly_once_delivery (E := StoredEnd (S := gmap ProtocolAddress Stores.SessionRecord)) (EndpointOk0 := mem_stored_endpoint_ok)
    toy_alice toy_bob toy_spk (Some (7, fill 32 x12)) (fill 64 x13)
    (fill 32 x21) (fill 32 x22) toy_dh_a 1 1 2 3 false toy_braid_recovers) as (out & a & ss & Hout & Ha & Hss & Hall);
    [by vm_compute|].
  pose proof (toy_sessions_eq out a ss Hout Ha Hss) as Hs. rewrite Hs.
  destruct (Hall (λ p, toy_end (if p then a else initialize_bob ss (toy_spk, x25519_public toy_spk)))
    (mk_net (λ p, toy_end (if p then a else initialize_bob ss (toy_spk, x25519_public toy_spk))) (λ _, []) (λ _, [])
      [x25519_public toy_dh_a; x25519_public toy_spk]) true) as (_ & _ & _ & Hsend).
  - apply toy_end_view. exact (alice_with_prekey_wf _ _ _ _ _ Ha).
  - apply toy_end_view, initialize_bob_wf.
    assert (wf_key toy_sessions.2) as Hk by (vm_compute; reflexivity). by rewrite Hs in Hk.
  - apply rtc_refl.
  - apply Hsend; [split; reflexivity|by left|reflexivity].
Defined.

(** ** A replay on one session *)

Lemma session_decrypt_once_witness :
  NoDup (session_reads toy_replays (toy_ends false)) ∧ session_reads toy_replays (toy_ends false) ≠ [].
Proof.
  split; [|exact (bool_decide_eq_false_1 _ (proj1 (negb_true_iff _) (toy_mail_fact 8 _ eq_refl)))].
  apply (session_decrypt_once toy_dh_a toy_sessions.2 (x25519_public toy_spk) toy_spk).
  - right. reflexivity.
  - pose proof (toy_mail_fact 6 _ eq_refl) as Hlate. pose proof (toy_mail_fact 7 _ eq_refl) as Htwice.
    apply Forall_cons_2; [exact (counted_ok _ _ _ _ Htwice)|]. apply Forall_cons_2; [exact (counted_ok _ _ _ _ Htwice)|].
    apply Forall_cons_2; [exact (counted_ok _ _ _ _ Hlate)|constructor].
  - reflexivity.
Defined.
