(* ===== verification/WedgeWitnesses.v ===== *)
(** * The adversarial theorems on the post-quantum ratchet at concrete inputs

    The wedge needs an object of two systematic codewords: an incremental KEM whose
    header commits to the 64-byte vector by repeating it. *)

From stdpp Require Import functions.
From S2P Require Import Prelude Foundation Interfaces Padding Kdf Keys AeadRecord Erasure Kem.
From S2P Require Import BraidAuth Braid BraidTypes Spqr Pqxdh Skipped Ratchet Session EcChain BraidWedge.
From S2P Require Import BraidAgreement SpqrKeys SpqrGrowth SpqrAgreement BraidDeadlock.
From S2P Require Import Toy ToyCodec Witnesses SessionWitnesses.

(** Three messages make a fresh party store six thousand keys. *)
Lemma pq_skipped_growth_witness :
  3 * MAX_SKIP ≤ Z.of_nat (size (store_of (spqr_calls (flood 3) (spqr_init toy_secret B2A)).2 0)).
Proof.
  apply (pq_skipped_growth toy_secret B2A [SpReceive toy_braid_msg 2] toy_braid_msg 1 3);
    [|by vm_compute|by vm_compute]. repeat constructor; simpl; unfold u32_max; lia.
Defined.

(** The encapsulator has just sampled the ciphertext of epoch 1. *)
Definition toy_ct2_schedule : list Act := take 8 epoch_schedule.
Definition toy_ct2_pair : RatchetPair := default (pair_init toy_secret) (pair_run toy_ct2_schedule (pair_init toy_secret)).

Lemma toy_ct2_reachable : pair_reachable toy_secret toy_ct2_pair.
Proof.
  apply (pair_run_steps toy_ct2_schedule). unfold toy_ct2_pair.
  assert (bool_decide (is_Some (pair_run toy_ct2_schedule (pair_init toy_secret))) = true) as Hs by (vm_compute; reflexivity).
  apply bool_decide_eq_true in Hs as [sys ->]. reflexivity.
Qed.

Definition ct2_parts (s : State) : option (Authenticator * Encoder) :=
  match s with Ct2Sampled 1 auth enc => Some (auth, enc) | _ => None end.
Lemma ct2_parts_inv s : bool_decide (is_Some (ct2_parts s)) = true → ∃ auth enc, s = Ct2Sampled 1 auth enc.
Proof.
  intros [[auth enc] Hs]%bool_decide_eq_true. exists auth, enc. destruct s; try done. simpl in Hs.
  destruct epoch as [|[]|]; simplify_eq. done.
Qed.

(** A forged idle message of epoch 2, then sends of both parties. *)
Definition toy_deadlocked : RatchetPair :=
  mk_pair (<[false := (ratchet_receive_key (idle 2) 1 (rp_state toy_ct2_pair false)).2]> (rp_state toy_ct2_pair))
    (rp_wire toy_ct2_pair) (rp_keys toy_ct2_pair).
Definition toy_deadlock_schedule : list Act := [Snd false; Dlv true 0; Snd true; Dlv false 0].
Definition toy_after : RatchetPair := default toy_deadlocked (pair_run toy_deadlock_schedule toy_deadlocked).

Lemma forged_epoch_deadlocks_witness :
  epoch (rp_state toy_after false) = 1 ∧ epoch (rp_state toy_after true) = 0.
Proof.
  destruct (ct2_parts_inv (state (braid (rp_state toy_ct2_pair false)))) as (auth & enc & Hst); [vm_compute; reflexivity|].
  destruct (forged_epoch_deadlocks toy_secret false 1 ∅ ltac:(apply Nat.ltb_lt; vm_compute; reflexivity) toy_ct2_pair auth enc (idle 2) 1) with (sys' := toy_after)
    as (He & Hp & _).
  - exact toy_ct2_reachable.
  - reflexivity.
  - exact Hst.
  - vm_compute. reflexivity.
  - intros m' Hm. assert (forallb (λ m, negb (is_msg m 1 Ct2)) (rp_wire toy_ct2_pair false) = true) as Hf by (vm_compute; reflexivity).
    rewrite forallb_forall in Hf. apply list_elem_of_In, Hf in Hm. apply negb_true_iff in Hm. intros Hty.
    rewrite Hm in Hty. discriminate Hty.
  - reflexivity.
  - vm_compute. split; congruence.
  - apply (pair_run_steps toy_deadlock_schedule). unfold toy_after.
    assert (bool_decide (is_Some (pair_run toy_deadlock_schedule toy_deadlocked)) = true) as Hs by (vm_compute; reflexivity).
    apply bool_decide_eq_true in Hs as [sys E]. unfold toy_deadlocked in E |- *. rewrite E. reflexivity.
  - split; [exact He|exact Hp].
Defined.

Definition wide_key (kp : bytes) : bytes := sha256 kp ++ sha256 kp.

#[local] Instance wide_kem : IncKem := {|
  inc_pk1_len := 64;
  inc_pk2_len := 64;
  inc_ct1_len := 32;
  inc_ct2_len := 0;
  inc_key_pair_len := 32;
  inc_encaps_state_len := 32;
  inc_seed_len := 64;
  inc_from_seed := sha256;
  inc_pk1 := wide_key;
  inc_pk2 := wide_key;
  inc_validate_pk a b := if bool_decide (b = a) then Ok () else Err "inconsistent public key";
  inc_encapsulate1 _ r := Ok (sha256 r, sha256 r, sha256 (sha256 r));
  inc_encapsulate2 _ _ := [];
  inc_decapsulate _ ct1 _ := Ok (sha256 ct1);
|}.

Lemma wide_key_length kp : length (wide_key kp) = 64%nat.
Proof. unfold wide_key. rewrite length_app. unfold sha256, toy_hashes. by rewrite !length_be_bytes. Qed.

#[local] Instance wide_kem_ok : IncKemOk.
Proof.
  split; try done; try (intros; exact (length_be_bytes 32 _)); try (intros; exact (wide_key_length _)).
  - intros pk1 r ct1 st ss [= <- <- <-]. split_and!; exact (length_be_bytes 32 _).
  - intros s. cbn [inc_validate_pk inc_pk1 inc_pk2 wide_kem]. rewrite bool_decide_eq_true_2; reflexivity.
  - by intros s r ct1 st ss [= <- <- <-].
Qed.

(** The responder of [toy_receiving], with the header of an epoch received and [ct1] sampled. *)
Definition wide_ek : bytes := wide_key (fill 32 x61).
Definition wide_encoder : Encoder := default (mk_encoder [] 0) (result_opt (encoder_new (fill 32 x62))).
Definition wide_state : State :=
  Ct1Sampled 1 (auth_init 1 toy_secret) wide_ek (fill 32 x63) (fill 32 x62) wide_encoder (decoder_new 64).
Definition wide_session : RatchetSession :=
  set_spqr (set_braid (mk_braid wide_state) (spqr toy_receiving)) toy_receiving.

Lemma wide_state_ok : state_ok wide_state.
Proof.
  assert (encoder_new (fill 32 x62) = Ok wide_encoder) as He by (vm_compute; reflexivity).
  unfold state_ok, wide_state. split; [apply auth_update_wf|]. split; [exact (wide_key_length _)|].
  split; [reflexivity|]. split; [reflexivity|]. split; [|apply decoder_new_ok].
  refine (encoder_new_ok (fill 32 x62) wide_encoder _ He). unfold fits. simpl. lia.
Qed.

(** Garbage for codeword 0, then the genuine codeword 1. *)
Definition garbage : MessageHeader := mk_header toy_peer 0 2 (carrying 1 Ek (mk_chunk 0 (fill 32 xff))) 1.
Definition genuine : MessageHeader :=
  mk_header toy_peer 0 3 (carrying 1 EkCt1Ack (mk_chunk 1 (block 1 wide_ek))) 2.
Definition wide_ops : list SessionOp :=
  [OpEncrypt toy_rng (fill 24 x01) [] (public_key toy_bob) (public_key toy_alice)].
Definition wide_after : RatchetSession :=
  foldl session_call wide_session
    (OpDecrypt (fill 32 x31) (mk_ratchet_message (header_serialize garbage) []) (public_key toy_alice) (public_key toy_bob)
      :: wide_ops).

Lemma msg_ok_carrying e t c : in_u64 e → in_u16 (chunk_index c) → msg_ok (carrying e t c).
Proof. intros. split; [done|]. by intros ? [= <-]. Qed.

Lemma genuine_completes : completes wide_ek 1 (state (braid (spqr wide_after))) (braid_msg genuine).
Proof.
  split; [done|]. split; [vm_compute; reflexivity|].
  exists (default (decoder_new 64) (collecting wide_ek 1 (state (braid (spqr wide_after))))), (mk_chunk 1 (block 1 wide_ek)).
  split_and!; [vm_compute; reflexivity|done| | |vm_compute; lia].
  - split; [vm_compute; split; congruence|vm_compute; reflexivity].
  - vm_compute. reflexivity.
Qed.

Lemma forged_codeword_wedges_session_witness :
  state_epoch (state (braid (spqr wide_after))) = 1
  ∧ is_ok (session_decrypt (fill 32 x32) (mk_ratchet_message (header_serialize genuine) [])
             (public_key toy_alice) (public_key toy_bob) wide_after).1 = false.
Proof.
  destruct (forged_codeword_wedges_session wide_ek wide_ek 1 0 (fill 32 xff) (auth_init 1 toy_secret) (fill 32 x63)
    (fill 32 x62) wide_encoder (decoder_new 64) wide_session (fill 32 x31) garbage []
    (public_key toy_alice) (public_key toy_bob) wide_ops) as (He & _ & Hr).
  - reflexivity.
  - exact wide_state_ok.
  - intros v. simpl. case_bool_decide; [done|discriminate].
  - exact (wide_key_length _).
  - reflexivity.
  - apply msg_ok_carrying; vm_compute; split; congruence.
  - vm_compute. reflexivity.
  - vm_compute. split; congruence.
  - reflexivity.
  - vm_compute. lia.
  - reflexivity.
  - vm_compute. congruence.
  - by repeat constructor.
  - split; [exact He|]. apply (Hr _ _ genuine); [exact (header_roundtrip genuine)| |exact genuine_completes].
    apply msg_ok_carrying; vm_compute; split; congruence.
Defined.
